(** * RAMCloud ServiceManager: dispatch core

    A shallow embedding of [src/ServiceManager.cc]: the service registry
    ([addService]), admission and queueing ([handleRpc]), the dispatch
    poller ([poll]), the handoff protocol ([Worker::handoff]) and worker
    shutdown ([Worker::exit]).

    The code of the dispatch thread is written in a small state-and-error
    monad over the [ServiceManager] object.  Pointers to [Worker] objects
    are indices into a store of workers; a [Transport::ServerRpc*] is the
    null pointer, the [WORKER_EXIT] sentinel, or a reference to a request.
    Every effect that leaves the dispatcher's private memory (fences,
    stores to the cells shared with a worker thread, system calls, calls
    into the transport) is appended to a log in program order.

    Integers: [requestsRunning], [maxThreads], [serviceCount] and
    [busyIndex] are C [int]s and are kept as [Z].  The source increments
    [requestsRunning] only below [maxThreads], [serviceCount] at most once
    per table slot and takes [busyIndex] from the size of a vector of live
    threads, so no operation leaves the range of [int]; [downCast<int>] is
    the identity on these values. *)

From Stdlib Require Import ZArith Strings.Byte.
From stdpp Require Import base numbers option list.

(** ** Data model *)

(** Status codes written into error replies (Status.h is missing; only
    the two codes the dispatcher uses are listed). *)
Inductive Status : Type :=
| STATUS_MESSAGE_TOO_SHORT
| STATUS_SERVICE_NOT_AVAILABLE.

(** Modelled from the spec: the common request header [RpcRequestCommon]
    (Rpc.h is missing).  "service: uint16, opcode: uint16", the first
    bytes of every request payload, little endian as on the target. *)
Record RpcRequestCommon : Type := {
  service : nat;
  opcode : nat
}.

Definition sizeof_RpcRequestCommon : nat := 4.

Definition uint16_le (lo hi : byte) : nat :=
  Byte.to_nat lo + 256 * Byte.to_nat hi.

(** Modelled from the spec: [Buffer::getStart<RpcRequestCommon>()]
    (Buffer.h is missing): a view of the first bytes of the payload, or
    NULL "if the payload is shorter than the header length". *)
Definition getStart (payload : list byte) : option RpcRequestCommon :=
  match payload with
  | b0 :: b1 :: b2 :: b3 :: _ =>
      Some {| service := uint16_le b0 b1; opcode := uint16_le b2 b3 |}
  | _ => None
  end.

(** A [Transport::ServerRpc] as the dispatcher sees it: the identity of
    the object, whether its epoch is set, and the request payload (which
    nobody writes while the request is being handled). *)
Record ServerRpc : Type := {
  rpcId : nat;
  epochIsSet : bool;
  requestPayload : list byte
}.

(** Values of type [Transport::ServerRpc*].  [WORKER_EXIT] is
    [reinterpret_cast<Transport::ServerRpc*>(1)]. *)
Inductive RpcPtr : Type :=
| NULL
| WORKER_EXIT
| Ptr (r : ServerRpc).

(** [enum { POLLING, WORKING, POSTPROCESSING, SLEEPING }] of [Worker]. *)
Inductive WorkerState : Type :=
| POLLING
| WORKING
| POSTPROCESSING
| SLEEPING.

#[global] Instance WorkerState_eq_dec : EqDecision WorkerState.
Proof. solve_decision. Defined.

(** A registered [Service] object: the dispatcher only needs to tell
    handlers apart and to know the concurrency the service asks for. *)
Record Service : Type := {
  serviceName : nat;
  serviceMaxThreads : Z
}.

(** [ServiceManager::ServiceInfo]. *)
Record ServiceInfo : Type := {
  serviceRef : Service;
  maxThreads : Z;
  waitingRpcs : list RpcPtr;
  requestsRunning : Z
}.

(** Modelled from the spec: the constructor of [ServiceInfo]
    (ServiceManager.h is missing): "a reference to the handler, a
    maxThreads concurrency cap, a requestsRunning counter, and a FIFO
    queue of waiting requests", counter zero and queue empty. *)
Definition ServiceInfo_new (svc : Service) : ServiceInfo :=
  {| serviceRef := svc;
     maxThreads := serviceMaxThreads svc;
     waitingRpcs := [];
     requestsRunning := 0 |}.

(** [ServiceManager::Worker]; [serviceInfo] points into the [services]
    table and is kept as the index of the slot. *)
Record Worker : Type := {
  serviceInfo : option nat;
  rpc : RpcPtr;
  busyIndex : Z;
  state : WorkerState;
  exited : bool
}.

(** Modelled from the spec: the constructor of [Worker]
    (ServiceManager.h is missing): no request, no service, "busyIndex
    (-1 when idle)", state POLLING, exited flag clear. *)
Definition Worker_new : Worker :=
  {| serviceInfo := None;
     rpc := NULL;
     busyIndex := -1;
     state := POLLING;
     exited := false |}.

(** Effects of the dispatch thread, in program order: [LOG(WARNING, ...)],
    [Service::prepareErrorResponse], [rpc->sendReply()], the start and
    the join of a worker thread, a store to the request slot of a worker,
    [Fence::leave()] (release), [Fence::enter()] (acquire),
    [state.exchange(new)] with the value it found, and
    [sys->futexWake(&state, count)]. *)
Inductive Event : Type :=
| EvLogWarning
| EvPrepareErrorResponse (r : ServerRpc) (status : Status)
| EvSendReply (r : ServerRpc)
| EvThreadStart (w : nat)
| EvThreadJoin (w : nat)
| EvStoreRpc (w : nat) (p : RpcPtr)
| EvFenceLeave
| EvFenceEnter
| EvExchange (w : nat) (new prev : WorkerState)
| EvFutexWake (w : nat) (count : Z).

(** The [ServiceManager] object.  [services] is the array
    [Tub<ServiceInfo> services[MAX_SERVICE+1]]; [workers] is the store of
    allocated [Worker] objects, a [Worker*] being an index into it;
    [log] collects the effects. *)
Record ServiceManager : Type := {
  services : list (option ServiceInfo);
  busyThreads : list nat;
  idleThreads : list nat;
  serviceCount : Z;
  testRpcs : list RpcPtr;
  workers : list Worker;
  log : list Event
}.

(** *** Field updates *)

Definition set_services (f : list (option ServiceInfo) → list (option ServiceInfo))
    (s : ServiceManager) : ServiceManager :=
  {| services := f (services s); busyThreads := busyThreads s;
     idleThreads := idleThreads s; serviceCount := serviceCount s;
     testRpcs := testRpcs s; workers := workers s; log := log s |}.

Definition set_busyThreads (f : list nat → list nat)
    (s : ServiceManager) : ServiceManager :=
  {| services := services s; busyThreads := f (busyThreads s);
     idleThreads := idleThreads s; serviceCount := serviceCount s;
     testRpcs := testRpcs s; workers := workers s; log := log s |}.

Definition set_idleThreads (f : list nat → list nat)
    (s : ServiceManager) : ServiceManager :=
  {| services := services s; busyThreads := busyThreads s;
     idleThreads := f (idleThreads s); serviceCount := serviceCount s;
     testRpcs := testRpcs s; workers := workers s; log := log s |}.

Definition set_serviceCount (f : Z → Z)
    (s : ServiceManager) : ServiceManager :=
  {| services := services s; busyThreads := busyThreads s;
     idleThreads := idleThreads s; serviceCount := f (serviceCount s);
     testRpcs := testRpcs s; workers := workers s; log := log s |}.

Definition set_testRpcs (f : list RpcPtr → list RpcPtr)
    (s : ServiceManager) : ServiceManager :=
  {| services := services s; busyThreads := busyThreads s;
     idleThreads := idleThreads s; serviceCount := serviceCount s;
     testRpcs := f (testRpcs s); workers := workers s; log := log s |}.

Definition set_workers (f : list Worker → list Worker)
    (s : ServiceManager) : ServiceManager :=
  {| services := services s; busyThreads := busyThreads s;
     idleThreads := idleThreads s; serviceCount := serviceCount s;
     testRpcs := testRpcs s; workers := f (workers s); log := log s |}.

Definition set_log (f : list Event → list Event)
    (s : ServiceManager) : ServiceManager :=
  {| services := services s; busyThreads := busyThreads s;
     idleThreads := idleThreads s; serviceCount := serviceCount s;
     testRpcs := testRpcs s; workers := workers s; log := f (log s) |}.

Definition set_serviceInfo (v : option nat) (wk : Worker) : Worker :=
  {| serviceInfo := v; rpc := rpc wk; busyIndex := busyIndex wk;
     state := state wk; exited := exited wk |}.

Definition set_rpc (v : RpcPtr) (wk : Worker) : Worker :=
  {| serviceInfo := serviceInfo wk; rpc := v; busyIndex := busyIndex wk;
     state := state wk; exited := exited wk |}.

Definition set_busyIndex (v : Z) (wk : Worker) : Worker :=
  {| serviceInfo := serviceInfo wk; rpc := rpc wk; busyIndex := v;
     state := state wk; exited := exited wk |}.

Definition set_state (v : WorkerState) (wk : Worker) : Worker :=
  {| serviceInfo := serviceInfo wk; rpc := rpc wk; busyIndex := busyIndex wk;
     state := v; exited := exited wk |}.

Definition set_exited (v : bool) (wk : Worker) : Worker :=
  {| serviceInfo := serviceInfo wk; rpc := rpc wk; busyIndex := busyIndex wk;
     state := state wk; exited := v |}.

Definition set_waitingRpcs (f : list RpcPtr → list RpcPtr)
    (info : ServiceInfo) : ServiceInfo :=
  {| serviceRef := serviceRef info; maxThreads := maxThreads info;
     waitingRpcs := f (waitingRpcs info);
     requestsRunning := requestsRunning info |}.

Definition set_requestsRunning (f : Z → Z)
    (info : ServiceInfo) : ServiceInfo :=
  {| serviceRef := serviceRef info; maxThreads := maxThreads info;
     waitingRpcs := waitingRpcs info;
     requestsRunning := f (requestsRunning info) |}.

(** ** The monad of the dispatch thread *)

(** How a piece of dispatcher code ends: normally, in a failed [assert]
    (the process aborts), in behaviour the language leaves undefined (an
    index past the end of an array, a dereference of a pointer that is
    not an object), or still spinning in a loop that waits for a worker
    thread when the observed schedule ends. *)
Inductive outcome (A : Type) : Type :=
| Done (a : A)
| AssertionFailed
| Undefined
| Spinning.
Arguments Done {A} a.
Arguments AssertionFailed {A}.
Arguments Undefined {A}.
Arguments Spinning {A}.

Definition M (A : Type) : Type := ServiceManager → outcome (A * ServiceManager).

Definition retM {A} (a : A) : M A := λ s, Done (a, s).

Definition bindM {A B} (m : M A) (k : A → M B) : M B :=
  λ s, match m s with
       | Done (a, s') => k a s'
       | AssertionFailed => AssertionFailed
       | Undefined => Undefined
       | Spinning => Spinning
       end.

Declare Scope M_scope.
Delimit Scope M_scope with M.
Bind Scope M_scope with M.
Notation "x <- m ;; k" := (bindM m (λ x, k))
  (at level 100, m at next level, right associativity) : M_scope.
Notation "m ;; k" := (bindM m (λ _, k))
  (at level 100, right associativity) : M_scope.
Open Scope M_scope.

Definition gets {A} (f : ServiceManager → A) : M A := λ s, Done (f s, s).
Definition modify (f : ServiceManager → ServiceManager) : M unit :=
  λ s, Done ((), f s).
Definition abort {A} : M A := λ _, AssertionFailed.
Definition undefined {A} : M A := λ _, Undefined.
Definition spinning {A} : M A := λ _, Spinning.

(** [assert(b)] *)
Definition assertM (b : bool) : M unit :=
  if b then retM () else abort.

Definition emit (e : Event) : M unit :=
  modify (set_log (λ l, l ++ [e])).

(** Dereference of a [Worker*]. *)
Definition readWorker (w : nat) : M Worker :=
  ws <- gets workers ;;
  match ws !! w with
  | Some wk => retM wk
  | None => undefined
  end.

Definition writeWorker (w : nat) (f : Worker → Worker) : M unit :=
  wk <- readWorker w ;;
  modify (set_workers (λ ws, <[w := f wk]> ws)).

(** Dereference of a [ServiceInfo*] taken from an occupied slot. *)
Definition readInfo (t : nat) : M ServiceInfo :=
  svcs <- gets services ;;
  match svcs !! t with
  | Some (Some info) => retM info
  | _ => undefined
  end.

Definition writeInfo (t : nat) (f : ServiceInfo → ServiceInfo) : M unit :=
  info <- readInfo t ;;
  modify (set_services (λ svcs, <[t := Some (f info)]> svcs)).

(** ** Operations of the dispatch thread *)

(** [std::vector::pop_back] and [std::vector::back]. *)
Definition pop_back {A} (l : list A) : list A := take (length l - 1) l.
Definition back {A} (l : list A) : option A := last l.

(** [state.exchange(v)]: atomic swap on the state cell of a worker. *)
Definition exchange (w : nat) (v : WorkerState) : M WorkerState :=
  wk <- readWorker w ;;
  writeWorker w (set_state v) ;;
  emit (EvExchange w v (state wk)) ;;
  retM (state wk).

(** [sys->futexWake(&state, count)]; a failure is only logged. *)
Definition futexWake (w : nat) (count : Z) : M unit :=
  emit (EvFutexWake w count).

(** [Worker::handoff] *)
Definition handoff (w : nat) (newRpc : RpcPtr) : M unit :=
  wk <- readWorker w ;;
  assertM (match rpc wk with NULL => true | _ => false end) ;;
  writeWorker w (set_rpc newRpc) ;;
  emit (EvStoreRpc w newRpc) ;;
  emit EvFenceLeave ;;
  prevState <- exchange w WORKING ;;
  if decide (prevState = SLEEPING) then futexWake w 1 else retM ().

(** [new Worker(...)]: a fresh object in the store. *)
Definition newWorker : M nat :=
  ws <- gets workers ;;
  modify (set_workers (λ ws, ws ++ [Worker_new])) ;;
  retM (length ws).

(** [services[t]] on the fixed-size array: no bounds check in C++. *)
Definition readSlot (t : nat) : M (option ServiceInfo) :=
  svcs <- gets services ;;
  match svcs !! t with
  | Some slot => retM slot
  | None => undefined
  end.

(** [busyThreads[idx]] with an [int] index. *)
Definition readBusy (idx : Z) : M nat :=
  busy <- gets busyThreads ;;
  if (0 <=? idx)%Z then
    match busy !! Z.to_nat idx with
    | Some w => retM w
    | None => undefined
    end
  else undefined.

(** [busyThreads[idx] = v] *)
Definition writeBusy (idx : Z) (v : nat) : M unit :=
  readBusy idx ;;
  modify (set_busyThreads (λ l, <[Z.to_nat idx := v]> l)).

(** [ServiceManager::idle] *)
Definition idle : M bool :=
  gets (λ s, match busyThreads s with [] => true | _ => false end).

Section Dispatcher.

(** [MAX_SERVICE] comes from Rpc.h and [TESTING] from the build; both
    are parameters of the development. *)
Variable MAX_SERVICE : nat.
Variable TESTING : bool.

(** The constructor: an array of [MAX_SERVICE+1] empty slots, no
    threads, nothing logged. *)
Definition ServiceManager_new : ServiceManager :=
  {| services := replicate (MAX_SERVICE + 1) None;
     busyThreads := [];
     idleThreads := [];
     serviceCount := 0;
     testRpcs := [];
     workers := [];
     log := [] |}.

(** [ServiceManager::addService] *)
Definition addService (svc : Service) (type : nat) : M unit :=
  slot <- readSlot type ;;
  assertM (match slot with None => true | Some _ => false end) ;;
  modify (set_services (λ svcs, <[type := Some (ServiceInfo_new svc)]> svcs)) ;;
  modify (set_serviceCount (λ n, n + 1)%Z).

(** The test [(header == NULL) || (header->service > MAX_SERVICE) ||
    !services[header->service]], evaluated left to right: the tag of the
    service to run, if there is one. *)
Definition findService (header : option RpcRequestCommon) : M (option nat) :=
  match header with
  | None => retM None
  | Some h =>
      if (MAX_SERVICE <? service h)%nat then retM None
      else
        slot <- readSlot (service h) ;;
        retM (match slot with Some _ => Some (service h) | None => None end)
  end.

(** [ServiceManager::handleRpc] *)
Definition handleRpc (rpc : ServerRpc) : M unit :=
  assertM (epochIsSet rpc) ;;
  let header := getStart (requestPayload rpc) in
  found <- findService header ;;
  match found with
  | None =>
      count <- gets serviceCount ;;
      if TESTING && (count =? 0)%Z then
        modify (set_testRpcs (λ q, q ++ [Ptr rpc]))
      else
        match header with
        | None =>
            emit EvLogWarning ;;
            emit (EvPrepareErrorResponse rpc STATUS_MESSAGE_TOO_SHORT)
        | Some _ =>
            emit EvLogWarning ;;
            emit (EvPrepareErrorResponse rpc STATUS_SERVICE_NOT_AVAILABLE)
        end ;;
        emit (EvSendReply rpc)
  | Some t =>
      info <- readInfo t ;;
      if (maxThreads info <=? requestsRunning info)%Z then
        writeInfo t (set_waitingRpcs (λ q, q ++ [Ptr rpc]))
      else
        writeInfo t (set_requestsRunning (λ n, n + 1)%Z) ;;
        idleNow <- gets idleThreads ;;
        worker <- match back idleNow with
                  | None =>
                      w <- newWorker ;;
                      emit (EvThreadStart w) ;;
                      retM w
                  | Some w =>
                      modify (set_idleThreads pop_back) ;;
                      retM w
                  end ;;
        writeWorker worker (set_serviceInfo (Some t)) ;;
        handoff worker (Ptr rpc) ;;
        size <- gets (λ s, length (busyThreads s)) ;;
        writeWorker worker (set_busyIndex (Z.of_nat size)) ;;
        modify (set_busyThreads (λ l, l ++ [worker]))
  end.

(** One iteration of the loop of [ServiceManager::poll], for index [i]. *)
Definition pollWorker (i : nat) : M unit :=
  worker <- readBusy (Z.of_nat i) ;;
  wk <- readWorker worker ;;
  assertM (busyIndex wk =? Z.of_nat i)%Z ;;
  let st := state wk in
  if decide (st = WORKING) then retM ()
  else
    emit EvFenceEnter ;;
    match rpc wk with
    | NULL => retM ()
    | WORKER_EXIT => undefined
    | Ptr r =>
        emit (EvSendReply r) ;;
        writeWorker worker (set_rpc NULL) ;;
        emit (EvStoreRpc worker NULL)
    end ;;
    if decide (st = POSTPROCESSING) then retM ()
    else
      match serviceInfo wk with
      | None => undefined
      | Some t =>
          info <- readInfo t ;;
          match waitingRpcs info with
          | front :: _ =>
              handoff worker front ;;
              writeInfo t (set_waitingRpcs (drop 1))
          | [] =>
              busy <- gets busyThreads ;;
              match back busy with
              | None => undefined
              | Some lastWorker =>
                  (if decide (worker = lastWorker) then retM ()
                   else
                     writeBusy (busyIndex wk) lastWorker ;;
                     moved <- readBusy (busyIndex wk) ;;
                     writeWorker moved (set_busyIndex (busyIndex wk))) ;;
                  modify (set_busyThreads pop_back) ;;
                  writeWorker worker (set_busyIndex (-1)) ;;
                  modify (set_idleThreads (λ l, l ++ [worker])) ;;
                  writeInfo t (set_requestsRunning (λ n, n - 1)%Z)
              end
          end
      end.

(** [for (int i = size - 1; i >= 0; i--)]: [pollLoop n] runs the
    iterations [n-1], ..., [0]. *)
Fixpoint pollLoop (n : nat) : M unit :=
  match n with
  | 0 => retM ()
  | S i => pollWorker i ;; pollLoop i
  end.

(** [ServiceManager::poll] *)
Definition poll : M unit :=
  size <- gets (λ s, length (busyThreads s)) ;;
  pollLoop size.

(** *** Worker threads

    What a worker thread writes to the cell it shares with the dispatch
    thread: [Worker::sendReply] stores POSTPROCESSING, [workerMain]
    stores POLLING when the handler has returned and tries a
    compare-and-exchange from POLLING to SLEEPING when it has polled for
    long enough.  Each dispatcher operation is taken as one atomic step
    between such writes. *)
Inductive WorkerAct : Type :=
| ActSendReply
| ActHandlerReturn
| ActSleep.

(** [Worker::sendReply], called by the handler on the worker thread:
    [Fence::leave(); state.store(POSTPROCESSING)]. *)
Definition sendReply (w : nat) : M unit :=
  writeWorker w (set_state POSTPROCESSING).

(** [state.compareExchange(expected, desired)] *)
Definition compareExchange (w : nat) (expected desired : WorkerState) : M bool :=
  wk <- readWorker w ;;
  if decide (state wk = expected) then
    writeWorker w (set_state desired) ;;
    retM true
  else retM false.

(** One write of [workerMain] (or of the handler it runs) to the state
    cell of worker [w]. *)
Definition workerAct (w : nat) (a : WorkerAct) : M unit :=
  match a with
  | ActSendReply => sendReply w
  | ActHandlerReturn => writeWorker w (set_state POLLING)
  | ActSleep => compareExchange w POLLING SLEEPING ;; retM ()
  end.

Fixpoint workerActs (acts : list (nat * WorkerAct)) : M unit :=
  match acts with
  | [] => retM ()
  | (w, a) :: rest => workerAct w a ;; workerActs rest
  end.

(** [while (busyIndex >= 0) dispatch.poll();] of [Worker::exit].  The
    loop spins until worker threads have made enough progress; [sched]
    lists what the worker threads do before each call of [poll]. *)
Fixpoint exitWait (sched : list (list (nat * WorkerAct))) (w : nat) : M unit :=
  wk <- readWorker w ;;
  if (0 <=? busyIndex wk)%Z then
    match sched with
    | [] => spinning
    | acts :: rest => workerActs acts ;; poll ;; exitWait rest w
    end
  else retM ().

(** [Worker::exit].  The code modelled here is the code of the dispatch
    thread, so [assert(dispatch.isDispatchThread())] holds.
    [thread->join()] returns once the worker thread has seen the sentinel
    and left [workerMain]. *)
Definition exit (sched : list (list (nat * WorkerAct))) (w : nat) : M unit :=
  wk <- readWorker w ;;
  if exited wk then retM ()
  else
    exitWait sched w ;;
    handoff w WORKER_EXIT ;;
    emit (EvThreadJoin w) ;;
    writeWorker w (set_rpc NULL) ;;
    emit (EvStoreRpc w NULL) ;;
    writeWorker w (set_exited true).

(** *** Runs of the dispatcher *)

Inductive Op : Type :=
| OpHandleRpc (rpc : ServerRpc)
| OpPoll
| OpWorker (w : nat) (a : WorkerAct).

Definition step (o : Op) : M unit :=
  match o with
  | OpHandleRpc rpc => handleRpc rpc
  | OpPoll => poll
  | OpWorker w a => workerAct w a
  end.

Fixpoint run (ops : list Op) : M unit :=
  match ops with
  | [] => retM ()
  | o :: rest => step o ;; run rest
  end.

(** Registration of services at startup. *)
Fixpoint startup (regs : list (Service * nat)) : M unit :=
  match regs with
  | [] => retM ()
  | (svc, type) :: rest => addService svc type ;; startup rest
  end.

End Dispatcher.

(** ** What the operations leave behind *)

(** The effects of one [Worker::handoff], given the value the exchange
    found in the state cell. *)
Definition handoffEvents (w : nat) (p : RpcPtr) (prev : WorkerState) : list Event :=
  [EvStoreRpc w p; EvFenceLeave; EvExchange w WORKING prev] ++
  (if decide (prev = SLEEPING) then [EvFutexWake w 1] else []).

(** The manager after handing [p] to worker [w], whose record was [wk]. *)
Definition afterHandoff (w : nat) (p : RpcPtr) (wk : Worker)
    (s : ServiceManager) : ServiceManager :=
  set_log (λ l, l ++ handoffEvents w p (state wk))
    (set_workers (λ ws, <[w := set_state WORKING (set_rpc p wk)]> ws) s).

(** The effects of the reply step of [poll] on a worker that is not
    WORKING and holds [p]. *)
Definition replyEvents (w : nat) (p : RpcPtr) : list Event :=
  EvFenceEnter ::
  match p with
  | Ptr r => [EvSendReply r; EvStoreRpc w NULL]
  | _ => []
  end.

Definition afterReply (w : nat) (wk : Worker) (s : ServiceManager) : ServiceManager :=
  set_log (λ l, l ++ replyEvents w (rpc wk))
    (set_workers (λ ws, <[w := set_rpc NULL wk]> ws) s).

(** The manager after [poll] started the next waiting request of
    service [t] on worker [w]. *)
Definition afterNext (w : nat) (wk : Worker) (t : nat) (info : ServiceInfo)
    (front : RpcPtr) (s : ServiceManager) : ServiceManager :=
  set_services (λ svcs, <[t := Some (set_waitingRpcs (drop 1) info)]> svcs)
    (afterHandoff w front (set_rpc NULL wk) (afterReply w wk s)).

(** [busyThreads] after the swap-with-back removal of the entry at
    index [i], which holds [w]. *)
Definition swapRemove (i w lastWorker : nat) (busy : list nat) : list nat :=
  pop_back (if decide (w = lastWorker) then busy else <[i := lastWorker]> busy).

(** The manager after [poll] returned worker [w] (found at index [i],
    bound to service [t]) to the idle pool. *)
Definition afterRelease (i w : nat) (wk : Worker) (t : nat) (info : ServiceInfo)
    (lastWorker : nat) (moved : Worker) (s : ServiceManager) : ServiceManager :=
  set_services
    (λ svcs, <[t := Some (set_requestsRunning (λ n, n - 1)%Z info)]> svcs)
    (set_idleThreads (λ l, l ++ [w])
       (set_workers
          (λ ws, <[w := set_busyIndex (-1) (set_rpc NULL wk)]>
                   (if decide (w = lastWorker) then ws
                    else <[lastWorker := set_busyIndex (Z.of_nat i) moved]> ws))
          (set_busyThreads (swapRemove i w lastWorker) (afterReply w wk s)))).

(** The manager after [handleRpc] started request [r] of service [t]
    on worker [w], whose record (a fresh one, or that of the idle worker
    taken) was [wk]. *)
Definition afterStart (w : nat) (wk : Worker) (t : nat) (info : ServiceInfo)
    (r : ServerRpc) (s : ServiceManager) : ServiceManager :=
  set_busyThreads (λ l, l ++ [w])
    (set_log (λ l, l ++ handoffEvents w (Ptr r) (state wk))
       (set_workers
          (λ ws, <[w := set_busyIndex (Z.of_nat (length (busyThreads s)))
                          (set_state WORKING
                             (set_rpc (Ptr r) (set_serviceInfo (Some t) wk)))]> ws)
          (set_services
             (λ svcs, <[t := Some (set_requestsRunning (λ n, n + 1)%Z info)]> svcs)
             s))).

(** ** Observations on states and runs *)

(** The requests behind a list of pointers. *)
Definition reqs (ps : list RpcPtr) : list ServerRpc :=
  omap (λ p, match p with Ptr r => Some r | _ => None end) ps.

(** Requests on which [sendReply] was invoked, in order. *)
Definition replies (l : list Event) : list ServerRpc :=
  omap (λ e, match e with EvSendReply r => Some r | _ => None end) l.

(** Requests handed to a worker, in order. *)
Definition handed (l : list Event) : list ServerRpc :=
  omap (λ e, match e with EvStoreRpc _ (Ptr r) => Some r | _ => None end) l.

(** Requests waiting in the queues of the services. *)
Definition queued (svcs : list (option ServiceInfo)) : list ServerRpc :=
  svcs ≫= (λ slot, match slot with
                   | Some info => reqs (waitingRpcs info)
                   | None => []
                   end).

(** Requests held in the request slots of the workers. *)
Definition held (ws : list Worker) : list ServerRpc :=
  ws ≫= (λ wk, reqs [rpc wk]).

(** Requests the dispatcher has accepted and not yet replied to. *)
Definition pending (s : ServiceManager) : list ServerRpc :=
  reqs (testRpcs s) ++ queued (services s) ++ held (workers s).

(** Requests passed to [handleRpc] during a run, in order. *)
Definition submitted (ops : list Op) : list ServerRpc :=
  omap (λ o, match o with OpHandleRpc r => Some r | _ => None end) ops.

(** The service tag in the header of a request. *)
Definition tagOf (r : ServerRpc) : option nat :=
  service <$> getStart (requestPayload r).

(** The subsequence of requests whose header names service [t]. *)
Definition forService (t : nat) (rs : list ServerRpc) : list ServerRpc :=
  filter (λ r, tagOf r = Some t) rs.

(** The service a worker is bound to. *)
Definition svcOf (ws : list Worker) (w : nat) : option nat :=
  ws !! w ≫= serviceInfo.

(** Number of workers in [busyThreads] whose [serviceInfo] is the entry
    of service [t]. *)
Definition running (t : nat) (s : ServiceManager) : nat :=
  length (filter (λ w, svcOf (workers s) w = Some t) (busyThreads s)).

(** States the dispatcher can be in: startup registers services on a
    new manager, then [handleRpc], [poll] and the worker threads run in
    any order. *)
Definition reachable (MAX_SERVICE : nat) (TESTING : bool)
    (regs : list (Service * nat)) (ops : list Op) (s : ServiceManager) : Prop :=
  ∃ s0, startup regs (ServiceManager_new MAX_SERVICE) = Done ((), s0) ∧
        run MAX_SERVICE TESTING ops s0 = Done ((), s).

(** Every busy worker knows its index and is bound to a registered
    service. *)
Definition BusyOk (s : ServiceManager) : Prop :=
  ∀ i w, busyThreads s !! i = Some w →
    ∃ wk t info, workers s !! w = Some wk ∧ busyIndex wk = Z.of_nat i ∧
                 serviceInfo wk = Some t ∧ services s !! t = Some (Some info).

(** Every idle worker has index -1 and holds no request. *)
Definition IdleOk (s : ServiceManager) : Prop :=
  ∀ w, w ∈ idleThreads s →
    ∃ wk, workers s !! w = Some wk ∧ busyIndex wk = (-1)%Z ∧ rpc wk = NULL.

(** The counters of every service agree with the busy list; a service
    whose cap is not negative stays within its cap and queues requests
    only when it is full. *)
Definition SvcOk (s : ServiceManager) : Prop :=
  ∀ t info, services s !! t = Some (Some info) →
    requestsRunning info = Z.of_nat (running t s) ∧
    ((0 ≤ maxThreads info)%Z →
     (requestsRunning info ≤ maxThreads info)%Z ∧
     (waitingRpcs info ≠ [] → requestsRunning info = maxThreads info)).

(** The bookkeeping invariant of the dispatcher. *)
Record Inv (s : ServiceManager) : Prop := {
  inv_nodup : NoDup (busyThreads s ++ idleThreads s);
  inv_dom : ∀ w, w ∈ busyThreads s ++ idleThreads s ↔ w < length (workers s);
  inv_busy : BusyOk s;
  inv_idle : IdleOk s;
  inv_svc : SvcOk s
}.

(** Every request is in one place: replied to, or pending. *)
Definition Owned (hist : list ServerRpc) (s : ServiceManager) : Prop :=
  replies (log s) ++ pending s ≡ₚ hist.

(** The requests of a service were handed off in the order they came;
    those not yet handed off wait in its queue, in order. *)
Definition Fifo (MAX_SERVICE : nat) (hist : list ServerRpc) (s : ServiceManager) : Prop :=
  length (services s) = MAX_SERVICE + 1 ∧
  ∀ t info, services s !! t = Some (Some info) →
    (Ptr <$> forService t (handed (log s))) ++ waitingRpcs info =
    Ptr <$> forService t hist.

(** ** Requests as [handleRpc] classifies them *)

(** The request cannot be routed: no header, a tag above
    [MAX_SERVICE], or an empty slot. *)
Definition unroutable (MAX_SERVICE : nat) (r : ServerRpc) (s : ServiceManager) : Prop :=
  match getStart (requestPayload r) with
  | None => True
  | Some h => MAX_SERVICE < service h ∨ services s !! service h = Some None
  end.

(** The header of the request names the registered service [t], whose
    entry is [info]. *)
Definition routed (MAX_SERVICE : nat) (r : ServerRpc) (s : ServiceManager)
    (t : nat) (info : ServiceInfo) : Prop :=
  ∃ h, getStart (requestPayload r) = Some h ∧ service h = t ∧
       t ≤ MAX_SERVICE ∧ services s !! t = Some (Some info).

(** The effects of the error path of [handleRpc]. *)
Definition errorEvents (r : ServerRpc) : list Event :=
  [EvLogWarning;
   EvPrepareErrorResponse r
     (match getStart (requestPayload r) with
      | None => STATUS_MESSAGE_TOO_SHORT
      | Some _ => STATUS_SERVICE_NOT_AVAILABLE
      end);
   EvSendReply r].

(** The manager after [handleRpc] met a request it cannot route. *)
Definition afterUnroutable (TESTING : bool) (r : ServerRpc)
    (s : ServiceManager) : ServiceManager :=
  if TESTING && (serviceCount s =? 0)%Z
  then set_testRpcs (λ q, q ++ [Ptr r]) s
  else set_log (λ l, l ++ errorEvents r) s.

(** The manager after [handleRpc] queued request [r] for service [t]. *)
Definition afterQueue (t : nat) (info : ServiceInfo) (r : ServerRpc)
    (s : ServiceManager) : ServiceManager :=
  set_services
    (λ svcs, <[t := Some (set_waitingRpcs (λ q, q ++ [Ptr r]) info)]> svcs) s.

(** The manager after [handleRpc] created a worker for its request. *)
Definition afterSpawn (s : ServiceManager) : ServiceManager :=
  set_log (λ l, l ++ [EvThreadStart (length (workers s))])
    (set_workers (λ ws, ws ++ [Worker_new]) s).

Arguments pop_back : simpl never.
Arguments reqs : simpl never.
Arguments replies : simpl never.
Arguments handed : simpl never.
Arguments queued : simpl never.
Arguments held : simpl never.
Arguments forService : simpl never.
Arguments back : simpl never.
(** A manager on which only [addService] has run. *)
Record Fresh (MAX : nat) (regs : list (Service * nat)) (s : ServiceManager) : Prop := {
  fresh_len : length (services s) = MAX + 1;
  fresh_busy : busyThreads s = [];
  fresh_idle : idleThreads s = [];
  fresh_workers : workers s = [];
  fresh_test : testRpcs s = [];
  fresh_log : log s = [];
  fresh_count : serviceCount s =
    Z.of_nat (length (filter (λ slot, slot ≠ None) (services s)));
  fresh_info : ∀ t info, services s !! t = Some (Some info) →
    ∃ svc, (svc, t) ∈ regs ∧ info = ServiceInfo_new svc
}.

(** ** The operations as step relations *)

(** What one call of [handleRpc] on request [r] does to the manager. *)
Inductive handleStep (MAX_SERVICE : nat) (TESTING : bool) (r : ServerRpc)
    (s : ServiceManager) : ServiceManager → Prop :=
| handle_unroutable :
    unroutable MAX_SERVICE r s →
    handleStep MAX_SERVICE TESTING r s (afterUnroutable TESTING r s)
| handle_queue t info :
    routed MAX_SERVICE r s t info →
    (maxThreads info ≤ requestsRunning info)%Z →
    handleStep MAX_SERVICE TESTING r s (afterQueue t info r s)
| handle_start_idle t info w wk :
    routed MAX_SERVICE r s t info →
    (requestsRunning info < maxThreads info)%Z →
    back (idleThreads s) = Some w →
    workers s !! w = Some wk →
    rpc wk = NULL →
    handleStep MAX_SERVICE TESTING r s
      (afterStart w wk t info r (set_idleThreads pop_back s))
| handle_start_new t info :
    routed MAX_SERVICE r s t info →
    (requestsRunning info < maxThreads info)%Z →
    idleThreads s = [] →
    handleStep MAX_SERVICE TESTING r s
      (afterStart (length (workers s)) Worker_new t info r (afterSpawn s)).

(** What the iteration of [poll] for index [i] does to the manager. *)
Inductive pollStep (i : nat) (s : ServiceManager) : ServiceManager → Prop :=
| poll_working w wk :
    busyThreads s !! i = Some w →
    workers s !! w = Some wk →
    busyIndex wk = Z.of_nat i →
    state wk = WORKING →
    pollStep i s s
| poll_post w wk :
    busyThreads s !! i = Some w →
    workers s !! w = Some wk →
    busyIndex wk = Z.of_nat i →
    state wk = POSTPROCESSING →
    rpc wk ≠ WORKER_EXIT →
    pollStep i s (afterReply w wk s)
| poll_next w wk t info front :
    busyThreads s !! i = Some w →
    workers s !! w = Some wk →
    busyIndex wk = Z.of_nat i →
    state wk ≠ WORKING →
    state wk ≠ POSTPROCESSING →
    rpc wk ≠ WORKER_EXIT →
    serviceInfo wk = Some t →
    services s !! t = Some (Some info) →
    head (waitingRpcs info) = Some front →
    pollStep i s (afterNext w wk t info front s)
| poll_release w wk t info lastWorker moved :
    busyThreads s !! i = Some w →
    workers s !! w = Some wk →
    busyIndex wk = Z.of_nat i →
    state wk ≠ WORKING →
    state wk ≠ POSTPROCESSING →
    rpc wk ≠ WORKER_EXIT →
    serviceInfo wk = Some t →
    services s !! t = Some (Some info) →
    waitingRpcs info = [] →
    back (busyThreads s) = Some lastWorker →
    (w ≠ lastWorker → workers s !! lastWorker = Some moved) →
    pollStep i s (afterRelease i w wk t info lastWorker moved s).

(** No worker holds the exit sentinel: only [Worker::exit] stores it. *)
Definition NoExit (s : ServiceManager) : Prop :=
  Forall (λ wk, rpc wk ≠ WORKER_EXIT) (workers s).

(** Everything the dispatcher maintains, relative to the requests
    [hist] passed to [handleRpc] so far. *)
Definition Good (MAX_SERVICE : nat) (hist : list ServerRpc)
    (s : ServiceManager) : Prop :=
  Inv s ∧ Owned hist s ∧ Fifo MAX_SERVICE hist s ∧ NoExit s.

(** The manager after [Worker::exit] told worker [w], whose record was
    [wk], to exit and joined its thread. *)
Definition afterExit (w : nat) (wk : Worker) (s : ServiceManager) : ServiceManager :=
  set_workers
    (λ ws, <[w := set_exited true
                    (set_rpc NULL (set_state WORKING (set_rpc WORKER_EXIT wk)))]> ws)
    (set_log (λ l, l ++ handoffEvents w WORKER_EXIT (state wk) ++
                        [EvThreadJoin w; EvStoreRpc w NULL]) s).

(** ** A small manager to run the operations on *)

(** One service with a single thread, registered under tag 2 of a table
    with [MAX_SERVICE = 3], in a testing build. *)
Definition exService : Service :=
  {| serviceName := 7; serviceMaxThreads := 1 |}.

Definition exRegs : list (Service * nat) := [(exService, 2)].

Definition exRpc (id : nat) (tag : byte) : ServerRpc :=
  {| rpcId := id; epochIsSet := true; requestPayload := [tag; x00; x00; x00] |}.

Definition exStart : ServiceManager :=
  match startup exRegs (ServiceManager_new 3) with
  | Done (_, s) => s
  | _ => ServiceManager_new 3
  end.

Definition exRun (ops : list Op) : ServiceManager :=
  match run 3 true ops exStart with
  | Done (_, s) => s
  | _ => exStart
  end.

(** Two requests for the service: the first runs, the second waits. *)
Definition exOpsBusy : list Op :=
  [OpHandleRpc (exRpc 10 x02); OpHandleRpc (exRpc 11 x02)].

(** The handler of the first request has returned. *)
Definition exOpsReturned : list Op :=
  exOpsBusy ++ [OpWorker 0 ActHandlerReturn].

(** One request served; its worker is idle and has gone to sleep. *)
Definition exOpsAsleep : list Op :=
  [OpHandleRpc (exRpc 10 x02); OpWorker 0 ActHandlerReturn; OpPoll;
   OpWorker 0 ActSleep].

(** Three requests for the service; the handler of the first has
    returned, the other two wait in the queue. *)
Definition exOpsQueued : list Op :=
  [OpHandleRpc (exRpc 10 x02); OpHandleRpc (exRpc 11 x02);
   OpHandleRpc (exRpc 12 x02); OpWorker 0 ActHandlerReturn].

(** The entry of the example service with [n] requests running and
    queue [q]. *)
Definition exInfo (n : Z) (q : list RpcPtr) : ServiceInfo :=
  {| serviceRef := exService; maxThreads := 1; waitingRpcs := q;
     requestsRunning := n |}.

(** The record of the example worker. *)
Definition exWorker (p : RpcPtr) (i : Z) (st : WorkerState) : Worker :=
  {| serviceInfo := Some 2; rpc := p; busyIndex := i; state := st;
     exited := false |}.

(** ** Teardown, the test queue and the registry *)

(** [while (!busyThreads.empty()) dispatch.poll();] of the destructor.
    As in [Worker::exit], [sched] lists what the worker threads do
    before each call of [poll]. *)
Fixpoint drain (sched : list (list (nat * WorkerAct))) : M unit :=
  busy <- gets busyThreads ;;
  match busy with
  | [] => retM ()
  | _ :: _ =>
      match sched with
      | [] => spinning
      | acts :: rest => workerActs acts ;; poll ;; drain rest
      end
  end.

(** [worker->exit()] as the destructor runs it, with a thread that may
    not exit.  [joined] tells whether the thread of the worker leaves
    [workerMain] once it has been handed the sentinel; if it does not
    (it is blocked in [futexWait] and the [futexWake] of the handoff
    failed), [thread->join()] never returns. *)
Definition exitJoin (joined : bool) (sched : list (list (nat * WorkerAct)))
    (w : nat) : M unit :=
  if joined then exit sched w
  else
    wk <- readWorker w ;;
    if exited wk then retM ()
    else exitWait sched w ;; handoff w WORKER_EXIT ;; spinning.

(** [foreach (Worker* worker, idleThreads) { worker->exit(); delete worker; }]
    over the entries [ws] of the vector; [exitSched w] is the schedule
    seen by the call of [exit] on worker [w], and [exits w] tells
    whether its thread exits.  [delete] ends the lifetime of the record,
    which nothing reads afterwards; the store keeps it, marked as
    exited. *)
Fixpoint exitAll (exitSched : nat → list (list (nat * WorkerAct)))
    (exits : nat → bool) (ws : list nat) : M unit :=
  match ws with
  | [] => retM ()
  | w :: rest =>
      exitJoin (exits w) (exitSched w) w ;; exitAll exitSched exits rest
  end.

(** [ServiceManager::~ServiceManager] *)
Definition ServiceManager_delete (sched : list (list (nat * WorkerAct)))
    (exitSched : nat → list (list (nat * WorkerAct)))
    (exits : nat → bool) : M unit :=
  drain sched ;;
  idleNow <- gets idleThreads ;;
  exitAll exitSched exits idleNow.

Section TestQueue.

Variable MAX_SERVICE : nat.
Variable TESTING : bool.

(** [ServiceManager::waitForRpc].  [clock] is what the loop observes in
    each iteration that finds the queue empty: whether the elapsed time
    exceeds [timeoutSeconds], and, if it does not, what happens during
    [dispatch->poll()] (transports deliver requests, the manager's poller
    runs, worker threads write their cells). *)
Fixpoint waitForRpc (clock : list (bool * list Op)) : M RpcPtr :=
  q <- gets testRpcs ;;
  match q with
  | result :: _ =>
      modify (set_testRpcs (drop 1)) ;;
      retM result
  | [] =>
      match clock with
      | [] => spinning
      | (timedOut, ops) :: rest =>
          if timedOut : bool then retM NULL
          else run MAX_SERVICE TESTING ops ;; waitForRpc rest
      end
  end.

(** [n] calls of [waitForRpc] in a row, with their results. *)
Fixpoint waitForRpcs (n : nat) (clock : list (bool * list Op)) : M (list RpcPtr) :=
  match n with
  | 0 => retM []
  | S n' =>
      p <- waitForRpc clock ;;
      ps <- waitForRpcs n' clock ;;
      retM (p :: ps)
  end.

End TestQueue.

(** *** Further observations *)

(** What registration fixes for each slot of the table: the service and
    its cap. *)
Definition registry (svcs : list (option ServiceInfo)) : list (option (Service * Z)) :=
  (λ slot : option ServiceInfo,
     (λ info, (serviceRef info, maxThreads info)) <$> slot) <$> svcs.

(** The sum of the caps of the registered services. *)
Definition capacity (svcs : list (option ServiceInfo)) : Z :=
  foldr (λ slot acc, match slot with
                     | Some info => (maxThreads info + acc)%Z
                     | None => acc
                     end) 0%Z svcs.

(** The sum of the [requestsRunning] counters. *)
Definition totalRunning (svcs : list (option ServiceInfo)) : Z :=
  foldr (λ slot acc, match slot with
                     | Some info => (requestsRunning info + acc)%Z
                     | None => acc
                     end) 0%Z svcs.

(** Worker threads started and joined, in order. *)
Definition starts (l : list Event) : list nat :=
  omap (λ e, match e with EvThreadStart w => Some w | _ => None end) l.

Definition joins (l : list Event) : list nat :=
  omap (λ e, match e with EvThreadJoin w => Some w | _ => None end) l.

(** Workers that were handed the exit sentinel, in order. *)
Definition dismissed (l : list Event) : list nat :=
  omap (λ e, match e with EvStoreRpc w WORKER_EXIT => Some w | _ => None end) l.

(** The writes of the worker threads as operations of a run. *)
Definition actOps (acts : list (nat * WorkerAct)) : list Op :=
  (λ wa, OpWorker wa.1 wa.2) <$> acts.

(** The busy list is as long as the counters say. *)
Definition Counted (s : ServiceManager) : Prop :=
  Z.of_nat (length (busyThreads s)) = totalRunning (services s).

(** No worker has been told to exit: every record is live, one thread
    was started per record and none was joined. *)
Definition Live (s : ServiceManager) : Prop :=
  Forall (λ wk, exited wk = false) (workers s) ∧
  starts (log s) = seq 0 (length (workers s)) ∧
  joins (log s) = [] ∧
  dismissed (log s) = [].

(** A request in the slot of a worker names the service the worker is
    bound to. *)
Definition Routed (s : ServiceManager) : Prop :=
  ∀ w wk r, workers s !! w = Some wk → rpc wk = Ptr r →
    ∃ t, serviceInfo wk = Some t ∧ tagOf r = Some t.


(** Worker [w] is not executing a request: its state cell is neither
    WORKING nor POSTPROCESSING. *)
Definition returned (s : ServiceManager) (w : nat) : Prop :=
  ∃ wk, workers s !! w = Some wk ∧
        state wk ≠ WORKING ∧ state wk ≠ POSTPROCESSING.

(** A schedule of prompt handlers for the first loop of the destructor:
    as long as the loop runs, the worker threads named in a round exist
    and, by the time [poll] is called, the handler of every busy worker
    has returned. *)
Fixpoint Prompt (sched : list (list (nat * WorkerAct))) (s : ServiceManager)
    : Prop :=
  match sched with
  | [] => True
  | acts :: rest =>
      busyThreads s ≠ [] →
      Forall (λ wa, wa.1 < length (workers s)) acts ∧
      ∀ s1, workerActs acts s = Done ((), s1) →
        (∀ w, w ∈ busyThreads s1 → returned s1 w) ∧
        ∀ s2, poll s1 = Done ((), s2) → Prompt rest s2
  end.


(** Worker [w] has the same cells in [s'] as in [s], and is in the list
    it was in. *)
Definition Untouched (w : nat) (s s' : ServiceManager) : Prop :=
  (∀ wk, workers s !! w = Some wk →
     ∃ wk', workers s' !! w = Some wk' ∧ state wk' = state wk ∧
            rpc wk' = rpc wk ∧ serviceInfo wk' = serviceInfo wk) ∧
  (w ∈ busyThreads s → w ∈ busyThreads s') ∧
  (w ∈ idleThreads s → w ∈ idleThreads s').

(** What a pass of [poll] that ends in [s'] has done to a worker that
    was busy, with record [wk], when the pass began: a worker that was
    WORKING is left alone; for one that was POSTPROCESSING the reply of
    its request has been sent and it stays busy; for one whose handler
    had returned the reply has been sent, and the worker is back in the
    idle pool or has been handed a request again. *)
Definition Polled (w : nat) (wk : Worker) (s' : ServiceManager) : Prop :=
  ∃ wk', workers s' !! w = Some wk' ∧ serviceInfo wk' = serviceInfo wk ∧
    match state wk with
    | WORKING => state wk' = WORKING ∧ rpc wk' = rpc wk ∧ w ∈ busyThreads s'
    | POSTPROCESSING =>
        state wk' = POSTPROCESSING ∧ rpc wk' = NULL ∧ w ∈ busyThreads s' ∧
        reqs [rpc wk] ⊆ replies (log s')
    | _ =>
        reqs [rpc wk] ⊆ replies (log s') ∧
        ((state wk' = state wk ∧ rpc wk' = NULL ∧ w ∈ idleThreads s') ∨
         (state wk' = WORKING ∧ (∃ r, rpc wk' = Ptr r) ∧ w ∈ busyThreads s'))
    end.


(** A manager of a testing build on which no service was registered
    and whose test queue holds requests: the setting [waitForRpc] is
    written for. *)
Record TestMode (MAX_SERVICE : nat) (s : ServiceManager) : Prop := {
  test_services : services s = replicate (MAX_SERVICE + 1) None;
  test_count : serviceCount s = 0%Z;
  test_busy : busyThreads s = [];
  test_idle : idleThreads s = [];
  test_workers : workers s = [];
  test_log : log s = [];
  test_queue : Forall (λ p, ∃ r, p = Ptr r) (testRpcs s)
}.


(** ** Worker threads *)

(** Where a worker thread stands in [workerMain]: at the test of the
    inner loop ([state.load() != WORKING]); after a successful
    [compareExchange], about to call [futexWait]; blocked inside
    [futexWait]; out of the loop, about to run [Fence::enter] and read
    [rpc]; inside the handler of a request; or out of [workerMain]. *)
Inductive ThreadPc : Type :=
| AtLoad
| AtFutexWait
| InFutexWait
| AtFetch
| InHandler (r : ServerRpc)
| ThreadDone.

(** What happens around a worker thread that others can see: it invokes
    the handler of a service on a request, the handler calls
    [Worker::sendReply], the handler returns, [futexWait] fails and the
    failure is logged, the thread leaves [workerMain], an exception is
    caught and logged ([LOG(ERROR, "worker: %s", e.what())]); or the
    [futexWake] that [Worker::handoff] calls for the thread fails and
    the dispatch thread logs the failure. *)
Inductive ThreadEvent : Type :=
| ThInvoke (w : nat) (svc : Service) (r : ServerRpc)
| ThSendReply (w : nat) (r : ServerRpc)
| ThReturn (w : nat) (r : ServerRpc)
| ThLogError (w : nat)
| ThExit (w : nat)
| ThLogException (w : nat)
| ThWakeFailed (w : nat).

(** The steps of a worker thread: one evaluation of the loop test; the
    [compareExchange] it tries once [dispatch.currentTime] has reached
    [stopPollingTime]; the call of [futexWait]; a return of [futexWait]
    that no [futexWake] caused; [Fence::enter] with the read of [rpc]
    and, unless it is the sentinel, the call of the handler; a call of
    [Worker::sendReply] by the handler; the return of the handler with
    the store of POLLING; and an exception thrown by the handler, which
    [workerMain] catches, logs and throws again. *)
Inductive ThreadStep : Type :=
| StLoad
| StTimeout
| StFutexWait
| StInterrupt
| StFetch
| StSendReply
| StReturn
| StThrow.

(** The manager together with its worker threads; the thread of worker
    [w] is entry [w] of [threads]. *)
Record System : Type := {
  manager : ServiceManager;
  threads : list ThreadPc;
  trace : list ThreadEvent
}.

Definition set_manager (s : ServiceManager) (σ : System) : System :=
  {| manager := s; threads := threads σ; trace := trace σ |}.

Definition set_pc (w : nat) (pc : ThreadPc) (σ : System) : System :=
  {| manager := manager σ; threads := <[w := pc]> (threads σ);
     trace := trace σ |}.

Definition add_trace (e : ThreadEvent) (σ : System) : System :=
  {| manager := manager σ; threads := threads σ; trace := trace σ ++ [e] |}.

(** How a step of the system ends: the system goes on; the code of the
    manager fails as [outcome] says; or the process is terminated by an
    exception that leaves [workerMain] ("throw; // will likely call
    std::terminate()"), in the state [σ]. *)
Inductive SysOutcome : Type :=
| SysDone (σ : System)
| SysAssertionFailed
| SysUndefined
| SysSpinning
| SysTerminated (σ : System).

(** A piece of code that runs on the manager, inside the system. *)
Definition onManager {A} (m : M A) (σ : System)
    (k : A → System → SysOutcome) : SysOutcome :=
  match m (manager σ) with
  | Done (a, s') => k a (set_manager s' σ)
  | AssertionFailed => SysAssertionFailed
  | Undefined => SysUndefined
  | Spinning => SysSpinning
  end.

(** One step of the thread of worker [w] in [workerMain].  A step that
    the thread cannot take where it stands leaves the system as it is.
    [futexWait(&state, SLEEPING)] blocks only if the cell still holds
    SLEEPING ("EWOULDBLOCK means that someone already changed
    worker->state, so we didn't block").  An exception out of the
    handler is caught, logged and thrown again, out of the function of
    the thread: the process ends. *)
Definition threadStep (w : nat) (a : ThreadStep) (σ : System) : SysOutcome :=
  match threads σ !! w, workers (manager σ) !! w with
  | Some pc, Some wk =>
      match pc, a with
      | AtLoad, StLoad =>
          SysDone (if decide (state wk = WORKING) then set_pc w AtFetch σ
                   else σ)
      | AtLoad, StTimeout =>
          onManager (compareExchange w POLLING SLEEPING) σ
            (λ swapped σ', SysDone (if swapped : bool
                                    then set_pc w AtFutexWait σ' else σ'))
      | AtFutexWait, StFutexWait =>
          SysDone (set_pc w (if decide (state wk = SLEEPING) then InFutexWait
                             else AtLoad) σ)
      | InFutexWait, StInterrupt =>
          SysDone (add_trace (ThLogError w) (set_pc w AtLoad σ))
      | AtFetch, StFetch =>
          match rpc wk with
          | WORKER_EXIT =>
              SysDone (add_trace (ThExit w) (set_pc w ThreadDone σ))
          | NULL => SysUndefined
          | Ptr r =>
              match serviceInfo wk with
              | None => SysUndefined
              | Some t =>
                  onManager (readInfo t) σ
                    (λ info σ',
                       SysDone (add_trace (ThInvoke w (serviceRef info) r)
                                  (set_pc w (InHandler r) σ')))
              end
          end
      | InHandler r, StSendReply =>
          onManager (sendReply w) σ
            (λ _ σ', SysDone (add_trace (ThSendReply w r) σ'))
      | InHandler r, StReturn =>
          onManager (workerAct w ActHandlerReturn) σ
            (λ _ σ', SysDone (add_trace (ThReturn w r) (set_pc w AtLoad σ')))
      | InHandler r, StThrow =>
          SysTerminated (add_trace (ThLogException w) σ)
      | _, _ => SysDone σ
      end
  | _, _ => SysDone σ
  end.

(** How the threads react to an effect of the dispatch thread:
    [thread.construct(workerMain, worker)] starts a thread at the top of
    [workerMain]; a [futexWake] that succeeds lets a thread blocked in
    [futexWait] continue.  [wakeOk w] tells whether the [futexWake]
    calls for the thread of worker [w] succeed; after one that fails
    (it returns -1, [Worker::handoff] logs the error and goes on) the
    thread stays where it is. *)
Definition react (wakeOk : nat → bool) (ths : list ThreadPc) (e : Event)
    : list ThreadPc :=
  match e with
  | EvThreadStart w => ths ++ [AtLoad]
  | EvFutexWake w _ =>
      if wakeOk w then
        match ths !! w with
        | Some InFutexWait => <[w := AtLoad]> ths
        | _ => ths
        end
      else ths
  | _ => ths
  end.

(** The failures of [futexWake] that the dispatch thread logs. *)
Definition failedWakes (wakeOk : nat → bool) (evs : list Event)
    : list ThreadEvent :=
  omap (λ e, match e with
             | EvFutexWake w _ =>
                 if wakeOk w then None else Some (ThWakeFailed w)
             | _ => None
             end) evs.

(** The system after the dispatch thread has taken the manager to
    [s']: the threads have reacted to the effects logged on the way. *)
Definition reacted (wakeOk : nat → bool) (σ : System) (s' : ServiceManager)
    : System :=
  {| manager := s';
     threads := foldl (react wakeOk) (threads σ)
                  (drop (length (log (manager σ))) (log s'));
     trace := trace σ ++
              failedWakes wakeOk (drop (length (log (manager σ))) (log s')) |}.

(** An operation of the dispatch thread, taken as one atomic step of the
    system: the steps of the worker threads fall between the calls of
    [handleRpc] and [poll].  In the source the two sides meet only at
    the state cell of a worker, which the dispatch thread reads once and
    exchanges at most once per worker and call, and at [rpc], which the
    thread reads only after it has seen WORKING. *)
Definition dispatch (wakeOk : nat → bool) (m : M unit) (σ : System)
    : SysOutcome :=
  onManager m σ (λ _ σ', SysDone (reacted wakeOk σ (manager σ'))).

(** The steps of the system: a call of [handleRpc] or of [poll] by the
    dispatch thread, together with the outcome of the [futexWake] calls
    it makes, or a step of a worker thread. *)
Inductive SysOp : Type :=
| SysHandleRpc (r : ServerRpc) (wakeOk : bool)
| SysPoll (wakeOk : nat → bool)
| SysThread (w : nat) (a : ThreadStep).

Section Threads.

Variable MAX_SERVICE : nat.
Variable TESTING : bool.

Definition sysStep (o : SysOp) (σ : System) : SysOutcome :=
  match o with
  | SysHandleRpc r wakeOk =>
      dispatch (λ _, wakeOk) (handleRpc MAX_SERVICE TESTING r) σ
  | SysPoll wakeOk => dispatch wakeOk poll σ
  | SysThread w a => threadStep w a σ
  end.

Fixpoint sysRun (ops : list SysOp) (σ : System) : SysOutcome :=
  match ops with
  | [] => SysDone σ
  | o :: rest =>
      match sysStep o σ with
      | SysDone σ' => sysRun rest σ'
      | failure => failure
      end
  end.

End Threads.

(** The system when the manager has been set up and no thread exists
    yet. *)
Definition System_new (s : ServiceManager) : System :=
  {| manager := s; threads := []; trace := [] |}.

(** States of the system: startup, then the dispatch thread and the
    worker threads take steps in any order. *)
Definition sysReachable (MAX_SERVICE : nat) (TESTING : bool)
    (regs : list (Service * nat)) (ops : list SysOp) (σ : System) : Prop :=
  ∃ s0, startup regs (ServiceManager_new MAX_SERVICE) = Done ((), s0) ∧
        sysRun MAX_SERVICE TESTING ops (System_new s0) = SysDone σ.

(** Requests passed to [handleRpc] during a run of the system. *)
Definition sysSubmitted (ops : list SysOp) : list ServerRpc :=
  omap (λ o, match o with SysHandleRpc r _ => Some r | _ => None end) ops.

(** Requests on which a handler was invoked, in order. *)
Definition invoked (tr : list ThreadEvent) : list ServerRpc :=
  omap (λ e, match e with ThInvoke _ _ r => Some r | _ => None end) tr.

(** Requests whose handler has called [Worker::sendReply] or has
    returned. *)
Definition signalled (tr : list ThreadEvent) : list ServerRpc :=
  omap (λ e, match e with
             | ThSendReply _ r | ThReturn _ r => Some r
             | _ => None
             end) tr.

(** The thread is waiting for work (it is not inside a handler). *)
Definition polling (pc : ThreadPc) : bool :=
  match pc with
  | AtLoad | AtFutexWait | InFutexWait | AtFetch => true
  | InHandler _ | ThreadDone => false
  end.

Definition inHandler (pc : ThreadPc) : bool :=
  match pc with InHandler _ => true | _ => false end.

(** What a worker and its thread show of each other: the state cell,
    the request slot, and where the thread stands. *)
Definition View : Type := WorkerState * RpcPtr * ThreadPc.

Definition view (wk : Worker) (pc : ThreadPc) : View := (state wk, rpc wk, pc).

Definition views (σ : System) : list View :=
  zip_with view (workers (manager σ)) (threads σ).

(** The request a worker was handed and whose handler its thread has
    not invoked yet. *)
Definition unstartedOf (v : View) : list ServerRpc :=
  if polling v.2 && bool_decide (v.1.1 = WORKING) then reqs [v.1.2] else [].

Definition unstarted (σ : System) : list ServerRpc :=
  views σ ≫= unstartedOf.


(** How the place of a thread and the cells of its worker fit
    together. *)
Definition ViewOk (busy : list nat) (w : nat) (v : View) : Prop :=
  match v.2 with
  | AtLoad | AtFutexWait =>
      v.1.1 ≠ POSTPROCESSING ∧
      (v.1.1 = WORKING → w ∈ busy ∧ ∃ r, v.1.2 = Ptr r)
  | InFutexWait =>
      v.1.1 = SLEEPING ∨ (v.1.1 = WORKING ∧ w ∈ busy ∧ ∃ r, v.1.2 = Ptr r)
  | AtFetch => v.1.1 = WORKING ∧ w ∈ busy ∧ ∃ r, v.1.2 = Ptr r
  | InHandler r =>
      w ∈ busy ∧
      ((v.1.1 = WORKING ∧ v.1.2 = Ptr r) ∨
       (v.1.1 = POSTPROCESSING ∧ (v.1.2 = Ptr r ∨ v.1.2 = NULL)))
  | ThreadDone => False
  end.

Record Linked (σ : System) : Prop := {
  linked_length : length (threads σ) = length (workers (manager σ));
  linked_ok : ∀ w v, views σ !! w = Some v →
                ViewOk (busyThreads (manager σ)) w v
}.

(** Where a thread stands after a handoff to its worker: a thread
    blocked in [futexWait] is woken if the exchange found SLEEPING and
    the [futexWake] succeeded ([ok]). *)
Definition wakePc (ok : bool) (v : View) : ThreadPc :=
  match v.2 with
  | InFutexWait =>
      if decide (v.1.1 = SLEEPING) then (if ok then AtLoad else InFutexWait)
      else InFutexWait
  | pc => pc
  end.

(** What a handoff adds to the trace: the failure of its [futexWake]. *)
Definition wakeLog (ok : bool) (w : nat) (v : View) : list ThreadEvent :=
  if decide (v.1.1 = SLEEPING) then (if ok then [] else [ThWakeFailed w])
  else [].

(** *** The steps of the system, as the threads see them *)

(** A step of the thread of worker [w]: the view before, the view
    after, and what the thread did. *)
Inductive ThreadMove (w : nat) : View → View → list ThreadEvent → Prop :=
| move_load p :
    ThreadMove w (WORKING, p, AtLoad) (WORKING, p, AtFetch) []
| move_timeout p :
    ThreadMove w (POLLING, p, AtLoad) (SLEEPING, p, AtFutexWait) []
| move_block p :
    ThreadMove w (SLEEPING, p, AtFutexWait) (SLEEPING, p, InFutexWait) []
| move_wouldblock st p :
    st ≠ SLEEPING →
    ThreadMove w (st, p, AtFutexWait) (st, p, AtLoad) []
| move_interrupt st p :
    ThreadMove w (st, p, InFutexWait) (st, p, AtLoad) [ThLogError w]
| move_invoke st r svc :
    ThreadMove w (st, Ptr r, AtFetch) (st, Ptr r, InHandler r) [ThInvoke w svc r]
| move_exit st :
    ThreadMove w (st, WORKER_EXIT, AtFetch) (st, WORKER_EXIT, ThreadDone)
      [ThExit w]
| move_sendReply st p r :
    ThreadMove w (st, p, InHandler r) (POSTPROCESSING, p, InHandler r)
      [ThSendReply w r]
| move_return st p r :
    ThreadMove w (st, p, InHandler r) (POLLING, p, AtLoad) [ThReturn w r].

(** What a step of the system does to the views, the busy list, the
    requests handed off and replied to, and the trace of the threads. *)
Inductive Delta (MAX_SERVICE : nat) (σ σ' : System) : Prop :=
| delta_quiet Δr :
    views σ' = views σ →
    busyThreads (manager σ') = busyThreads (manager σ) →
    handed (log (manager σ')) = handed (log (manager σ)) →
    replies (log (manager σ')) = replies (log (manager σ)) ++ Δr →
    Forall (λ r, unroutable MAX_SERVICE r (manager σ)) Δr →
    trace σ' = trace σ →
    Delta MAX_SERVICE σ σ'
| delta_start w v vs r t info ok :
    (views σ !! w = Some v ∧ vs = views σ) ∨
    (w = length (views σ) ∧ v = (POLLING, NULL, AtLoad) ∧ vs = views σ ++ [v]) →
    v.1.1 ≠ WORKING → v.1.1 ≠ POSTPROCESSING → v.1.2 = NULL →
    w ∉ busyThreads (manager σ) →
    routed MAX_SERVICE r (manager σ) t info →
    (requestsRunning info < maxThreads info)%Z →
    views σ' = <[w := (WORKING, Ptr r, wakePc ok v)]> vs →
    busyThreads (manager σ') = busyThreads (manager σ) ++ [w] →
    handed (log (manager σ')) = handed (log (manager σ)) ++ [r] →
    replies (log (manager σ')) = replies (log (manager σ)) →
    trace σ' = trace σ ++ wakeLog ok w v →
    Delta MAX_SERVICE σ σ'
| delta_reply w p pc :
    views σ !! w = Some (POSTPROCESSING, p, pc) →
    w ∈ busyThreads (manager σ) →
    views σ' = <[w := (POSTPROCESSING, NULL, pc)]> (views σ) →
    busyThreads (manager σ') = busyThreads (manager σ) →
    handed (log (manager σ')) = handed (log (manager σ)) →
    replies (log (manager σ')) = replies (log (manager σ)) ++ reqs [p] →
    trace σ' = trace σ →
    Delta MAX_SERVICE σ σ'
| delta_next w v r t info ok :
    views σ !! w = Some v →
    v.1.1 ≠ WORKING → v.1.1 ≠ POSTPROCESSING →
    w ∈ busyThreads (manager σ) →
    svcOf (workers (manager σ)) w = Some t →
    services (manager σ) !! t = Some (Some info) →
    head (waitingRpcs info) = Some (Ptr r) →
    views σ' = <[w := (WORKING, Ptr r, wakePc ok v)]> (views σ) →
    busyThreads (manager σ') = busyThreads (manager σ) →
    handed (log (manager σ')) = handed (log (manager σ)) ++ [r] →
    replies (log (manager σ')) = replies (log (manager σ)) ++ reqs [v.1.2] →
    trace σ' = trace σ ++ wakeLog ok w v →
    Delta MAX_SERVICE σ σ'
| delta_release w v :
    views σ !! w = Some v →
    v.1.1 ≠ WORKING → v.1.1 ≠ POSTPROCESSING →
    w ∈ busyThreads (manager σ) →
    views σ' = <[w := (v.1.1, NULL, v.2)]> (views σ) →
    (∀ x, x ∈ busyThreads (manager σ') ↔ x ∈ busyThreads (manager σ) ∧ x ≠ w) →
    handed (log (manager σ')) = handed (log (manager σ)) →
    replies (log (manager σ')) = replies (log (manager σ)) ++ reqs [v.1.2] →
    trace σ' = trace σ →
    Delta MAX_SERVICE σ σ'
| delta_thread w v v' Δt :
    views σ !! w = Some v →
    ThreadMove w v v' Δt →
    (∀ svc r, ThInvoke w svc r ∈ Δt →
       ∃ t info, svcOf (workers (manager σ)) w = Some t ∧
                 services (manager σ) !! t = Some (Some info) ∧
                 svc = serviceRef info) →
    views σ' = <[w := v']> (views σ) →
    busyThreads (manager σ') = busyThreads (manager σ) →
    handed (log (manager σ')) = handed (log (manager σ)) →
    replies (log (manager σ')) = replies (log (manager σ)) →
    trace σ' = trace σ ++ Δt →
    Delta MAX_SERVICE σ σ'.

(** Requests handed to workers or waiting in the queues of services were
    submitted, each as often as it was submitted. *)
Definition Taken (hist : list ServerRpc) (s : ServiceManager) : Prop :=
  handed (log s) ++ queued (services s) ⊆+ hist.

(** Everything known of the manager along a run of the system: the
    invariants of the dispatcher, and the registrations [R] made at
    startup. *)
Definition Sound (MAX_SERVICE : nat) (R : list (option (Service * Z)))
    (hist : list ServerRpc) (s : ServiceManager) : Prop :=
  Good MAX_SERVICE hist s ∧ Routed s ∧ Live s ∧ Taken hist s ∧
  registry (services s) = R.

(** Every request handed to a worker has had its handler invoked, or
    still waits for its thread. *)
Definition Accounted (σ : System) : Prop :=
  handed (log (manager σ)) ≡ₚ invoked (trace σ) ++ unstarted σ.

(** Cause and effect between the threads and the dispatcher: a request
    left in the slot of a worker that is not WORKING has been signalled
    by its handler; a thread inside the handler of a request has invoked
    it; a handler signals only after it was invoked; a reply was sent
    only for a request that cannot be routed or that was signalled; and
    a thread is blocked in [futexWait] while its cell holds WORKING only
    after a [futexWake] for it has failed. *)
Record Causal (MAX_SERVICE : nat) (σ : System) : Prop := {
  causal_slot : ∀ w v r, views σ !! w = Some v → v.1.2 = Ptr r →
                  v.1.1 ≠ WORKING → r ∈ signalled (trace σ);
  causal_handler : ∀ w v r, views σ !! w = Some v → v.2 = InHandler r →
                     r ∈ invoked (trace σ);
  causal_signal : ∀ r, r ∈ signalled (trace σ) → r ∈ invoked (trace σ);
  causal_reply : ∀ r, r ∈ replies (log (manager σ)) →
                   unroutable MAX_SERVICE r (manager σ) ∨
                   r ∈ signalled (trace σ);
  causal_parked : ∀ w v, views σ !! w = Some v → v.2 = InFutexWait →
                    v.1.1 = WORKING → ThWakeFailed w ∈ trace σ
}.

(** Every handler that was invoked belongs to the service registered
    under the tag of the request. *)
Definition InvokedRight (regs : list (Service * nat)) (σ : System) : Prop :=
  ∀ w svc r, ThInvoke w svc r ∈ trace σ →
    ∃ t, tagOf r = Some t ∧ (svc, t) ∈ regs.

(** For a service that runs at most one request at a time, the handlers
    were invoked in the order of the handoffs. *)
Definition InOrder (σ : System) : Prop :=
  ∀ t info, services (manager σ) !! t = Some (Some info) →
    (0 ≤ maxThreads info ≤ 1)%Z →
    forService t (handed (log (manager σ))) =
    forService t (invoked (trace σ)) ++ forService t (unstarted σ).


(** *** A run of the system, for the examples *)

Definition exSys (ops : list SysOp) : System :=
  match sysRun 3 true ops (System_new exStart) with
  | SysDone σ => σ
  | _ => System_new exStart
  end.

(** Two requests for the service; the worker has been handed the first
    and its thread has not looked yet. *)
Definition exSysHanded : list SysOp :=
  [SysHandleRpc (exRpc 10 x02) true; SysHandleRpc (exRpc 11 x02) true].

(** The thread of the worker is inside the handler of the first
    request. *)
Definition exSysHandling : list SysOp :=
  exSysHanded ++ [SysThread 0 StLoad; SysThread 0 StFetch].

(** The first request is served and replied to, the handler of the
    second one has been invoked. *)
Definition exSysSecond : list SysOp :=
  exSysHandling ++ [SysThread 0 StReturn; SysPoll (λ _, true);
                    SysThread 0 StLoad; SysThread 0 StFetch].



(** A testing build gets three requests while [waitForRpc] polls: the
    first poll of the clock delivers one, the second two. *)
Definition exClock : list (bool * list Op) :=
  [(false, [OpHandleRpc (exRpc 20 x02)]);
   (false, [OpHandleRpc (exRpc 21 x02); OpHandleRpc (exRpc 22 x02)]);
   (true, [])].

Arguments handoff : simpl never.
Arguments handleRpc : simpl never.
Arguments pollWorker : simpl never.
Arguments poll : simpl never.
Arguments addService : simpl never.
Arguments findService : simpl never.
Arguments workerAct : simpl never.
Arguments exit : simpl never.

(** ** Symbolic execution of monadic code *)

Ltac munfold :=
  unfold exchange, futexWake, writeWorker, writeInfo, writeBusy, newWorker,
    readWorker, readInfo, readSlot, readBusy, emit, assertM, abort, undefined,
    spinning, modify, gets, bindM, retM.

Ltac msimp :=
  repeat (simpl;
    match goal with
    | H : ?l !! ?i = _ |- context [?l !! ?i] => rewrite H
    | H : rpc ?wk = _ |- context [rpc ?wk] => rewrite H
    | H : back ?l = _ |- context [back ?l] => rewrite H
    | |- context [(?l ++ [_]) !! length ?l] =>
        rewrite list_lookup_middle by done
    | |- context [<[?i := _]> ?l !! ?i] =>
        rewrite list_lookup_insert_eq
          by (rewrite ?length_insert, ?length_app; simpl;
              eauto using lookup_lt_Some; lia)
    | |- context [<[?i := _]> ?l !! ?j] =>
        rewrite list_lookup_insert_ne by done
    end); simpl.

(** Two managers are equal when their fields are. *)
Lemma ServiceManager_eq (s1 s2 : ServiceManager) :
  services s1 = services s2 →
  busyThreads s1 = busyThreads s2 →
  idleThreads s1 = idleThreads s2 →
  serviceCount s1 = serviceCount s2 →
  testRpcs s1 = testRpcs s2 →
  workers s1 = workers s2 →
  log s1 = log s2 →
  s1 = s2.
Proof. destruct s1, s2; simpl; by intros -> -> -> -> -> -> ->. Qed.

Ltac state_eq :=
  match goal with
  | |- Done (_, ?a) = Done (_, ?b) =>
      apply (f_equal (λ x, Done ((), x)))
  end;
  apply ServiceManager_eq; simpl;
  unfold handoffEvents, replyEvents, errorEvents; msimp;
  repeat case_decide;
  rewrite ?list_insert_insert_eq, <- ?app_assoc; try done.

(** ** The handoff *)

Lemma handoff_eq w p s :
  handoff w p s =
  match workers s !! w with
  | None => Undefined
  | Some wk =>
      match rpc wk with
      | NULL => Done ((), afterHandoff w p wk s)
      | _ => AssertionFailed
      end
  end.
Proof.
  unfold handoff. munfold.
  destruct (workers s !! w) as [wk|] eqn:Hw; msimp; [|done].
  destruct (rpc wk) eqn:Hr; msimp; try done.
  unfold handoffEvents.
  destruct (decide (state wk = SLEEPING)); simpl; state_eq.
Qed.

(** ** Registration and admission *)

Lemma addService_eq svc type s :
  addService svc type s =
  match services s !! type with
  | None => Undefined
  | Some (Some _) => AssertionFailed
  | Some None =>
      Done ((), set_serviceCount (λ n, n + 1)%Z
                  (set_services (λ svcs, <[type := Some (ServiceInfo_new svc)]> svcs) s))
  end.
Proof.
  unfold addService. munfold.
  destruct (services s !! type) as [[info|]|] eqn:Hs; msimp; done.
Qed.

Lemma findService_eq MAX header s :
  findService MAX header s =
  match header with
  | None => Done (None, s)
  | Some h =>
      if (MAX <? service h)%nat then Done (None, s)
      else match services s !! service h with
           | None => Undefined
           | Some slot =>
               Done (match slot with Some _ => Some (service h) | None => None end, s)
           end
  end.
Proof.
  unfold findService. munfold.
  destruct header as [h|]; [|done].
  destruct (MAX <? service h)%nat; [done|].
  destruct (services s !! service h) as [slot|] eqn:Hs; msimp; done.
Qed.

Lemma handleRpc_unroutable MAX T r s :
  epochIsSet r = true →
  unroutable MAX r s →
  handleRpc MAX T r s = Done ((), afterUnroutable T r s).
Proof.
  intros He Hu. unfold handleRpc, unroutable, afterUnroutable, errorEvents in *.
  unfold bindM at 1. rewrite He. simpl.
  unfold bindM at 1. rewrite findService_eq.
  destruct (getStart (requestPayload r)) as [h|] eqn:Hh.
  - assert (Hf : (if (MAX <? service h)%nat then Done (None, s)
             else match services s !! service h with
                  | None => Undefined
                  | Some slot =>
                      Done (match slot with
                            | Some _ => Some (service h)
                            | None => None
                            end, s)
                  end) = Done (None, s)).
    { destruct Hu as [Hu|Hu].
      - apply Nat.ltb_lt in Hu. by rewrite Hu.
      - rewrite Hu. by destruct (MAX <? service h)%nat. }
    rewrite Hf. munfold. simpl.
    destruct (T && (serviceCount s =? 0)%Z); simpl; [done|]. state_eq.
  - munfold. simpl.
    destruct (T && (serviceCount s =? 0)%Z); simpl; [done|]. state_eq.
Qed.

Lemma pop_back_snoc {A} (l : list A) x : pop_back (l ++ [x]) = l.
Proof.
  unfold pop_back. rewrite length_app. simpl.
  replace (length l + 1 - 1) with (length l) by lia.
  by rewrite take_app_length.
Qed.

Lemma back_Some {A} (l : list A) x : back l = Some x → l = pop_back l ++ [x].
Proof.
  unfold back. intros [l' ->]%last_Some. by rewrite pop_back_snoc.
Qed.

Ltac enter_found He Hh Hs :=
  unfold handleRpc; unfold bindM at 1; rewrite He; simpl;
  unfold bindM at 1; rewrite findService_eq, Hh;
  replace (_ <? service _)%nat with false by (symmetry; apply Nat.ltb_ge; lia);
  rewrite Hs.

Ltac enter_routed He Hr :=
  let h := fresh "h" in
  let Hh := fresh "Hh" in
  let Hle := fresh "Hle" in
  let Hs := fresh "Hs" in
  destruct Hr as (h & Hh & <- & Hle & Hs);
  enter_found He Hh Hs.

Lemma handleRpc_queue MAX T r s t info :
  epochIsSet r = true →
  routed MAX r s t info →
  (maxThreads info ≤ requestsRunning info)%Z →
  handleRpc MAX T r s = Done ((), afterQueue t info r s).
Proof.
  intros He Hr Hfull. enter_routed He Hr.
  munfold. msimp.
  replace (_ <=? _)%Z with true by (symmetry; by apply Z.leb_le).
  msimp. done.
Qed.

Lemma handleRpc_start_idle MAX T r s t info w wk :
  epochIsSet r = true →
  routed MAX r s t info →
  (requestsRunning info < maxThreads info)%Z →
  back (idleThreads s) = Some w →
  workers s !! w = Some wk →
  rpc wk = NULL →
  handleRpc MAX T r s =
  Done ((), afterStart w wk t info r (set_idleThreads pop_back s)).
Proof.
  intros He Hr Hfree Hb Hw Hnull. enter_routed He Hr.
  unfold bindM at 1. unfold readInfo. munfold. msimp.
  replace (_ <=? _)%Z with false by (symmetry; apply Z.leb_gt; lia).
  msimp. rewrite handoff_eq. msimp. state_eq.
Qed.

Lemma handleRpc_start_new MAX T r s t info :
  epochIsSet r = true →
  routed MAX r s t info →
  (requestsRunning info < maxThreads info)%Z →
  idleThreads s = [] →
  handleRpc MAX T r s =
  Done ((), afterStart (length (workers s)) Worker_new t info r (afterSpawn s)).
Proof.
  intros He Hr Hfree Hb. enter_routed He Hr.
  unfold bindM at 1. unfold readInfo. munfold. msimp.
  replace (_ <=? _)%Z with false by (symmetry; apply Z.leb_gt; lia).
  msimp. rewrite Hb. unfold back. msimp. rewrite handoff_eq. msimp. state_eq.
Qed.

(** ** One iteration of the poller *)

Lemma readBusy_eq i w s :
  busyThreads s !! i = Some w → readBusy (Z.of_nat i) s = Done (w, s).
Proof.
  intros Hb. unfold readBusy. munfold.
  replace (0 <=? Z.of_nat i)%Z with true by (symmetry; apply Z.leb_le; lia).
  rewrite Nat2Z.id. msimp. done.
Qed.

Lemma set_rpc_id wk : rpc wk = NULL → set_rpc NULL wk = wk.
Proof. destruct wk; simpl; by intros ->. Qed.

Lemma pollWorker_working i w wk s :
  busyThreads s !! i = Some w →
  workers s !! w = Some wk →
  busyIndex wk = Z.of_nat i →
  state wk = WORKING →
  pollWorker i s = Done ((), s).
Proof.
  intros Hb Hw Hi Hst. unfold pollWorker.
  unfold bindM at 1. rewrite (readBusy_eq _ _ _ Hb).
  munfold. msimp. rewrite Hi, Z.eqb_refl. simpl. rewrite Hst. done.
Qed.

(** The part of an iteration up to the test for POSTPROCESSING. *)
Ltac enter_poll Hb Hw Hi Hst :=
  unfold pollWorker;
  unfold bindM at 1; rewrite (readBusy_eq _ _ _ Hb);
  unfold bindM at 1; unfold readWorker at 1; munfold; msimp;
  rewrite Hi, Z.eqb_refl; simpl;
  destruct (decide (_ = WORKING)) as [?|_]; [done|].

Lemma afterReply_workers w wk s :
  workers s !! w = Some wk →
  workers (afterReply w wk s) !! w = Some (set_rpc NULL wk).
Proof. intros Hw. simpl. msimp. done. Qed.

Lemma pollWorker_post i w wk s :
  busyThreads s !! i = Some w →
  workers s !! w = Some wk →
  busyIndex wk = Z.of_nat i →
  state wk = POSTPROCESSING →
  rpc wk ≠ WORKER_EXIT →
  pollWorker i s = Done ((), afterReply w wk s).
Proof.
  intros Hb Hw Hi Hst Hx.
  assert (state wk ≠ WORKING) by congruence.
  enter_poll Hb Hw Hi Hst.
  destruct (decide (_ = POSTPROCESSING)); [|done].
  unfold replyEvents.
  destruct (rpc wk) eqn:Hr; [| done |]; msimp; state_eq.
  by rewrite (set_rpc_id wk Hr), list_insert_id.
Qed.

Lemma pollWorker_next i w wk t info front s :
  busyThreads s !! i = Some w →
  workers s !! w = Some wk →
  busyIndex wk = Z.of_nat i →
  state wk ≠ WORKING →
  state wk ≠ POSTPROCESSING →
  rpc wk ≠ WORKER_EXIT →
  serviceInfo wk = Some t →
  services s !! t = Some (Some info) →
  head (waitingRpcs info) = Some front →
  pollWorker i s = Done ((), afterNext w wk t info front s).
Proof.
  intros Hb Hw Hi Hst Hpp Hx Ht Hs Hq.
  enter_poll Hb Hw Hi Hst.
  destruct (decide (_ = POSTPROCESSING)); [done|].
  rewrite Ht. destruct (waitingRpcs info) as [|p rest] eqn:Hwait; [done|].
  simpl in Hq. injection Hq as ->.
  unfold replyEvents.
  destruct (rpc wk) eqn:Hr; [| done |]; msimp; rewrite Hwait; msimp;
    rewrite handoff_eq; msimp; state_eq.
Qed.

Lemma pollWorker_release i w wk t info lastWorker moved s :
  busyThreads s !! i = Some w →
  workers s !! w = Some wk →
  busyIndex wk = Z.of_nat i →
  state wk ≠ WORKING →
  state wk ≠ POSTPROCESSING →
  rpc wk ≠ WORKER_EXIT →
  serviceInfo wk = Some t →
  services s !! t = Some (Some info) →
  waitingRpcs info = [] →
  back (busyThreads s) = Some lastWorker →
  (w ≠ lastWorker → workers s !! lastWorker = Some moved) →
  pollWorker i s = Done ((), afterRelease i w wk t info lastWorker moved s).
Proof.
  intros Hb Hw Hi Hst Hpp Hx Ht Hs Hq Hl Hm.
  enter_poll Hb Hw Hi Hst.
  destruct (decide (_ = POSTPROCESSING)); [done|].
  rewrite Ht.
  unfold replyEvents, swapRemove.
  destruct (decide (w = lastWorker)) as [<-|Hne].
  - destruct (rpc wk) eqn:Hr; [| done |]; msimp; rewrite Hq; msimp;
      (destruct (decide (w = w)); [|done]); msimp; state_eq;
      try (unfold swapRemove; case_decide; done);
      by rewrite (set_rpc_id wk Hr).
  - specialize (Hm Hne).
    destruct (rpc wk) eqn:Hr; [| done |]; msimp; rewrite Hq; msimp;
      (destruct (decide (w = lastWorker)); [done|]); msimp;
      rewrite ?Hi, ?Nat2Z.id;
      replace (0 <=? Z.of_nat i)%Z with true by (symmetry; apply Z.leb_le; lia);
      msimp; state_eq;
      try (unfold swapRemove; case_decide; done);
      by rewrite (set_rpc_id wk Hr), ?(list_insert_id (workers s) w wk).
Qed.

(** All cases of an iteration at once. *)
Lemma pollWorker_eq i s :
  pollWorker i s =
  match busyThreads s !! i with
  | None => Undefined
  | Some w =>
    match workers s !! w with
    | None => Undefined
    | Some wk =>
      if (busyIndex wk =? Z.of_nat i)%Z then
        if decide (state wk = WORKING) then Done ((), s)
        else
          match rpc wk with
          | WORKER_EXIT => Undefined
          | _ =>
            if decide (state wk = POSTPROCESSING)
            then Done ((), afterReply w wk s)
            else
              match serviceInfo wk with
              | None => Undefined
              | Some t =>
                match services s !! t with
                | Some (Some info) =>
                  match waitingRpcs info with
                  | front :: _ => Done ((), afterNext w wk t info front s)
                  | [] =>
                    match back (busyThreads s) with
                    | None => Undefined
                    | Some lastWorker =>
                      if decide (w = lastWorker)
                      then Done ((), afterRelease i w wk t info lastWorker wk s)
                      else
                        match workers s !! lastWorker with
                        | None => Undefined
                        | Some moved =>
                            Done ((), afterRelease i w wk t info lastWorker moved s)
                        end
                    end
                  end
                | _ => Undefined
                end
              end
          end
      else AssertionFailed
    end
  end.
Proof.
  destruct (busyThreads s !! i) as [w|] eqn:Hb.
  2:{ unfold pollWorker. munfold.
      replace (0 <=? Z.of_nat i)%Z with true by (symmetry; apply Z.leb_le; lia).
      rewrite Nat2Z.id. msimp. done. }
  destruct (workers s !! w) as [wk|] eqn:Hw.
  2:{ unfold pollWorker. unfold bindM at 1. rewrite (readBusy_eq _ _ _ Hb).
      munfold. msimp. done. }
  destruct (busyIndex wk =? Z.of_nat i)%Z eqn:Hi.
  2:{ unfold pollWorker. unfold bindM at 1. rewrite (readBusy_eq _ _ _ Hb).
      munfold. msimp. rewrite Hi. done. }
  apply Z.eqb_eq in Hi.
  destruct (decide (state wk = WORKING)) as [Hst|Hst].
  { eauto using pollWorker_working. }
  assert (Hx : rpc wk = WORKER_EXIT ∨ rpc wk ≠ WORKER_EXIT)
    by (destruct (rpc wk); auto).
  destruct Hx as [Hx|Hx].
  { rewrite Hx. enter_poll Hb Hw Hi Hst. done. }
  assert (Hgoal : ∀ X : outcome (unit * ServiceManager),
    pollWorker i s = X →
    pollWorker i s = match rpc wk with WORKER_EXIT => Undefined | _ => X end).
  { intros X ->. by destruct (rpc wk). }
  apply Hgoal. clear Hgoal.
  destruct (decide (state wk = POSTPROCESSING)) as [Hpp|Hpp].
  { eauto using pollWorker_post. }
  destruct (serviceInfo wk) as [t|] eqn:Ht.
  2:{ enter_poll Hb Hw Hi Hst.
      destruct (decide (_ = POSTPROCESSING)); [done|]. rewrite Ht.
      destruct (rpc wk); msimp; done. }
  destruct (services s !! t) as [[info|]|] eqn:Hs.
  2,3: enter_poll Hb Hw Hi Hst;
       (destruct (decide (_ = POSTPROCESSING)); [done|]); rewrite Ht;
       destruct (rpc wk); msimp; done.
  destruct (waitingRpcs info) as [|front rest] eqn:Hq.
  2:{ eapply pollWorker_next; eauto. by rewrite Hq. }
  destruct (back (busyThreads s)) as [lastWorker|] eqn:Hl.
  2:{ enter_poll Hb Hw Hi Hst.
      (destruct (decide (_ = POSTPROCESSING)); [done|]); rewrite Ht.
      destruct (rpc wk); msimp; rewrite ?Hq; msimp; done. }
  destruct (decide (w = lastWorker)) as [Heq|Hne].
  { eapply pollWorker_release; eauto. done. }
  destruct (workers s !! lastWorker) as [moved|] eqn:Hm.
  { eapply pollWorker_release; eauto. }
  enter_poll Hb Hw Hi Hst.
  (destruct (decide (_ = POSTPROCESSING)); [done|]); rewrite Ht.
  destruct (rpc wk); msimp; rewrite ?Hq; msimp;
    try (destruct (decide (w = lastWorker)); [done|]); msimp;
    rewrite ?Hi, ?Nat2Z.id;
    replace (0 <=? Z.of_nat i)%Z with true by (symmetry; apply Z.leb_le; lia);
    msimp; done.
Qed.

(** ** All cases of [handleRpc] at once *)

Lemma handleRpc_eq MAX T r s :
  handleRpc MAX T r s =
  if epochIsSet r then
    match getStart (requestPayload r) with
    | None => Done ((), afterUnroutable T r s)
    | Some h =>
      if (MAX <? service h)%nat then Done ((), afterUnroutable T r s)
      else
        match services s !! service h with
        | None => Undefined
        | Some None => Done ((), afterUnroutable T r s)
        | Some (Some info) =>
          if (maxThreads info <=? requestsRunning info)%Z
          then Done ((), afterQueue (service h) info r s)
          else
            match back (idleThreads s) with
            | None =>
                Done ((), afterStart (length (workers s)) Worker_new
                            (service h) info r (afterSpawn s))
            | Some w =>
              match workers s !! w with
              | None => Undefined
              | Some wk =>
                match rpc wk with
                | NULL =>
                    Done ((), afterStart w wk (service h) info r
                                (set_idleThreads pop_back s))
                | _ => AssertionFailed
                end
              end
            end
        end
    end
  else AssertionFailed.
Proof.
  destruct (epochIsSet r) eqn:He.
  2:{ unfold handleRpc. unfold bindM at 1. rewrite He. done. }
  destruct (getStart (requestPayload r)) as [h|] eqn:Hh.
  2:{ apply handleRpc_unroutable; [done|]. unfold unroutable. by rewrite Hh. }
  destruct (MAX <? service h)%nat eqn:Hmax.
  { apply handleRpc_unroutable; [done|]. unfold unroutable. rewrite Hh.
    left. by apply Nat.ltb_lt. }
  apply Nat.ltb_ge in Hmax.
  destruct (services s !! service h) as [[info|]|] eqn:Hs.
  3:{ unfold handleRpc; unfold bindM at 1; rewrite He; simpl.
      unfold bindM at 1. rewrite findService_eq, Hh, Hs.
      by replace (_ <? service h)%nat with false
        by (symmetry; apply Nat.ltb_ge; lia). }
  2:{ apply handleRpc_unroutable; [done|]. unfold unroutable. rewrite Hh. auto. }
  assert (Hr : routed MAX r s (service h) info) by (exists h; auto).
  destruct (maxThreads info <=? requestsRunning info)%Z eqn:Hfull.
  { apply handleRpc_queue; [done..|]. by apply Z.leb_le. }
  apply Z.leb_gt in Hfull.
  destruct (back (idleThreads s)) as [w|] eqn:Hb.
  2:{ apply handleRpc_start_new; [done..|]. by apply last_None. }
  destruct (workers s !! w) as [wk|] eqn:Hw.
  2:{ enter_found He Hh Hs. unfold bindM at 1. unfold readInfo. munfold. msimp.
      replace (_ <=? _)%Z with false by (symmetry; apply Z.leb_gt; lia).
      msimp. done. }
  destruct (rpc wk) eqn:Hnull.
  1:{ by eapply handleRpc_start_idle. }
  all: enter_found He Hh Hs; unfold bindM at 1; unfold readInfo; munfold; msimp;
    replace (_ <=? _)%Z with false by (symmetry; apply Z.leb_gt; lia);
    msimp; rewrite handoff_eq; msimp; done.
Qed.

(** ** Worker threads *)

Lemma workerAct_eq w a s :
  workerAct w a s =
  match workers s !! w with
  | None => Undefined
  | Some wk =>
      Done ((), match a with
                | ActSendReply =>
                    set_workers (λ ws, <[w := set_state POSTPROCESSING wk]> ws) s
                | ActHandlerReturn =>
                    set_workers (λ ws, <[w := set_state POLLING wk]> ws) s
                | ActSleep =>
                    if decide (state wk = POLLING)
                    then set_workers (λ ws, <[w := set_state SLEEPING wk]> ws) s
                    else s
                end)
  end.
Proof.
  unfold workerAct, sendReply, compareExchange.
  destruct (workers s !! w) as [wk|] eqn:Hw; destruct a; munfold; msimp;
    try done.
  destruct (decide (state wk = POLLING)); msimp; done.
Qed.

(** ** The operations and their step relations *)

Lemma handleRpc_cases MAX T r s s' :
  handleRpc MAX T r s = Done ((), s') ↔
  epochIsSet r = true ∧ handleStep MAX T r s s'.
Proof.
  split.
  - rewrite handleRpc_eq. unfold routed.
    destruct (epochIsSet r); [|done].
    destruct (getStart (requestPayload r)) as [h|] eqn:Hh.
    2:{ intros [= <-]. split; [done|]. constructor. unfold unroutable.
        by rewrite Hh. }
    destruct (MAX <? service h)%nat eqn:Hmax.
    { intros [= <-]. split; [done|]. constructor. unfold unroutable.
      rewrite Hh. left. by apply Nat.ltb_lt. }
    apply Nat.ltb_ge in Hmax.
    destruct (services s !! service h) as [[info|]|] eqn:Ht; [| |done].
    2:{ intros [= <-]. split; [done|]. constructor. unfold unroutable.
        rewrite Hh. by right. }
    assert (Hr : routed MAX r s (service h) info) by (exists h; auto).
    destruct (maxThreads info <=? requestsRunning info)%Z eqn:Hfull.
    { intros [= <-]. split; [done|]. apply handle_queue; [done|].
      by apply Z.leb_le. }
    apply Z.leb_gt in Hfull.
    destruct (back (idleThreads s)) as [w|] eqn:Hb.
    + destruct (workers s !! w) as [wk|] eqn:Hw; [|done].
      destruct (rpc wk) eqn:Hnull; try done. intros [= <-].
      split; [done|]. by eapply handle_start_idle.
    + intros [= <-]. split; [done|]. apply handle_start_new; [done..|].
      by apply last_None.
  - intros [He Hstep]. destruct Hstep.
    + by apply handleRpc_unroutable.
    + by apply handleRpc_queue.
    + by apply handleRpc_start_idle.
    + by apply handleRpc_start_new.
Qed.

Lemma pollWorker_cases i s s' :
  pollWorker i s = Done ((), s') ↔ pollStep i s s'.
Proof.
  split.
  - rewrite pollWorker_eq.
    destruct (busyThreads s !! i) as [w|] eqn:Hb; [|done].
    destruct (workers s !! w) as [wk|] eqn:Hw; [|done].
    destruct (busyIndex wk =? Z.of_nat i)%Z eqn:Hi; [|done].
    apply Z.eqb_eq in Hi.
    destruct (decide (state wk = WORKING)).
    { intros [= <-]. by eapply poll_working. }
    assert (Hx : rpc wk = WORKER_EXIT ∨ rpc wk ≠ WORKER_EXIT)
      by (destruct (rpc wk); auto).
    destruct Hx as [Hx|Hx]; [by rewrite Hx|].
    intros Hrest.
    assert (Hrest' :
      (if decide (state wk = POSTPROCESSING)
       then Done ((), afterReply w wk s)
       else
         match serviceInfo wk with
         | None => Undefined
         | Some t =>
           match services s !! t with
           | Some (Some info) =>
             match waitingRpcs info with
             | front :: _ => Done ((), afterNext w wk t info front s)
             | [] =>
               match back (busyThreads s) with
               | None => Undefined
               | Some lastWorker =>
                 if decide (w = lastWorker)
                 then Done ((), afterRelease i w wk t info lastWorker wk s)
                 else
                   match workers s !! lastWorker with
                   | None => Undefined
                   | Some moved =>
                       Done ((), afterRelease i w wk t info lastWorker moved s)
                   end
               end
             end
           | _ => Undefined
           end
         end) = Done ((), s')) by (by destruct (rpc wk)).
    clear Hrest. revert Hrest'.
    destruct (decide (state wk = POSTPROCESSING)).
    { intros [= <-]. by eapply poll_post. }
    destruct (serviceInfo wk) as [t|] eqn:Hsi; [|done].
    destruct (services s !! t) as [[info|]|] eqn:Ht; [|done..].
    destruct (waitingRpcs info) as [|front rest] eqn:Hq.
    + destruct (back (busyThreads s)) as [lastWorker|] eqn:Hl; [|done].
      destruct (decide (w = lastWorker)).
      * intros [= <-]. by eapply poll_release.
      * destruct (workers s !! lastWorker) as [moved|] eqn:Hm; [|done].
        intros [= <-]. by eapply poll_release.
    + intros [= <-]. eapply poll_next; eauto. by rewrite Hq.
  - intros Hstep. destruct Hstep.
    + by eapply pollWorker_working.
    + by eapply pollWorker_post.
    + by eapply pollWorker_next.
    + by eapply pollWorker_release.
Qed.

(** ** Counting bound workers *)

Lemma filter_length_ext {A} (P Q : A → Prop)
    `{!∀ x, Decision (P x)} `{!∀ x, Decision (Q x)} (l : list A) :
  (∀ x, x ∈ l → (P x ↔ Q x)) →
  length (filter P l) = length (filter Q l).
Proof.
  induction l as [|a l IH]; intros Hpq; [done|].
  rewrite !filter_cons.
  assert (Ha : P a ↔ Q a) by (apply Hpq; left).
  assert (Hl : length (filter P l) = length (filter Q l)).
  { apply IH. intros x Hx. apply Hpq. by right. }
  destruct (decide (P a)), (decide (Q a)); simpl; tauto || lia.
Qed.

Lemma svcOf_insert_ne ws w x wk :
  x ≠ w → svcOf (<[w := wk]> ws) x = svcOf ws x.
Proof. intros Hne. unfold svcOf. by rewrite list_lookup_insert_ne. Qed.

Lemma svcOf_insert_same ws w x wk wk' :
  ws !! w = Some wk → serviceInfo wk' = serviceInfo wk →
  svcOf (<[w := wk']> ws) x = svcOf ws x.
Proof.
  intros Hw Hs. destruct (decide (x = w)) as [->|Hne].
  - unfold svcOf. rewrite list_lookup_insert_eq by eauto using lookup_lt_Some.
    rewrite Hw. simpl. done.
  - by apply svcOf_insert_ne.
Qed.

Lemma svcOf_app ws x wk :
  x < length ws → svcOf (ws ++ [wk]) x = svcOf ws x.
Proof. intros Hlt. unfold svcOf. by rewrite lookup_app_l. Qed.

Lemma running_ext t s s' :
  busyThreads s' = busyThreads s →
  (∀ w, w ∈ busyThreads s → svcOf (workers s') w = svcOf (workers s) w) →
  running t s' = running t s.
Proof.
  intros Hb Hw. unfold running. rewrite Hb.
  apply filter_length_ext. intros x Hx. by rewrite Hw.
Qed.

(** ** Steps that keep the bookkeeping invariant *)

Lemma Inv_set_log f s : Inv s → Inv (set_log f s).
Proof. intros [? ? ? ? ?]. by constructor. Qed.

Lemma Inv_set_testRpcs f s : Inv s → Inv (set_testRpcs f s).
Proof. intros [? ? ? ? ?]. by constructor. Qed.

(** A worker record may change as long as its service and index stay
    and an idle worker keeps an empty request slot. *)
Lemma Inv_worker_upd s w wk wk' :
  Inv s →
  workers s !! w = Some wk →
  serviceInfo wk' = serviceInfo wk →
  busyIndex wk' = busyIndex wk →
  (w ∈ idleThreads s → rpc wk' = NULL) →
  Inv (set_workers (λ ws, <[w := wk']> ws) s).
Proof.
  intros [Hnd Hdom Hbusy Hidle Hsvc] Hw Hsi Hbi Hrpc.
  assert (Hlt : w < length (workers s)) by eauto using lookup_lt_Some.
  constructor; simpl.
  - done.
  - intros x. rewrite length_insert. apply Hdom.
  - intros i x Hx. destruct (Hbusy i x Hx) as (xk & t & info & Hxk & ? & ? & ?).
    simpl. destruct (decide (x = w)) as [->|Hne].
    + rewrite list_lookup_insert_eq by done.
      exists wk', t, info. simplify_eq. rewrite Hsi, Hbi. done.
    + rewrite list_lookup_insert_ne by done. eauto 10.
  - intros x Hx. destruct (Hidle x Hx) as (xk & Hxk & ? & ?).
    simpl in *. destruct (decide (x = w)) as [->|Hne].
    + rewrite list_lookup_insert_eq by done.
      exists wk'. simplify_eq. rewrite Hbi. auto.
    + rewrite list_lookup_insert_ne by done. eauto.
  - intros t info Ht. simpl in Ht.
    replace (running t _) with (running t s); [by apply Hsvc|].
    symmetry. apply running_ext; [done|]. intros x _. simpl.
    by eapply svcOf_insert_same.
Qed.

(** The entry of a service may change as long as its counters stay and
    a non-empty queue comes with a full service. *)
Lemma Inv_info_upd s t info info' :
  Inv s →
  services s !! t = Some (Some info) →
  maxThreads info' = maxThreads info →
  requestsRunning info' = requestsRunning info →
  ((0 ≤ maxThreads info)%Z → waitingRpcs info' ≠ [] →
   requestsRunning info = maxThreads info) →
  Inv (set_services (λ svcs, <[t := Some info']> svcs) s).
Proof.
  intros [Hnd Hdom Hbusy Hidle Hsvc] Ht Hmax Hrr Hq.
  assert (Hlt : t < length (services s)) by eauto using lookup_lt_Some.
  constructor; simpl; try done.
  - intros i x Hx. destruct (Hbusy i x Hx) as (xk & t' & info0 & ? & ? & ? & ?).
    simpl. destruct (decide (t' = t)) as [->|Hne].
    + exists xk, t, info'. by rewrite list_lookup_insert_eq.
    + exists xk, t', info0. by rewrite list_lookup_insert_ne.
  - intros t' info0 Ht'. simpl in Ht'.
    replace (running t' _) with (running t' s) by done.
    destruct (decide (t' = t)) as [->|Hne].
    + rewrite list_lookup_insert_eq in Ht' by done. simplify_eq.
      destruct (Hsvc t info Ht) as (? & Hcap).
      rewrite Hmax, Hrr. split; [done|]. intros Hpos.
      destruct (Hcap Hpos). eauto.
    + rewrite list_lookup_insert_ne in Ht' by done. by apply Hsvc.
Qed.

Lemma Inv_afterReply s w wk :
  Inv s → workers s !! w = Some wk → Inv (afterReply w wk s).
Proof.
  intros Hinv Hw. unfold afterReply. apply Inv_set_log.
  by eapply Inv_worker_upd.
Qed.

Lemma Inv_afterHandoff s w p wk :
  Inv s → workers s !! w = Some wk → w ∉ idleThreads s →
  Inv (afterHandoff w p wk s).
Proof.
  intros Hinv Hw Hidle. unfold afterHandoff. apply Inv_set_log.
  by eapply Inv_worker_upd.
Qed.

Lemma busy_not_idle s i w :
  Inv s → busyThreads s !! i = Some w → w ∉ idleThreads s.
Proof.
  intros [Hnd _ _ _ _] Hb. apply NoDup_app in Hnd as (_ & Hdisj & _).
  apply Hdisj. by eapply list_elem_of_lookup_2.
Qed.

Lemma Inv_afterNext s i w wk t info front :
  Inv s →
  busyThreads s !! i = Some w →
  workers s !! w = Some wk →
  services s !! t = Some (Some info) →
  head (waitingRpcs info) = Some front →
  Inv (afterNext w wk t info front s).
Proof.
  intros Hinv Hb Hw Ht Hq. unfold afterNext.
  eapply Inv_info_upd; [| exact Ht | done | done |].
  - apply Inv_afterHandoff.
    + by apply Inv_afterReply.
    + by apply afterReply_workers.
    + simpl. by eapply busy_not_idle.
  - intros Hpos _. destruct Hinv as [_ _ _ _ Hsvc].
    destruct (Hsvc t info Ht) as (_ & Hcap).
    destruct (Hcap Hpos) as [_ Hfull]. apply Hfull.
    by destruct (waitingRpcs info).
Qed.

Lemma Inv_afterQueue s t info r :
  Inv s →
  services s !! t = Some (Some info) →
  (maxThreads info ≤ requestsRunning info)%Z →
  Inv (afterQueue t info r s).
Proof.
  intros Hinv Ht Hfull. unfold afterQueue.
  eapply Inv_info_upd; [done | exact Ht | done | done |].
  intros Hpos _. destruct Hinv as [_ _ _ _ Hsvc].
  destruct (Hsvc t info Ht) as (_ & Hcap). destruct (Hcap Hpos). lia.
Qed.

Lemma Inv_afterUnroutable T r s : Inv s → Inv (afterUnroutable T r s).
Proof.
  intros Hinv. unfold afterUnroutable.
  destruct (T && _); [by apply Inv_set_testRpcs | by apply Inv_set_log].
Qed.

Lemma Inv_workerAct w a s s' :
  Inv s → workerAct w a s = Done ((), s') → Inv s'.
Proof.
  intros Hinv. rewrite workerAct_eq.
  destruct (workers s !! w) as [wk|] eqn:Hw; [|done].
  assert (Hst : ∀ st, Inv (set_workers (λ ws, <[w := set_state st wk]> ws) s)).
  { intros st. eapply Inv_worker_upd; [done..|]. intros Hidle. simpl.
    destruct Hinv as [_ _ _ Hi _]. destruct (Hi w Hidle) as (wk' & ? & _ & ?).
    by simplify_eq. }
  intros [= <-]. destruct a; auto. by destruct (decide _).
Qed.

(** *** Starting a request on a worker *)

Lemma Inv_afterStart s w wk t info r :
  NoDup (busyThreads s ++ idleThreads s) →
  w ∉ busyThreads s ++ idleThreads s →
  (∀ x, x ∈ busyThreads s ++ idleThreads s ∨ x = w ↔ x < length (workers s)) →
  BusyOk s → IdleOk s → SvcOk s →
  workers s !! w = Some wk →
  services s !! t = Some (Some info) →
  (requestsRunning info < maxThreads info)%Z →
  Inv (afterStart w wk t info r s).
Proof.
  intros Hnd Hfresh Hdom Hbusy Hidle Hsvc Hw Ht Hfree.
  assert (Hwlt : w < length (workers s)) by eauto using lookup_lt_Some.
  assert (Htlt : t < length (services s)) by eauto using lookup_lt_Some.
  apply not_elem_of_app in Hfresh as [HwB HwI].
  assert (Hreg : ∀ t' info', services s !! t' = Some (Some info') →
    ∃ info'', <[t := Some (set_requestsRunning (λ n, n + 1)%Z info)]>
                (services s) !! t' = Some (Some info'')).
  { intros t' info' Ht'. destruct (decide (t' = t)) as [->|Hne].
    - rewrite list_lookup_insert_eq by done. eauto.
    - rewrite list_lookup_insert_ne by done. eauto. }
  constructor; simpl.
  - assert (Hp : (busyThreads s ++ [w]) ++ idleThreads s ≡ₚ
                 w :: (busyThreads s ++ idleThreads s)) by solve_Permutation.
    rewrite Hp. apply NoDup_cons. split; [|done].
    by apply not_elem_of_app.
  - intros x. rewrite length_insert, <- Hdom.
    rewrite !elem_of_app, list_elem_of_singleton. tauto.
  - intros i x Hx. simpl in Hx. apply lookup_app_Some in Hx as [Hx|[Hge Hx]].
    + destruct (Hbusy i x Hx) as (xk & t' & info' & Hxk & ? & ? & Ht').
      destruct (Hreg t' info' Ht') as [info'' ?].
      exists xk, t', info''. simpl.
      rewrite list_lookup_insert_ne; [done|].
      intros <-. apply HwB. by eapply list_elem_of_lookup_2.
    + apply list_lookup_singleton_Some in Hx as [Hi ->].
      destruct (Hreg t info Ht) as [info'' ?].
      eexists _, t, info''. simpl.
      rewrite list_lookup_insert_eq by done.
      split_and!; [done| simpl; f_equal; lia | done | done].
  - intros x Hx. simpl in Hx. destruct (Hidle x Hx) as (xk & ? & ? & ?).
    exists xk. simpl. rewrite list_lookup_insert_ne; [done|]. by intros <-.
  - intros t' info' Ht'. simpl in Ht'.
    assert (Hrun : running t'
      (afterStart w wk t info r s) =
      running t' s + (if decide (t' = t) then 1 else 0)).
    { unfold running. simpl. rewrite filter_app, length_app. f_equal.
      - apply filter_length_ext. intros x Hx.
        rewrite svcOf_insert_ne; [done|]. by intros ->.
      - rewrite filter_cons, filter_nil. unfold svcOf.
        rewrite list_lookup_insert_eq by done. simpl.
        destruct (decide (Some t = Some t')), (decide (t' = t));
          simplify_eq; done. }
    rewrite Hrun.
    destruct (decide (t' = t)) as [->|Hne].
    + rewrite list_lookup_insert_eq in Ht' by done. simplify_eq. simpl.
      destruct (Hsvc t info Ht) as (? & Hcap).
      split; [lia|]. intros Hpos. destruct (Hcap Hpos) as [? Hq].
      split; [lia|]. intros Hne. specialize (Hq Hne). lia.
    + rewrite list_lookup_insert_ne in Ht' by done.
      rewrite Nat.add_0_r. by apply Hsvc.
Qed.

Lemma Inv_handleRpc MAX T r s s' :
  Inv s → handleRpc MAX T r s = Done ((), s') → Inv s'.
Proof.
  intros Hinv [_ Hstep]%handleRpc_cases.
  pose proof Hinv as [Hnd Hdom Hbusy Hidle Hsvc].
  destruct Hstep as [|t info [h Hr] ?|t info w wk [h Hr] ? Hb ? ?|t info [h Hr] ? Hb].
  - by apply Inv_afterUnroutable.
  - apply Inv_afterQueue; [done| |done]. apply Hr.
  - apply last_Some in Hb as [rest Hb].
    rewrite Hb in Hnd.
    assert (Hp : busyThreads s ++ rest ++ [w] ≡ₚ w :: (busyThreads s ++ rest))
      by solve_Permutation.
    rewrite Hp in Hnd. apply NoDup_cons in Hnd as [Hfresh Hnd].
    apply Inv_afterStart; simpl; rewrite ?Hb, ?pop_back_snoc; try done.
    + intros x. rewrite <- Hdom, Hb, Hp, elem_of_cons. tauto.
    + intros x Hx. simpl in Hx. rewrite Hb, pop_back_snoc in Hx.
      apply Hidle. rewrite Hb, elem_of_app. by left.
    + apply Hr.
  - assert (Hfresh : length (workers s) ∉ busyThreads s ++ idleThreads s).
    { intros Hin%Hdom. lia. }
    apply Inv_afterStart; simpl; try done.
    + intros x. rewrite length_app. simpl. rewrite Hdom. lia.
    + intros i x Hx. destruct (Hbusy i x Hx) as (xk & t' & info' & ? & ? & ? & ?).
      exists xk, t', info'. simpl.
      rewrite lookup_app_l by eauto using lookup_lt_Some. done.
    + intros x Hx. destruct (Hidle x Hx) as (xk & ? & ? & ?).
      exists xk. simpl.
      rewrite lookup_app_l by eauto using lookup_lt_Some. done.
    + intros t' info' Ht'.
      replace (running t' (afterSpawn s)) with (running t' s); [by apply Hsvc|].
      symmetry. apply running_ext; [done|]. intros x Hx. simpl.
      apply svcOf_app, Hdom, elem_of_app. by left.
    + by rewrite list_lookup_middle.
    + apply Hr.
Qed.

(** *** Returning a worker to the idle pool *)

Lemma swapRemove_spec (busy : list nat) i w lastWorker :
  NoDup busy →
  busy !! i = Some w →
  back busy = Some lastWorker →
  busy ≡ₚ w :: swapRemove i w lastWorker busy ∧
  ∀ j x, swapRemove i w lastWorker busy !! j = Some x →
    x ≠ w ∧
    ((j = i ∧ x = lastWorker ∧ w ≠ lastWorker) ∨
     (busy !! j = Some x ∧ x ≠ lastWorker)).
Proof.
  intros Hnd Hi Hl. apply back_Some in Hl.
  set (rest := pop_back busy) in *.
  assert (Hlast : busy !! length rest = Some lastWorker).
  { rewrite Hl. by rewrite list_lookup_middle. }
  assert (Hrest : ∀ j x, rest !! j = Some x →
            busy !! j = Some x ∧ x ≠ lastWorker).
  { intros j x Hj. assert (busy !! j = Some x).
    { rewrite Hl, lookup_app_l by eauto using lookup_lt_Some. done. }
    split; [done|]. intros ->.
    assert (j = length rest) by eauto using NoDup_lookup.
    apply lookup_lt_Some in Hj. lia. }
  unfold swapRemove. destruct (decide (w = lastWorker)) as [<-|Hne].
  - fold rest. split.
    + rewrite Hl at 1. solve_Permutation.
    + intros j x Hj. destruct (Hrest j x Hj). auto.
  - assert (Hi' : rest !! i = Some w).
    { rewrite Hl in Hi. apply lookup_app_Some in Hi as [Hi|[Hge Hi]]; [done|].
      apply list_lookup_singleton_Some in Hi as [_ ?]. done. }
    assert (Hilt : i < length rest) by eauto using lookup_lt_Some.
    assert (Hsw : pop_back (<[i := lastWorker]> busy) = <[i := lastWorker]> rest).
    { rewrite Hl at 1. rewrite insert_app_l by done.
      apply pop_back_snoc. }
    rewrite Hsw. split.
    + rewrite Hl at 1. rewrite insert_take_drop by done.
      rewrite <- (take_drop_middle rest i w Hi') at 1.
      solve_Permutation.
    + intros j x Hj. apply list_lookup_insert_Some in Hj
        as [(-> & -> & _)|(Hji & Hj)].
      * split; [done|]. left. done.
      * destruct (Hrest j x Hj) as [Hbj ?]. split; [|auto].
        intros ->. apply Hji. eauto using NoDup_lookup.
Qed.

Lemma Inv_afterRelease s i w wk t info lastWorker moved :
  Inv s →
  busyThreads s !! i = Some w →
  workers s !! w = Some wk →
  serviceInfo wk = Some t →
  services s !! t = Some (Some info) →
  waitingRpcs info = [] →
  back (busyThreads s) = Some lastWorker →
  (w ≠ lastWorker → workers s !! lastWorker = Some moved) →
  Inv (afterRelease i w wk t info lastWorker moved s).
Proof.
  intros [Hnd Hdom Hbusy Hidle Hsvc] Hb Hw Hsi Ht Hq Hl Hm.
  pose proof Hnd as (HndB & Hdisj & HndI)%NoDup_app.
  destruct (swapRemove_spec _ _ _ _ HndB Hb Hl) as [Hperm Hlook].
  set (busy' := swapRemove i w lastWorker (busyThreads s)) in *.
  assert (HwB : w ∈ busyThreads s) by eauto using list_elem_of_lookup_2.
  assert (HlB : lastWorker ∈ busyThreads s).
  { apply back_Some in Hl. rewrite Hl, elem_of_app, list_elem_of_singleton. auto. }
  assert (Hwlt : w < length (workers s)) by eauto using lookup_lt_Some.
  assert (Htlt : t < length (services s)) by eauto using lookup_lt_Some.
  set (ws1 := <[w := set_rpc NULL wk]> (workers s)).
  set (ws2 := if decide (w = lastWorker) then ws1
              else <[lastWorker := set_busyIndex (Z.of_nat i) moved]> ws1).
  set (ws3 := <[w := set_busyIndex (-1) (set_rpc NULL wk)]> ws2).
  assert (Hws : workers (afterRelease i w wk t info lastWorker moved s) = ws3)
    by done.
  assert (Hlen : length ws3 = length (workers s)).
  { unfold ws3, ws2, ws1. destruct (decide (w = lastWorker));
      by rewrite !length_insert. }
  assert (Hother : ∀ x, x ≠ w → x ≠ lastWorker → ws3 !! x = workers s !! x).
  { intros x Hxw Hxl. unfold ws3, ws2, ws1.
    destruct (decide (w = lastWorker));
      by rewrite !list_lookup_insert_ne. }
  assert (Hsvcs : ∀ x, svcOf ws3 x = svcOf (workers s) x).
  { intros x. unfold ws3, ws2.
    assert (H1 : ∀ y, svcOf ws1 y = svcOf (workers s) y).
    { intros y. unfold ws1. by eapply svcOf_insert_same. }
    assert (Hw1 : ws1 !! w = Some (set_rpc NULL wk)).
    { unfold ws1. by rewrite list_lookup_insert_eq. }
    destruct (decide (w = lastWorker)) as [|Hne].
    - rewrite <- H1. by eapply svcOf_insert_same.
    - rewrite <- H1.
      rewrite (svcOf_insert_same _ w x (set_rpc NULL wk));
        [| by rewrite list_lookup_insert_ne | done].
      apply (svcOf_insert_same ws1 lastWorker x moved); [|done].
      unfold ws1. rewrite list_lookup_insert_ne by done. by apply Hm. }
  assert (Hreg : ∀ t' info', services s !! t' = Some (Some info') →
    ∃ info'', <[t := Some (set_requestsRunning (λ n, n - 1)%Z info)]>
                (services s) !! t' = Some (Some info'')).
  { intros t' info' Ht'. destruct (decide (t' = t)) as [->|Hne].
    - rewrite list_lookup_insert_eq by done. eauto.
    - rewrite list_lookup_insert_ne by done. eauto. }
  constructor; rewrite ?Hws; simpl; fold busy'.
  - assert (Hp : busy' ++ idleThreads s ++ [w] ≡ₚ
                 (w :: busy') ++ idleThreads s) by solve_Permutation.
    by rewrite Hp, <- Hperm.
  - intros x. rewrite Hlen, <- Hdom.
    assert (Hp : busy' ++ idleThreads s ++ [w] ≡ₚ
                 (w :: busy') ++ idleThreads s) by solve_Permutation.
    by rewrite Hp, <- Hperm.
  - intros j x Hx. simpl in Hx. fold busy' in Hx. rewrite Hws. simpl.
    destruct (Hlook j x Hx) as [Hxw [ [Hji [Hxl Hne]] | [Hbj Hxl] ] ];
      [subst j x|].
    + specialize (Hm Hne).
      destruct (Hbusy _ _ (eq_trans (eq_sym (last_lookup _)) Hl))
        as (mk & t' & info' & Hmk & _ & Hmt & Ht').
      assert (mk = moved) as -> by congruence.
      destruct (Hreg t' info' Ht') as [info'' ?].
      exists (set_busyIndex (Z.of_nat i) moved), t', info''.
      split_and!; try done.
      unfold ws3, ws2. rewrite list_lookup_insert_ne by done.
      destruct (decide (w = lastWorker)); [done|].
      rewrite list_lookup_insert_eq; [done|].
      unfold ws1. rewrite length_insert. eauto using lookup_lt_Some.
    + destruct (Hbusy j x Hbj) as (xk & t' & info' & ? & ? & ? & Ht').
      destruct (Hreg t' info' Ht') as [info'' ?].
      exists xk, t', info''. by rewrite Hother.
  - intros x Hx. simpl in Hx. rewrite Hws.
    apply elem_of_app in Hx as [Hx | ->%list_elem_of_singleton].
    + destruct (Hidle x Hx) as (xk & ? & ? & ?). exists xk.
      rewrite Hother; [done | intros -> | intros ->];
        [exact (Hdisj _ HwB Hx) | exact (Hdisj _ HlB Hx)].
    + exists (set_busyIndex (-1) (set_rpc NULL wk)).
      split; [|done]. unfold ws3. rewrite list_lookup_insert_eq; [done|].
      unfold ws2, ws1. destruct (decide (w = lastWorker));
        by rewrite !length_insert.
  - intros t' info' Ht'. simpl in Ht'.
    assert (Hrun : running t' s =
      (if decide (t' = t) then 1 else 0) +
      running t' (afterRelease i w wk t info lastWorker moved s)).
    { unfold running. rewrite Hws. simpl. fold busy'.
      rewrite Hperm at 1. rewrite filter_cons.
      assert (Hsw : svcOf (workers s) w = Some t).
      { unfold svcOf. rewrite Hw. done. }
      rewrite Hsw.
      replace (length (filter (λ x, svcOf ws3 x = Some t') busy'))
        with (length (filter (λ x, svcOf (workers s) x = Some t') busy')).
      2:{ apply filter_length_ext. intros x _. by rewrite Hsvcs. }
      destruct (decide (Some t = Some t')), (decide (t' = t));
        simplify_eq; done. }
    destruct (decide (t' = t)) as [->|Hne].
    + rewrite list_lookup_insert_eq in Ht' by done. simplify_eq. simpl.
      destruct (Hsvc t info Ht) as (Hrr & Hcap).
      split; [lia|]. intros Hpos. destruct (Hcap Hpos). split; [lia|done].
    + rewrite list_lookup_insert_ne in Ht' by done.
      destruct (Hsvc t' info' Ht') as (Hrr & Hcap).
      split; [lia|done].
Qed.

Lemma Inv_pollWorker i s s' :
  Inv s → pollWorker i s = Done ((), s') → Inv s'.
Proof.
  intros Hinv Hstep%pollWorker_cases. destruct Hstep.
  - done.
  - by eapply Inv_afterReply.
  - by eapply Inv_afterNext.
  - by eapply Inv_afterRelease.
Qed.

Lemma pollLoop_S i s :
  pollLoop (S i) s =
  match pollWorker i s with
  | Done (_, s') => pollLoop i s'
  | AssertionFailed => AssertionFailed
  | Undefined => Undefined
  | Spinning => Spinning
  end.
Proof. done. Qed.

Lemma Inv_pollLoop n s s' :
  Inv s → pollLoop n s = Done ((), s') → Inv s'.
Proof.
  revert s. induction n as [|i IH]; intros s Hinv.
  - by intros [= <-].
  - rewrite pollLoop_S.
    destruct (pollWorker i s) as [[[] s1]| | |] eqn:Hp; try done.
    apply IH. by eapply Inv_pollWorker.
Qed.

Lemma poll_eq s : poll s = pollLoop (length (busyThreads s)) s.
Proof. done. Qed.

Lemma Inv_poll s s' : Inv s → poll s = Done ((), s') → Inv s'.
Proof. rewrite poll_eq. apply Inv_pollLoop. Qed.

Lemma Inv_step MAX T o s s' :
  Inv s → step MAX T o s = Done ((), s') → Inv s'.
Proof.
  destruct o; simpl.
  - apply Inv_handleRpc.
  - apply Inv_poll.
  - apply Inv_workerAct.
Qed.

Lemma run_cons MAX T o ops s :
  run MAX T (o :: ops) s =
  match step MAX T o s with
  | Done (_, s') => run MAX T ops s'
  | AssertionFailed => AssertionFailed
  | Undefined => Undefined
  | Spinning => Spinning
  end.
Proof. done. Qed.

Lemma Inv_run MAX T ops s s' :
  Inv s → run MAX T ops s = Done ((), s') → Inv s'.
Proof.
  revert s. induction ops as [|o ops IH]; intros s Hinv.
  - by intros [= <-].
  - rewrite run_cons.
    destruct (step MAX T o s) as [[[] s1]| | |] eqn:Hs; try done.
    apply IH. by eapply Inv_step.
Qed.

(** ** Startup *)

Lemma Fresh_new MAX : Fresh MAX [] (ServiceManager_new MAX).
Proof.
  constructor; simpl; try done.
  - by rewrite length_replicate.
  - induction (MAX + 1) as [|n IH]; [done|]. simpl.
    rewrite filter_cons. by destruct (decide _).
  - intros t info [[=] _]%lookup_replicate.
Qed.

Lemma filter_insert_occupied (slots : list (option ServiceInfo)) t info :
  slots !! t = Some None →
  length (filter (λ slot, slot ≠ None) (<[t := Some info]> slots)) =
  S (length (filter (λ slot, slot ≠ None) slots)).
Proof.
  revert t. induction slots as [|a slots IH]; intros [|t] Ht; simplify_eq/=.
  - rewrite !filter_cons.
    destruct (decide (Some info ≠ None)), (decide (None ≠ @None ServiceInfo));
      simpl; done.
  - rewrite !filter_cons. destruct (decide (a ≠ None)); simpl; by rewrite IH.
Qed.

Lemma Fresh_addService MAX regs regs' svc type s s' :
  Fresh MAX regs s →
  addService svc type s = Done ((), s') →
  Fresh MAX (regs ++ (svc, type) :: regs') s' ∧
  services s !! type = Some None ∧
  services s' !! type = Some (Some (ServiceInfo_new svc)).
Proof.
  intros [Hlen ? ? ? ? ? Hcount Hinfo]. rewrite addService_eq.
  destruct (services s !! type) as [[info|]|] eqn:Ht; try done.
  intros [= <-].
  assert (Hlt : type < length (services s)) by eauto using lookup_lt_Some.
  split_and!; [|done|simpl; by rewrite list_lookup_insert_eq].
  constructor; simpl; try done.
  - by rewrite length_insert.
  - rewrite filter_insert_occupied by done. lia.
  - intros t info Hti. destruct (decide (t = type)) as [->|Hne].
    + rewrite list_lookup_insert_eq in Hti by done. simplify_eq.
      exists svc. split; [|done]. rewrite elem_of_app, elem_of_cons. auto.
    + rewrite list_lookup_insert_ne in Hti by done.
      destruct (Hinfo t info Hti) as (svc' & ? & ?).
      exists svc'. split; [|done]. rewrite elem_of_app. auto.
Qed.

Lemma startup_cons svc type regs s :
  startup ((svc, type) :: regs) s =
  match addService svc type s with
  | Done (_, s') => startup regs s'
  | AssertionFailed => AssertionFailed
  | Undefined => Undefined
  | Spinning => Spinning
  end.
Proof. done. Qed.

Lemma Fresh_startup MAX done regs s s' :
  Fresh MAX done s →
  startup regs s = Done ((), s') →
  Fresh MAX (done ++ regs) s'.
Proof.
  revert done s. induction regs as [|[svc type] regs IH]; intros done s Hf.
  - intros [= <-]. by rewrite app_nil_r.
  - rewrite startup_cons.
    destruct (addService svc type s) as [[[] s1]| | |] eqn:Ha; try done.
    intros Hs. destruct (Fresh_addService MAX done [] _ _ _ _ Hf Ha) as (Hf1 & _).
    specialize (IH _ _ Hf1 Hs). by rewrite <- app_assoc in IH.
Qed.

(** After startup the invariant holds. *)
Lemma Inv_Fresh MAX regs s : Fresh MAX regs s → Inv s.
Proof.
  intros [? Hb Hi Hw ? ? ? Hinfo]. constructor.
  - rewrite Hb, Hi. constructor.
  - intros w. rewrite Hb, Hi, Hw. simpl. split; [by intros ?%not_elem_of_nil|lia].
  - intros i w. by rewrite Hb.
  - intros w. rewrite Hi. by intros ?%not_elem_of_nil.
  - intros t info Ht. destruct (Hinfo t info Ht) as (svc & Hin & ->).
    unfold running. rewrite Hb. simpl. split_and!; done.
Qed.

Lemma Inv_reachable MAX T regs ops s : reachable MAX T regs ops s → Inv s.
Proof.
  intros (s0 & Hs0 & Hrun).
  eapply Inv_run; [|done].
  eapply Inv_Fresh.
  apply (Fresh_startup MAX [] regs _ _ (Fresh_new MAX) Hs0).
Qed.

(** ** Where the requests are *)

Lemma bind_insert_perm {A B} (f : A → list B) (l : list A) i x y :
  l !! i = Some x →
  f x ++ (<[i := y]> l ≫= f) ≡ₚ f y ++ (l ≫= f).
Proof.
  intros Hi. assert (Hlt : i < length l) by eauto using lookup_lt_Some.
  rewrite insert_take_drop by done.
  rewrite <- (take_drop_middle l i x Hi) at 3.
  rewrite !bind_app, !bind_cons. solve_Permutation.
Qed.

Lemma bind_insert_same {A B} (f : A → list B) (l : list A) i x y :
  l !! i = Some x → f y = f x → <[i := y]> l ≫= f = l ≫= f.
Proof.
  intros Hi Hf. assert (Hlt : i < length l) by eauto using lookup_lt_Some.
  rewrite insert_take_drop by done.
  rewrite <- (take_drop_middle l i x Hi) at 3.
  by rewrite !bind_app, !bind_cons, Hf.
Qed.

Lemma held_insert ws w wk wk' :
  ws !! w = Some wk →
  reqs [rpc wk] ++ held (<[w := wk']> ws) ≡ₚ reqs [rpc wk'] ++ held ws.
Proof.
  intros Hw. unfold held.
  exact (bind_insert_perm (λ wk, reqs [rpc wk]) ws w wk wk' Hw).
Qed.

Lemma held_insert_same ws w wk wk' :
  ws !! w = Some wk → rpc wk' = rpc wk → held (<[w := wk']> ws) = held ws.
Proof.
  intros Hw Hr. unfold held.
  apply (bind_insert_same (λ wk, reqs [rpc wk]) ws w wk wk'); [done|].
  by rewrite Hr.
Qed.

Lemma queued_insert svcs t info info' :
  svcs !! t = Some (Some info) →
  reqs (waitingRpcs info) ++ queued (<[t := Some info']> svcs) ≡ₚ
  reqs (waitingRpcs info') ++ queued svcs.
Proof.
  intros Ht. unfold queued.
  exact (bind_insert_perm
           (λ slot, match slot with
                    | Some info => reqs (waitingRpcs info)
                    | None => []
                    end) svcs t (Some info) (Some info') Ht).
Qed.

Lemma queued_insert_same svcs t info info' :
  svcs !! t = Some (Some info) →
  waitingRpcs info' = waitingRpcs info →
  queued (<[t := Some info']> svcs) = queued svcs.
Proof.
  intros Ht Hq. unfold queued.
  apply (bind_insert_same
           (λ slot, match slot with
                    | Some info => reqs (waitingRpcs info)
                    | None => []
                    end) svcs t (Some info) (Some info')); [done|].
  by rewrite Hq.
Qed.

Lemma replies_app l1 l2 : replies (l1 ++ l2) = replies l1 ++ replies l2.
Proof. apply omap_app. Qed.

Lemma replies_handoffEvents w p prev : replies (handoffEvents w p prev) = [].
Proof. unfold handoffEvents. by destruct (decide _), p. Qed.

Lemma replies_replyEvents w p : replies (replyEvents w p) = reqs [p].
Proof. by destruct p. Qed.

Lemma replies_errorEvents r : replies (errorEvents r) = [r].
Proof. done. Qed.

Lemma reqs_app ps qs : reqs (ps ++ qs) = reqs ps ++ reqs qs.
Proof. apply omap_app. Qed.

Lemma reqs_cons p ps : reqs (p :: ps) = reqs [p] ++ reqs ps.
Proof. apply (reqs_app [p] ps). Qed.

Lemma reqs_Ptr r : reqs [Ptr r] = [r].
Proof. done. Qed.

Lemma reqs_NULL : reqs [NULL] = [].
Proof. done. Qed.

Lemma Owned_afterUnroutable T r hist s :
  Owned hist s → Owned (hist ++ [r]) (afterUnroutable T r s).
Proof.
  unfold Owned, afterUnroutable, pending. intros Ho.
  destruct (T && _); simpl.
  - rewrite reqs_app, reqs_Ptr, <- Ho. solve_Permutation.
  - rewrite replies_app, replies_errorEvents, <- Ho. solve_Permutation.
Qed.

Lemma Owned_afterQueue t info r hist s :
  Owned hist s →
  services s !! t = Some (Some info) →
  Owned (hist ++ [r]) (afterQueue t info r s).
Proof.
  unfold Owned, afterQueue, pending. intros Ho Ht. simpl.
  pose proof (queued_insert (services s) t info
    (set_waitingRpcs (λ q, q ++ [Ptr r]) info) Ht) as Hq.
  simpl in Hq. rewrite reqs_app, reqs_Ptr in Hq.
  apply (Permutation_app_inv_l (reqs (waitingRpcs info))).
  rewrite <- Ho.
  set (q' := queued (<[t := _]> (services s))) in *.
  transitivity (replies (log s) ++ reqs (testRpcs s) ++
    (reqs (waitingRpcs info) ++ q') ++ held (workers s));
    [solve_Permutation|].
  rewrite Hq. solve_Permutation.
Qed.

Lemma Owned_afterHandoff w p wk hist s :
  Owned hist s →
  workers s !! w = Some wk →
  rpc wk = NULL →
  Owned (hist ++ reqs [p]) (afterHandoff w p wk s).
Proof.
  unfold Owned, afterHandoff, pending. intros Ho Hw Hnull. simpl.
  rewrite replies_app, replies_handoffEvents, app_nil_r.
  pose proof (held_insert (workers s) w wk
    (set_state WORKING (set_rpc p wk)) Hw) as Hh.
  rewrite Hnull, ?reqs_NULL in Hh. simpl in Hh. rewrite Hh, <- Ho.
  solve_Permutation.
Qed.

Lemma Owned_afterReply w wk hist s :
  Owned hist s →
  workers s !! w = Some wk →
  Owned hist (afterReply w wk s).
Proof.
  unfold Owned, afterReply, pending. intros Ho Hw. simpl.
  rewrite replies_app, replies_replyEvents.
  pose proof (held_insert (workers s) w wk (set_rpc NULL wk) Hw) as Hh.
  simpl in Hh. rewrite ?reqs_NULL in Hh. simpl in Hh.
  rewrite <- Ho, <- Hh. solve_Permutation.
Qed.

Lemma reqs_head ps front :
  head ps = Some front → reqs ps = reqs [front] ++ reqs (drop 1 ps).
Proof. destruct ps as [|p rest]; [done|]. intros [= ->]. apply reqs_cons. Qed.

Lemma Owned_afterNext w wk t info front hist s :
  Owned hist s →
  workers s !! w = Some wk →
  services s !! t = Some (Some info) →
  head (waitingRpcs info) = Some front →
  Owned hist (afterNext w wk t info front s).
Proof.
  intros Ho Hw Ht Hq.
  pose proof (Owned_afterHandoff w front (set_rpc NULL wk) hist
    (afterReply w wk s) (Owned_afterReply _ _ _ _ Ho Hw)
    (afterReply_workers _ _ _ Hw) eq_refl) as Ho1.
  pose proof (queued_insert (services s) t info
    (set_waitingRpcs (drop 1) info) Ht) as Hqi.
  rewrite (reqs_head _ _ Hq) in Hqi.
  unfold afterNext. unfold Owned, pending in *. simpl in *.
  set (q' := queued (<[t := _]> (services s))) in *.
  set (d := reqs (drop 1 (waitingRpcs info))) in *.
  apply (Permutation_app_inv_r (reqs [front])). rewrite <- Ho1.
  apply (Permutation_app_inv_l d).
  match goal with
  | |- d ++ (?r ++ ?t ++ q' ++ ?h) ++ ?f ≡ₚ _ =>
      transitivity (r ++ t ++ ((f ++ d) ++ q') ++ h);
        [|rewrite Hqi]; solve_Permutation
  end.
Qed.

Lemma Owned_afterStart w wk t info r hist s :
  Owned hist s →
  workers s !! w = Some wk →
  rpc wk = NULL →
  services s !! t = Some (Some info) →
  Owned (hist ++ [r]) (afterStart w wk t info r s).
Proof.
  unfold Owned, afterStart, pending. intros Ho Hw Hnull Ht. simpl.
  rewrite replies_app, replies_handoffEvents, app_nil_r.
  rewrite (queued_insert_same _ _ info) by done.
  pose proof (held_insert (workers s) w wk
    (set_busyIndex (Z.of_nat (length (busyThreads s)))
       (set_state WORKING (set_rpc (Ptr r) (set_serviceInfo (Some t) wk))))
    Hw) as Hh.
  rewrite Hnull in Hh. simpl in Hh. rewrite ?reqs_NULL, ?reqs_Ptr in Hh.
  simpl in Hh. rewrite Hh, <- Ho. solve_Permutation.
Qed.

Lemma held_snoc_new ws : held (ws ++ [Worker_new]) = held ws.
Proof. unfold held. rewrite bind_app. simpl. by rewrite app_nil_r. Qed.

Lemma Owned_afterSpawn hist s : Owned hist s → Owned hist (afterSpawn s).
Proof.
  unfold Owned, afterSpawn, pending. simpl. intros Ho.
  rewrite replies_app, held_snoc_new. simpl. by rewrite app_nil_r.
Qed.

Lemma Owned_afterRelease i w wk t info lastWorker moved hist s :
  Owned hist s →
  workers s !! w = Some wk →
  services s !! t = Some (Some info) →
  (w ≠ lastWorker → workers s !! lastWorker = Some moved) →
  Owned hist (afterRelease i w wk t info lastWorker moved s).
Proof.
  intros Ho Hw Ht Hm.
  pose proof (Owned_afterReply _ _ _ _ Ho Hw) as Ho1.
  unfold Owned, afterRelease, pending in *. simpl in *.
  rewrite (queued_insert_same _ _ info) by done.
  set (ws1 := <[w := set_rpc NULL wk]> (workers s)) in *.
  assert (Hw1 : ws1 !! w = Some (set_rpc NULL wk)).
  { unfold ws1. rewrite list_lookup_insert_eq; eauto using lookup_lt_Some. }
  destruct (decide (w = lastWorker)) as [|Hne].
  - by rewrite (held_insert_same ws1 w (set_rpc NULL wk)).
  - rewrite (held_insert_same _ w (set_rpc NULL wk));
      [| by rewrite list_lookup_insert_ne | done].
    rewrite (held_insert_same ws1 lastWorker moved); [done| |done].
    unfold ws1. rewrite list_lookup_insert_ne by done. auto.
Qed.

Lemma Owned_workerAct w a hist s s' :
  Owned hist s → workerAct w a s = Done ((), s') → Owned hist s'.
Proof.
  intros Ho. rewrite workerAct_eq.
  destruct (workers s !! w) as [wk|] eqn:Hw; [|done].
  assert (Hst : ∀ st,
    Owned hist (set_workers (λ ws, <[w := set_state st wk]> ws) s)).
  { intros st. unfold Owned, pending in *. simpl.
    by rewrite (held_insert_same _ w wk). }
  intros [= <-]. destruct a; auto. by destruct (decide _).
Qed.

Lemma Owned_handleRpc MAX T r hist s s' :
  Owned hist s →
  handleRpc MAX T r s = Done ((), s') →
  Owned (hist ++ [r]) s'.
Proof.
  intros Ho [_ Hstep]%handleRpc_cases.
  destruct Hstep as [|t info [h Hr] ?|t info w wk [h Hr] ? Hb ? ?|t info [h Hr] ? Hb].
  - by apply Owned_afterUnroutable.
  - apply Owned_afterQueue; [done|]. apply Hr.
  - apply Owned_afterStart; try done. apply Hr.
  - apply Owned_afterStart; try done.
    + by apply Owned_afterSpawn.
    + simpl. by rewrite list_lookup_middle.
    + apply Hr.
Qed.

Lemma Owned_pollWorker i hist s s' :
  Owned hist s → pollWorker i s = Done ((), s') → Owned hist s'.
Proof.
  intros Ho Hstep%pollWorker_cases. destruct Hstep.
  - done.
  - by eapply Owned_afterReply.
  - by eapply Owned_afterNext.
  - by eapply Owned_afterRelease.
Qed.

(** ** The order of handoffs *)

Lemma handed_app l1 l2 : handed (l1 ++ l2) = handed l1 ++ handed l2.
Proof. apply omap_app. Qed.

Lemma handed_handoffEvents w p prev : handed (handoffEvents w p prev) = reqs [p].
Proof. unfold handoffEvents. by destruct (decide _), p. Qed.

Lemma handed_replyEvents w p : handed (replyEvents w p) = [].
Proof. by destruct p. Qed.

Lemma handed_errorEvents r : handed (errorEvents r) = [].
Proof. done. Qed.

Lemma forService_app t l1 l2 :
  forService t (l1 ++ l2) = forService t l1 ++ forService t l2.
Proof. apply filter_app. Qed.

Lemma forService_one t r :
  forService t [r] = if decide (tagOf r = Some t) then [r] else [].
Proof. unfold forService. rewrite filter_cons, filter_nil. done. Qed.

Lemma forService_elem t r l : r ∈ forService t l → tagOf r = Some t.
Proof. unfold forService. by intros [? _]%list_elem_of_filter. Qed.

(** Steps that touch neither the queues nor the handoffs. *)
Lemma Fifo_same MAX hist s s' :
  Fifo MAX hist s →
  length (services s') = length (services s) →
  (∀ t info', services s' !! t = Some (Some info') →
     ∃ info, services s !! t = Some (Some info) ∧
             waitingRpcs info' = waitingRpcs info) →
  handed (log s') = handed (log s) →
  Fifo MAX hist s'.
Proof.
  intros [Hlen Hf] Hlen' Hsv Hlog. split; [congruence|].
  intros t info' Ht. destruct (Hsv t info' Ht) as (info & Ht0 & ->).
  rewrite Hlog. by apply Hf.
Qed.

(** A request that names no registered service concerns no queue. *)
Lemma Fifo_skip MAX hist r s :
  Fifo MAX hist s →
  (∀ t info, services s !! t = Some (Some info) → tagOf r ≠ Some t) →
  Fifo MAX (hist ++ [r]) s.
Proof.
  intros [Hlen Hf] Hr. split; [done|]. intros t info Ht.
  rewrite forService_app, forService_one.
  destruct (decide (tagOf r = Some t)) as [Heq|_]; [by destruct (Hr t info Ht)|].
  rewrite app_nil_r. by apply Hf.
Qed.

Lemma unroutable_tag MAX r s t info :
  length (services s) = MAX + 1 →
  unroutable MAX r s →
  services s !! t = Some (Some info) →
  tagOf r ≠ Some t.
Proof.
  unfold unroutable, tagOf. intros Hlen Hu Ht.
  destruct (getStart (requestPayload r)) as [h|]; [|done]. simpl.
  intros [= <-]. destruct Hu as [Hu|Hu]; [|congruence].
  apply lookup_lt_Some in Ht. lia.
Qed.

Lemma routed_tag MAX r s t info : routed MAX r s t info → tagOf r = Some t.
Proof. unfold tagOf. intros (h & -> & <- & _). done. Qed.

Lemma Fifo_afterUnroutable MAX T r hist s :
  Fifo MAX hist s →
  unroutable MAX r s →
  Fifo MAX (hist ++ [r]) (afterUnroutable T r s).
Proof.
  intros Hf Hu. pose proof Hf as [Hlen _].
  assert (Hf' : Fifo MAX (hist ++ [r]) s).
  { apply Fifo_skip; [done|]. intros t info. by eapply unroutable_tag. }
  unfold afterUnroutable. destruct (T && _).
  - eapply Fifo_same; [exact Hf' | done | eauto | done].
  - eapply Fifo_same; [exact Hf' | done | eauto |]. simpl.
    by rewrite handed_app, handed_errorEvents, app_nil_r.
Qed.

Lemma Fifo_afterQueue MAX t info r hist s :
  Fifo MAX hist s →
  routed MAX r s t info →
  Fifo MAX (hist ++ [r]) (afterQueue t info r s).
Proof.
  intros [Hlen Hf] Hr. pose proof (routed_tag _ _ _ _ _ Hr) as Htag.
  destruct Hr as (h & _ & _ & _ & Ht).
  assert (Hlt : t < length (services s)) by eauto using lookup_lt_Some.
  split; [simpl; by rewrite length_insert|].
  intros t' info' Ht'. simpl in *.
  rewrite forService_app, forService_one.
  destruct (decide (t' = t)) as [->|Hne].
  - rewrite list_lookup_insert_eq in Ht' by done. simplify_eq. simpl.
    rewrite decide_True by done.
    rewrite fmap_app, app_assoc, (Hf t info Ht). done.
  - rewrite list_lookup_insert_ne in Ht' by done.
    rewrite decide_False by congruence.
    rewrite app_nil_r. by apply Hf.
Qed.

Lemma Fifo_afterStart MAX w wk t info r hist s :
  Fifo MAX hist s →
  tagOf r = Some t →
  services s !! t = Some (Some info) →
  waitingRpcs info = [] →
  Fifo MAX (hist ++ [r]) (afterStart w wk t info r s).
Proof.
  intros [Hlen Hf] Htag Ht Hq.
  assert (Hlt : t < length (services s)) by eauto using lookup_lt_Some.
  split; [simpl; by rewrite length_insert|].
  intros t' info' Ht'. simpl in *.
  rewrite handed_app, handed_handoffEvents, reqs_Ptr.
  rewrite !forService_app, !forService_one.
  destruct (decide (t' = t)) as [->|Hne].
  - rewrite list_lookup_insert_eq in Ht' by done. simplify_eq. simpl.
    rewrite decide_True by done.
    specialize (Hf t info Ht). rewrite Hq in *.
    rewrite !app_nil_r in *. by rewrite !fmap_app, Hf.
  - rewrite list_lookup_insert_ne in Ht' by done.
    rewrite decide_False by congruence.
    rewrite !app_nil_r. by apply Hf.
Qed.

Lemma Fifo_afterNext MAX w wk t info front hist s :
  Fifo MAX hist s →
  services s !! t = Some (Some info) →
  head (waitingRpcs info) = Some front →
  Fifo MAX hist (afterNext w wk t info front s).
Proof.
  intros [Hlen Hf] Ht Hq.
  assert (Hlt : t < length (services s)) by eauto using lookup_lt_Some.
  destruct (waitingRpcs info) as [|p rest] eqn:Hwq; [done|].
  simpl in Hq. simplify_eq.
  pose proof (Hf t info Ht) as Hft. rewrite Hwq in Hft.
  assert (Hin : front ∈ Ptr <$> forService t hist).
  { rewrite <- Hft, elem_of_app, elem_of_cons. auto. }
  apply list_elem_of_fmap in Hin as (r0 & -> & Hr0).
  apply forService_elem in Hr0.
  split; [simpl; by rewrite length_insert|].
  intros t' info' Ht'. simpl in *.
  rewrite !handed_app, handed_replyEvents, handed_handoffEvents, reqs_Ptr.
  rewrite app_nil_r, forService_app, forService_one.
  destruct (decide (t' = t)) as [->|Hne].
  - rewrite list_lookup_insert_eq in Ht' by done. simplify_eq. simpl.
    rewrite decide_True by done. rewrite Hwq. simpl.
    rewrite <- Hft, fmap_app, <- app_assoc. done.
  - rewrite list_lookup_insert_ne in Ht' by done.
    rewrite decide_False by congruence.
    rewrite app_nil_r. by apply Hf.
Qed.

Lemma Fifo_afterReply MAX w wk hist s :
  Fifo MAX hist s → Fifo MAX hist (afterReply w wk s).
Proof.
  intros Hf. eapply Fifo_same; [done | done | eauto |]. simpl.
  by rewrite handed_app, handed_replyEvents, app_nil_r.
Qed.

Lemma Fifo_afterRelease MAX i w wk t info lastWorker moved hist s :
  Fifo MAX hist s →
  services s !! t = Some (Some info) →
  Fifo MAX hist (afterRelease i w wk t info lastWorker moved s).
Proof.
  intros Hf Ht.
  assert (Hlt : t < length (services s)) by eauto using lookup_lt_Some.
  eapply Fifo_same; [done | simpl; by rewrite length_insert | |].
  - intros t' info' Ht'. simpl in Ht'.
    destruct (decide (t' = t)) as [->|Hne].
    + rewrite list_lookup_insert_eq in Ht' by done. simplify_eq. eauto.
    + rewrite list_lookup_insert_ne in Ht' by done. eauto.
  - simpl. by rewrite handed_app, handed_replyEvents, app_nil_r.
Qed.

Lemma Fifo_workerAct MAX w a hist s s' :
  Fifo MAX hist s → workerAct w a s = Done ((), s') → Fifo MAX hist s'.
Proof.
  intros Hf. rewrite workerAct_eq.
  destruct (workers s !! w) as [wk|] eqn:Hw; [|done].
  intros [= <-]. eapply Fifo_same; [done | ..];
    destruct a; try destruct (decide _); simpl; eauto.
Qed.

Lemma Fifo_handleRpc MAX T r hist s s' :
  Inv s →
  Fifo MAX hist s →
  handleRpc MAX T r s = Done ((), s') →
  Fifo MAX (hist ++ [r]) s'.
Proof.
  intros Hinv Hf [_ Hstep]%handleRpc_cases.
  assert (Hempty : ∀ t info, routed MAX r s t info →
    (requestsRunning info < maxThreads info)%Z → waitingRpcs info = []).
  { intros t info (h & _ & _ & _ & Ht) Hfree.
    destruct Hinv as [_ _ _ _ Hsvc].
    destruct (Hsvc t info Ht) as (Hrr & Hcap).
    destruct (waitingRpcs info); [done|].
    destruct Hcap as [_ Hq]; [lia|]. assert (H' := Hq ltac:(done)). lia. }
  destruct Hstep as [|t info Hr ?|t info w wk Hr ? Hb ? ?|t info Hr ? Hb].
  - by apply Fifo_afterUnroutable.
  - by apply Fifo_afterQueue.
  - apply Fifo_afterStart;
      [ | by eapply routed_tag
        | by destruct Hr as (h & _ & _ & _ & Ht)
        | by eapply Hempty ].
    eapply Fifo_same; [done | done | eauto | done].
  - apply Fifo_afterStart;
      [ | by eapply routed_tag
        | by destruct Hr as (h & _ & _ & _ & Ht)
        | by eapply Hempty ].
    eapply Fifo_same; [done | done | eauto |]. simpl.
    rewrite handed_app. by rewrite app_nil_r.
Qed.

Lemma Fifo_pollWorker MAX i hist s s' :
  Fifo MAX hist s → pollWorker i s = Done ((), s') → Fifo MAX hist s'.
Proof.
  intros Hf Hstep%pollWorker_cases. destruct Hstep.
  - done.
  - by apply Fifo_afterReply.
  - by eapply Fifo_afterNext.
  - by eapply Fifo_afterRelease.
Qed.

(** ** The exit sentinel stays out of the way *)

Lemma NoExit_handleRpc MAX T r s s' :
  NoExit s → handleRpc MAX T r s = Done ((), s') → NoExit s'.
Proof.
  unfold NoExit. intros Hn [_ Hstep]%handleRpc_cases.
  destruct Hstep; simpl.
  - unfold afterUnroutable. by destruct (T && _).
  - done.
  - by apply Forall_insert.
  - apply Forall_insert; [|done]. apply Forall_app. split; [done|].
    by apply Forall_singleton.
Qed.

Lemma NoExit_pollWorker MAX i hist s s' :
  Fifo MAX hist s → NoExit s → pollWorker i s = Done ((), s') → NoExit s'.
Proof.
  unfold NoExit. intros [_ Hf] Hn Hstep%pollWorker_cases.
  destruct Hstep as [| |w wk t info front ? ? ? ? ? ? ? Ht Hq
                       |w wk t info lastWorker moved ? Hw ? ? ? ? ? ? ? ? Hm];
    simpl.
  - done.
  - by apply Forall_insert.
  - apply Forall_insert; [by apply Forall_insert|]. simpl.
    specialize (Hf t info Ht).
    destruct (waitingRpcs info) as [|p rest]; [done|]. simpl in Hq.
    simplify_eq.
    assert (Hin : front ∈ Ptr <$> forService t hist).
    { rewrite <- Hf, elem_of_app, elem_of_cons. auto. }
    apply list_elem_of_fmap in Hin as (r0 & -> & _). done.
  - apply Forall_insert; [|done].
    destruct (decide (w = lastWorker)) as [|Hne]; [by apply Forall_insert|].
    apply Forall_insert; [by apply Forall_insert|]. simpl.
    eapply (Forall_lookup_1 _ _ _ _ Hn). by apply Hm.
Qed.

Lemma NoExit_workerAct w a s s' :
  NoExit s → workerAct w a s = Done ((), s') → NoExit s'.
Proof.
  unfold NoExit. intros Hn. rewrite workerAct_eq.
  destruct (workers s !! w) as [wk|] eqn:Hw; [|done].
  pose proof (Forall_lookup_1 _ _ _ _ Hn Hw) as Hwk.
  intros [= <-]. destruct a; simpl; try by apply Forall_insert.
  destruct (decide _); simpl; [by apply Forall_insert|done].
Qed.

(** ** Runs *)

Lemma Good_pollWorker MAX i hist s s' :
  Good MAX hist s → pollWorker i s = Done ((), s') → Good MAX hist s'.
Proof.
  intros (? & ? & ? & ?) Hp.
  split_and!;
    eauto using Inv_pollWorker, Owned_pollWorker, Fifo_pollWorker,
      NoExit_pollWorker.
Qed.

Lemma Good_pollLoop MAX n hist s s' :
  Good MAX hist s → pollLoop n s = Done ((), s') → Good MAX hist s'.
Proof.
  revert s. induction n as [|i IH]; intros s Hg.
  - by intros [= <-].
  - rewrite pollLoop_S.
    destruct (pollWorker i s) as [[[] s1]| | |] eqn:Hp; try done.
    apply IH. by eapply Good_pollWorker.
Qed.

Lemma Good_step MAX T o hist s s' :
  Good MAX hist s →
  step MAX T o s = Done ((), s') →
  Good MAX (hist ++ submitted [o]) s'.
Proof.
  intros Hg. destruct o as [r| |w a]; simpl.
  - destruct Hg as (? & ? & ? & ?). intros Hh.
    change (submitted [OpHandleRpc r]) with [r].
    split_and!;
      eauto using Inv_handleRpc, Owned_handleRpc, Fifo_handleRpc,
        NoExit_handleRpc.
  - rewrite app_nil_r, poll_eq. by apply Good_pollLoop.
  - rewrite app_nil_r. destruct Hg as (? & ? & ? & ?). intros Hh.
    split_and!;
      eauto using Inv_workerAct, Owned_workerAct, Fifo_workerAct,
        NoExit_workerAct.
Qed.

Lemma submitted_cons o ops : submitted (o :: ops) = submitted [o] ++ submitted ops.
Proof. unfold submitted. simpl. by destruct o. Qed.

Lemma Good_run MAX T ops hist s s' :
  Good MAX hist s →
  run MAX T ops s = Done ((), s') →
  Good MAX (hist ++ submitted ops) s'.
Proof.
  revert hist s. induction ops as [|o ops IH]; intros hist s Hg.
  - intros [= <-]. by rewrite app_nil_r.
  - rewrite run_cons.
    destruct (step MAX T o s) as [[[] s1]| | |] eqn:Hs; try done.
    intros Hr. rewrite submitted_cons, app_assoc.
    eapply IH; [|done]. by eapply Good_step.
Qed.

Lemma queued_empty svcs :
  (∀ t info, svcs !! t = Some (Some info) → waitingRpcs info = []) →
  queued svcs = [].
Proof.
  unfold queued. induction svcs as [|slot svcs IH]; intros Hq; [done|].
  rewrite bind_cons, IH, app_nil_r.
  - destruct slot as [info|]; [|done]. by rewrite (Hq 0 info).
  - intros t info Ht. by apply (Hq (S t)).
Qed.

Lemma Good_Fresh MAX regs s : Fresh MAX regs s → Good MAX [] s.
Proof.
  intros Hf. split_and!.
  - by eapply Inv_Fresh.
  - destruct Hf as [? ? ? Hw Ht Hl ? Hinfo].
    unfold Owned, pending. rewrite Hw, Ht, Hl, queued_empty; [done|].
    intros t info Hti. by destruct (Hinfo t info Hti) as (svc & _ & ->).
  - destruct Hf as [? ? ? Hw Ht Hl ? Hinfo]. split; [done|].
    intros t info Hti. destruct (Hinfo t info Hti) as (svc & _ & ->).
    by rewrite Hl.
  - destruct Hf as [? ? ? Hw _ _ _ _]. unfold NoExit. rewrite Hw. constructor.
Qed.

Lemma Good_reachable MAX T regs ops s :
  reachable MAX T regs ops s → Good MAX (submitted ops) s.
Proof.
  intros (s0 & Hs0 & Hrun).
  apply (Good_run MAX T ops [] s0); [|done].
  eapply Good_Fresh.
  apply (Fresh_startup MAX [] regs _ _ (Fresh_new MAX) Hs0).
Qed.


(** ** Shutdown of a worker *)

Lemma exitWait_eq sched w s :
  exitWait sched w s =
  match workers s !! w with
  | None => Undefined
  | Some wk =>
      if (0 <=? busyIndex wk)%Z then
        match sched with
        | [] => Spinning
        | acts :: rest =>
            match workerActs acts s with
            | Done (_, s1) =>
                match poll s1 with
                | Done (_, s2) => exitWait rest w s2
                | AssertionFailed => AssertionFailed
                | Undefined => Undefined
                | Spinning => Spinning
                end
            | AssertionFailed => AssertionFailed
            | Undefined => Undefined
            | Spinning => Spinning
            end
        end
      else Done ((), s)
  end.
Proof.
  destruct sched as [|acts rest]; simpl; unfold exitWait; munfold;
    destruct (workers s !! w) as [wk|]; simpl; try done;
    destruct (0 <=? busyIndex wk)%Z; done.
Qed.

Lemma exitWait_done sched w s s' :
  exitWait sched w s = Done ((), s') →
  ∃ wk, workers s' !! w = Some wk ∧ (busyIndex wk < 0)%Z.
Proof.
  revert s. induction sched as [|acts rest IH]; intros s; rewrite exitWait_eq;
    destruct (workers s !! w) as [wk|] eqn:Hw; try done;
    destruct (0 <=? busyIndex wk)%Z eqn:Hi; try done;
    try (intros [= <-]; exists wk; split; [done|]; by apply Z.leb_gt).
  destruct (workerActs acts s) as [[[] s1]| | |]; try done.
  destruct (poll s1) as [[[] s2]| | |]; try done. apply IH.
Qed.

Lemma exit_eq sched w s :
  exit sched w s =
  match workers s !! w with
  | None => Undefined
  | Some wk =>
      if exited wk then Done ((), s)
      else
        match exitWait sched w s with
        | Done (_, s1) =>
            match workers s1 !! w with
            | None => Undefined
            | Some wk1 =>
                match rpc wk1 with
                | NULL => Done ((), afterExit w wk1 s1)
                | _ => AssertionFailed
                end
            end
        | AssertionFailed => AssertionFailed
        | Undefined => Undefined
        | Spinning => Spinning
        end
  end.
Proof.
  unfold exit. unfold bindM at 1. unfold readWorker. munfold.
  destruct (workers s !! w) as [wk|] eqn:Hw; simpl; [|done].
  destruct (exited wk); [done|].
  destruct (exitWait sched w s) as [[[] s1]| | |]; try done.
  rewrite handoff_eq.
  destruct (workers s1 !! w) as [wk1|] eqn:Hw1; [|done].
  destruct (rpc wk1) eqn:Hr1; try done. msimp. state_eq.
Qed.

(** ** No assertion fails in a reachable state *)

Lemma swapRemove_length i w lastWorker (busy : list nat) :
  busy ≠ [] → length (swapRemove i w lastWorker busy) = length busy - 1.
Proof.
  intros Hne. unfold swapRemove, pop_back.
  assert (0 < length busy) by (destruct busy; [done|simpl; lia]).
  destruct (decide (w = lastWorker)); rewrite length_take, ?length_insert; lia.
Qed.

Lemma pollWorker_progress MAX hist i s :
  Good MAX hist s →
  i < length (busyThreads s) →
  ∃ s', pollWorker i s = Done ((), s') ∧ i ≤ length (busyThreads s').
Proof.
  intros ([_ _ Hbusy _ _] & _ & _ & Hn) Hlt.
  destruct (lookup_lt_is_Some_2 _ _ Hlt) as [w Hb].
  destruct (Hbusy i w Hb) as (wk & t & info & Hw & Hi & Hsi & Ht).
  pose proof (Forall_lookup_1 _ _ _ _ Hn Hw) as Hx. simpl in Hx.
  destruct (decide (state wk = WORKING)) as [Hst|Hst].
  { exists s. split; [|lia]. apply pollWorker_cases. by eapply poll_working. }
  destruct (decide (state wk = POSTPROCESSING)) as [Hpp|Hpp].
  { eexists. split; [apply pollWorker_cases; by eapply poll_post|]. simpl. lia. }
  destruct (waitingRpcs info) as [|front rest] eqn:Hq.
  - assert (Hne : busyThreads s ≠ []) by (intros Hnil; by rewrite Hnil in Hb).
    destruct (back (busyThreads s)) as [lastWorker|] eqn:Hl;
      [|by apply last_None in Hl].
    destruct (Hbusy _ _ (eq_trans (eq_sym (last_lookup _)) Hl))
      as (moved & _ & _ & Hm & _).
    exists (afterRelease i w wk t info lastWorker moved s). split.
    + apply pollWorker_cases. by eapply poll_release.
    + simpl. rewrite swapRemove_length by done. lia.
  - exists (afterNext w wk t info front s). split; [|simpl; lia].
    apply pollWorker_cases. eapply poll_next; eauto. by rewrite Hq.
Qed.

Lemma pollLoop_progress MAX hist n s :
  Good MAX hist s →
  n ≤ length (busyThreads s) →
  ∃ s', pollLoop n s = Done ((), s').
Proof.
  revert s. induction n as [|i IH]; intros s Hg Hle; [by exists s|].
  destruct (pollWorker_progress MAX hist i s Hg) as (s1 & Hp & Hlen); [lia|].
  rewrite pollLoop_S, Hp. apply IH; [|done]. by eapply Good_pollWorker.
Qed.

Lemma handleRpc_progress MAX T hist r s :
  Good MAX hist s →
  epochIsSet r = true →
  ∃ s', handleRpc MAX T r s = Done ((), s').
Proof.
  intros ([_ _ _ Hidle _] & _ & [Hlen _] & _) He.
  rewrite handleRpc_eq, He.
  destruct (getStart (requestPayload r)) as [h|]; [|eauto].
  destruct (MAX <? service h)%nat eqn:Hmax; [eauto|].
  apply Nat.ltb_ge in Hmax.
  destruct (lookup_lt_is_Some_2 (services s) (service h)) as [[info|] ->];
    [lia| |eauto].
  destruct (maxThreads info <=? requestsRunning info)%Z; [eauto|].
  destruct (back (idleThreads s)) as [w|] eqn:Hb; [|eauto].
  destruct (Hidle w) as (wk & -> & _ & ->); [|eauto].
  apply last_Some in Hb as [rest ->]. rewrite elem_of_app. right. by left.
Qed.

(** In a reachable state [handleRpc] (on a request whose epoch is set)
    and [poll] run to completion: no assertion of the source fails and
    no pointer or index is out of range. *)
Lemma reachable_progress MAX T regs ops s :
  reachable MAX T regs ops s →
  (∀ r, epochIsSet r = true → ∃ s', handleRpc MAX T r s = Done ((), s')) ∧
  (∃ s', poll s = Done ((), s')).
Proof.
  intros Hg%Good_reachable. split.
  - intros r He. by eapply handleRpc_progress.
  - rewrite poll_eq. by eapply pollLoop_progress.
Qed.

(** * Specification of the dispatcher *)

Lemma getStart_None payload :
  getStart payload = None ↔ length payload < sizeof_RpcRequestCommon.
Proof.
  unfold sizeof_RpcRequestCommon.
  destruct payload as [|b0 [|b1 [|b2 [|b3 rest]]]]; simpl; split;
    intros H; try done; lia.
Qed.

Lemma errorEvents_short r :
  getStart (requestPayload r) = None →
  errorEvents r =
  [EvLogWarning; EvPrepareErrorResponse r STATUS_MESSAGE_TOO_SHORT; EvSendReply r].
Proof. unfold errorEvents. by intros ->. Qed.

Lemma errorEvents_unavailable r h :
  getStart (requestPayload r) = Some h →
  errorEvents r =
  [EvLogWarning; EvPrepareErrorResponse r STATUS_SERVICE_NOT_AVAILABLE;
   EvSendReply r].
Proof. unfold errorEvents. by intros ->. Qed.

(** C5.  A handoff to a worker whose request slot is empty stores the
    request pointer into the slot, issues a release fence, exchanges the
    state cell to WORKING, and wakes the worker with count 1 exactly
    when the exchange found SLEEPING; nothing else is done, in this
    order. *)
Theorem C5_handoff_protocol (w : nat) (newRpc : RpcPtr) (wk : Worker)
    (s : ServiceManager) :
  workers s !! w = Some wk →
  rpc wk = NULL →
  ∃ s' evs,
    handoff w newRpc s = Done ((), s') ∧
    log s' = log s ++ evs ∧
    evs = [EvStoreRpc w newRpc; EvFenceLeave;
           EvExchange w WORKING (state wk)] ++
          (if decide (state wk = SLEEPING) then [EvFutexWake w 1] else []) ∧
    (EvFutexWake w 1 ∈ evs ↔ state wk = SLEEPING) ∧
    workers s' !! w = Some (set_state WORKING (set_rpc newRpc wk)).
Proof.
  intros Hw Hnull.
  exists (afterHandoff w newRpc wk s), (handoffEvents w newRpc (state wk)).
  rewrite handoff_eq, Hw, Hnull. split_and!; try done.
  - unfold handoffEvents. destruct (decide (state wk = SLEEPING)); simpl.
    + split; [done|]. intros _. rewrite !elem_of_cons. auto.
    + split; [|done]. rewrite !elem_of_cons.
      intros [|[|[|[]%not_elem_of_nil]]]; done.
  - simpl. rewrite list_lookup_insert_eq; eauto using lookup_lt_Some.
Qed.

(** C8 (as amended).  [addService] aborts on its assertion when the slot
    of the tag is occupied; when the slot is empty it registers the
    service under the tag and adds one to the service count, changing
    nothing else, and this is the only way it succeeds.  It compares
    the tag with nothing: on the table of [MAX_SERVICE + 1] slots a tag
    above [MAX_SERVICE] indexes past the end, which is not a rejection. *)
Theorem C8_addService (MAX : nat) (svc : Service) (tag : nat)
    (s : ServiceManager) :
  length (services s) = MAX + 1 →
  (∀ info, services s !! tag = Some (Some info) →
     addService svc tag s = AssertionFailed) ∧
  (tag ≤ MAX → services s !! tag = Some None →
     addService svc tag s =
     Done ((), set_serviceCount (λ n, n + 1)%Z
                 (set_services
                    (λ svcs, <[tag := Some (ServiceInfo_new svc)]> svcs) s))) ∧
  (∀ s', addService svc tag s = Done ((), s') →
     tag ≤ MAX ∧
     services s !! tag = Some None ∧
     services s' !! tag = Some (Some (ServiceInfo_new svc)) ∧
     serviceCount s' = (serviceCount s + 1)%Z) ∧
  (MAX < tag → addService svc tag s = Undefined).
Proof.
  intros Hlen. rewrite addService_eq. split_and!.
  - by intros info ->.
  - by intros _ ->.
  - intros s'. destruct (services s !! tag) as [[info|]|] eqn:Ht; try done.
    intros [= <-]. pose proof (lookup_lt_Some _ _ _ Ht).
    split_and!; [lia | done | | done].
    simpl. by rewrite list_lookup_insert_eq.
  - intros Hgt. rewrite (proj2 (lookup_ge_None _ _)); [done|lia].
Qed.

(** C2.  A request whose payload is shorter than the common header is
    answered at once with STATUS_MESSAGE_TOO_SHORT, one whose header
    names a tag above [MAX_SERVICE] or an empty slot with
    STATUS_SERVICE_NOT_AVAILABLE: [handleRpc] logs a warning, prepares
    the error response and calls [sendReply] before it returns, and
    changes nothing else, so the request reaches no queue and no worker.
    In a testing build with no service registered the request is pushed
    onto [testRpcs] instead and nothing is sent. *)
Theorem C2_handleRpc_errors (MAX : nat) (T : bool) (r : ServerRpc)
    (s : ServiceManager) :
  epochIsSet r = true →
  (T && (serviceCount s =? 0)%Z = false →
   (length (requestPayload r) < sizeof_RpcRequestCommon →
    handleRpc MAX T r s =
    Done ((), set_log (λ l, l ++ [EvLogWarning;
                                 EvPrepareErrorResponse r STATUS_MESSAGE_TOO_SHORT;
                                 EvSendReply r]) s)) ∧
   (∀ h, getStart (requestPayload r) = Some h →
         MAX < service h ∨ services s !! service h = Some None →
    handleRpc MAX T r s =
    Done ((), set_log (λ l, l ++ [EvLogWarning;
                                 EvPrepareErrorResponse r STATUS_SERVICE_NOT_AVAILABLE;
                                 EvSendReply r]) s))) ∧
  (T = true → serviceCount s = 0%Z → unroutable MAX r s →
   handleRpc MAX T r s = Done ((), set_testRpcs (λ q, q ++ [Ptr r]) s)) ∧
  (∀ s', unroutable MAX r s → handleRpc MAX T r s = Done ((), s') →
         handed (log s') = handed (log s) ∧
         queued (services s') = queued (services s) ∧
         held (workers s') = held (workers s)).
Proof.
  intros He. split_and!.
  - intros Hno. split.
    + intros Hshort%getStart_None.
      rewrite handleRpc_unroutable; [|done|by unfold unroutable; rewrite Hshort].
      unfold afterUnroutable. by rewrite Hno, errorEvents_short.
    + intros h Hh Hbad.
      rewrite handleRpc_unroutable; [|done|by unfold unroutable; rewrite Hh].
      unfold afterUnroutable. by rewrite Hno, (errorEvents_unavailable r h).
  - intros -> Hz Hu. rewrite handleRpc_unroutable by done.
    unfold afterUnroutable. by rewrite Hz.
  - intros s' Hu. rewrite handleRpc_unroutable by done. intros [= <-].
    unfold afterUnroutable. destruct (T && _); simpl; [done|].
    by rewrite handed_app, handed_errorEvents, app_nil_r.
Qed.

(** C1.  In a reachable state, for a request with its epoch set whose
    header names the registered service [t]: if [requestsRunning] has
    reached [maxThreads] the request is appended to the queue of [t]
    and nothing else changes; otherwise [requestsRunning] grows by one,
    a worker is taken from the back of [idleThreads] (or created when
    there is none), bound to [t], handed the request, given the old
    length of [busyThreads] as its [busyIndex], and appended to
    [busyThreads]. *)
Theorem C1_handleRpc_admission (MAX : nat) (T : bool)
    (regs : list (Service * nat)) (ops : list Op)
    (r : ServerRpc) (s : ServiceManager) (t : nat) (info : ServiceInfo) :
  reachable MAX T regs ops s →
  epochIsSet r = true →
  routed MAX r s t info →
  ((maxThreads info ≤ requestsRunning info)%Z →
   handleRpc MAX T r s =
   Done ((), set_services
               (λ svcs, <[t := Some (set_waitingRpcs (λ q, q ++ [Ptr r]) info)]> svcs)
               s)) ∧
  ((requestsRunning info < maxThreads info)%Z →
   ∃ w wk s0 s',
     ((back (idleThreads s) = Some w ∧ workers s !! w = Some wk ∧
       s0 = set_idleThreads pop_back s) ∨
      (idleThreads s = [] ∧ w = length (workers s) ∧ wk = Worker_new ∧
       s0 = afterSpawn s)) ∧
     handleRpc MAX T r s = Done ((), s') ∧
     s' = afterStart w wk t info r s0 ∧
     services s' !! t =
       Some (Some (set_requestsRunning (λ n, n + 1)%Z info)) ∧
     workers s' !! w =
       Some {| serviceInfo := Some t; rpc := Ptr r;
               busyIndex := Z.of_nat (length (busyThreads s));
               state := WORKING; exited := exited wk |} ∧
     log s' = log s0 ++ handoffEvents w (Ptr r) (state wk) ∧
     busyThreads s' = busyThreads s ++ [w] ∧
     idleThreads s' = idleThreads s0).
Proof.
  intros Hreach He Hr. pose proof (Inv_reachable _ _ _ _ _ Hreach) as Hinv.
  pose proof Hr as (h & _ & _ & _ & Ht).
  assert (Htlt : t < length (services s)) by eauto using lookup_lt_Some.
  split.
  - intros Hfull. by rewrite (handleRpc_queue MAX T r s t info).
  - intros Hfree. destruct (back (idleThreads s)) as [w|] eqn:Hb.
    + destruct Hinv as [_ _ _ Hidle _].
      destruct (Hidle w) as (wk & Hw & _ & Hnull).
      { apply last_Some in Hb as [rest ->]. rewrite elem_of_app.
        right. by left. }
      exists w, wk, (set_idleThreads pop_back s), (afterStart w wk t info r
        (set_idleThreads pop_back s)).
      split_and!; try done.
      * left. done.
      * by apply handleRpc_start_idle.
      * simpl. by rewrite list_lookup_insert_eq.
      * simpl. rewrite list_lookup_insert_eq; eauto using lookup_lt_Some.
    + apply last_None in Hb.
      exists (length (workers s)), Worker_new, (afterSpawn s),
        (afterStart (length (workers s)) Worker_new t info r (afterSpawn s)).
      split_and!; try done.
      * right. done.
      * by apply handleRpc_start_new.
      * simpl. by rewrite list_lookup_insert_eq.
      * simpl. rewrite list_lookup_insert_eq; [done|].
        rewrite length_app. simpl. lia.
Qed.

(** C3.  [poll] visits the indices of [busyThreads] from the last to
    the first.  Visiting index [i], which holds worker [w]: a WORKING
    worker is left as it is; otherwise a pending request is replied to
    and the slot cleared; a POSTPROCESSING worker then stays busy; any
    other worker either takes the head of the queue of its service and
    stays busy, or, the queue being empty, is removed from
    [busyThreads] by moving the last entry into its place (whose
    [busyIndex] becomes [i]), gets [busyIndex] -1, joins [idleThreads],
    and [requestsRunning] of its service drops by one. *)
Theorem C3_poll_iteration (i : nat) (s : ServiceManager) (w : nat) (wk : Worker) :
  busyThreads s !! i = Some w →
  workers s !! w = Some wk →
  busyIndex wk = Z.of_nat i →
  rpc wk ≠ WORKER_EXIT →
  poll s = pollLoop (length (busyThreads s)) s ∧
  (∀ n, pollLoop (S n) = (pollWorker n ;; pollLoop n)) ∧
  pollLoop 0 = retM () ∧
  (state wk = WORKING → pollWorker i s = Done ((), s)) ∧
  (state wk = POSTPROCESSING →
   pollWorker i s = Done ((), afterReply w wk s)) ∧
  (log (afterReply w wk s) =
     log s ++ EvFenceEnter ::
       match rpc wk with
       | Ptr r => [EvSendReply r; EvStoreRpc w NULL]
       | _ => []
       end ∧
   workers (afterReply w wk s) !! w = Some (set_rpc NULL wk) ∧
   busyThreads (afterReply w wk s) = busyThreads s ∧
   idleThreads (afterReply w wk s) = idleThreads s) ∧
  (state wk ≠ WORKING → state wk ≠ POSTPROCESSING →
   ∀ t info, serviceInfo wk = Some t → services s !! t = Some (Some info) →
     (∀ front, head (waitingRpcs info) = Some front →
        let s' := afterNext w wk t info front s in
        pollWorker i s = Done ((), s') ∧
        services s' !! t = Some (Some (set_waitingRpcs (drop 1) info)) ∧
        workers s' !! w = Some (set_state WORKING (set_rpc front wk)) ∧
        log s' = log (afterReply w wk s) ++ handoffEvents w front (state wk) ∧
        busyThreads s' = busyThreads s ∧
        idleThreads s' = idleThreads s) ∧
     (waitingRpcs info = [] →
      ∀ lastWorker moved,
        back (busyThreads s) = Some lastWorker →
        (w ≠ lastWorker → workers s !! lastWorker = Some moved) →
        let s' := afterRelease i w wk t info lastWorker moved s in
        pollWorker i s = Done ((), s') ∧
        busyThreads s' =
          pop_back (if decide (w = lastWorker) then busyThreads s
                    else <[i := lastWorker]> (busyThreads s)) ∧
        (w ≠ lastWorker →
         workers s' !! lastWorker = Some (set_busyIndex (Z.of_nat i) moved)) ∧
        workers s' !! w = Some (set_busyIndex (-1) (set_rpc NULL wk)) ∧
        idleThreads s' = idleThreads s ++ [w] ∧
        services s' !! t =
          Some (Some (set_requestsRunning (λ n, n - 1)%Z info)) ∧
        log s' = log (afterReply w wk s))).
Proof.
  intros Hb Hw Hi Hx.
  assert (Hwlt : w < length (workers s)) by eauto using lookup_lt_Some.
  split_and!.
  - apply poll_eq.
  - done.
  - done.
  - intros Hst. by eapply pollWorker_working.
  - intros Hst. by eapply pollWorker_post.
  - done.
  - simpl. by rewrite list_lookup_insert_eq.
  - done.
  - done.
  - intros Hst Hpp t info Hsi Ht.
    assert (Htlt : t < length (services s)) by eauto using lookup_lt_Some.
    split.
    + intros front Hq s'. split_and!; try done.
      * by eapply pollWorker_next.
      * simpl. by rewrite list_lookup_insert_eq.
      * simpl. rewrite list_insert_insert_eq.
        by rewrite list_lookup_insert_eq.
    + intros Hq lastWorker moved Hl Hm s'. split_and!; try done.
      * by eapply pollWorker_release.
      * intros Hne. simpl. rewrite list_lookup_insert_ne by done.
        rewrite decide_False by done.
        rewrite list_lookup_insert_eq; [done|].
        rewrite length_insert. specialize (Hm Hne).
        eauto using lookup_lt_Some.
      * simpl. rewrite list_lookup_insert_eq; [done|].
        destruct (decide (w = lastWorker)); by rewrite !length_insert.
      * simpl. by rewrite list_lookup_insert_eq.
Qed.

(** C4.  In every state reached from startup by calls of [handleRpc]
    and [poll] (worker threads running in between), every registered
    service whose cap is not negative has
    [0 ≤ requestsRunning ≤ maxThreads]; [requestsRunning] is the number
    of workers in [busyThreads] bound to the service; and requests wait
    in its queue only while [requestsRunning = maxThreads]. *)
Theorem C4_service_counters (MAX : nat) (T : bool)
    (regs : list (Service * nat)) (ops : list Op) (s : ServiceManager)
    (t : nat) (info : ServiceInfo) :
  reachable MAX T regs ops s →
  services s !! t = Some (Some info) →
  (0 ≤ maxThreads info)%Z →
  (0 ≤ requestsRunning info ≤ maxThreads info)%Z ∧
  requestsRunning info =
    Z.of_nat (length (filter (λ w, workers s !! w ≫= serviceInfo = Some t)
                        (busyThreads s))) ∧
  (waitingRpcs info ≠ [] → requestsRunning info = maxThreads info).
Proof.
  intros Hreach Ht Hpos.
  destruct (Inv_reachable _ _ _ _ _ Hreach) as [_ _ _ _ Hsvc].
  destruct (Hsvc t info Ht) as (Hrr & Hcap). destruct (Hcap Hpos).
  unfold running, svcOf in Hrr. split_and!; try done. lia.
Qed.

(** C9.  In every reachable state a worker has [busyIndex ≥ 0] exactly
    when it is in [busyThreads], it then sits at that very index, and a
    worker in [idleThreads] has [busyIndex = -1]. *)
Theorem C9_busyIndex (MAX : nat) (T : bool)
    (regs : list (Service * nat)) (ops : list Op) (s : ServiceManager)
    (w : nat) (wk : Worker) :
  reachable MAX T regs ops s →
  workers s !! w = Some wk →
  ((0 ≤ busyIndex wk)%Z ↔ w ∈ busyThreads s) ∧
  (w ∈ busyThreads s →
   busyThreads s !! Z.to_nat (busyIndex wk) = Some w) ∧
  (w ∈ idleThreads s → busyIndex wk = (-1)%Z).
Proof.
  intros Hreach Hw.
  destruct (Inv_reachable _ _ _ _ _ Hreach) as [Hnd Hdom Hbusy Hidle _].
  assert (Hin : w ∈ busyThreads s ++ idleThreads s).
  { apply Hdom. eauto using lookup_lt_Some. }
  apply NoDup_app in Hnd as (_ & Hdisj & _).
  assert (HB : w ∈ busyThreads s →
    (0 ≤ busyIndex wk)%Z ∧ busyThreads s !! Z.to_nat (busyIndex wk) = Some w).
  { intros [i Hi]%list_elem_of_lookup_1.
    destruct (Hbusy i w Hi) as (wk' & _ & _ & Hw' & Hbi & _).
    simplify_eq. rewrite Hbi, Nat2Z.id. split; [lia|done]. }
  assert (HI : w ∈ idleThreads s → busyIndex wk = (-1)%Z).
  { intros Hi. destruct (Hidle w Hi) as (wk' & Hw' & Hbi & _). by simplify_eq. }
  split_and!; [|apply HB|done].
  split; [|apply HB].
  intros Hpos. apply elem_of_app in Hin as [|Hi]; [done|].
  specialize (HI Hi). lia.
Qed.

(** C6.  In every reachable state, for every registered service: the
    requests handed to workers so far, followed by the requests in the
    waiting queue, are the requests submitted for that service, in the
    order of submission.  [handleRpc] puts a request at the back of the
    queue when the service is full, and hands it to a worker at once
    only when the queue is empty.  An iteration of [poll] on a worker of
    the service whose handler has returned hands off the head of the
    queue, which is the oldest request submitted for the service and not
    handed off yet, and leaves the rest of the queue.  Requests of one
    service are thus handed off in the order they came, and the queue is
    consumed from the front; this holds for every cap, in particular for
    [maxThreads = 1]. *)
Theorem C6_fifo_handoff (MAX : nat) (T : bool)
    (regs : list (Service * nat)) (ops : list Op) (s : ServiceManager)
    (t : nat) (info : ServiceInfo) :
  reachable MAX T regs ops s →
  services s !! t = Some (Some info) →
  (Ptr <$> forService t (handed (log s))) ++ waitingRpcs info =
    Ptr <$> forService t (submitted ops) ∧
  (∃ rest,
    forService t (submitted ops) = forService t (handed (log s)) ++ rest ∧
    waitingRpcs info = Ptr <$> rest) ∧
  (∀ r, epochIsSet r = true → tagOf r = Some t →
     (maxThreads info ≤ requestsRunning info)%Z →
     ∃ s', handleRpc MAX T r s = Done ((), s') ∧
           services s' !! t =
             Some (Some (set_waitingRpcs (λ q, q ++ [Ptr r]) info)) ∧
           handed (log s') = handed (log s)) ∧
  (∀ r, epochIsSet r = true → tagOf r = Some t →
     (requestsRunning info < maxThreads info)%Z →
     waitingRpcs info = [] ∧
     ∃ s', handleRpc MAX T r s = Done ((), s') ∧
           handed (log s') = handed (log s) ++ [r]) ∧
  (∀ i w wk front,
     busyThreads s !! i = Some w →
     workers s !! w = Some wk →
     serviceInfo wk = Some t →
     state wk ≠ WORKING → state wk ≠ POSTPROCESSING →
     head (waitingRpcs info) = Some front →
     ∃ r s',
       front = Ptr r ∧
       forService t (submitted ops) !! length (forService t (handed (log s))) =
         Some r ∧
       pollWorker i s = Done ((), s') ∧
       handed (log s') = handed (log s) ++ [r] ∧
       services s' !! t = Some (Some (set_waitingRpcs (drop 1) info)) ∧
       workers s' !! w = Some (set_state WORKING (set_rpc (Ptr r) wk))).
Proof.
  intros Hreach Ht.
  pose proof (Good_reachable _ _ _ _ _ Hreach) as Hg.
  pose proof Hg as ([_ _ Hbusy _ Hsvc] & _ & [Hlen Hf] & Hnx).
  specialize (Hf t info Ht).
  assert (∃ rest,
    forService t (submitted ops) = forService t (handed (log s)) ++ rest ∧
    waitingRpcs info = Ptr <$> rest) as (rest & Hsub & Hq).
  { symmetry in Hf. apply fmap_app_inv in Hf as (l1 & l2 & Hl1 & Hl2 & Heq).
    assert (Hinj : Inj (=) (=) Ptr) by (intros ? ? [=]; done).
    apply (inj (fmap Ptr)) in Hl1. subst l1. eauto. }
  assert (Hrouted : ∀ r, tagOf r = Some t → routed MAX r s t info).
  { intros r Htag. unfold tagOf in Htag.
    destruct (getStart (requestPayload r)) as [h|] eqn:Hh; [|done].
    injection Htag as Htag. exists h. split_and!; try done.
    apply lookup_lt_Some in Ht. lia. }
  split_and!; [done|by eauto| | |].
  - intros r He Htag Hfull. eexists. split.
    + by apply (handleRpc_queue MAX T r s t info He (Hrouted r Htag)).
    + split; [|done]. simpl. apply list_lookup_insert_eq.
      by eapply lookup_lt_Some.
  - intros r He Htag Hfree.
    destruct (Hsvc t info Ht) as [Hrun Hcap].
    assert (waitingRpcs info = []) as Hnil.
    { destruct (waitingRpcs info) eqn:Hw; [done|].
      destruct Hcap as [_ Hfull]; [lia|]. rewrite Hfull in Hfree; [lia|done]. }
    split; [done|].
    destruct (handleRpc_progress MAX T _ r s Hg He) as (s' & Hs').
    exists s'. split; [done|].
    apply handleRpc_cases in Hs' as [_ Hstep].
    destruct Hstep as [Hu|t' info' Hrt Hfull|t' info' w wk Hrt _ _ _ _
                      |t' info' Hrt _ _].
    + by destruct (unroutable_tag _ _ _ _ _ Hlen Hu Ht).
    + pose proof (routed_tag _ _ _ _ _ Hrt) as Htag'.
      assert (t' = t) as -> by congruence.
      destruct Hrt as (_ & _ & _ & _ & Ht').
      assert (info' = info) as -> by congruence. lia.
    + simpl. by rewrite handed_app, handed_handoffEvents, reqs_Ptr.
    + simpl.
      rewrite !handed_app, handed_handoffEvents, reqs_Ptr. simpl.
      by rewrite app_nil_r.
  - intros i w wk front Hb Hw Hsi Hst Hpp Hhead.
    destruct (Hbusy i w Hb) as (wk' & t' & info' & Hw' & Hi & _).
    assert (wk' = wk) as -> by congruence.
    pose proof (Forall_lookup_1 _ _ _ _ Hnx Hw) as Hx. simpl in Hx.
    destruct rest as [|r rest].
    { rewrite Hq in Hhead. done. }
    assert (front = Ptr r) as -> by (rewrite Hq in Hhead; by injection Hhead).
    exists r, (afterNext w wk t info (Ptr r) s). split_and!.
    + done.
    + rewrite Hsub. by apply list_lookup_middle.
    + by apply pollWorker_next.
    + simpl. rewrite <- app_assoc, !handed_app, handed_replyEvents,
        handed_handoffEvents, reqs_Ptr. done.
    + simpl. apply list_lookup_insert_eq. by eapply lookup_lt_Some.
    + simpl. rewrite list_insert_insert_eq.
      rewrite list_lookup_insert_eq by (by eapply lookup_lt_Some).
      by destruct wk.
Qed.

(** C7.  In every state reached by a run in which no request object is
    passed to [handleRpc] twice, the requests replied to together with
    the requests still held (in the test queue, a service queue or a
    worker's slot) are exactly the requests passed in: [sendReply] was
    invoked at most once on each request, and exactly once on each
    request that is held nowhere any more.  A request that cannot be
    routed gets its one reply inside [handleRpc]; a request handed to a
    worker gets it from the iteration of [poll] that finds the worker
    not WORKING, and from no other. *)
Theorem C7_reply_once (MAX : nat) (T : bool)
    (regs : list (Service * nat)) (ops : list Op) (s : ServiceManager) :
  reachable MAX T regs ops s →
  NoDup (submitted ops) →
  replies (log s) ++ pending s ≡ₚ submitted ops ∧
  NoDup (replies (log s)) ∧
  (∀ r, r ∈ submitted ops → r ∈ replies (log s) ↔ r ∉ pending s) ∧
  (∀ r s', epochIsSet r = true → unroutable MAX r s →
     T && (serviceCount s =? 0)%Z = false →
     handleRpc MAX T r s = Done ((), s') →
     replies (log s') = replies (log s) ++ [r] ∧ pending s' = pending s) ∧
  (∀ r s', handleRpc MAX T r s = Done ((), s') →
     (∃ t info, routed MAX r s t info) →
     replies (log s') = replies (log s)) ∧
  (∀ i w wk s', busyThreads s !! i = Some w → workers s !! w = Some wk →
     pollWorker i s = Done ((), s') →
     replies (log s') =
     replies (log s) ++
       if decide (state wk = WORKING) then [] else reqs [rpc wk]).
Proof.
  intros Hreach Hnd.
  destruct (Good_reachable _ _ _ _ _ Hreach) as (Hinv & Hown & Hfifo & _).
  unfold Owned in Hown. pose proof Hnd as Hnd'.
  rewrite <- Hown in Hnd'. apply NoDup_app in Hnd' as (Hndr & Hdisj & _).
  split_and!; try done.
  - intros r Hr. rewrite <- Hown, elem_of_app in Hr. split; [apply Hdisj|].
    tauto.
  - intros r s' He Hu Hno. rewrite handleRpc_unroutable by done.
    intros [= <-]. unfold afterUnroutable. rewrite Hno. simpl.
    by rewrite replies_app, replies_errorEvents.
  - intros r s' [_ Hstep]%handleRpc_cases (t & info & Hr).
    pose proof Hr as (h & Hh & <- & Hle & Hs).
    destruct Hstep as [Hu| | |]; simpl;
      rewrite ?replies_app, ?replies_handoffEvents, ?app_nil_r; try done.
    unfold unroutable in Hu. rewrite Hh in Hu.
    destruct Hu as [Hu|Hu]; [lia|congruence].
  - intros i w wk s' Hb Hw Hstep%pollWorker_cases.
    destruct Hstep; simplify_eq; simpl;
      rewrite ?replies_app, ?replies_replyEvents, ?replies_handoffEvents,
        ?app_nil_r;
      destruct (decide (state wk = WORKING)); try done; try congruence.
    by rewrite app_nil_r.
Qed.

(** C10.  [Worker::exit] on a worker whose [exited] flag is set returns
    at once and changes nothing, so a second call adds nothing to the
    first.  The first call polls until the worker's [busyIndex] is
    negative, hands it the exit sentinel, joins its thread, clears the
    request slot and sets [exited]; for an idle worker it does so
    without polling, and while the worker stays busy it keeps waiting. *)
Theorem C10_exit_idempotent (sched : list (list (nat * WorkerAct))) (w : nat)
    (wk : Worker) (s : ServiceManager) :
  workers s !! w = Some wk →
  (exited wk = true → exit sched w s = Done ((), s)) ∧
  (∀ s' sched', exit sched w s = Done ((), s') →
     exit sched' w s' = Done ((), s')) ∧
  (exited wk = false →
   ∀ s', exit sched w s = Done ((), s') →
     ∃ s1 wk1,
       exitWait sched w s = Done ((), s1) ∧
       workers s1 !! w = Some wk1 ∧
       (busyIndex wk1 < 0)%Z ∧
       rpc wk1 = NULL ∧
       log s' = log s1 ++
         [EvStoreRpc w WORKER_EXIT; EvFenceLeave;
          EvExchange w WORKING (state wk1)] ++
         (if decide (state wk1 = SLEEPING) then [EvFutexWake w 1] else []) ++
         [EvThreadJoin w; EvStoreRpc w NULL] ∧
       workers s' =
         <[w := set_exited true (set_rpc NULL (set_state WORKING wk1))]>
           (workers s1) ∧
       services s' = services s1 ∧ busyThreads s' = busyThreads s1 ∧
       idleThreads s' = idleThreads s1) ∧
  (exited wk = false → (busyIndex wk < 0)%Z → rpc wk = NULL →
   exit sched w s = Done ((), afterExit w wk s)) ∧
  (exited wk = false → (0 ≤ busyIndex wk)%Z → exit [] w s = Spinning).
Proof.
  intros Hw. split_and!.
  - intros He. by rewrite exit_eq, Hw, He.
  - intros s' sched'. rewrite exit_eq, Hw.
    destruct (exited wk) eqn:He.
    { intros [= <-]. by rewrite exit_eq, Hw, He. }
    destruct (exitWait sched w s) as [[[] s1]| | |]; try done.
    destruct (workers s1 !! w) as [wk1|] eqn:Hw1; [|done].
    destruct (rpc wk1); try done. intros [= <-].
    rewrite exit_eq. simpl.
    rewrite list_lookup_insert_eq by eauto using lookup_lt_Some. done.
  - intros He s'. rewrite exit_eq, Hw, He.
    destruct (exitWait sched w s) as [[[] s1]| | |] eqn:Hwait; try done.
    destruct (exitWait_done _ _ _ _ Hwait) as (wk1 & Hw1 & Hneg).
    rewrite Hw1. destruct (rpc wk1) eqn:Hr1; try done. intros [= <-].
    exists s1, wk1. split_and!; try done; simpl.
    all: try (unfold handoffEvents; by rewrite <- !app_assoc).
    all: try (f_equal; by destruct wk1).
  - intros He Hneg Hnull. rewrite exit_eq, Hw, He, exitWait_eq, Hw.
    replace (0 <=? busyIndex wk)%Z with false by (symmetry; by apply Z.leb_gt).
    by rewrite Hw, Hnull.
  - intros He Hpos. rewrite exit_eq, Hw, He, exitWait_eq, Hw.
    by replace (0 <=? busyIndex wk)%Z with true by (symmetry; by apply Z.leb_le).
Qed.

(** * The specification at the example manager *)

Lemma exRun_reachable ops s :
  run 3 true ops exStart = Done ((), s) → reachable 3 true exRegs ops s.
Proof. intros Hrun. exists exStart. split; [reflexivity|exact Hrun]. Defined.

Lemma C5_handoff_protocol_witness :
  workers (exRun exOpsAsleep) !! 0 = Some (exWorker NULL (-1) SLEEPING) ∧
  rpc (exWorker NULL (-1) SLEEPING) = NULL ∧
  ∃ s' evs,
    handoff 0 (Ptr (exRpc 12 x02)) (exRun exOpsAsleep) = Done ((), s') ∧
    log s' = log (exRun exOpsAsleep) ++ evs ∧
    evs = [EvStoreRpc 0 (Ptr (exRpc 12 x02)); EvFenceLeave;
           EvExchange 0 WORKING SLEEPING; EvFutexWake 0 1] ∧
    (EvFutexWake 0 1 ∈ evs ↔ SLEEPING = SLEEPING) ∧
    workers s' !! 0 =
      Some (set_state WORKING
              (set_rpc (Ptr (exRpc 12 x02)) (exWorker NULL (-1) SLEEPING))).
Proof.
  split; [reflexivity|]. split; [reflexivity|].
  apply (C5_handoff_protocol 0 (Ptr (exRpc 12 x02))
           (exWorker NULL (-1) SLEEPING) (exRun exOpsAsleep));
    reflexivity.
Defined.

Lemma C8_addService_witness :
  length (services (ServiceManager_new 3)) = 3 + 1 ∧
  (∀ info, services (ServiceManager_new 3) !! 2 = Some (Some info) →
     addService exService 2 (ServiceManager_new 3) = AssertionFailed) ∧
  (2 ≤ 3 → services (ServiceManager_new 3) !! 2 = Some None →
     addService exService 2 (ServiceManager_new 3) =
     Done ((), set_serviceCount (λ n, n + 1)%Z
                 (set_services
                    (λ svcs, <[2 := Some (ServiceInfo_new exService)]> svcs)
                    (ServiceManager_new 3)))) ∧
  (∀ s', addService exService 2 (ServiceManager_new 3) = Done ((), s') →
     2 ≤ 3 ∧
     services (ServiceManager_new 3) !! 2 = Some None ∧
     services s' !! 2 = Some (Some (ServiceInfo_new exService)) ∧
     serviceCount s' = (serviceCount (ServiceManager_new 3) + 1)%Z) ∧
  (3 < 2 → addService exService 2 (ServiceManager_new 3) = Undefined).
Proof.
  split; [reflexivity|].
  apply (C8_addService 3 exService 2 (ServiceManager_new 3)).
  reflexivity.
Defined.

(** C8 as stated fails: with [MAX_SERVICE = 3], registering under tag 4
    is not rejected by [addService]; the call runs into the access past
    the end of the table, while the claim promises a failed
    registration. *)
Lemma C8_counterexample :
  3 < 4 ∧
  addService exService 4 (ServiceManager_new 3) = Undefined ∧
  addService exService 4 (ServiceManager_new 3) ≠ AssertionFailed.
Proof. split; [lia|]. split; [reflexivity|discriminate]. Qed.

Lemma C2_handleRpc_errors_witness :
  epochIsSet (exRpc 12 x05) = true ∧
  (true && (serviceCount exStart =? 0)%Z = false →
   (length (requestPayload (exRpc 12 x05)) < sizeof_RpcRequestCommon →
    handleRpc 3 true (exRpc 12 x05) exStart =
    Done ((), set_log (λ l, l ++ [EvLogWarning;
                                 EvPrepareErrorResponse (exRpc 12 x05)
                                   STATUS_MESSAGE_TOO_SHORT;
                                 EvSendReply (exRpc 12 x05)]) exStart)) ∧
   (∀ h, getStart (requestPayload (exRpc 12 x05)) = Some h →
         3 < service h ∨ services exStart !! service h = Some None →
    handleRpc 3 true (exRpc 12 x05) exStart =
    Done ((), set_log (λ l, l ++ [EvLogWarning;
                                 EvPrepareErrorResponse (exRpc 12 x05)
                                   STATUS_SERVICE_NOT_AVAILABLE;
                                 EvSendReply (exRpc 12 x05)]) exStart))) ∧
  (true = true → serviceCount exStart = 0%Z → unroutable 3 (exRpc 12 x05) exStart →
   handleRpc 3 true (exRpc 12 x05) exStart =
   Done ((), set_testRpcs (λ q, q ++ [Ptr (exRpc 12 x05)]) exStart)) ∧
  (∀ s', unroutable 3 (exRpc 12 x05) exStart →
         handleRpc 3 true (exRpc 12 x05) exStart = Done ((), s') →
         handed (log s') = handed (log exStart) ∧
         queued (services s') = queued (services exStart) ∧
         held (workers s') = held (workers exStart)).
Proof.
  split; [reflexivity|].
  apply (C2_handleRpc_errors 3 true (exRpc 12 x05) exStart).
  reflexivity.
Defined.

Lemma C1_handleRpc_admission_witness :
  reachable 3 true exRegs exOpsAsleep (exRun exOpsAsleep) ∧
  epochIsSet (exRpc 12 x02) = true ∧
  routed 3 (exRpc 12 x02) (exRun exOpsAsleep) 2 (exInfo 0 []) ∧
  ((maxThreads (exInfo 0 []) ≤ requestsRunning (exInfo 0 []))%Z →
   handleRpc 3 true (exRpc 12 x02) (exRun exOpsAsleep) =
   Done ((), set_services
               (λ svcs, <[2 := Some (set_waitingRpcs
                                      (λ q, q ++ [Ptr (exRpc 12 x02)])
                                      (exInfo 0 []))]> svcs)
               (exRun exOpsAsleep))) ∧
  ((requestsRunning (exInfo 0 []) < maxThreads (exInfo 0 []))%Z →
   ∃ w wk s0 s',
     ((back (idleThreads (exRun exOpsAsleep)) = Some w ∧
       workers (exRun exOpsAsleep) !! w = Some wk ∧
       s0 = set_idleThreads pop_back (exRun exOpsAsleep)) ∨
      (idleThreads (exRun exOpsAsleep) = [] ∧
       w = length (workers (exRun exOpsAsleep)) ∧ wk = Worker_new ∧
       s0 = afterSpawn (exRun exOpsAsleep))) ∧
     handleRpc 3 true (exRpc 12 x02) (exRun exOpsAsleep) = Done ((), s') ∧
     s' = afterStart w wk 2 (exInfo 0 []) (exRpc 12 x02) s0 ∧
     services s' !! 2 =
       Some (Some (set_requestsRunning (λ n, n + 1)%Z (exInfo 0 []))) ∧
     workers s' !! w =
       Some {| serviceInfo := Some 2; rpc := Ptr (exRpc 12 x02);
               busyIndex := Z.of_nat (length (busyThreads (exRun exOpsAsleep)));
               state := WORKING; exited := exited wk |} ∧
     log s' = log s0 ++ handoffEvents w (Ptr (exRpc 12 x02)) (state wk) ∧
     busyThreads s' = busyThreads (exRun exOpsAsleep) ++ [w] ∧
     idleThreads s' = idleThreads s0).
Proof.
  assert (Hreach : reachable 3 true exRegs exOpsAsleep (exRun exOpsAsleep))
    by (apply exRun_reachable; vm_compute; reflexivity).
  assert (Hrouted : routed 3 (exRpc 12 x02) (exRun exOpsAsleep) 2 (exInfo 0 [])).
  { exists {| service := 2; opcode := 0 |}.
    split; [reflexivity|]. split; [reflexivity|].
    split; [lia|vm_compute; reflexivity]. }
  split; [exact Hreach|]. split; [reflexivity|]. split; [exact Hrouted|].
  apply (C1_handleRpc_admission 3 true exRegs exOpsAsleep (exRpc 12 x02)
           (exRun exOpsAsleep) 2 (exInfo 0 []) Hreach eq_refl Hrouted).
Defined.

Lemma C3_poll_iteration_witness :
  busyThreads (exRun exOpsReturned) !! 0 = Some 0 ∧
  workers (exRun exOpsReturned) !! 0 =
    Some (exWorker (Ptr (exRpc 10 x02)) 0 POLLING) ∧
  busyIndex (exWorker (Ptr (exRpc 10 x02)) 0 POLLING) = Z.of_nat 0 ∧
  rpc (exWorker (Ptr (exRpc 10 x02)) 0 POLLING) ≠ WORKER_EXIT ∧
  pollWorker 0 (exRun exOpsReturned) =
    Done ((), afterNext 0 (exWorker (Ptr (exRpc 10 x02)) 0 POLLING) 2
                (exInfo 1 [Ptr (exRpc 11 x02)]) (Ptr (exRpc 11 x02))
                (exRun exOpsReturned)) ∧
  log (afterNext 0 (exWorker (Ptr (exRpc 10 x02)) 0 POLLING) 2
         (exInfo 1 [Ptr (exRpc 11 x02)]) (Ptr (exRpc 11 x02))
         (exRun exOpsReturned)) =
    log (exRun exOpsReturned) ++
      [EvFenceEnter; EvSendReply (exRpc 10 x02); EvStoreRpc 0 NULL;
       EvStoreRpc 0 (Ptr (exRpc 11 x02)); EvFenceLeave;
       EvExchange 0 WORKING POLLING].
Proof.
  assert (Hb : busyThreads (exRun exOpsReturned) !! 0 = Some 0)
    by (vm_compute; reflexivity).
  assert (Hw : workers (exRun exOpsReturned) !! 0 =
               Some (exWorker (Ptr (exRpc 10 x02)) 0 POLLING))
    by (vm_compute; reflexivity).
  assert (Hx : rpc (exWorker (Ptr (exRpc 10 x02)) 0 POLLING) ≠ WORKER_EXIT)
    by discriminate.
  split; [exact Hb|]. split; [exact Hw|]. split; [reflexivity|].
  split; [exact Hx|].
  destruct (C3_poll_iteration 0 (exRun exOpsReturned) 0
              (exWorker (Ptr (exRpc 10 x02)) 0 POLLING) Hb Hw eq_refl Hx)
    as (_ & _ & _ & _ & _ & _ & Hrest).
  assert (Hs : services (exRun exOpsReturned) !! 2 =
               Some (Some (exInfo 1 [Ptr (exRpc 11 x02)])))
    by (vm_compute; reflexivity).
  destruct (Hrest ltac:(discriminate) ltac:(discriminate) 2
              (exInfo 1 [Ptr (exRpc 11 x02)]) eq_refl Hs) as [Hnext _].
  destruct (Hnext (Ptr (exRpc 11 x02)) eq_refl) as (Hpoll & _ & _ & Hlog & _).
  split; [exact Hpoll|]. rewrite Hlog. vm_compute. reflexivity.
Defined.

Lemma C4_service_counters_witness :
  reachable 3 true exRegs exOpsBusy (exRun exOpsBusy) ∧
  services (exRun exOpsBusy) !! 2 =
    Some (Some (exInfo 1 [Ptr (exRpc 11 x02)])) ∧
  (0 ≤ maxThreads (exInfo 1 [Ptr (exRpc 11 x02)]))%Z ∧
  (0 ≤ requestsRunning (exInfo 1 [Ptr (exRpc 11 x02)])
     ≤ maxThreads (exInfo 1 [Ptr (exRpc 11 x02)]))%Z ∧
  requestsRunning (exInfo 1 [Ptr (exRpc 11 x02)]) =
    Z.of_nat (length (filter
                        (λ w, workers (exRun exOpsBusy) !! w ≫= serviceInfo =
                              Some 2)
                        (busyThreads (exRun exOpsBusy)))) ∧
  (waitingRpcs (exInfo 1 [Ptr (exRpc 11 x02)]) ≠ [] →
   requestsRunning (exInfo 1 [Ptr (exRpc 11 x02)]) =
   maxThreads (exInfo 1 [Ptr (exRpc 11 x02)])).
Proof.
  assert (Hreach : reachable 3 true exRegs exOpsBusy (exRun exOpsBusy))
    by (apply exRun_reachable; vm_compute; reflexivity).
  assert (Hs : services (exRun exOpsBusy) !! 2 =
               Some (Some (exInfo 1 [Ptr (exRpc 11 x02)])))
    by (vm_compute; reflexivity).
  assert (Hpos : (0 ≤ maxThreads (exInfo 1 [Ptr (exRpc 11 x02)]))%Z)
    by (simpl; lia).
  split; [exact Hreach|]. split; [exact Hs|]. split; [exact Hpos|].
  exact (C4_service_counters 3 true exRegs exOpsBusy (exRun exOpsBusy) 2
           (exInfo 1 [Ptr (exRpc 11 x02)]) Hreach Hs Hpos).
Defined.

Lemma C9_busyIndex_witness :
  reachable 3 true exRegs exOpsBusy (exRun exOpsBusy) ∧
  workers (exRun exOpsBusy) !! 0 =
    Some (exWorker (Ptr (exRpc 10 x02)) 0 WORKING) ∧
  ((0 ≤ busyIndex (exWorker (Ptr (exRpc 10 x02)) 0 WORKING))%Z ↔
   0 ∈ busyThreads (exRun exOpsBusy)) ∧
  (0 ∈ busyThreads (exRun exOpsBusy) →
   busyThreads (exRun exOpsBusy)
     !! Z.to_nat (busyIndex (exWorker (Ptr (exRpc 10 x02)) 0 WORKING)) =
   Some 0) ∧
  (0 ∈ idleThreads (exRun exOpsBusy) →
   busyIndex (exWorker (Ptr (exRpc 10 x02)) 0 WORKING) = (-1)%Z).
Proof.
  assert (Hreach : reachable 3 true exRegs exOpsBusy (exRun exOpsBusy))
    by (apply exRun_reachable; vm_compute; reflexivity).
  assert (Hw : workers (exRun exOpsBusy) !! 0 =
               Some (exWorker (Ptr (exRpc 10 x02)) 0 WORKING))
    by (vm_compute; reflexivity).
  split; [exact Hreach|]. split; [exact Hw|].
  exact (C9_busyIndex 3 true exRegs exOpsBusy (exRun exOpsBusy) 0
           (exWorker (Ptr (exRpc 10 x02)) 0 WORKING) Hreach Hw).
Defined.

Lemma C6_fifo_handoff_witness :
  reachable 3 true exRegs exOpsQueued (exRun exOpsQueued) ∧
  services (exRun exOpsQueued) !! 2 =
    Some (Some (exInfo 1 [Ptr (exRpc 11 x02); Ptr (exRpc 12 x02)])) ∧
  forService 2 (submitted exOpsQueued) =
    [exRpc 10 x02; exRpc 11 x02; exRpc 12 x02] ∧
  (Ptr <$> forService 2 (handed (log (exRun exOpsQueued)))) ++
    [Ptr (exRpc 11 x02); Ptr (exRpc 12 x02)] =
    Ptr <$> forService 2 (submitted exOpsQueued) ∧
  ∃ s',
    pollWorker 0 (exRun exOpsQueued) = Done ((), s') ∧
    handed (log (exRun exOpsQueued)) = [exRpc 10 x02] ∧
    handed (log s') = [exRpc 10 x02; exRpc 11 x02] ∧
    services s' !! 2 = Some (Some (exInfo 1 [Ptr (exRpc 12 x02)])) ∧
    workers s' !! 0 = Some (exWorker (Ptr (exRpc 11 x02)) 0 WORKING).
Proof.
  assert (Hreach : reachable 3 true exRegs exOpsQueued (exRun exOpsQueued))
    by (apply exRun_reachable; vm_compute; reflexivity).
  assert (Hs : services (exRun exOpsQueued) !! 2 =
               Some (Some (exInfo 1 [Ptr (exRpc 11 x02); Ptr (exRpc 12 x02)])))
    by (vm_compute; reflexivity).
  split; [exact Hreach|]. split; [exact Hs|].
  split; [vm_compute; reflexivity|].
  destruct (C6_fifo_handoff 3 true exRegs exOpsQueued (exRun exOpsQueued) 2
              (exInfo 1 [Ptr (exRpc 11 x02); Ptr (exRpc 12 x02)]) Hreach Hs)
    as (Hinv & _ & _ & _ & Hpoll).
  split; [exact Hinv|].
  destruct (Hpoll 0 0 (exWorker (Ptr (exRpc 10 x02)) 0 POLLING)
              (Ptr (exRpc 11 x02)))
    as (r & s' & Hr & _ & Hstep & Hh & Hsv & Hw);
    [vm_compute; reflexivity|vm_compute; reflexivity|reflexivity
    |discriminate|discriminate|reflexivity|].
  injection Hr as <-.
  assert (Hh0 : handed (log (exRun exOpsQueued)) = [exRpc 10 x02])
    by (vm_compute; reflexivity).
  exists s'. split; [exact Hstep|]. split; [exact Hh0|].
  split; [rewrite Hh, Hh0; reflexivity|].
  split; [exact Hsv|exact Hw].
Defined.

Lemma C7_reply_once_witness :
  reachable 3 true exRegs exOpsAsleep (exRun exOpsAsleep) ∧
  NoDup (submitted exOpsAsleep) ∧
  replies (log (exRun exOpsAsleep)) ++ pending (exRun exOpsAsleep) ≡ₚ
    submitted exOpsAsleep ∧
  NoDup (replies (log (exRun exOpsAsleep))) ∧
  replies (log (exRun exOpsAsleep)) = [exRpc 10 x02].
Proof.
  assert (Hreach : reachable 3 true exRegs exOpsAsleep (exRun exOpsAsleep))
    by (apply exRun_reachable; vm_compute; reflexivity).
  assert (Hnd : NoDup (submitted exOpsAsleep)).
  { change (submitted exOpsAsleep) with [exRpc 10 x02]. apply NoDup_singleton. }
  split; [exact Hreach|]. split; [exact Hnd|].
  destruct (C7_reply_once 3 true exRegs exOpsAsleep (exRun exOpsAsleep)
              Hreach Hnd) as (Hperm & Hndr & _).
  split; [exact Hperm|]. split; [exact Hndr|]. vm_compute. reflexivity.
Defined.

Lemma C10_exit_idempotent_witness :
  workers (exRun exOpsBusy) !! 0 =
    Some (exWorker (Ptr (exRpc 10 x02)) 0 WORKING) ∧
  (∀ s' sched',
     exit [[(0, ActHandlerReturn)]; [(0, ActHandlerReturn)]] 0
       (exRun exOpsBusy) = Done ((), s') →
     exit sched' 0 s' = Done ((), s')) ∧
  ∃ s', exit [[(0, ActHandlerReturn)]; [(0, ActHandlerReturn)]] 0
          (exRun exOpsBusy) = Done ((), s') ∧
        replies (log s') = [exRpc 10 x02; exRpc 11 x02] ∧
        workers s' !! 0 =
          Some {| serviceInfo := Some 2; rpc := NULL; busyIndex := -1;
                  state := WORKING; exited := true |}.
Proof.
  assert (Hw : workers (exRun exOpsBusy) !! 0 =
               Some (exWorker (Ptr (exRpc 10 x02)) 0 WORKING))
    by (vm_compute; reflexivity).
  split; [exact Hw|].
  destruct (C10_exit_idempotent
              [[(0, ActHandlerReturn)]; [(0, ActHandlerReturn)]] 0
              (exWorker (Ptr (exRpc 10 x02)) 0 WORKING) (exRun exOpsBusy) Hw)
    as (_ & Hidem & _).
  split; [exact Hidem|].
  eexists. split; [vm_compute; reflexivity|].
  split; vm_compute; reflexivity.
Defined.

(** * Further properties of the dispatcher *)

(** ** Invariants of runs *)

Lemma step_invariant MAX T (P : ServiceManager → Prop) :
  (∀ hist r s s', Good MAX hist s → P s → epochIsSet r = true →
     handleStep MAX T r s s' → P s') →
  (∀ hist i s s', Good MAX hist s → P s → pollStep i s s' → P s') →
  (∀ hist w a s s', Good MAX hist s → P s →
     workerAct w a s = Done ((), s') → P s') →
  ∀ hist o s s', Good MAX hist s → P s →
    step MAX T o s = Done ((), s') → P s'.
Proof.
  intros Hh Hp Hw hist o s s' Hg HP Hs. destruct o as [r| |w a]; simpl in Hs.
  - apply handleRpc_cases in Hs as [He Hs]. eauto.
  - rewrite poll_eq in Hs.
    generalize dependent (length (busyThreads s)). intros n.
    revert s Hg HP. induction n as [|i IH]; intros s Hg HP.
    + by intros [= <-].
    + rewrite pollLoop_S.
      destruct (pollWorker i s) as [[[] s1]| | |] eqn:Hi; try done.
      apply IH; [by eapply Good_pollWorker|].
      apply pollWorker_cases in Hi. eauto.
  - eauto.
Qed.

Lemma run_invariant MAX T (P : ServiceManager → Prop) :
  (∀ hist o s s', Good MAX hist s → P s →
     step MAX T o s = Done ((), s') → P s') →
  ∀ ops hist s s', Good MAX hist s → P s →
    run MAX T ops s = Done ((), s') → P s'.
Proof.
  intros Hstep ops. induction ops as [|o ops IH]; intros hist s s' Hg HP.
  - by intros [= <-].
  - rewrite run_cons.
    destruct (step MAX T o s) as [[[] s1]| | |] eqn:Hs; try done.
    eapply IH; [by eapply Good_step|by eauto].
Qed.

Lemma reachable_invariant MAX T (P : ServiceManager → Prop) regs ops s :
  (∀ s0, Fresh MAX regs s0 → P s0) →
  (∀ hist o s s', Good MAX hist s → P s →
     step MAX T o s = Done ((), s') → P s') →
  reachable MAX T regs ops s → P s.
Proof.
  intros H0 Hstep (s0 & Hs0 & Hrun).
  pose proof (Fresh_startup MAX [] regs _ _ (Fresh_new MAX) Hs0) as Hf.
  eapply run_invariant; [done|by eapply Good_Fresh|by apply H0|done].
Qed.

(** ** The registry never changes after startup *)

Lemma registry_insert svcs t info info' :
  svcs !! t = Some (Some info) →
  serviceRef info' = serviceRef info →
  maxThreads info' = maxThreads info →
  registry (<[t := Some info']> svcs) = registry svcs.
Proof.
  intros Ht Hr Hm. unfold registry. rewrite list_fmap_insert.
  apply list_insert_id. rewrite list_lookup_fmap, Ht. simpl.
  by rewrite Hr, Hm.
Qed.

Lemma registry_lookup svcs t :
  registry svcs !! t =
  (λ slot : option ServiceInfo,
     (λ info, (serviceRef info, maxThreads info)) <$> slot) <$> svcs !! t.
Proof. unfold registry. by rewrite list_lookup_fmap. Qed.

Lemma registry_handleStep MAX T r s s' :
  handleStep MAX T r s s' →
  registry (services s') = registry (services s) ∧
  serviceCount s' = serviceCount s.
Proof.
  destruct 1 as [Hu|t info (h & _ & _ & _ & Ht) _
                |t info w wk (h & _ & _ & _ & Ht) _ _ _ _
                |t info (h & _ & _ & _ & Ht) _ _]; simpl.
  - unfold afterUnroutable. by destruct (T && _).
  - split; [|done]. by eapply registry_insert.
  - split; [|done]. by eapply registry_insert.
  - split; [|done]. by eapply registry_insert.
Qed.

Lemma registry_pollStep i s s' :
  pollStep i s s' →
  registry (services s') = registry (services s) ∧
  serviceCount s' = serviceCount s.
Proof.
  destruct 1; simpl; (split; [|done]); try done; by eapply registry_insert.
Qed.

Lemma registry_workerAct w a s s' :
  workerAct w a s = Done ((), s') →
  services s' = services s ∧ serviceCount s' = serviceCount s ∧
  busyThreads s' = busyThreads s ∧ idleThreads s' = idleThreads s ∧
  testRpcs s' = testRpcs s ∧ log s' = log s.
Proof.
  rewrite workerAct_eq. destruct (workers s !! w) as [wk|]; [|done].
  intros [= <-]. destruct a; simpl; try done. by case_decide.
Qed.

Lemma registry_step MAX T hist o s s' :
  Good MAX hist s →
  step MAX T o s = Done ((), s') →
  registry (services s') = registry (services s) ∧
  serviceCount s' = serviceCount s.
Proof.
  intros Hg Hs.
  apply (step_invariant MAX T
           (λ x, registry (services x) = registry (services s) ∧
                 serviceCount x = serviceCount s)) with hist o s; try done.
  - intros _ r x x' _ [<- <-] _ Hh. by eapply registry_handleStep.
  - intros _ i x x' _ [<- <-] Hp. by eapply registry_pollStep.
  - intros _ w a x x' _ [<- <-] Hw.
    apply registry_workerAct in Hw as (-> & -> & _). done.
Qed.

(** What a successful startup leaves in the table. *)
Lemma startup_spec regs s s' :
  startup regs s = Done ((), s') →
  NoDup regs.*2 ∧
  (∀ svc t, (svc, t) ∈ regs →
     services s !! t = Some None ∧
     services s' !! t = Some (Some (ServiceInfo_new svc))) ∧
  (∀ t, t ∉ regs.*2 → services s' !! t = services s !! t) ∧
  serviceCount s' = (serviceCount s + Z.of_nat (length regs))%Z.
Proof.
  revert s. induction regs as [|[svc type] regs IH]; intros s.
  - intros [= <-]. split_and!; [constructor| |done|simpl; lia].
    intros svc t Hin. by apply elem_of_nil in Hin.
  - rewrite startup_cons, addService_eq.
    destruct (services s !! type) as [[info|]|] eqn:Ht; try done.
    intros (Hnd & Hin & Hout & Hc)%IH. simpl in *.
    assert (Hty : type ∉ regs.*2).
    { intros ((svc' & t') & -> & Hr)%list_elem_of_fmap. simpl in *.
      destruct (Hin _ _ Hr) as [Hx _].
      rewrite list_lookup_insert_eq in Hx by eauto using lookup_lt_Some.
      done. }
    split_and!.
    + by constructor.
    + intros svc' t [[= -> ->]|Hr]%elem_of_cons.
      * split; [done|]. rewrite Hout by done.
        apply list_lookup_insert_eq. eauto using lookup_lt_Some.
      * destruct (Hin _ _ Hr) as [Hx Hy]. split; [|done].
        destruct (decide (t = type)) as [->|Hne].
        { rewrite list_lookup_insert_eq in Hx by eauto using lookup_lt_Some.
          done. }
        by rewrite list_lookup_insert_ne in Hx.
    + intros t [Hne Hr]%not_elem_of_cons. rewrite Hout by done.
      by apply list_lookup_insert_ne.
    + lia.
Qed.

Lemma registry_reachable MAX T regs ops s :
  reachable MAX T regs ops s →
  ∃ s0, startup regs (ServiceManager_new MAX) = Done ((), s0) ∧
        registry (services s) = registry (services s0) ∧
        serviceCount s = serviceCount s0.
Proof.
  intros (s0 & Hs0 & Hrun). exists s0. split; [done|].
  pose proof (Fresh_startup MAX [] regs _ _ (Fresh_new MAX) Hs0) as Hf.
  apply (run_invariant MAX T
           (λ x, registry (services x) = registry (services s0) ∧
                 serviceCount x = serviceCount s0)) with ops [] s0;
    [|by eapply Good_Fresh|done|done].
  intros hist o x x' Hg [<- <-] Hs. by eapply registry_step.
Qed.

Lemma registered_of MAX regs s0 s :
  startup regs (ServiceManager_new MAX) = Done ((), s0) →
  registry (services s) = registry (services s0) →
  (∀ svc t, (svc, t) ∈ regs →
     t ≤ MAX ∧
     ∃ info, services s !! t = Some (Some info) ∧ serviceRef info = svc ∧
             maxThreads info = serviceMaxThreads svc) ∧
  (∀ t info, services s !! t = Some (Some info) → (serviceRef info, t) ∈ regs).
Proof.
  intros Hs0 Hreg.
  destruct (startup_spec _ _ _ Hs0) as (Hnd & Hin & Hout & Hc0).
  split.
  - intros svc t Hmem. destruct (Hin _ _ Hmem) as [Hnew Hx].
    split.
    { apply lookup_lt_Some in Hnew. simpl in Hnew.
      rewrite length_replicate in Hnew. lia. }
    pose proof (registry_lookup (services s) t) as Hl.
    rewrite Hreg, registry_lookup, Hx in Hl. simpl in Hl.
    destruct (services s !! t) as [[info|]|]; simplify_eq/=.
    by exists info.
  - intros t info Ht.
    pose proof (registry_lookup (services s) t) as Hl.
    rewrite Hreg, registry_lookup, Ht in Hl. simpl in Hl.
    destruct (decide (t ∈ regs.*2)) as [Hmem|Hmem].
    + apply list_elem_of_fmap in Hmem as ((svc & t') & -> & Hmem). simpl in *.
      destruct (Hin _ _ Hmem) as [_ Hx]. rewrite Hx in Hl. by simplify_eq/=.
    + rewrite (Hout t Hmem) in Hl. simpl in Hl.
      destruct (decide (t < MAX + 1)) as [Hlt|Hge].
      * rewrite lookup_replicate_2 in Hl by done. done.
      * rewrite lookup_ge_None_2 in Hl; [done|]. rewrite length_replicate. lia.
Qed.

(** X1.  Registration is settled at startup.  In every state reached
    from a startup that registered [regs]: the tags of [regs] are
    pairwise distinct and within the table, [serviceCount] is the number
    of registrations, a slot is occupied exactly when its tag was
    registered, and it still names the service registered under that tag
    with the cap that service asked for.  [handleRpc], [poll] and the
    worker threads never add, remove or alter a registration. *)
Theorem X1_registry_stable (MAX : nat) (T : bool) (regs : list (Service * nat))
    (ops : list Op) (s : ServiceManager) :
  reachable MAX T regs ops s →
  NoDup regs.*2 ∧
  length (services s) = MAX + 1 ∧
  serviceCount s = Z.of_nat (length regs) ∧
  (∀ svc t, (svc, t) ∈ regs →
     t ≤ MAX ∧
     ∃ info, services s !! t = Some (Some info) ∧ serviceRef info = svc ∧
             maxThreads info = serviceMaxThreads svc) ∧
  (∀ t info, services s !! t = Some (Some info) → (serviceRef info, t) ∈ regs).
Proof.
  intros Hr. pose proof (Good_reachable _ _ _ _ _ Hr) as (_ & _ & [Hlen _] & _).
  destruct (registry_reachable _ _ _ _ _ Hr) as (s0 & Hs0 & Hreg & Hc).
  destruct (startup_spec _ _ _ Hs0) as (Hnd & _ & _ & Hc0).
  destruct (registered_of _ _ _ _ Hs0 Hreg) as [Hin Hout].
  split_and!; [done|done|rewrite Hc, Hc0; simpl; lia|done|done].
Qed.

(** ** Counting workers *)

Lemma length_workers s :
  Inv s → length (workers s) = length (busyThreads s) + length (idleThreads s).
Proof.
  intros [Hnd Hdom _ _ _]. rewrite <- length_app.
  transitivity (length (seq 0 (length (workers s)))); [by rewrite length_seq|].
  apply Permutation_length, NoDup_Permutation; [apply NoDup_seq|done|].
  intros w. rewrite Hdom, elem_of_seq. lia.
Qed.

Lemma totalRunning_insert svcs t info info' :
  svcs !! t = Some (Some info) →
  totalRunning (<[t := Some info']> svcs) =
  (totalRunning svcs - requestsRunning info + requestsRunning info')%Z.
Proof.
  revert t. induction svcs as [|slot svcs IH]; intros [|t] Ht; simplify_eq/=.
  - lia.
  - rewrite (IH t Ht). destruct slot; lia.
Qed.

Lemma capacity_registry svcs svcs' :
  registry svcs' = registry svcs → capacity svcs' = capacity svcs.
Proof.
  revert svcs'. induction svcs as [|slot svcs IH]; intros [|slot' svcs'] Hr;
    simplify_eq/=; [done|].
  rewrite (IH svcs') by done.
  destruct slot, slot'; simplify_eq/=; congruence.
Qed.

Lemma totalRunning_le svcs :
  (∀ t info, svcs !! t = Some (Some info) →
     (requestsRunning info ≤ maxThreads info)%Z) →
  (totalRunning svcs ≤ capacity svcs)%Z.
Proof.
  induction svcs as [|slot svcs IH]; intros Hle; simpl; [done|].
  assert (totalRunning svcs ≤ capacity svcs)%Z as Hrec.
  { apply IH. intros t info Ht. by apply (Hle (S t)). }
  destruct slot as [info|]; [|done].
  pose proof (Hle 0 info eq_refl). lia.
Qed.

Lemma registry_caps svcs svcs' :
  registry svcs' = registry svcs →
  (∀ t info, svcs !! t = Some (Some info) → (0 ≤ maxThreads info)%Z) →
  ∀ t info, svcs' !! t = Some (Some info) → (0 ≤ maxThreads info)%Z.
Proof.
  intros Hr Hcap t info Ht.
  pose proof (registry_lookup svcs' t) as Hl.
  rewrite Hr, registry_lookup, Ht in Hl. simpl in Hl.
  destruct (svcs !! t) as [[info0|]|] eqn:Ht0; simplify_eq/=.
  pose proof (Hcap _ _ Ht0). congruence.
Qed.

Lemma Counted_step MAX T hist o s s' :
  Good MAX hist s → Counted s → step MAX T o s = Done ((), s') → Counted s'.
Proof.
  apply (step_invariant MAX T Counted); unfold Counted.
  - intros _ r x x' _ Hc _ Hh.
    destruct Hh as [Hu|t info (h & _ & _ & _ & Ht) _
                   |t info w wk (h & _ & _ & _ & Ht) _ _ _ _
                   |t info (h & _ & _ & _ & Ht) _ _]; simpl.
    + unfold afterUnroutable. by destruct (T && _).
    + rewrite (totalRunning_insert _ _ _ _ Ht). simpl. lia.
    + rewrite (totalRunning_insert _ _ _ _ Ht), length_app. simpl. lia.
    + rewrite (totalRunning_insert _ _ _ _ Ht), length_app. simpl. lia.
  - intros _ i x x' _ Hc Hp.
    destruct Hp as [| |w wk t info front _ _ _ _ _ _ _ Ht _
                   |w wk t info lastWorker moved Hb _ _ _ _ _ _ Ht _ _ _];
      simpl; try done.
    + rewrite (totalRunning_insert _ _ _ _ Ht). simpl. lia.
    + rewrite (totalRunning_insert _ _ _ _ Ht). simpl.
      rewrite swapRemove_length by (intros Hnil; by rewrite Hnil in Hb).
      apply lookup_lt_Some in Hb. lia.
  - intros _ w a x x' _ Hc Hw.
    apply registry_workerAct in Hw as (-> & _ & -> & _). done.
Qed.

Lemma Counted_reachable MAX T regs ops s :
  reachable MAX T regs ops s → Counted s.
Proof.
  apply reachable_invariant.
  - intros s0 Hf. unfold Counted. rewrite (fresh_busy _ _ _ Hf). simpl.
    assert (∀ t info, services s0 !! t = Some (Some info) →
                      requestsRunning info = 0%Z) as Hz.
    { intros t info Ht. by destruct (fresh_info _ _ _ Hf t info Ht) as (? & _ & ->). }
    clear Hf. induction (services s0) as [|slot svcs IH]; simpl; [done|].
    rewrite <- IH by (intros t info Ht; by apply (Hz (S t))).
    destruct slot as [info|]; [|done]. by rewrite (Hz 0 info).
  - intros hist o x x'. apply Counted_step.
Qed.

(** X2.  The pool of workers is bounded by the caps.  If no registered
    service has a negative cap, then in every reachable state the number
    of [Worker] objects is at most the sum of [maxThreads] over the
    registered services, the busy list is exactly as long as the sum of
    the [requestsRunning] counters, and the busy list and the idle pool
    together are as long as the list of workers. *)
Theorem X2_worker_pool_bound (MAX : nat) (T : bool) (regs : list (Service * nat))
    (ops : list Op) (s : ServiceManager) :
  reachable MAX T regs ops s →
  (∀ t info, services s !! t = Some (Some info) → (0 ≤ maxThreads info)%Z) →
  (Z.of_nat (length (workers s)) ≤ capacity (services s))%Z ∧
  Z.of_nat (length (busyThreads s)) = totalRunning (services s) ∧
  length (workers s) = length (busyThreads s) + length (idleThreads s).
Proof.
  intros Hr Hcap.
  split_and!; [|by eapply Counted_reachable
               |by eapply length_workers, Inv_reachable].
  pose proof Hr as (s0 & Hs0 & Hrun).
  pose proof (Fresh_startup MAX [] regs _ _ (Fresh_new MAX) Hs0) as Hf.
  assert (registry (services s) = registry (services s0) ∧
          Counted s ∧
          (Z.of_nat (length (workers s)) ≤ capacity (services s0))%Z) as (Hreg & _ & Hle).
  { destruct (registry_reachable _ _ _ _ _ Hr) as (s1 & Hs1 & Hreg1 & _).
    assert (s1 = s0) as -> by congruence.
    assert (∀ t info, services s0 !! t = Some (Some info) →
                      (0 ≤ maxThreads info)%Z) as Hcap0.
    { by eapply registry_caps. }
    clear Hr Hcap Hreg1.
    apply (run_invariant MAX T
             (λ x, registry (services x) = registry (services s0) ∧
                   Counted x ∧
                   (Z.of_nat (length (workers x)) ≤ capacity (services s0))%Z))
      with ops [] s0; [|by eapply Good_Fresh| |done].
    - intros hist o x x' Hg (Hreg & Hc & Hle) Hs.
      pose proof (Good_step _ _ _ _ _ _ Hg Hs) as (Hinv' & _).
      pose proof (Counted_step _ _ _ _ _ _ Hg Hc Hs) as Hc'.
      destruct (registry_step _ _ _ _ _ _ Hg Hs) as [Hreg' _].
      rewrite Hreg in Hreg'. split_and!; [done|done|].
      assert (length (workers x') = length (workers x) ∨
              idleThreads x' = []) as [->|Hnil]; [|done|].
      { destruct o as [r| |w a]; simpl in Hs.
        - apply handleRpc_cases in Hs as [_ Hh].
          destruct Hh as [Hu| | |t info _ _ Hi]; simpl.
          + left. unfold afterUnroutable. by destruct (T && _).
          + by left.
          + left. by rewrite length_insert.
          + by right.
        - left. clear Hc' Hinv' Hreg' Hc Hle Hreg.
          rewrite poll_eq in Hs.
          generalize dependent (length (busyThreads x)). intros n.
          revert x Hg. induction n as [|i IH]; intros x Hg.
          + by intros [= <-].
          + rewrite pollLoop_S.
            destruct (pollWorker i x) as [[[] x1]| | |] eqn:Hi; try done.
            intros Hl. rewrite (IH x1); [|by eapply Good_pollWorker|done].
            apply pollWorker_cases in Hi.
            destruct Hi; simpl; rewrite ?length_insert; try done.
            case_decide; by rewrite ?length_insert.
        - left. rewrite workerAct_eq in Hs.
          destruct (workers x !! w) as [wk|]; [|done].
          injection Hs as <-. destruct a; simpl; rewrite ?length_insert; try done.
          case_decide; simpl; by rewrite ?length_insert. }
      rewrite (length_workers x' Hinv'), Hnil, Nat.add_0_r, Hc'.
      rewrite <- (capacity_registry _ _ Hreg').
      apply totalRunning_le. intros t info Ht.
      destruct Hinv' as [_ _ _ _ Hsvc]. destruct (Hsvc t info Ht) as [_ Hb].
      apply Hb. eapply (registry_caps _ _ Hreg'); eauto.
    - assert (Counted s0) as Hc0.
      { apply (Counted_reachable MAX T regs []). by exists s0. }
      split_and!; [done|done|].
      rewrite (fresh_workers _ _ _ Hf). simpl.
      unfold Counted in Hc0. rewrite (fresh_busy _ _ _ Hf) in Hc0. simpl in Hc0.
      rewrite Hc0. apply totalRunning_le.
      intros t info Ht. pose proof (Hcap0 t info Ht).
      destruct (fresh_info _ _ _ Hf t info Ht) as (svc & _ & ->). done. }
  by rewrite (capacity_registry _ _ Hreg).
Qed.

(** ** Threads started, joined and dismissed *)

Lemma starts_app l1 l2 : starts (l1 ++ l2) = starts l1 ++ starts l2.
Proof. apply omap_app. Qed.
Lemma joins_app l1 l2 : joins (l1 ++ l2) = joins l1 ++ joins l2.
Proof. apply omap_app. Qed.
Lemma dismissed_app l1 l2 : dismissed (l1 ++ l2) = dismissed l1 ++ dismissed l2.
Proof. apply omap_app. Qed.

Lemma threads_handoffEvents w p prev :
  starts (handoffEvents w p prev) = [] ∧
  joins (handoffEvents w p prev) = [] ∧
  dismissed (handoffEvents w p prev) =
    match p with WORKER_EXIT => [w] | _ => [] end.
Proof. unfold handoffEvents. case_decide; by destruct p. Qed.

Lemma threads_replyEvents w p :
  starts (replyEvents w p) = [] ∧ joins (replyEvents w p) = [] ∧
  dismissed (replyEvents w p) = [].
Proof. by destruct p. Qed.

Lemma threads_errorEvents r :
  starts (errorEvents r) = [] ∧ joins (errorEvents r) = [] ∧
  dismissed (errorEvents r) = [].
Proof. done. Qed.

Ltac log_simpl :=
  simpl;
  rewrite ?starts_app, ?joins_app, ?dismissed_app;
  rewrite ?(proj1 (threads_handoffEvents _ _ _)),
    ?(proj1 (proj2 (threads_handoffEvents _ _ _))),
    ?(proj2 (proj2 (threads_handoffEvents _ _ _))),
    ?(proj1 (threads_replyEvents _ _)),
    ?(proj1 (proj2 (threads_replyEvents _ _))),
    ?(proj2 (proj2 (threads_replyEvents _ _))),
    ?app_nil_r.

Lemma Forall_insert_live (ws : list Worker) w wk :
  Forall (λ wk, exited wk = false) ws → exited wk = false →
  Forall (λ wk, exited wk = false) (<[w := wk]> ws).
Proof.
  intros Hall Hwk. destruct (decide (w < length ws)).
  - by apply Forall_insert.
  - by rewrite list_insert_ge by lia.
Qed.

Lemma Fifo_front MAX hist s t info front :
  Fifo MAX hist s →
  services s !! t = Some (Some info) →
  head (waitingRpcs info) = Some front →
  ∃ r, front = Ptr r ∧ tagOf r = Some t.
Proof.
  intros [_ Hf] Ht Hq. specialize (Hf t info Ht).
  destruct (waitingRpcs info) as [|p rest]; simplify_eq/=.
  assert (Hin : front ∈ Ptr <$> forService t hist).
  { rewrite <- Hf, elem_of_app, elem_of_cons. auto. }
  apply list_elem_of_fmap in Hin as (r0 & -> & Hin). exists r0. split; [done|].
  by eapply forService_elem.
Qed.

Lemma Live_handleStep MAX T r x x' :
  Live x → handleStep MAX T r x x' → Live x'.
Proof.
  unfold Live. intros (Hex & Hst & Hj & Hd) Hh.
  destruct Hh as [Hu|t info _ _|t info w wk _ _ _ Hw _|t info _ _ _].
  + unfold afterUnroutable. destruct (T && _); [done|]. log_simpl.
    by rewrite Hst, Hj, Hd.
  + done.
  + log_simpl. rewrite length_insert. split_and!; try done.
    apply Forall_insert_live; [done|]. simpl.
    by apply (Forall_lookup_1 _ _ _ _ Hex Hw).
  + log_simpl. rewrite length_insert, length_app, Hst, Hj, Hd. simpl.
    split_and!; try done.
    * apply Forall_insert_live; [|done].
      apply Forall_app. split; [done|]. by repeat constructor.
    * by rewrite Nat.add_1_r, seq_S.
Qed.

Lemma Live_pollStep MAX hist i x x' :
  Fifo MAX hist x → Live x → pollStep i x x' → Live x'.
Proof.
  unfold Live. intros Hfifo (Hex & Hst & Hj & Hd) Hp.
  destruct Hp as [|w wk _ Hw _ _ _
                 |w wk t info front _ Hw _ _ _ _ _ Ht Hq
                 |w wk t info lastWorker moved _ Hw _ _ _ _ _ _ _ _ Hm];
    try done.
  + log_simpl. rewrite length_insert. split_and!; try done.
    apply Forall_insert_live; [done|]. simpl.
    by apply (Forall_lookup_1 _ _ _ _ Hex Hw).
  + log_simpl. rewrite !length_insert. split_and!; try done.
    * do 2 (apply Forall_insert_live; [|simpl;
        by apply (Forall_lookup_1 _ _ _ _ Hex Hw)]). done.
    * rewrite Hd. by destruct (Fifo_front _ _ _ _ _ _ Hfifo Ht Hq) as (r0 & -> & _).
  + log_simpl. split_and!; try done.
    * apply Forall_insert_live; [|simpl;
        by apply (Forall_lookup_1 _ _ _ _ Hex Hw)].
      case_decide.
      -- apply Forall_insert_live; [done|]. simpl.
         by apply (Forall_lookup_1 _ _ _ _ Hex Hw).
      -- apply Forall_insert_live.
         ++ apply Forall_insert_live; [done|]. simpl.
            by apply (Forall_lookup_1 _ _ _ _ Hex Hw).
         ++ simpl. by apply (Forall_lookup_1 _ _ _ _ Hex (Hm ltac:(done))).
    * rewrite length_insert. case_decide; by rewrite ?length_insert.
Qed.

Lemma Live_workerAct w a x x' :
  Live x → workerAct w a x = Done ((), x') → Live x'.
Proof.
  unfold Live. intros (Hex & Hst & Hj & Hd) Hw.
  pose proof (registry_workerAct _ _ _ _ Hw) as (_ & _ & _ & _ & _ & ->).
  rewrite workerAct_eq in Hw.
  destruct (workers x !! w) as [wk|] eqn:Hwk; [|done].
  injection Hw as <-.
  assert (exited wk = false) by (by apply (Forall_lookup_1 _ _ _ _ Hex Hwk)).
  destruct a; simpl; rewrite ?length_insert; split_and!; try done;
    try (by apply Forall_insert_live).
  all: case_decide; simpl; rewrite ?length_insert; try done.
  by apply Forall_insert_live.
Qed.

Lemma Live_step MAX T hist o s s' :
  Good MAX hist s → Live s → step MAX T o s = Done ((), s') → Live s'.
Proof.
  apply (step_invariant MAX T Live).
  - intros _ r x x' _ HL _ Hh. by eapply Live_handleStep.
  - intros hist0 i x x' (_ & _ & Hfifo & _) HL Hp. by eapply Live_pollStep.
  - intros _ w a x x' _ HL Hw. by eapply Live_workerAct.
Qed.

Lemma Live_reachable MAX T regs ops s : reachable MAX T regs ops s → Live s.
Proof.
  apply reachable_invariant.
  - intros s0 Hf. unfold Live.
    by rewrite (fresh_workers _ _ _ Hf), (fresh_log _ _ _ Hf).
  - intros hist o x x'. apply Live_step.
Qed.

(** ** The dispatcher never fails *)

Lemma run_progress MAX T hist ops s :
  Good MAX hist s →
  Forall (λ o, match o with
               | OpHandleRpc r => epochIsSet r = true
               | OpPoll => True
               | OpWorker w _ => w < length (workers s)
               end) ops →
  ∃ s', run MAX T ops s = Done ((), s').
Proof.
  intros Hg Hops. revert hist s Hg Hops.
  induction ops as [|o ops IH]; intros hist s Hg Hops; [by exists s|].
  apply Forall_cons in Hops as [Ho Hops].
  assert (∃ s1, step MAX T o s = Done ((), s1) ∧
                length (workers s) ≤ length (workers s1)) as (s1 & Hs & Hlen).
  { destruct o as [r| |w a]; simpl.
    - destruct (handleRpc_progress MAX T hist r s Hg Ho) as (s1 & Hs).
      exists s1. split; [done|].
      apply handleRpc_cases in Hs as [_ Hh].
      destruct Hh; simpl; rewrite ?length_insert, ?length_app; try lia.
      unfold afterUnroutable. by destruct (T && _).
    - destruct (pollLoop_progress MAX hist (length (busyThreads s)) s Hg)
        as (s1 & Hs); [done|].
      exists s1. rewrite poll_eq. split; [done|].
      clear Hops IH Ho. generalize dependent (length (busyThreads s)).
      intros n. revert s Hg. induction n as [|i IHn]; intros s Hg.
      + by intros [= <-].
      + rewrite pollLoop_S.
        destruct (pollWorker i s) as [[[] x1]| | |] eqn:Hi; try done.
        intros Hl. etrans; [|eapply (IHn x1); [by eapply Good_pollWorker|done]].
        apply pollWorker_cases in Hi.
        destruct Hi; simpl; rewrite ?length_insert; try done.
        case_decide; by rewrite ?length_insert.
    - rewrite workerAct_eq.
      destruct (lookup_lt_is_Some_2 _ _ Ho) as [wk ->].
      eexists. split; [done|].
      destruct a; simpl; rewrite ?length_insert; try done.
      case_decide; simpl; by rewrite ?length_insert. }
  rewrite run_cons, Hs. eapply IH; [by eapply Good_step|].
  eapply Forall_impl; [done|]. intros [r| |w a]; simpl; try done. lia.
Qed.

(** X3.  The dispatcher never fails.  From every reachable state, any
    further sequence of calls of [handleRpc] (on requests whose epoch is
    set), calls of [poll] and writes of existing worker threads runs to
    completion: no [assert] of the source fails ([rpc == NULL] in
    [handoff], [busyIndex == i] in [poll]), no index leaves
    [busyThreads] or the table of services, and no null [serviceInfo] is
    dereferenced.  The one failure left is the entry assertion of
    [handleRpc]: a request whose epoch is not set aborts. *)
Theorem X3_dispatcher_never_fails (MAX : nat) (T : bool)
    (regs : list (Service * nat)) (ops : list Op) (s : ServiceManager)
    (more : list Op) :
  reachable MAX T regs ops s →
  Forall (λ o, match o with
               | OpHandleRpc r => epochIsSet r = true
               | OpPoll => True
               | OpWorker w _ => w < length (workers s)
               end) more →
  (∃ s', run MAX T more s = Done ((), s') ∧
         reachable MAX T regs (ops ++ more) s') ∧
  (∀ r, epochIsSet r = false → handleRpc MAX T r s = AssertionFailed).
Proof.
  intros Hr Hmore. split.
  - destruct (run_progress MAX T _ more s (Good_reachable _ _ _ _ _ Hr) Hmore)
      as (s' & Hs').
    exists s'. split; [done|].
    destruct Hr as (s0 & Hs0 & Hrun). exists s0. split; [done|].
    clear Hmore Hs0. revert s0 Hrun.
    induction ops as [|o ops IH]; intros s0; simpl.
    + by intros [= <-].
    + unfold bindM at 1. destruct (step MAX T o s0) as [[[] s1]| | |] eqn:Ho;
        try done.
      intros Hrun. unfold bindM at 1. rewrite Ho. by apply IH.
  - intros r He. by rewrite handleRpc_eq, He.
Qed.

(** ** Idleness *)

Lemma totalRunning_zero svcs :
  (∀ t info, svcs !! t = Some (Some info) → requestsRunning info = 0%Z) →
  totalRunning svcs = 0%Z.
Proof.
  induction svcs as [|slot svcs IH]; intros Hz; simpl; [done|].
  rewrite IH by (intros t info Ht; by apply (Hz (S t))).
  destruct slot as [info|]; [|done]. by rewrite (Hz 0 info).
Qed.

Lemma held_NULL ws : Forall (λ wk, rpc wk = NULL) ws → held ws = [].
Proof.
  unfold held. induction 1 as [|wk ws Hwk _ IH]; [done|].
  rewrite bind_cons, IH, Hwk. done.
Qed.

Lemma quiescent MAX T regs ops s :
  reachable MAX T regs ops s →
  busyThreads s = [] →
  (∀ w wk, workers s !! w = Some wk →
     w ∈ idleThreads s ∧ rpc wk = NULL ∧ busyIndex wk = (-1)%Z) ∧
  (∀ t info, services s !! t = Some (Some info) → (0 < maxThreads info)%Z →
     waitingRpcs info = []) ∧
  replies (log s) ++ reqs (testRpcs s) ++ queued (services s) ≡ₚ submitted ops.
Proof.
  intros Hr Hnil.
  pose proof (Good_reachable _ _ _ _ _ Hr) as ([Hnd Hdom Hbusy Hidle Hsvc] & Hown & _).
  assert (∀ w wk, workers s !! w = Some wk →
            w ∈ idleThreads s ∧ rpc wk = NULL ∧ busyIndex wk = (-1)%Z) as Hall.
  { intros w wk Hw.
    assert (w ∈ idleThreads s) as Hin.
    { pose proof (proj2 (Hdom w) (lookup_lt_Some _ _ _ Hw)) as Hin.
      by rewrite Hnil in Hin. }
    destruct (Hidle w Hin) as (wk' & Hw' & ? & ?). by simplify_eq. }
  split_and!; [done| |].
  - intros t info Ht Hpos. destruct (Hsvc t info Ht) as [Hrr Hcap].
    destruct Hcap as [_ Hq]; [lia|].
    destruct (waitingRpcs info); [done|].
    rewrite <- Hq in Hpos by done. rewrite Hrr in Hpos.
    unfold running in Hpos. rewrite Hnil in Hpos. simpl in Hpos. lia.
  - unfold Owned, pending in Hown. rewrite held_NULL in Hown.
    + by rewrite app_nil_r in Hown.
    + apply Forall_lookup. intros w wk Hw. by apply (Hall w wk Hw).
Qed.

(** X4.  [ServiceManager::idle] reads the state and changes nothing.  In
    a reachable state it returns true exactly when every registered
    service has [requestsRunning = 0]; and when it returns true every
    worker is in the idle pool with an empty request slot, no request
    waits in the queue of a service with a positive cap, and every
    request passed to [handleRpc] so far has been replied to, except
    those parked in the test queue or in the queue of a service that can
    run nothing. *)
Theorem X4_idle_quiescent (MAX : nat) (T : bool) (regs : list (Service * nat))
    (ops : list Op) (s : ServiceManager) :
  reachable MAX T regs ops s →
  ∃ b, idle s = Done (b, s) ∧
    (b = true ↔
     ∀ t info, services s !! t = Some (Some info) → requestsRunning info = 0%Z) ∧
    (b = true →
     (∀ w wk, workers s !! w = Some wk →
        w ∈ idleThreads s ∧ rpc wk = NULL ∧ busyIndex wk = (-1)%Z) ∧
     (∀ t info, services s !! t = Some (Some info) → (0 < maxThreads info)%Z →
        waitingRpcs info = []) ∧
     replies (log s) ++ reqs (testRpcs s) ++ queued (services s) ≡ₚ
       submitted ops).
Proof.
  intros Hr.
  pose proof (Inv_reachable _ _ _ _ _ Hr) as [_ _ _ _ Hsvc].
  pose proof (Counted_reachable _ _ _ _ _ Hr) as Hc.
  exists (match busyThreads s with [] => true | _ => false end).
  split; [done|]. split; [split|].
  - intros Hb t info Ht. destruct (busyThreads s) eqn:Hnil; [|done].
    destruct (Hsvc t info Ht) as [-> _]. unfold running. by rewrite Hnil.
  - intros Hz. unfold Counted in Hc. rewrite (totalRunning_zero _ Hz) in Hc.
    by destruct (busyThreads s).
  - intros Hb. destruct (busyThreads s) eqn:Hnil; [|done].
    by apply (quiescent MAX T regs ops s).
Qed.

(** ** Requests reach the service they name *)

Lemma Routed_handleStep MAX T r x x' :
  Routed x → handleStep MAX T r x x' → Routed x'.
Proof.
  unfold Routed. intros HR Hh.
  destruct Hh as [Hu|t info _ _|t info w wk Hrt _ _ Hw _|t info Hrt _ _];
    simpl.
  + unfold afterUnroutable. by destruct (T && _).
  + done.
  + intros w' wk' r' [(_ & <- & _)|[_ Hw']]%list_lookup_insert_Some; simpl.
    * intros [= <-]. exists t. split; [done|]. by eapply routed_tag.
    * by eapply HR.
  + intros w' wk' r' [(_ & <- & _)|[_ Hw']]%list_lookup_insert_Some; simpl.
    * intros [= <-]. exists t. split; [done|]. by eapply routed_tag.
    * apply lookup_app_Some in Hw' as [Hw'|[_ Hw']]; [by eapply HR|].
      apply list_lookup_singleton_Some in Hw' as [_ <-]. done.
Qed.

Lemma Routed_pollStep MAX hist i x x' :
  Fifo MAX hist x → Routed x → pollStep i x x' → Routed x'.
Proof.
  unfold Routed. intros Hfifo HR Hp.
  destruct Hp as [|w wk _ Hw _ _ _
                 |w wk t info front _ Hw _ _ _ _ Hsi Ht Hq
                 |w wk t info lastWorker moved _ Hw _ _ _ _ _ _ _ _ Hm];
    simpl; try done.
  + intros w' wk' r' [(_ & <- & _)|[_ Hw']]%list_lookup_insert_Some;
      [done|by eapply HR].
  + destruct (Fifo_front _ _ _ _ _ _ Hfifo Ht Hq) as (r0 & -> & Htag).
    intros w' wk' r' [(_ & <- & _)|[_ Hw']]%list_lookup_insert_Some; simpl.
    * intros [= <-]. by exists t.
    * apply list_lookup_insert_Some in Hw' as [(_ & <- & _)|[_ Hw']];
        [done|by eapply HR].
  + intros w' wk' r' [(_ & <- & _)|[Hne Hw']]%list_lookup_insert_Some;
      [done|].
    case_decide.
    * apply list_lookup_insert_Some in Hw' as [(_ & <- & _)|[_ Hw']];
        [done|by eapply HR].
    * apply list_lookup_insert_Some in Hw' as [(_ & <- & _)|[_ Hw']].
      -- simpl. by apply (HR lastWorker), Hm.
      -- apply list_lookup_insert_Some in Hw' as [(_ & <- & _)|[_ Hw']];
           [done|by eapply HR].
Qed.

Lemma Routed_workerAct w a x x' :
  Routed x → workerAct w a x = Done ((), x') → Routed x'.
Proof.
  unfold Routed. intros HR Hw. rewrite workerAct_eq in Hw.
  destruct (workers x !! w) as [wk|] eqn:Hwk; [|done].
  injection Hw as <-.
  assert (∀ st w' wk' r', <[w := set_state st wk]> (workers x) !! w' = Some wk' →
            rpc wk' = Ptr r' →
            ∃ t, serviceInfo wk' = Some t ∧ tagOf r' = Some t) as Hset.
  { intros st w' wk' r' [(_ & <- & _)|[_ Hw']]%list_lookup_insert_Some;
      simpl; by eauto. }
  destruct a; simpl; try by apply Hset.
  case_decide; [by apply Hset|by eapply HR].
Qed.

Lemma Routed_step MAX T hist o s s' :
  Good MAX hist s → Routed s → step MAX T o s = Done ((), s') → Routed s'.
Proof.
  apply (step_invariant MAX T Routed).
  - intros _ r x x' _ HR _ Hh. by eapply Routed_handleStep.
  - intros hist0 i x x' (_ & _ & Hfifo & _) HR Hp. by eapply Routed_pollStep.
  - intros _ w a x x' _ HR Hw. by eapply Routed_workerAct.
Qed.

Lemma Routed_reachable MAX T regs ops s :
  reachable MAX T regs ops s → Routed s.
Proof.
  apply reachable_invariant.
  - intros s0 Hf w wk r. by rewrite (fresh_workers _ _ _ Hf).
  - intros hist o x x'. apply Routed_step.
Qed.

(** X5.  Requests reach the service they name.  In every reachable
    state, a request sitting in the slot of a worker was handed to a
    worker that is in [busyThreads] and bound to a registered service,
    and that service is the one registered under the tag in the header
    of the request. *)
Theorem X5_request_bound_to_its_service (MAX : nat) (T : bool)
    (regs : list (Service * nat)) (ops : list Op) (s : ServiceManager)
    (w : nat) (wk : Worker) (r : ServerRpc) :
  reachable MAX T regs ops s →
  workers s !! w = Some wk →
  rpc wk = Ptr r →
  w ∈ busyThreads s ∧
  ∃ t info, serviceInfo wk = Some t ∧ tagOf r = Some t ∧
            services s !! t = Some (Some info) ∧ (serviceRef info, t) ∈ regs.
Proof.
  intros Hr Hw Hrpc.
  pose proof (Inv_reachable _ _ _ _ _ Hr) as [Hnd Hdom Hbusy Hidle Hsvc].
  destruct (Routed_reachable _ _ _ _ _ Hr w wk r Hw Hrpc) as (t & Hsi & Htag).
  assert (w ∈ busyThreads s) as Hin.
  { pose proof (proj2 (Hdom w) (lookup_lt_Some _ _ _ Hw)) as Hin.
    apply elem_of_app in Hin as [Hin|Hin]; [done|].
    destruct (Hidle w Hin) as (wk' & Hw' & _ & Hnull). simplify_eq. congruence. }
  split; [done|].
  apply list_elem_of_lookup in Hin as [i Hi].
  destruct (Hbusy i w Hi) as (wk' & t' & info & Hw' & _ & Hsi' & Ht').
  simplify_eq. exists t, info. split_and!; try done.
  destruct (registry_reachable _ _ _ _ _ Hr) as (s0 & Hs0 & Hreg & _).
  by apply (registered_of MAX regs s0 s Hs0 Hreg).
Qed.

(** ** One request, start to finish *)

Lemma pop_back_back {A} (l : list A) x : back l = Some x → pop_back l ++ [x] = l.
Proof. intros [rest ->]%last_Some. by rewrite pop_back_snoc. Qed.

Lemma serve_one w wk t info r s0 :
  busyThreads s0 = [] →
  workers s0 !! w = Some wk →
  services s0 !! t = Some (Some info) →
  waitingRpcs info = [] →
  ∃ s',
    (workerAct w ActHandlerReturn ;; poll) (afterStart w wk t info r s0) =
      Done ((), s') ∧
    services s' = services s0 ∧ busyThreads s' = [] ∧
    idleThreads s' = idleThreads s0 ++ [w] ∧
    testRpcs s' = testRpcs s0 ∧ serviceCount s' = serviceCount s0 ∧
    log s' = log s0 ++ handoffEvents w (Ptr r) (state wk) ++
               [EvFenceEnter; EvSendReply r; EvStoreRpc w NULL] ∧
    workers s' =
      <[w := {| serviceInfo := Some t; rpc := NULL; busyIndex := -1;
                state := POLLING; exited := exited wk |}]> (workers s0).
Proof.
  intros Hb Hw Ht Hq.
  set (wk1 := set_busyIndex (Z.of_nat (length (busyThreads s0)))
                (set_state WORKING (set_rpc (Ptr r) (set_serviceInfo (Some t) wk)))).
  set (s1 := afterStart w wk t info r s0).
  assert (workers s1 !! w = Some wk1) as Hw1.
  { simpl. apply list_lookup_insert_eq. eauto using lookup_lt_Some. }
  set (s2 := set_workers (λ ws, <[w := set_state POLLING wk1]> ws) s1).
  assert (workerAct w ActHandlerReturn s1 = Done ((), s2)) as Hact.
  { by rewrite workerAct_eq, Hw1. }
  set (info1 := set_requestsRunning (λ n, n + 1)%Z info).
  set (wk2 := set_state POLLING wk1).
  assert (pollWorker 0 s2 =
          Done ((), afterRelease 0 w wk2 t info1 w wk2 s2)) as Hpoll.
  { apply pollWorker_release; simpl; try done.
    - by rewrite Hb.
    - rewrite list_insert_insert_eq. apply list_lookup_insert_eq.
      eauto using lookup_lt_Some.
    - by rewrite Hb.
    - apply list_lookup_insert_eq. eauto using lookup_lt_Some.
    - by rewrite Hb. }
  eexists. split.
  { unfold bindM at 1. rewrite Hact, poll_eq.
    replace (length (busyThreads s2)) with 1 by (simpl; by rewrite Hb).
    rewrite pollLoop_S, Hpoll. done. }
  simpl. rewrite Hb. simpl. split_and!; try done.
  - rewrite !list_insert_insert_eq. apply list_insert_id. rewrite Ht.
    do 2 f_equal. destruct info; unfold set_requestsRunning; simpl. f_equal. lia.
  - unfold swapRemove. by rewrite decide_True by done.
  - rewrite <- !app_assoc. done.
  - rewrite decide_True by done. by rewrite !list_insert_insert_eq.
Qed.

(** X6.  One request, start to finish.  A request for a registered
    service with a positive cap that arrives while nothing is running is
    handed to the worker at the back of the idle pool (or to a new one if
    the pool is empty); once the handler has returned, the next [poll]
    sends the reply and puts the worker at the back of the idle pool
    again.  The table of services, the busy list and the idle pool are
    then as they were before the request (the pool has gained the worker
    if it was created for this request), and the request was handed off
    once and replied to once. *)
Theorem X6_request_round_trip (MAX : nat) (T : bool) (regs : list (Service * nat))
    (ops : list Op) (s : ServiceManager) (r : ServerRpc) (t : nat)
    (info : ServiceInfo) :
  reachable MAX T regs ops s →
  busyThreads s = [] →
  epochIsSet r = true →
  routed MAX r s t info →
  (0 < maxThreads info)%Z →
  ∃ w s',
    w = default (length (workers s)) (back (idleThreads s)) ∧
    run MAX T [OpHandleRpc r; OpWorker w ActHandlerReturn; OpPoll] s =
      Done ((), s') ∧
    services s' = services s ∧
    busyThreads s' = [] ∧
    idleThreads s' =
      match idleThreads s with [] => [w] | _ => idleThreads s end ∧
    testRpcs s' = testRpcs s ∧
    replies (log s') = replies (log s) ++ [r] ∧
    handed (log s') = handed (log s) ++ [r] ∧
    workers s' !! w =
      Some {| serviceInfo := Some t; rpc := NULL; busyIndex := -1;
              state := POLLING; exited := false |} ∧
    ∀ w', w' ≠ w → w' < length (workers s) → workers s' !! w' = workers s !! w'.
Proof.
  intros Hr Hb He Hrt Hpos.
  pose proof (Inv_reachable _ _ _ _ _ Hr) as [Hnd Hdom Hbusy Hidle Hsvc].
  pose proof (Live_reachable _ _ _ _ _ Hr) as (Hex & _).
  pose proof Hrt as (h & _ & _ & _ & Ht).
  destruct (Hsvc t info Ht) as [Hrr Hcap].
  assert (requestsRunning info = 0%Z) as Hz.
  { rewrite Hrr. unfold running. by rewrite Hb. }
  assert (waitingRpcs info = []) as Hq.
  { destruct Hcap as [_ Hq]; [lia|]. destruct (waitingRpcs info); [done|].
    rewrite Hz in Hq. specialize (Hq ltac:(done)). lia. }
  destruct (back (idleThreads s)) as [w|] eqn:Hback; simpl.
  - destruct (Hidle w) as (wk & Hw & _ & Hnull).
    { apply last_Some in Hback as [rest ->]. rewrite elem_of_app, elem_of_cons.
      auto. }
    destruct (serve_one w wk t info r (set_idleThreads pop_back s))
      as (s' & Hrun & Hs1 & Hs2 & Hs3 & Hs4 & Hs5 & Hs6 & Hs7); try done.
    exists w, s'. split; [done|]. split.
    { simpl. unfold bindM at 1.
      rewrite (handleRpc_start_idle MAX T r s t info w wk) by (done || lia).
      revert Hrun. unfold bindM, retM.
      destruct (workerAct _ _ _) as [[[] s2]| | |]; [|done..].
      by intros ->. }
    change (log (set_idleThreads pop_back s)) with (log s) in Hs6.
    simpl in Hs1, Hs2, Hs3, Hs4, Hs7. rewrite Hs6, Hs7.
    rewrite !replies_app, !handed_app, replies_handoffEvents,
      handed_handoffEvents, reqs_Ptr.
    split_and!; try done.
    + rewrite Hs3, (pop_back_back _ _ Hback).
      apply last_Some in Hback as [rest ->]. by destruct rest.
    + rewrite list_lookup_insert_eq by eauto using lookup_lt_Some.
      by rewrite (Forall_lookup_1 _ _ _ _ Hex Hw).
    + intros w' Hne _. by apply list_lookup_insert_ne.
  - apply last_None in Hback.
    destruct (serve_one (length (workers s)) Worker_new t info r (afterSpawn s))
      as (s' & Hrun & Hs1 & Hs2 & Hs3 & Hs4 & Hs5 & Hs6 & Hs7); try done.
    { simpl. by apply list_lookup_middle. }
    eexists _, s'. split; [done|]. split.
    { simpl. unfold bindM at 1.
      rewrite (handleRpc_start_new MAX T r s t info) by (done || lia).
      revert Hrun. unfold bindM, retM.
      destruct (workerAct _ _ _) as [[[] s2]| | |]; [|done..].
      by intros ->. }
    change (log (afterSpawn s)) with (log s ++ [EvThreadStart (length (workers s))])
      in Hs6.
    simpl in Hs1, Hs2, Hs3, Hs4, Hs7. rewrite Hs6, Hs7, Hback.
    rewrite !replies_app, !handed_app, replies_handoffEvents,
      handed_handoffEvents, reqs_Ptr.
    change (replies [EvThreadStart (length (workers s))]) with (@nil ServerRpc).
    change (handed [EvThreadStart (length (workers s))]) with (@nil ServerRpc).
    rewrite !app_nil_r.
    split_and!; try done.
    + by rewrite Hs3, Hback.
    + apply list_lookup_insert_eq. rewrite length_app. simpl. lia.
    + intros w' Hne Hlt. rewrite list_lookup_insert_ne by done.
      by apply lookup_app_l.
Qed.

(** ** The destructor *)

Lemma run_app MAX T ops1 ops2 s :
  run MAX T (ops1 ++ ops2) s =
  match run MAX T ops1 s with
  | Done (_, s1) => run MAX T ops2 s1
  | AssertionFailed => AssertionFailed
  | Undefined => Undefined
  | Spinning => Spinning
  end.
Proof.
  revert s. induction ops1 as [|o ops1 IH]; intros s; [done|].
  rewrite <- app_comm_cons, !run_cons.
  by destruct (step MAX T o s) as [[[] s1]| | |].
Qed.

Lemma reachable_app MAX T regs ops more s s' :
  reachable MAX T regs ops s →
  run MAX T more s = Done ((), s') →
  reachable MAX T regs (ops ++ more) s'.
Proof.
  intros (s0 & Hs0 & Hrun) Hmore. exists s0. split; [done|].
  by rewrite run_app, Hrun.
Qed.

Lemma submitted_app ops1 ops2 :
  submitted (ops1 ++ ops2) = submitted ops1 ++ submitted ops2.
Proof. apply omap_app. Qed.

Lemma workerActs_run MAX T acts s :
  workerActs acts s = run MAX T (actOps acts) s.
Proof.
  revert s. induction acts as [|[w a] acts IH]; intros s; [done|].
  simpl. unfold bindM. by destruct (workerAct w a s) as [[[] s1]| | |].
Qed.

Lemma submitted_actOps acts : submitted (actOps acts) = [].
Proof. by induction acts as [|[w a] acts IH]. Qed.

Lemma drain_eq sched s :
  drain sched s =
  match busyThreads s with
  | [] => Done ((), s)
  | _ :: _ =>
      match sched with
      | [] => Spinning
      | acts :: rest =>
          match workerActs acts s with
          | Done (_, s1) =>
              match poll s1 with
              | Done (_, s2) => drain rest s2
              | AssertionFailed => AssertionFailed
              | Undefined => Undefined
              | Spinning => Spinning
              end
          | AssertionFailed => AssertionFailed
          | Undefined => Undefined
          | Spinning => Spinning
          end
      end
  end.
Proof.
  destruct sched as [|acts rest]; simpl; unfold bindM at 1; unfold gets;
    by destruct (busyThreads s).
Qed.

Lemma drain_reachable MAX T regs sched ops s s' :
  reachable MAX T regs ops s →
  drain sched s = Done ((), s') →
  busyThreads s' = [] ∧
  ∃ more, reachable MAX T regs (ops ++ more) s' ∧ submitted more = [].
Proof.
  revert ops s. induction sched as [|acts rest IH]; intros ops s Hr;
    rewrite drain_eq; destruct (busyThreads s) eqn:Hb; try done.
  - intros [= <-]. split; [done|]. exists []. by rewrite app_nil_r.
  - intros [= <-]. split; [done|]. exists []. by rewrite app_nil_r.
  - destruct (workerActs acts s) as [[[] s1]| | |] eqn:Ha; try done.
    destruct (poll s1) as [[[] s2]| | |] eqn:Hp; try done.
    intros Hd.
    assert (reachable MAX T regs (ops ++ actOps acts ++ [OpPoll]) s2) as Hr2.
    { eapply reachable_app; [done|].
      rewrite run_app, <- (workerActs_run MAX T), Ha. simpl.
      unfold bindM. by rewrite Hp. }
    destruct (IH _ _ Hr2 Hd) as (Hnil & more & Hr' & Hsub). split; [done|].
    exists (actOps acts ++ [OpPoll] ++ more).
    split; [by rewrite <- !app_assoc in Hr'|].
    by rewrite !submitted_app, submitted_actOps, Hsub.
Qed.

Lemma exit_idle sched w wk s :
  workers s !! w = Some wk →
  exited wk = false →
  (busyIndex wk < 0)%Z →
  rpc wk = NULL →
  exit sched w s = Done ((), afterExit w wk s).
Proof.
  intros Hw Hex Hi Hrpc.
  rewrite exit_eq, Hw, Hex, exitWait_eq, Hw.
  destruct (0 <=? busyIndex wk)%Z eqn:Hle; [apply Z.leb_le in Hle; lia|].
  by rewrite Hw, Hrpc.
Qed.

Lemma exitJoin_stuck sched w wk s :
  workers s !! w = Some wk →
  exited wk = false →
  (busyIndex wk < 0)%Z →
  rpc wk = NULL →
  exitJoin false sched w s = Spinning.
Proof.
  intros Hw Hex Hi Hrpc. unfold exitJoin, bindM at 1.
  unfold readWorker, gets, bindM at 1. rewrite Hw. unfold retM. rewrite Hex.
  unfold bindM at 1. rewrite exitWait_eq, Hw.
  destruct (0 <=? busyIndex wk)%Z eqn:Hle; [apply Z.leb_le in Hle; lia|].
  unfold bindM. by rewrite handoff_eq, Hw, Hrpc.
Qed.

Lemma exitAll_spec exitSched exits ws s :
  NoDup ws →
  (∀ w, w ∈ ws → exits w = true) →
  (∀ w, w ∈ ws → ∃ wk, workers s !! w = Some wk ∧ exited wk = false ∧
                       (busyIndex wk < 0)%Z ∧ rpc wk = NULL) →
  ∃ s', exitAll exitSched exits ws s = Done ((), s') ∧
    services s' = services s ∧ busyThreads s' = busyThreads s ∧
    idleThreads s' = idleThreads s ∧ testRpcs s' = testRpcs s ∧
    length (workers s') = length (workers s) ∧
    (∀ w, w ∉ ws → workers s' !! w = workers s !! w) ∧
    (∀ w wk', w ∈ ws → workers s' !! w = Some wk' →
       exited wk' = true ∧ rpc wk' = NULL ∧ state wk' = WORKING) ∧
    joins (log s') = joins (log s) ++ ws ∧
    dismissed (log s') = dismissed (log s) ++ ws ∧
    starts (log s') = starts (log s) ∧
    replies (log s') = replies (log s) ∧
    handed (log s') = handed (log s).
Proof.
  revert s. induction ws as [|w ws IH]; intros s Hnd Hex Hall.
  - exists s. rewrite !app_nil_r. split_and!; try done.
    intros w wk' Hin. by apply elem_of_nil in Hin.
  - apply NoDup_cons in Hnd as [Hnotin Hnd].
    destruct (Hall w) as (wk & Hw & Hexw & Hi & Hrpc); [by left|].
    simpl. unfold bindM at 1. rewrite (Hex w) by (by left).
    unfold exitJoin. rewrite (exit_idle _ w wk s) by done.
    destruct (IH (afterExit w wk s) Hnd)
      as (s' & Hrun & Hs1 & Hs2 & Hs3 & Hs4 & Hlen & Hfr & Hws & Hj & Hd & Hst
          & Hrep & Hh).
    { intros w' Hin. apply Hex. by right. }
    { intros w' Hin. destruct (Hall w') as (wk' & Hw' & ?); [by right|].
      exists wk'. split; [|done]. simpl.
      rewrite list_lookup_insert_ne by (intros ->; done). done. }
    exists s'. split; [done|].
    rewrite Hj, Hd, Hst, Hrep, Hh, Hlen.
    change (log (afterExit w wk s)) with
      (log s ++ handoffEvents w WORKER_EXIT (state wk) ++
       [EvThreadJoin w; EvStoreRpc w NULL]).
    rewrite !joins_app, !dismissed_app, !starts_app, !replies_app, !handed_app.
    rewrite (proj1 (threads_handoffEvents _ _ _)),
      (proj1 (proj2 (threads_handoffEvents _ _ _))),
      (proj2 (proj2 (threads_handoffEvents _ _ _))),
      replies_handoffEvents, handed_handoffEvents.
    simpl. rewrite length_insert, <- !app_assoc, ?app_nil_r. simpl.
    split_and!; try done.
    + intros w' [Hne Hnin]%not_elem_of_cons. rewrite (Hfr w' Hnin). simpl.
      by apply list_lookup_insert_ne.
    + intros w' wk' [->|Hin]%elem_of_cons Hlook; [|by eapply Hws].
      rewrite (Hfr w Hnotin) in Hlook. simpl in Hlook.
      rewrite list_lookup_insert_eq in Hlook by eauto using lookup_lt_Some.
      by simplify_eq.
Qed.

(** The loop over the workers stops at the first thread that does not
    exit. *)
Lemma exitAll_stuck exitSched exits ws s w :
  NoDup ws →
  w ∈ ws → exits w = false →
  (∀ w, w ∈ ws → ∃ wk, workers s !! w = Some wk ∧ exited wk = false ∧
                       (busyIndex wk < 0)%Z ∧ rpc wk = NULL) →
  exitAll exitSched exits ws s = Spinning.
Proof.
  revert s. induction ws as [|w0 ws IH]; intros s Hnd Hin Hw Hall.
  { by apply elem_of_nil in Hin. }
  apply NoDup_cons in Hnd as [Hnotin Hnd].
  destruct (Hall w0) as (wk & Hw0 & Hexw & Hi & Hrpc); [by left|].
  simpl. unfold bindM at 1.
  destruct (exits w0) eqn:Hex0.
  - unfold exitJoin. rewrite (exit_idle _ w0 wk s) by done.
    apply IH; try done.
    + apply elem_of_cons in Hin as [->|Hin]; [congruence|done].
    + intros w' Hin'. destruct (Hall w') as (wk' & Hw' & ?); [by right|].
      exists wk'. split; [|done]. simpl.
      rewrite list_lookup_insert_ne by (intros ->; done). done.
  - by rewrite (exitJoin_stuck _ w0 wk s).
Qed.

Lemma delete_eq sched exitSched exits s :
  ServiceManager_delete sched exitSched exits s =
  match drain sched s with
  | Done (_, s1) => exitAll exitSched exits (idleThreads s1) s1
  | AssertionFailed => AssertionFailed
  | Undefined => Undefined
  | Spinning => Spinning
  end.
Proof.
  unfold ServiceManager_delete, bindM.
  by destruct (drain sched s) as [[[] s1]| | |].
Qed.

(** After the first loop every worker is idle, with an empty slot. *)
Lemma drained_idle MAX T regs sched ops s s1 :
  reachable MAX T regs ops s →
  drain sched s = Done ((), s1) →
  NoDup (idleThreads s1) ∧
  ∀ w, w ∈ idleThreads s1 →
    ∃ wk, workers s1 !! w = Some wk ∧ exited wk = false ∧
          (busyIndex wk < 0)%Z ∧ rpc wk = NULL.
Proof.
  intros Hr Hd.
  destruct (drain_reachable _ _ _ _ _ _ _ Hr Hd) as (Hnil & more & Hr1 & Hsub).
  destruct (quiescent _ _ _ _ _ Hr1 Hnil) as (Hall & Hq & Hown).
  pose proof (Inv_reachable _ _ _ _ _ Hr1) as [Hnd Hdom _ _ _].
  pose proof (Live_reachable _ _ _ _ _ Hr1) as (Hex & Hst & Hj & Hdis).
  rewrite Hnil in Hnd, Hdom. simpl in Hnd, Hdom. split; [done|].
  intros w Hin. destruct (lookup_lt_is_Some_2 (workers s1) w) as [wk Hw].
  { by apply Hdom. }
  destruct (Hall w wk Hw) as (_ & ? & ?). exists wk. split_and!; [done| |lia|done].
  by apply (Forall_lookup_1 _ _ _ _ Hex Hw).
Qed.

Lemma delete_spec MAX T regs ops s sched exitSched exits s1 :
  reachable MAX T regs ops s →
  drain sched s = Done ((), s1) →
  (∀ w, w ∈ idleThreads s1 → exits w = true) →
  ∃ s', ServiceManager_delete sched exitSched exits s = Done ((), s') ∧
    busyThreads s' = [] ∧
    (∀ w wk, workers s' !! w = Some wk →
       exited wk = true ∧ rpc wk = NULL ∧ state wk = WORKING) ∧
    joins (log s') = idleThreads s' ∧
    dismissed (log s') = idleThreads s' ∧
    starts (log s') = seq 0 (length (workers s')) ∧
    idleThreads s' ≡ₚ starts (log s') ∧
    replies (log s') ++ reqs (testRpcs s') ++ queued (services s') ≡ₚ
      submitted ops ∧
    (∀ t info, services s' !! t = Some (Some info) → (0 < maxThreads info)%Z →
       waitingRpcs info = []).
Proof.
  intros Hr Hd Hexits.
  destruct (drain_reachable _ _ _ _ _ _ _ Hr Hd) as (Hnil & more & Hr1 & Hsub).
  destruct (quiescent _ _ _ _ _ Hr1 Hnil) as (Hall & Hq & Hown).
  pose proof (Inv_reachable _ _ _ _ _ Hr1) as [_ Hdom _ _ _].
  pose proof (Live_reachable _ _ _ _ _ Hr1) as (Hex & Hst & Hj & Hdis).
  rewrite Hnil in Hdom. simpl in Hdom.
  destruct (drained_idle _ _ _ _ _ _ _ Hr Hd) as [Hnd Hidle].
  destruct (exitAll_spec exitSched exits (idleThreads s1) s1 Hnd Hexits Hidle)
    as (s' & Hrun & Hs1 & Hs2 & Hs3 & Hs4 & Hlen & Hfr & Hws & Hj' & Hd' & Hst'
        & Hrep & Hh).
  exists s'. rewrite delete_eq, Hd. split; [done|].
  rewrite Hj', Hd', Hst', Hrep, Hj, Hdis, Hs1, Hs2, Hs3, Hs4, Hlen, Hst.
  rewrite submitted_app, Hsub, app_nil_r in Hown.
  split_and!; try done.
  - intros w wk Hw. eapply (Hws w wk); [|done].
    apply Hdom. rewrite <- Hlen. by eapply lookup_lt_Some.
  - apply NoDup_Permutation; [done|apply NoDup_seq|].
    intros w. rewrite Hdom, elem_of_seq. lia.
Qed.

Lemma delete_stuck MAX T regs ops s sched exitSched exits s1 w :
  reachable MAX T regs ops s →
  drain sched s = Done ((), s1) →
  w ∈ idleThreads s1 → exits w = false →
  ServiceManager_delete sched exitSched exits s = Spinning.
Proof.
  intros Hr Hd Hin Hw.
  destruct (drained_idle _ _ _ _ _ _ _ Hr Hd) as [Hnd Hidle].
  rewrite delete_eq, Hd. by eapply exitAll_stuck.
Qed.

(** X7.  The destructor stops every worker thread, after all running
    requests have been answered.  From a reachable state the destructor
    returns exactly when its first loop ends (it polls until no worker
    is busy) and the thread of every worker exits once it is handed the
    sentinel, so that [thread->join()] returns; if the thread of one
    worker never exits, the destructor never returns.  On a manager
    with no busy worker it does not poll.  When it returns, every worker
    has been handed the exit sentinel and joined exactly once, in the
    order of [idleThreads]; the threads joined are the threads that were
    started; every [Worker] has [exited] set and an empty request slot;
    no request waits in the queue of a service with a positive cap; and
    every request ever passed to [handleRpc] has been replied to, unless
    it sits in the test queue or in the queue of a service that can run
    nothing. *)
Theorem X7_destructor_joins_every_thread (MAX : nat) (T : bool)
    (regs : list (Service * nat)) (ops : list Op) (s : ServiceManager)
    (sched : list (list (nat * WorkerAct)))
    (exitSched : nat → list (list (nat * WorkerAct)))
    (exits : nat → bool) :
  reachable MAX T regs ops s →
  ((∃ s', ServiceManager_delete sched exitSched exits s = Done ((), s')) ↔
   (∃ s1, drain sched s = Done ((), s1) ∧
          ∀ w, w ∈ idleThreads s1 → exits w = true)) ∧
  (∀ s1 w, drain sched s = Done ((), s1) →
     w ∈ idleThreads s1 → exits w = false →
     ServiceManager_delete sched exitSched exits s = Spinning) ∧
  (busyThreads s = [] → drain sched s = Done ((), s)) ∧
  ∀ s', ServiceManager_delete sched exitSched exits s = Done ((), s') →
    busyThreads s' = [] ∧
    (∀ w wk, workers s' !! w = Some wk →
       exited wk = true ∧ rpc wk = NULL ∧ state wk = WORKING) ∧
    joins (log s') = idleThreads s' ∧
    dismissed (log s') = idleThreads s' ∧
    starts (log s') = seq 0 (length (workers s')) ∧
    idleThreads s' ≡ₚ starts (log s') ∧
    replies (log s') ++ reqs (testRpcs s') ++ queued (services s') ≡ₚ
      submitted ops ∧
    (∀ t info, services s' !! t = Some (Some info) → (0 < maxThreads info)%Z →
       waitingRpcs info = []).
Proof.
  intros Hr.
  assert (∀ s1 w, drain sched s = Done ((), s1) →
            w ∈ idleThreads s1 → exits w = false →
            ServiceManager_delete sched exitSched exits s = Spinning) as Hstuck.
  { intros s1 w Hd Hin Hw. by eapply delete_stuck. }
  assert (∀ s', ServiceManager_delete sched exitSched exits s = Done ((), s') →
            ∃ s1, drain sched s = Done ((), s1) ∧
                  ∀ w, w ∈ idleThreads s1 → exits w = true) as Hback.
  { intros s' Hs'. pose proof Hs' as Hx. rewrite delete_eq in Hx.
    destruct (drain sched s) as [[[] s1]| | |] eqn:Hd; try done.
    exists s1. split; [done|]. intros w Hin.
    destruct (exits w) eqn:Hw; [done|].
    rewrite (Hstuck s1 w eq_refl Hin Hw) in Hs'. done. }
  split_and!.
  - split; [intros [s' Hs']; by eapply Hback|].
    intros (s1 & Hd & Hex).
    destruct (delete_spec _ _ _ _ _ _ exitSched _ _ Hr Hd Hex) as (s' & Hs' & _).
    by exists s'.
  - done.
  - intros Hnil. rewrite drain_eq. by rewrite Hnil.
  - intros s' Hs'. destruct (Hback s' Hs') as (s1 & Hd & Hex).
    destruct (delete_spec _ _ _ _ _ _ exitSched _ _ Hr Hd Hex)
      as (s2 & Hs2 & Hall).
    rewrite Hs' in Hs2. injection Hs2 as <-. exact Hall.
Qed.

(** ** The test queue *)

Lemma waitForRpc_eq MAX T clock s :
  waitForRpc MAX T clock s =
  match testRpcs s with
  | result :: _ => Done (result, set_testRpcs (drop 1) s)
  | [] =>
      match clock with
      | [] => Spinning
      | (timedOut, ops) :: rest =>
          if timedOut : bool then Done (NULL, s)
          else match run MAX T ops s with
               | Done (_, s1) => waitForRpc MAX T rest s1
               | AssertionFailed => AssertionFailed
               | Undefined => Undefined
               | Spinning => Spinning
               end
      end
  end.
Proof.
  destruct clock as [|[[] ops] rest]; simpl; unfold bindM at 1; unfold gets;
    by destruct (testRpcs s).
Qed.

Lemma TestMode_new MAX : TestMode MAX (ServiceManager_new MAX).
Proof. by split. Qed.

Lemma TestMode_step MAX o s s' :
  TestMode MAX s →
  step MAX true o s = Done ((), s') →
  TestMode MAX s' ∧ testRpcs s' = testRpcs s ++ (Ptr <$> submitted [o]).
Proof.
  intros [Hsv Hc Hb Hi Hw Hl Hq]. destruct o as [r| |w a]; simpl.
  - rewrite handleRpc_eq.
    assert (afterUnroutable true r s = set_testRpcs (λ q, q ++ [Ptr r]) s) as Hu.
    { unfold afterUnroutable. by rewrite Hc. }
    assert (TestMode MAX (set_testRpcs (λ q, q ++ [Ptr r]) s)) as Ht.
    { split; try done. simpl. apply Forall_app. split; [done|].
      apply Forall_singleton. by exists r. }
    destruct (epochIsSet r); [|done].
    destruct (getStart (requestPayload r)) as [h|].
    + destruct (MAX <? service h)%nat eqn:Hmax.
      { rewrite Hu. by intros [= <-]. }
      apply Nat.ltb_ge in Hmax.
      rewrite Hsv, lookup_replicate_2 by lia. rewrite Hu. by intros [= <-].
    + rewrite Hu. by intros [= <-].
  - rewrite poll_eq, Hb. simpl. intros [= <-]. rewrite app_nil_r. by split.
  - rewrite workerAct_eq, Hw. done.
Qed.

Lemma TestMode_run MAX ops s s' :
  TestMode MAX s →
  run MAX true ops s = Done ((), s') →
  TestMode MAX s' ∧ testRpcs s' = testRpcs s ++ (Ptr <$> submitted ops).
Proof.
  revert s. induction ops as [|o ops IH]; intros s Ht.
  - intros [= <-]. by rewrite app_nil_r.
  - rewrite run_cons.
    destruct (step MAX true o s) as [[[] s1]| | |] eqn:Hs; try done.
    destruct (TestMode_step _ _ _ _ Ht Hs) as [Ht1 Hq1].
    intros Hr. destruct (IH _ Ht1 Hr) as [Ht' Hq'].
    split; [done|].
    by rewrite Hq', Hq1, (submitted_cons o ops), fmap_app, app_assoc.
Qed.

Lemma TestMode_reachable MAX ops s :
  reachable MAX true [] ops s →
  TestMode MAX s ∧ testRpcs s = Ptr <$> submitted ops.
Proof.
  intros (s0 & [= <-] & Hrun).
  by apply (TestMode_run MAX ops _ _ (TestMode_new MAX)) in Hrun.
Qed.

Lemma TestMode_pop MAX s p qs :
  TestMode MAX s →
  testRpcs s = p :: qs →
  TestMode MAX (set_testRpcs (drop 1) s) ∧ (∃ r, p = Ptr r) ∧
  testRpcs (set_testRpcs (drop 1) s) = qs.
Proof.
  intros [Hsv Hc Hb Hi Hw Hl Hall] Hq. rewrite Hq in Hall.
  apply Forall_cons in Hall as [Hp Hall].
  split_and!; [split; try done| |]; simpl; by rewrite ?Hq.
Qed.

Lemma waitForRpc_spec MAX clock s p s' :
  TestMode MAX s →
  waitForRpc MAX true clock s = Done (p, s') →
  ∃ k,
    Forall (λ c, c.1 = false) (take k clock) ∧
    TestMode MAX s' ∧
    testRpcs s ++ (Ptr <$> submitted (concat (snd <$> take k clock))) =
      match p with NULL => [] | _ => [p] end ++ testRpcs s' ∧
    (p = NULL → ∃ ops, clock !! k = Some (true, ops)).
Proof.
  revert s. induction clock as [|[timedOut ops] rest IH]; intros s Ht;
    rewrite waitForRpc_eq.
  - destruct (testRpcs s) as [|q qs] eqn:Hq; [done|].
    intros [= <- <-]. exists 0. rewrite app_nil_r.
    destruct (TestMode_pop _ _ _ _ Ht Hq) as (Ht' & [r ->] & Hq').
    rewrite Hq'. by split_and!.
  - destruct (testRpcs s) as [|q qs] eqn:Hq.
    + destruct timedOut.
      * intros [= <- <-]. exists 0. simpl. rewrite Hq.
        split_and!; [done|done|done|]. intros _. by exists ops.
      * destruct (run MAX true ops s) as [[[] s1]| | |] eqn:Hrun; try done.
        destruct (TestMode_run _ _ _ _ Ht Hrun) as [Ht1 Hq1].
        intros Hw. destruct (IH _ Ht1 Hw) as (k & Hk & Ht' & Hcons & Hnull).
        exists (S k). simpl. rewrite submitted_app, fmap_app.
        rewrite Hq1, Hq in Hcons. simpl in Hcons.
        split_and!; [by constructor|done|by rewrite <- Hcons|done].
    + intros [= <- <-]. exists 0. rewrite app_nil_r.
      destruct (TestMode_pop _ _ _ _ Ht Hq) as (Ht' & [r ->] & Hq').
      rewrite Hq'. by split_and!.
Qed.

Lemma set_testRpcs_drop n s :
  set_testRpcs (drop n) (set_testRpcs (drop 1) s) = set_testRpcs (drop (S n)) s.
Proof. apply ServiceManager_eq; simpl; try done. by rewrite drop_drop. Qed.

Lemma waitForRpcs_spec MAX T n clock s :
  n ≤ length (testRpcs s) →
  waitForRpcs MAX T n clock s =
  Done (take n (testRpcs s), set_testRpcs (drop n) s).
Proof.
  revert s. induction n as [|n IH]; intros s Hn; simpl.
  - unfold retM. f_equal. f_equal. apply ServiceManager_eq; simpl; try done.
  - unfold bindM at 1. rewrite waitForRpc_eq.
    destruct (testRpcs s) as [|q qs] eqn:Hq; rewrite ?Hq in Hn; simpl in Hn;
      [lia|].
    unfold bindM at 1. rewrite IH.
    2:{ simpl. rewrite Hq. simpl. rewrite drop_0. lia. }
    simpl. rewrite Hq. simpl. by rewrite set_testRpcs_drop.
Qed.

(** X8.  The test queue is first in, first out.  In a testing build
    with no service registered, a call of [waitForRpc] that returns a
    request returns the oldest one that was passed to [handleRpc] and
    not returned before: the queue followed by the requests delivered
    while the call was polling is the result followed by the queue that
    is left.  It returns NULL only when the clock has passed the
    timeout.  No reply is sent and no worker thread is started.
    Whatever the clock, [n] calls in a row on a queue of at least [n]
    requests return its first [n] entries in order. *)
Theorem X8_waitForRpc_fifo (MAX : nat) (clock : list (bool * list Op))
    (s : ServiceManager) :
  TestMode MAX s →
  (∀ p s', waitForRpc MAX true clock s = Done (p, s') →
     ∃ k,
       Forall (λ c, c.1 = false) (take k clock) ∧
       TestMode MAX s' ∧
       testRpcs s ++ (Ptr <$> submitted (concat (snd <$> take k clock))) =
         match p with NULL => [] | _ => [p] end ++ testRpcs s' ∧
       (p = NULL → ∃ ops, clock !! k = Some (true, ops))) ∧
  (∀ n, n ≤ length (testRpcs s) →
     waitForRpcs MAX true n clock s =
     Done (take n (testRpcs s), set_testRpcs (drop n) s)) ∧
  (∀ ops s', run MAX true ops s = Done ((), s') →
     TestMode MAX s' ∧ testRpcs s' = testRpcs s ++ (Ptr <$> submitted ops)).
Proof.
  intros Ht. split_and!.
  - intros p s'. by apply waitForRpc_spec.
  - intros n. apply waitForRpcs_spec.
  - intros ops s'. by apply TestMode_run.
Qed.

(** ** Nothing is handed off that was not submitted *)

Lemma Taken_handleStep MAX T hist r s s' :
  Taken hist s → handleStep MAX T r s s' → Taken (hist ++ [r]) s'.
Proof.
  unfold Taken. intros Ht Hh.
  destruct Hh as [Hu|t info (h & _ & _ & _ & Hs) _
                 |t info w wk (h & _ & _ & _ & Hs) _ _ _ _
                 |t info (h & _ & _ & _ & Hs) _ _]; simpl.
  - apply submseteq_inserts_r. unfold afterUnroutable.
    destruct (T && _); simpl; [done|].
    by rewrite handed_app, handed_errorEvents, app_nil_r.
  - pose proof (queued_insert (services s) t info
      (set_waitingRpcs (λ q, q ++ [Ptr r]) info) Hs) as Hq.
    simpl in Hq. rewrite reqs_app, reqs_Ptr in Hq.
    set (q' := queued (<[t := _]> (services s))) in *.
    assert (handed (log s) ++ q' ≡ₚ (handed (log s) ++ queued (services s)) ++ [r])
      as ->.
    { apply (Permutation_app_inv_l (reqs (waitingRpcs info))).
      transitivity (handed (log s) ++ reqs (waitingRpcs info) ++ q');
        [solve_Permutation|].
      rewrite Hq. solve_Permutation. }
    by apply submseteq_skips_r.
  - rewrite handed_app, handed_handoffEvents, reqs_Ptr.
    rewrite (queued_insert_same _ _ info) by done.
    assert ((handed (log s) ++ [r]) ++ queued (services s) ≡ₚ
            (handed (log s) ++ queued (services s)) ++ [r]) as ->
      by solve_Permutation.
    by apply submseteq_skips_r.
  - rewrite !handed_app, handed_handoffEvents, reqs_Ptr.
    change (handed [EvThreadStart (length (workers s))]) with (@nil ServerRpc).
    rewrite app_nil_r.
    rewrite (queued_insert_same _ _ info) by done.
    assert ((handed (log s) ++ [r]) ++ queued (services s) ≡ₚ
            (handed (log s) ++ queued (services s)) ++ [r]) as ->
      by solve_Permutation.
    by apply submseteq_skips_r.
Qed.

Lemma Taken_pollStep hist i s s' :
  Taken hist s → pollStep i s s' → Taken hist s'.
Proof.
  unfold Taken. intros Ht Hp.
  destruct Hp as [|w wk _ _ _ _ _
                 |w wk t info front _ _ _ _ _ _ _ Hs Hq
                 |w wk t info lastWorker moved _ _ _ _ _ _ _ Hs _ _ _];
    simpl; try done.
  - by rewrite handed_app, handed_replyEvents, app_nil_r.
  - rewrite !handed_app, handed_replyEvents, handed_handoffEvents, app_nil_r.
    pose proof (queued_insert (services s) t info
      (set_waitingRpcs (drop 1) info) Hs) as Hqi.
    rewrite (reqs_head _ _ Hq) in Hqi. simpl in Hqi.
    set (q' := queued (<[t := _]> (services s))) in *.
    set (d := reqs (drop 1 (waitingRpcs info))) in *.
    assert ((handed (log s) ++ reqs [front]) ++ q' ≡ₚ
            handed (log s) ++ queued (services s)) as ->; [|done].
    apply (Permutation_app_inv_l d).
    transitivity (handed (log s) ++ (reqs [front] ++ d) ++ q');
      [solve_Permutation|].
    rewrite Hqi. solve_Permutation.
  - rewrite handed_app, handed_replyEvents, app_nil_r.
    by rewrite (queued_insert_same _ _ info).
Qed.

Lemma Taken_workerAct hist w a s s' :
  Taken hist s → workerAct w a s = Done ((), s') → Taken hist s'.
Proof.
  unfold Taken. intros Ht Hw.
  by apply registry_workerAct in Hw as (-> & _ & _ & _ & _ & ->).
Qed.

(** The steps of the dispatcher only add to the log. *)

Lemma handleStep_log MAX T r s s' :
  handleStep MAX T r s s' → ∃ d, log s' = log s ++ d.
Proof.
  destruct 1; simpl.
  - unfold afterUnroutable. destruct (T && _); simpl; [exists []|eauto].
    by rewrite app_nil_r.
  - exists []. by rewrite app_nil_r.
  - eauto.
  - rewrite <- app_assoc. eauto.
Qed.

Lemma pollStep_log i s s' : pollStep i s s' → ∃ d, log s' = log s ++ d.
Proof.
  destruct 1; simpl; eauto.
  - exists []. by rewrite app_nil_r.
  - rewrite <- app_assoc. eauto.
Qed.

(** ** The first loop of the destructor ends *)

Lemma queued_length_insert svcs t info info' :
  svcs !! t = Some (Some info) →
  length (queued (<[t := Some info']> svcs)) + length (reqs (waitingRpcs info)) =
  length (queued svcs) + length (reqs (waitingRpcs info')).
Proof.
  intros Ht. unfold queued.
  pose proof (bind_insert_perm
                (λ slot : option ServiceInfo,
                   match slot with
                   | Some info => reqs (waitingRpcs info)
                   | None => []
                   end) svcs t (Some info) (Some info') Ht) as Hperm.
  apply Permutation_length in Hperm. rewrite !length_app in Hperm. lia.
Qed.

Lemma workerActs_services acts s s' :
  workerActs acts s = Done ((), s') → services s' = services s.
Proof.
  revert s. induction acts as [|[w a] acts IH]; intros s; simpl.
  - by intros [= <-].
  - unfold bindM. destruct (workerAct w a s) as [[[] s1]| | |] eqn:Ha; try done.
    intros Hrest. rewrite (IH _ Hrest).
    by destruct (registry_workerAct _ _ _ _ Ha) as [? _].
Qed.

(** One pass of [poll] over busy workers whose handlers have returned:
    each of them takes a request from the queue of its service or goes
    back to the idle pool. *)
Lemma pollLoop_settle MAX hist n s s' :
  Good MAX hist s →
  n ≤ length (busyThreads s) →
  (∀ j w, j < n → busyThreads s !! j = Some w → returned s w) →
  pollLoop n s = Done ((), s') →
  length (queued (services s')) + length (busyThreads s') + n =
  length (queued (services s)) + length (busyThreads s).
Proof.
  revert s. induction n as [|i IH]; intros s Hg Hle Hret.
  - intros [= <-]. lia.
  - rewrite pollLoop_S.
    destruct (pollWorker i s) as [[[] s1]| | |] eqn:Hp; try done.
    intros Hloop.
    pose proof (Good_pollWorker _ _ _ _ _ Hg Hp) as Hg1.
    pose proof Hg as ([Hnd _ _ _ _] & _ & Hfifo & _).
    apply NoDup_app in Hnd as (Hnd & _ & _).
    apply pollWorker_cases in Hp.
    destruct Hp as [w wk Hb Hw Hi Hst
                   |w wk Hb Hw Hi Hst Hx
                   |w wk t info front Hb Hw Hi Hst Hpp Hx Hsi Ht Hq
                   |w wk t info lastWorker moved Hb Hw Hi Hst Hpp Hx Hsi Ht Hq
                      Hl Hm].
    + destruct (Hret i w) as (wk' & Hw' & ? & _); [lia|done|]. congruence.
    + destruct (Hret i w) as (wk' & Hw' & _ & ?); [lia|done|]. congruence.
    + destruct (Fifo_front _ _ _ _ _ _ Hfifo Ht Hq) as (r & -> & _).
      assert (length (queued (services (afterNext w wk t info (Ptr r) s))) + 1 =
              length (queued (services s))) as Hlen.
      { pose proof (queued_length_insert (services s) t info
                      (set_waitingRpcs (drop 1) info) Ht) as Hlen.
        simpl in *. destruct (waitingRpcs info) as [|p rest]; simplify_eq/=.
        rewrite drop_0 in Hlen. lia. }
      enough (length (queued (services s')) + length (busyThreads s') + i =
              length (queued (services (afterNext w wk t info (Ptr r) s))) +
              length (busyThreads s)) by lia.
      apply (IH _ Hg1); [simpl; lia| |done].
      intros j w' Hj Hb'. destruct (Hret j w') as (wk' & Hw' & ?); [lia|done|].
      exists wk'. split; [|done]. simpl.
      rewrite !list_lookup_insert_ne; [done| |];
        intros ->; assert (i = j) by (by eapply NoDup_lookup); lia.
    + assert (busyThreads s ≠ []) as Hne by (intros Hnil; by rewrite Hnil in Hb).
      assert (length (queued (services
                (afterRelease i w wk t info lastWorker moved s))) =
              length (queued (services s))) as Hlen.
      { pose proof (queued_length_insert (services s) t info
                      (set_requestsRunning (λ n, n - 1)%Z info) Ht) as Hlen.
        simpl in *. lia. }
      assert (length (busyThreads
                (afterRelease i w wk t info lastWorker moved s)) =
              length (busyThreads s) - 1) as Hblen.
      { simpl. by apply swapRemove_length. }
      specialize (IH _ Hg1). rewrite Hlen, Hblen in IH.
      assert (0 < length (busyThreads s)) by (destruct (busyThreads s); [done|simpl; lia]).
      enough (length (queued (services s')) + length (busyThreads s') + i =
              length (queued (services s)) + (length (busyThreads s) - 1)) by lia.
      apply IH; [lia| |done].
      intros j w' Hj Hb'. simpl in Hb'. unfold swapRemove, pop_back in Hb'.
      apply lookup_take_Some in Hb' as [Hb' Hjl].
      assert (busyThreads s !! j = Some w') as Hbj.
      { destruct (decide (w = lastWorker)); [done|].
        by rewrite list_lookup_insert_ne in Hb' by lia. }
      destruct (Hret j w') as (wk' & Hw' & Hs1 & Hs2); [lia|done|].
      assert (w ≠ w') as Hne'.
      { intros ->. assert (i = j) by (by eapply NoDup_lookup). lia. }
      unfold returned. simpl. rewrite list_lookup_insert_ne by done.
      destruct (decide (w = lastWorker)) as [->|Hwl].
      { rewrite list_lookup_insert_ne by done. by exists wk'. }
      destruct (decide (lastWorker = w')) as [->|Hwl'].
      * rewrite list_lookup_insert_eq
          by (rewrite length_insert; eauto using lookup_lt_Some).
        specialize (Hm Hwl). assert (moved = wk') as -> by congruence.
        eexists. split; [done|]. done.
      * rewrite !list_lookup_insert_ne by done. by exists wk'.
Qed.

Lemma drain_terminates MAX (T : bool) hist sched s :
  Good MAX hist s →
  Prompt sched s →
  length (queued (services s)) < length sched →
  ∃ s', drain sched s = Done ((), s').
Proof.
  revert hist s. induction sched as [|acts rest IH]; intros hist s Hg Hp Hlen;
    [simpl in Hlen; lia|].
  rewrite drain_eq. destruct (busyThreads s) as [|b bs] eqn:Hb; [by eexists|].
  destruct Hp as [Hacts Hp]; [by rewrite Hb|].
  destruct (run_progress MAX T hist (actOps acts) s Hg) as (s1 & Hrun).
  { unfold actOps. apply Forall_fmap. eapply Forall_impl; [done|].
    by intros [w a]. }
  pose proof (Good_run _ _ _ _ _ _ Hg Hrun) as Hg1.
  rewrite submitted_actOps, app_nil_r in Hg1.
  rewrite <- workerActs_run in Hrun. rewrite Hrun.
  destruct (Hp s1 Hrun) as [Hret Hrest].
  destruct (pollLoop_progress MAX hist (length (busyThreads s1)) s1 Hg1)
    as (s2 & Hpoll); [done|].
  rewrite poll_eq, Hpoll.
  pose proof (Good_pollLoop _ _ _ _ _ Hg1 Hpoll) as Hg2.
  pose proof (pollLoop_settle MAX hist _ s1 s2 Hg1 (le_n _)) as Hsettle.
  rewrite (workerActs_services _ _ _ Hrun) in Hsettle.
  specialize (Hsettle
    (λ j w _ Hj, Hret w (list_elem_of_lookup_2 _ _ _ Hj)) Hpoll).
  destruct (busyThreads s2) as [|b2 bs2] eqn:Hb2.
  - exists s2. rewrite drain_eq. by rewrite Hb2.
  - apply (IH hist s2 Hg2).
    + apply Hrest. by rewrite poll_eq.
    + simpl in Hsettle, Hlen. lia.
Qed.

(** X15.  The destructor returns when the handlers are prompt and the
    threads exit.  From a reachable state, if in every round of its
    first loop the handlers of all busy workers have returned by the
    time [poll] is called, the loop ends after at most one call of
    [poll] more than there are requests waiting in the queues of the
    services: every pass of [poll] hands each busy worker the next
    request of its service or returns it to the idle pool.  If moreover
    the thread of every worker exits once it is handed the sentinel, so
    that [thread->join()] returns, the destructor returns. *)
Theorem X15_destructor_returns (MAX : nat) (T : bool)
    (regs : list (Service * nat)) (ops : list Op) (s : ServiceManager)
    (sched : list (list (nat * WorkerAct)))
    (exitSched : nat → list (list (nat * WorkerAct)))
    (exits : nat → bool) :
  reachable MAX T regs ops s →
  Prompt sched s →
  length (queued (services s)) < length sched →
  ∃ s1, drain sched s = Done ((), s1) ∧
        busyThreads s1 = [] ∧
        ((∀ w, w ∈ idleThreads s1 → exits w = true) →
         ∃ s', ServiceManager_delete sched exitSched exits s = Done ((), s') ∧
               busyThreads s' = [] ∧
               ∀ w wk, workers s' !! w = Some wk → exited wk = true).
Proof.
  intros Hreach Hp Hlen.
  destruct (drain_terminates MAX T _ sched s
              (Good_reachable _ _ _ _ _ Hreach) Hp Hlen) as (s1 & Hd).
  exists s1. split; [done|].
  split; [by destruct (drain_reachable _ _ _ _ _ _ _ Hreach Hd)|].
  intros Hex.
  destruct (delete_spec MAX T regs ops s sched exitSched exits s1 Hreach Hd Hex)
    as (s' & Hdel & Hb & Hws & _).
  exists s'. split_and!; try done.
  intros w wk Hw. by destruct (Hws w wk Hw).
Qed.

(** ** A pass of [poll] visits every busy worker once *)

Lemma Untouched_refl w s : Untouched w s s.
Proof. split_and!; try done. intros wk Hw. by exists wk. Qed.

Lemma Untouched_trans w s1 s2 s3 :
  Untouched w s1 s2 → Untouched w s2 s3 → Untouched w s1 s3.
Proof.
  intros (Hw1 & Hb1 & Hi1) (Hw2 & Hb2 & Hi2). split_and!; [|by auto|by auto].
  intros wk Hw. destruct (Hw1 wk Hw) as (wk1 & Hwk1 & Hs1 & Hr1 & Hsi1).
  destruct (Hw2 wk1 Hwk1) as (wk2 & Hwk2 & Hs2 & Hr2 & Hsi2).
  exists wk2. split_and!; congruence.
Qed.

Lemma pollStep_untouched i s s' w w0 :
  Inv s → pollStep i s s' →
  busyThreads s !! i = Some w → w0 ≠ w →
  Untouched w0 s s'.
Proof.
  intros [Hnd _ _ _ _] Hp Hb Hne.
  apply NoDup_app in Hnd as (Hnd & _ & _).
  destruct Hp as [w' wk Hb' Hw Hi Hst
                 |w' wk Hb' Hw Hi Hst Hx
                 |w' wk t info front Hb' Hw Hi Hst Hpp Hx Hsi Ht Hq
                 |w' wk t info lastWorker moved Hb' Hw Hi Hst Hpp Hx Hsi Ht Hq
                    Hl Hm];
    assert (w' = w) as -> by congruence.
  - apply Untouched_refl.
  - split_and!; try done. intros wk0 Hw0. exists wk0. simpl.
    by rewrite list_lookup_insert_ne.
  - split_and!; try done. intros wk0 Hw0. exists wk0. simpl.
    by rewrite !list_lookup_insert_ne.
  - split_and!.
    + intros wk0 Hw0. simpl. rewrite list_lookup_insert_ne by done.
      destruct (decide (w = lastWorker)) as [->|Hwl].
      { exists wk0. by rewrite list_lookup_insert_ne. }
      destruct (decide (lastWorker = w0)) as [->|Hwl'].
      * rewrite list_lookup_insert_eq
          by (rewrite length_insert; eauto using lookup_lt_Some).
        specialize (Hm Hwl). assert (moved = wk0) as -> by congruence.
        by eexists.
      * exists wk0. by rewrite !list_lookup_insert_ne.
    + intros Hin. simpl.
      destruct (swapRemove_spec _ _ _ _ Hnd Hb Hl) as [Hperm _].
      rewrite Hperm in Hin. apply elem_of_cons in Hin as [?|Hin]; done.
    + intros Hin. simpl. apply elem_of_app. by left.
Qed.

Lemma pollStep_prefix i s s' j :
  pollStep i s s' → j < i → busyThreads s' !! j = busyThreads s !! j.
Proof.
  intros Hp Hj. destruct Hp; try done. simpl.
  assert (i < length (busyThreads s)) by eauto using lookup_lt_Some.
  unfold swapRemove, pop_back.
  destruct (decide (w = lastWorker)).
  - apply lookup_take_lt. lia.
  - rewrite lookup_take_lt by (rewrite length_insert; lia).
    apply list_lookup_insert_ne. lia.
Qed.

Lemma pollStep_polled MAX hist i s s' w wk :
  Good MAX hist s → pollStep i s s' →
  busyThreads s !! i = Some w → workers s !! w = Some wk →
  Polled w wk s'.
Proof.
  intros (_ & _ & Hfifo & _) Hp Hb Hw.
  assert (w ∈ busyThreads s) as Hin by eauto using list_elem_of_lookup_2.
  assert (∀ l p, reqs [p] ⊆ replies (l ++ replyEvents w p)) as Hrep.
  { intros l p r Hr. rewrite replies_app, replies_replyEvents.
    apply elem_of_app. by right. }
  destruct Hp as [w' wk' Hb' Hw' Hi Hst
                 |w' wk' Hb' Hw' Hi Hst Hx
                 |w' wk' t info front Hb' Hw' Hi Hst Hpp Hx Hsi Ht Hq
                 |w' wk' t info lastWorker moved Hb' Hw' Hi Hst Hpp Hx Hsi Ht Hq
                    Hl Hm];
    assert (w' = w) as -> by congruence;
    assert (wk' = wk) as -> by congruence.
  - exists wk. rewrite Hst. by split_and!.
  - exists (set_rpc NULL wk). split; [by apply afterReply_workers|].
    rewrite Hst. split_and!; try done. apply Hrep.
  - destruct (Fifo_front _ _ _ _ _ _ Hfifo Ht Hq) as (r & -> & _).
    eexists. split.
    { simpl. apply list_lookup_insert_eq. rewrite length_insert.
      by eapply lookup_lt_Some. }
    split; [done|].
    assert (reqs [rpc wk] ⊆ replies (log (afterNext w wk t info (Ptr r) s)))
      as Hsub.
    { intros x Hx'. simpl. rewrite replies_app. apply elem_of_app. left.
      by apply Hrep. }
    destruct (state wk) eqn:Hs; try congruence;
      (split; [done|]); right; simpl; by eauto.
  - eexists. split.
    { simpl. apply list_lookup_insert_eq.
      destruct (decide (w = lastWorker)); rewrite ?length_insert;
        by eapply lookup_lt_Some. }
    split; [done|].
    assert (w ∈ idleThreads (afterRelease i w wk t info lastWorker moved s))
      as Hidle.
    { simpl. apply elem_of_app. right. apply list_elem_of_singleton. done. }
    destruct (state wk) eqn:Hs; try congruence;
      (split; [apply Hrep|]); left; simpl; by rewrite ?Hs.
Qed.

Lemma Polled_untouched w wk s1 s' :
  Polled w wk s1 → Untouched w s1 s' →
  (∃ d, log s' = log s1 ++ d) →
  Polled w wk s'.
Proof.
  intros (wk1 & Hw1 & Hsi & Hcase) (Hw & Hb & Hi) [d Hd].
  destruct (Hw wk1 Hw1) as (wk' & Hw' & Hst' & Hr' & Hsi').
  assert (∀ l, l ⊆ replies (log s1) → l ⊆ replies (log s')) as Hmono.
  { intros l Hl r Hr. rewrite Hd, replies_app. apply elem_of_app. left.
    by apply Hl. }
  exists wk'. split; [done|]. split; [congruence|].
  rewrite Hst', Hr'.
  destruct (state wk); try (destruct Hcase as (? & ? & ? & ?)); try done.
  - destruct Hcase as [Hsub [(? & ? & ?)|(? & ? & ?)]]; split; auto.
  - destruct Hcase as (? & ? & ?). auto.
  - split_and!; auto.
  - destruct Hcase as [Hsub [(? & ? & ?)|(? & ? & ?)]]; split; auto.
Qed.

Lemma Polled_cells w wk wk0 s' :
  state wk = state wk0 → rpc wk = rpc wk0 → serviceInfo wk = serviceInfo wk0 →
  Polled w wk0 s' → Polled w wk s'.
Proof. unfold Polled. by intros -> -> ->. Qed.

Lemma pollLoop_polled MAX hist n s s' :
  Good MAX hist s →
  n ≤ length (busyThreads s) →
  pollLoop n s = Done ((), s') →
  (∀ j w wk, j < n → busyThreads s !! j = Some w → workers s !! w = Some wk →
     Polled w wk s') ∧
  (∀ w0, (∀ j, j < n → busyThreads s !! j ≠ Some w0) → Untouched w0 s s') ∧
  (∃ d, log s' = log s ++ d).
Proof.
  revert s. induction n as [|i IH]; intros s Hg Hle.
  - intros [= <-]. split_and!.
    + intros j w wk Hj. lia.
    + intros w0 _. apply Untouched_refl.
    + exists []. by rewrite app_nil_r.
  - rewrite pollLoop_S.
    destruct (pollWorker_progress MAX hist i s Hg) as (s1 & Hp & Hlen); [lia|].
    rewrite Hp. intros Hloop.
    pose proof (Good_pollWorker _ _ _ _ _ Hg Hp) as Hg1.
    apply pollWorker_cases in Hp.
    destruct (IH s1 Hg1 Hlen Hloop) as (HA & HB & HC).
    pose proof Hg as (Hinv & _).
    pose proof Hinv as [Hnd _ _ _ _].
    apply NoDup_app in Hnd as (Hnd & _ & _).
    destruct (lookup_lt_is_Some_2 (busyThreads s) i) as [w Hb]; [lia|].
    assert (∀ j, j < i → busyThreads s1 !! j ≠ Some w) as Hfresh.
    { intros j Hj. rewrite (pollStep_prefix _ _ _ _ Hp Hj). intros Hbj.
      assert (j = i) by (by eapply NoDup_lookup). lia. }
    destruct (pollStep_log _ _ _ Hp) as [d1 Hd1].
    split_and!.
    + intros j w' wk' Hj Hb' Hw'.
      destruct (decide (j = i)) as [->|Hji].
      * assert (w' = w) as -> by congruence.
        apply (Polled_untouched w wk' s1 s'); [|by apply HB|done].
        exact (pollStep_polled MAX hist i s s1 w wk' Hg Hp Hb Hw').
      * assert (w' ≠ w) as Hne.
        { intros ->. assert (j = i) by (by eapply NoDup_lookup). done. }
        destruct (pollStep_untouched _ _ _ _ _ Hinv Hp Hb Hne) as (Hcells & _).
        destruct (Hcells wk' Hw') as (wk1 & Hw1 & Hs1 & Hr1 & Hsi1).
        apply (Polled_cells w' wk' wk1); try done.
        apply (HA j w' wk1); [lia| |done].
        by rewrite (pollStep_prefix _ _ _ _ Hp) by lia.
    + intros w0 Hout.
      assert (w0 ≠ w) as Hne.
      { intros ->. by apply (Hout i); [lia|]. }
      apply (Untouched_trans w0 s s1 s').
      * by eapply pollStep_untouched.
      * apply HB. intros j Hj. rewrite (pollStep_prefix _ _ _ _ Hp Hj).
        apply Hout. lia.
    + destruct HC as [d2 Hd2]. exists (d1 ++ d2).
      by rewrite Hd2, Hd1, app_assoc.
Qed.

(** X18.  A pass of [poll] visits every busy worker exactly once, even
    though it removes workers from [busyThreads] on the way.  In a
    reachable state [poll] returns, and for every worker that was busy
    when it was called: if its state was WORKING it is left as it was;
    if POSTPROCESSING, [sendReply] was invoked on its request, its [rpc]
    is NULL and it is still busy; otherwise (its handler had returned)
    [sendReply] was invoked on its request and the worker is in
    [idleThreads] with [rpc] NULL, or is busy and WORKING on a request
    again.  Workers that were not busy keep their cells and stay in
    [idleThreads]. *)
Theorem X18_poll_visits_every_busy_worker (MAX : nat) (T : bool)
    (regs : list (Service * nat)) (ops : list Op) (s : ServiceManager) :
  reachable MAX T regs ops s →
  ∃ s', poll s = Done ((), s') ∧
    (∀ w wk, w ∈ busyThreads s → workers s !! w = Some wk → Polled w wk s') ∧
    (∀ w, w ∉ busyThreads s → Untouched w s s').
Proof.
  intros Hr. pose proof (Good_reachable _ _ _ _ _ Hr) as Hg.
  destruct (pollLoop_progress MAX _ (length (busyThreads s)) s Hg)
    as (s' & Hp); [done|].
  exists s'. rewrite poll_eq. split; [done|].
  destruct (pollLoop_polled _ _ _ _ _ Hg (le_n _) Hp) as (HA & HB & _).
  split.
  - intros w wk [j Hj]%list_elem_of_lookup Hw.
    apply (HA j w wk); [by eapply lookup_lt_Some|done|done].
  - intros w Hout. apply HB. intros j _ Hj.
    apply Hout. by eapply list_elem_of_lookup_2.
Qed.

(** * Worker threads and the dispatcher together *)

(** ** Views *)

Lemma views_lookup σ w v :
  views σ !! w = Some v ↔
  ∃ wk pc, workers (manager σ) !! w = Some wk ∧ threads σ !! w = Some pc ∧
           v = view wk pc.
Proof.
  unfold views. rewrite lookup_zip_with_Some. split.
  - intros (wk & pc & -> & ? & ?). by exists wk, pc.
  - intros (wk & pc & ? & ? & ->). by exists wk, pc.
Qed.

Lemma zip_view_insert ws ths w wk' pc' :
  zip_with view (<[w := wk']> ws) (<[w := pc']> ths) =
  <[w := view wk' pc']> (zip_with view ws ths).
Proof. by rewrite insert_zip_with. Qed.

Lemma zip_view_insert_worker ws ths w wk' pc :
  ths !! w = Some pc →
  zip_with view (<[w := wk']> ws) ths = <[w := view wk' pc]> (zip_with view ws ths).
Proof.
  intros Hpc. rewrite <- zip_view_insert. by rewrite (list_insert_id ths).
Qed.

Lemma zip_view_insert_thread ws ths w wk pc' :
  ws !! w = Some wk →
  zip_with view ws (<[w := pc']> ths) = <[w := view wk pc']> (zip_with view ws ths).
Proof.
  intros Hwk. rewrite <- zip_view_insert. by rewrite (list_insert_id ws).
Qed.

Lemma zip_view_insert_same ws ths w wk wk' :
  ws !! w = Some wk →
  state wk' = state wk → rpc wk' = rpc wk →
  zip_with view (<[w := wk']> ws) ths = zip_with view ws ths.
Proof.
  intros Hwk Hst Hrpc.
  destruct (ths !! w) as [pc|] eqn:Hpc.
  - rewrite (zip_view_insert_worker _ _ _ _ pc) by done.
    apply list_insert_id. rewrite lookup_zip_with, Hwk, Hpc. simpl.
    unfold view. by rewrite Hst, Hrpc.
  - apply list_eq. intros i. rewrite !lookup_zip_with.
    destruct (decide (i = w)) as [->|Hne].
    + rewrite Hpc, Hwk. simpl.
      by destruct (<[w:=wk']> ws !! w).
    + by rewrite list_lookup_insert_ne.
Qed.

(** ** The threads react to the dispatcher *)

Lemma dispatch_eq ok m σ :
  dispatch ok m σ =
  match m (manager σ) with
  | Done (_, s') => SysDone (reacted ok σ s')
  | AssertionFailed => SysAssertionFailed
  | Undefined => SysUndefined
  | Spinning => SysSpinning
  end.
Proof. unfold dispatch, onManager. by destruct (m (manager σ)) as [[[] s']| | |]. Qed.

Lemma foldl_react_reply ok ths w p : foldl (react ok) ths (replyEvents w p) = ths.
Proof. by destruct p. Qed.

Lemma foldl_react_error ok ths r : foldl (react ok) ths (errorEvents r) = ths.
Proof. done. Qed.

Lemma failedWakes_app ok l1 l2 :
  failedWakes ok (l1 ++ l2) = failedWakes ok l1 ++ failedWakes ok l2.
Proof. apply omap_app. Qed.

Lemma failedWakes_reply ok w p : failedWakes ok (replyEvents w p) = [].
Proof. by destruct p. Qed.

Lemma failedWakes_error ok r : failedWakes ok (errorEvents r) = [].
Proof. done. Qed.

Lemma foldl_react_handoff ok ths w p p' prev pc :
  ths !! w = Some pc →
  foldl (react ok) ths (handoffEvents w p prev) =
  <[w := wakePc (ok w) (prev, p', pc)]> ths.
Proof.
  intros Hpc. unfold handoffEvents, wakePc. simpl.
  destruct (decide (prev = SLEEPING)) as [->|Hne]; simpl.
  - destruct (ok w); [rewrite Hpc|];
      destruct pc; try (by rewrite (list_insert_id _ _ _ Hpc)); done.
  - destruct pc; by rewrite (list_insert_id _ _ _ Hpc).
Qed.

Lemma failedWakes_handoff ok w p p' prev pc :
  failedWakes ok (handoffEvents w p prev) = wakeLog (ok w) w (prev, p', pc).
Proof.
  unfold handoffEvents, wakeLog, failedWakes. simpl.
  destruct (decide (prev = SLEEPING)); simpl; [|done]. by destruct (ok w).
Qed.

(** An idle worker is neither WORKING nor POSTPROCESSING, and its thread
    is waiting for work. *)
Lemma Linked_not_busy σ w v :
  Linked σ →
  views σ !! w = Some v →
  w ∉ busyThreads (manager σ) →
  v.1.1 ≠ WORKING ∧ v.1.1 ≠ POSTPROCESSING ∧ polling v.2 = true ∧
  (v.2 = InFutexWait → v.1.1 = SLEEPING).
Proof.
  intros [_ Hok] Hv Hnb. specialize (Hok w v Hv).
  destruct v as [[st p] pc]. unfold ViewOk in Hok. simpl in *.
  destruct pc; simpl; try done.
  - destruct Hok as [? Hw]. split_and!; try done. intros ?. by destruct Hw.
  - destruct Hok as [? Hw]. split_and!; try done. intros ?. by destruct Hw.
  - destruct Hok as [->|(_ & ? & _)]; done.
  - by destruct Hok as (_ & ? & _).
  - by destruct Hok as [? _].
Qed.

(** A busy worker that is not WORKING and not POSTPROCESSING. *)
Lemma Linked_returned σ w v :
  Linked σ →
  views σ !! w = Some v →
  v.1.1 ≠ WORKING → v.1.1 ≠ POSTPROCESSING →
  polling v.2 = true ∧ (v.2 = InFutexWait → v.1.1 = SLEEPING).
Proof.
  intros [_ Hok] Hv Hw Hpp. specialize (Hok w v Hv).
  destruct v as [[st p] pc]. unfold ViewOk in Hok. simpl in *.
  destruct pc; simpl; try done.
  all: try (by destruct Hok as [? _]).
  - split; [done|]. intros _. by destruct Hok as [?|[? _]].
  - destruct Hok as [_ [[? _]|[? _]]]; done.
Qed.

(** ** Every step of the system is one of the steps the threads see *)

Lemma reacted_quiet ok σ s' evs :
  log s' = log (manager σ) ++ evs →
  foldl (react ok) (threads σ) evs = threads σ →
  threads (reacted ok σ s') = threads σ.
Proof. intros Hl Hf. simpl. by rewrite Hl, drop_app_length. Qed.

Lemma Delta_quiet_log MAX ok σ s' evs :
  workers s' = workers (manager σ) →
  busyThreads s' = busyThreads (manager σ) →
  log s' = log (manager σ) ++ evs →
  foldl (react ok) (threads σ) evs = threads σ →
  failedWakes ok evs = [] →
  handed evs = [] →
  Forall (λ r, unroutable MAX r (manager σ)) (replies evs) →
  Delta MAX σ (reacted ok σ s').
Proof.
  intros Hw Hb Hl Hf Hfw Hh Hr.
  apply (delta_quiet _ _ _ (replies evs)); simpl; try done.
  - unfold views. simpl. by rewrite Hw, Hl, drop_app_length, Hf.
  - by rewrite Hl, handed_app, Hh, app_nil_r.
  - by rewrite Hl, replies_app.
  - by rewrite Hl, drop_app_length, Hfw, app_nil_r.
Qed.

Lemma handle_Delta MAX T ok r σ s' :
  Inv (manager σ) →
  Linked σ →
  handleStep MAX T r (manager σ) s' →
  Delta MAX σ (reacted ok σ s').
Proof.
  intros [Hnd Hdom Hbusy Hidle Hsvc] Hlink Hstep.
  destruct Hstep as [Hu|t info Hrt Hfull|t info w wk Hrt Hfree Hback Hw Hnull
                    |t info Hrt Hfree Hnil].
  - unfold afterUnroutable. destruct (T && _).
    + apply (Delta_quiet_log _ _ _ _ []); simpl; rewrite ?app_nil_r; try done.
    + apply (Delta_quiet_log _ _ _ _ (errorEvents r)); simpl; try done.
      by apply Forall_singleton.
  - apply (Delta_quiet_log _ _ _ _ []); simpl; rewrite ?app_nil_r; try done.
  - assert (w ∈ idleThreads (manager σ)) as Hin.
    { apply last_Some in Hback as [rest ->]. rewrite elem_of_app, elem_of_cons.
      auto. }
    assert (w ∉ busyThreads (manager σ)) as Hnb.
    { intros Hb. apply NoDup_app in Hnd as (_ & Hdisj & _). by apply (Hdisj w). }
    destruct (lookup_lt_is_Some_2 (threads σ) w) as [pc Hpc].
    { rewrite (linked_length _ Hlink). by eapply lookup_lt_Some. }
    assert (views σ !! w = Some (view wk pc)) as Hv.
    { apply views_lookup. by exists wk, pc. }
    destruct (Linked_not_busy _ _ _ Hlink Hv Hnb) as (Hst1 & Hst2 & _).
    eapply (delta_start _ _ _ w (view wk pc) (views σ) r t info (ok w));
      simpl; try done.
    + by left.
    + unfold views. simpl. rewrite drop_app_length.
      rewrite (foldl_react_handoff _ _ _ _ (rpc wk) _ pc Hpc).
      by rewrite zip_view_insert.
    + by rewrite handed_app, handed_handoffEvents, reqs_Ptr.
    + by rewrite replies_app, replies_handoffEvents, app_nil_r.
    + rewrite drop_app_length.
      by rewrite (failedWakes_handoff _ _ _ (rpc wk) _ pc).
  - pose proof (linked_length _ Hlink) as Hlen.
    assert (length (views σ) = length (workers (manager σ))) as Hvl.
    { unfold views. rewrite length_zip_with. lia. }
    eapply (delta_start _ _ _ (length (workers (manager σ)))
              (POLLING, NULL, AtLoad) (views σ ++ [(POLLING, NULL, AtLoad)])
              r t info true); simpl; try done.
    + right. by rewrite Hvl.
    + intros Hin.
      assert (length (workers (manager σ)) < length (workers (manager σ)));
        [|lia].
      apply Hdom, elem_of_app. by left.
    + unfold views. simpl. rewrite <- app_assoc, drop_app_length. simpl.
      assert ((threads σ ++ [AtLoad]) !! length (workers (manager σ)) =
              Some AtLoad) as Hpc.
      { rewrite <- Hlen. by apply list_lookup_middle. }
      rewrite (zip_view_insert_worker _ _ _ _ AtLoad Hpc). f_equal.
      by rewrite zip_with_app.
    + by rewrite !handed_app, handed_handoffEvents, reqs_Ptr, app_nil_r.
    + by rewrite !replies_app, replies_handoffEvents, !app_nil_r.
    + rewrite <- app_assoc, drop_app_length, failedWakes_app.
      by rewrite (failedWakes_handoff _ _ _ NULL _ AtLoad).
Qed.

Lemma poll_Delta MAX hist ok i σ s' :
  Good MAX hist (manager σ) →
  Linked σ →
  pollStep i (manager σ) s' →
  Delta MAX σ (reacted ok σ s').
Proof.
  intros ([Hnd Hdom Hbusy Hidle Hsvc] & _ & Hfifo & _) Hlink Hstep.
  destruct Hstep as [w wk Hb Hw Hi Hst
                    |w wk Hb Hw Hi Hst Hne
                    |w wk t info front Hb Hw Hi Hst1 Hst2 Hne Hsi Ht Hq
                    |w wk t info lastWorker moved Hb Hw Hi Hst1 Hst2 Hne Hsi Ht
                       Hq Hback Hm].
  - apply (Delta_quiet_log _ _ _ _ []); simpl; rewrite ?app_nil_r; try done.
  - destruct (lookup_lt_is_Some_2 (threads σ) w) as [pc Hpc].
    { rewrite (linked_length _ Hlink). by eapply lookup_lt_Some. }
    apply (delta_reply _ _ _ w (rpc wk) pc); simpl; try done.
    + apply views_lookup. exists wk, pc. split_and!; try done.
      unfold view. by rewrite Hst.
    + by eapply list_elem_of_lookup_2.
    + unfold views. simpl. rewrite drop_app_length, foldl_react_reply.
      rewrite (zip_view_insert_worker _ _ _ _ pc Hpc). unfold view. simpl.
      by rewrite Hst.
    + by rewrite handed_app, handed_replyEvents, app_nil_r.
    + by rewrite replies_app, replies_replyEvents.
    + by rewrite drop_app_length, failedWakes_reply, app_nil_r.
  - destruct (lookup_lt_is_Some_2 (threads σ) w) as [pc Hpc].
    { rewrite (linked_length _ Hlink). by eapply lookup_lt_Some. }
    destruct (Fifo_front _ _ _ _ _ _ Hfifo Ht Hq) as (r0 & -> & Htag).
    apply (delta_next _ _ _ w (view wk pc) r0 t info (ok w)); simpl; try done.
    + apply views_lookup. by exists wk, pc.
    + by eapply list_elem_of_lookup_2.
    + unfold svcOf. by rewrite Hw.
    + unfold views. simpl. rewrite <- app_assoc, drop_app_length, foldl_app.
      rewrite foldl_react_reply.
      rewrite (foldl_react_handoff _ _ _ _ (rpc wk) _ pc Hpc).
      by rewrite list_insert_insert_eq, zip_view_insert.
    + by rewrite !handed_app, handed_replyEvents, handed_handoffEvents, reqs_Ptr,
        app_nil_r.
    + by rewrite !replies_app, replies_replyEvents, replies_handoffEvents,
        app_nil_r.
    + rewrite <- app_assoc, drop_app_length, failedWakes_app,
        failedWakes_reply.
      by rewrite (failedWakes_handoff _ _ _ (rpc wk) _ pc).
  - destruct (lookup_lt_is_Some_2 (threads σ) w) as [pc Hpc].
    { rewrite (linked_length _ Hlink). by eapply lookup_lt_Some. }
    apply NoDup_app in Hnd as (Hndb & _ & _).
    destruct (swapRemove_spec _ _ _ _ Hndb Hb Hback) as [Hperm _].
    apply (delta_release _ _ _ w (view wk pc)); simpl; try done.
    + apply views_lookup. by exists wk, pc.
    + by eapply list_elem_of_lookup_2.
    + unfold views. simpl. rewrite drop_app_length, foldl_react_reply.
      rewrite (zip_view_insert_worker _ _ _ _ pc Hpc).
      assert (zip_with view (<[w := set_rpc NULL wk]> (workers (manager σ)))
                (threads σ) =
              <[w := view (set_rpc NULL wk) pc]>
                (zip_with view (workers (manager σ)) (threads σ))) as Hz.
      { by apply zip_view_insert_worker. }
      case_decide.
      * by rewrite Hz, list_insert_insert_eq.
      * rewrite (zip_view_insert_same _ _ _ moved); try done.
        -- by rewrite Hz, list_insert_insert_eq.
        -- rewrite list_lookup_insert_ne by done. by apply Hm.
    + intros x. rewrite Hperm in Hndb. apply NoDup_cons in Hndb as [Hnotin _].
      split.
      * intros Hx. split; [rewrite Hperm; by right|]. by intros ->.
      * intros [Hx Hxw]. rewrite Hperm in Hx.
        by apply elem_of_cons in Hx as [->|Hx].
    + by rewrite handed_app, handed_replyEvents, app_nil_r.
    + by rewrite replies_app, replies_replyEvents.
    + by rewrite drop_app_length, failedWakes_reply, app_nil_r.
Qed.

Lemma compareExchange_eq w expected desired s :
  compareExchange w expected desired s =
  match workers s !! w with
  | None => Undefined
  | Some wk =>
      if decide (state wk = expected)
      then Done (true, set_workers (λ ws, <[w := set_state desired wk]> ws) s)
      else Done (false, s)
  end.
Proof.
  unfold compareExchange. munfold.
  destruct (workers s !! w) as [wk|] eqn:Hw; simpl; [|done].
  destruct (decide _); [|done]. by rewrite Hw.
Qed.

Lemma sendReply_eq w s :
  sendReply w s =
  match workers s !! w with
  | None => Undefined
  | Some wk =>
      Done ((), set_workers (λ ws, <[w := set_state POSTPROCESSING wk]> ws) s)
  end.
Proof.
  unfold sendReply. munfold. by destruct (workers s !! w) as [wk|].
Qed.

Lemma readInfo_eq t s :
  readInfo t s =
  match services s !! t with
  | Some (Some info) => Done (info, s)
  | _ => Undefined
  end.
Proof. unfold readInfo. munfold. by destruct (services s !! t) as [[info|]|]. Qed.

Lemma set_manager_id σ : set_manager (manager σ) σ = σ.
Proof. by destruct σ. Qed.

Lemma Delta_refl MAX σ : Delta MAX σ σ.
Proof. apply (delta_quiet _ _ _ []); rewrite ?app_nil_r; done. Qed.

Lemma Delta_move MAX σ σ' w wk pc v' Δt :
  workers (manager σ) !! w = Some wk →
  threads σ !! w = Some pc →
  ThreadMove w (view wk pc) v' Δt →
  (∀ svc r, ThInvoke w svc r ∈ Δt →
     ∃ t info, serviceInfo wk = Some t ∧
               services (manager σ) !! t = Some (Some info) ∧
               svc = serviceRef info) →
  views σ' = <[w := v']> (views σ) →
  busyThreads (manager σ') = busyThreads (manager σ) →
  log (manager σ') = log (manager σ) →
  trace σ' = trace σ ++ Δt →
  Delta MAX σ σ'.
Proof.
  intros Hw Hpc Hmove Hsvc Hv Hb Hl Ht.
  apply (delta_thread _ _ _ w (view wk pc) v' Δt); try done.
  - apply views_lookup. by exists wk, pc.
  - intros svc r Hin. destruct (Hsvc svc r Hin) as (t & info & ? & ? & ?).
    exists t, info. split_and!; try done. unfold svcOf. by rewrite Hw.
  - by rewrite Hl.
  - by rewrite Hl.
Qed.

Ltac no_invoke :=
  let Hin := fresh in
  intros ? ? Hin;
  repeat (apply elem_of_cons in Hin as [Hin|Hin]; [discriminate Hin|]);
  by apply elem_of_nil in Hin.

Lemma thread_Delta MAX w a σ σ' :
  threadStep w a σ = SysDone σ' → Delta MAX σ σ'.
Proof.
  unfold threadStep.
  destruct (threads σ !! w) as [pc|] eqn:Hpc;
    [|intros [= <-]; apply Delta_refl].
  destruct (workers (manager σ) !! w) as [wk|] eqn:Hw;
    [|intros [= <-]; apply Delta_refl].
  destruct wk as [si p bi st ex].
  destruct pc, a; try (intros [= <-]; apply Delta_refl); try (by intros [=]);
    simpl.
  - (* the loop test *)
    case_decide as Hst; intros [= <-]; [|apply Delta_refl]. subst st.
    eapply (Delta_move _ _ _ w _ AtLoad); try done; try no_invoke.
    + apply move_load.
    + unfold views. simpl. by rewrite (zip_view_insert_thread _ _ _ _ _ Hw).
    + by rewrite app_nil_r.
  - (* the compare-and-exchange *)
    unfold onManager. rewrite compareExchange_eq, Hw. simpl.
    case_decide as Hst; intros [= <-];
      [|rewrite set_manager_id; apply Delta_refl]. subst st.
    eapply (Delta_move _ _ _ w _ AtLoad); try done; try no_invoke.
    + apply move_timeout.
    + unfold views. simpl. by rewrite zip_view_insert.
    + by rewrite app_nil_r.
  - (* futexWait *)
    intros [= <-]. case_decide as Hst.
    + subst st. eapply (Delta_move _ _ _ w _ AtFutexWait); try done; try no_invoke.
      * apply move_block.
      * unfold views. simpl. by rewrite (zip_view_insert_thread _ _ _ _ _ Hw).
      * by rewrite app_nil_r.
    + eapply (Delta_move _ _ _ w _ AtFutexWait); try done; try no_invoke.
      * by apply move_wouldblock.
      * unfold views. simpl. by rewrite (zip_view_insert_thread _ _ _ _ _ Hw).
      * by rewrite app_nil_r.
  - (* futexWait interrupted *)
    intros [= <-]. eapply (Delta_move _ _ _ w _ InFutexWait); try done; try no_invoke.
    + apply move_interrupt.
    + unfold views. simpl. by rewrite (zip_view_insert_thread _ _ _ _ _ Hw).
  - (* the read of rpc *)
    destruct p as [| |r]; [done| |].
    + intros [= <-]. eapply (Delta_move _ _ _ w _ AtFetch); try done; try no_invoke.
      * apply move_exit.
      * unfold views. simpl. by rewrite (zip_view_insert_thread _ _ _ _ _ Hw).
    + destruct si as [t|]; [|done]. unfold onManager. rewrite readInfo_eq.
      destruct (services (manager σ) !! t) as [[info|]|] eqn:Hinfo; try done.
      intros [= <-]. eapply (Delta_move _ _ _ w _ AtFetch); try done.
      * apply move_invoke.
      * intros svc r0 [[= -> ->]|Hin%elem_of_nil]%elem_of_cons; [|done].
        by exists t, info.
      * unfold views. simpl. by rewrite (zip_view_insert_thread _ _ _ _ _ Hw).
  - (* sendReply *)
    unfold onManager. rewrite sendReply_eq, Hw. intros [= <-].
    eapply (Delta_move _ _ _ w _ (InHandler r)); try done; try no_invoke.
    + apply move_sendReply.
    + unfold views. simpl. by rewrite (zip_view_insert_worker _ _ _ _ _ Hpc).
  - (* the handler returns *)
    unfold onManager. rewrite workerAct_eq, Hw. intros [= <-].
    eapply (Delta_move _ _ _ w _ (InHandler r)); try done; try no_invoke.
    + apply move_return.
    + unfold views. simpl. by rewrite zip_view_insert.
Qed.

(** ** The threads and the records of their workers stay in step *)

Lemma ViewOk_busy busy busy' w v :
  (w ∈ busy → w ∈ busy') → ViewOk busy w v → ViewOk busy' w v.
Proof.
  intros Hb. destruct v as [[st p] pc]. unfold ViewOk. simpl.
  destruct pc; try done.
  - intros [? Hw]. split; [done|]. intros Hst. destruct (Hw Hst). auto.
  - intros [? Hw]. split; [done|]. intros Hst. destruct (Hw Hst). auto.
  - intros [?|(? & ? & ?)]; auto.
  - intros (? & ? & ?). auto.
  - intros [? ?]. auto.
Qed.

Lemma ViewOk_handoff busy busy' ok w v r :
  ViewOk busy w v →
  v.1.1 ≠ WORKING → v.1.1 ≠ POSTPROCESSING →
  w ∈ busy' →
  ViewOk busy' w (WORKING, Ptr r, wakePc ok v).
Proof.
  intros Hok Hst Hpp Hin. destruct v as [[st p] pc]. unfold ViewOk, wakePc in *.
  simpl in *.
  destruct pc; simpl; try done.
  - split; [done|]. intros _. eauto.
  - split; [done|]. intros _. eauto.
  - destruct Hok as [->|[? _]]; [|done]. rewrite decide_True by done.
    destruct ok; simpl; [split; [done|]; intros _|right]; eauto.
  - by destruct Hok.
  - by destruct Hok as [_ [[? _]|[? _]]].
Qed.

Lemma ViewOk_move busy w v v' Δt :
  ThreadMove w v v' Δt → ViewOk busy w v → ViewOk busy w v'.
Proof.
  destruct 1; unfold ViewOk; simpl.
  - intros [_ Hw]. destruct Hw as [? ?]; done.
  - done.
  - intros _. by left.
  - done.
  - intros [->|(-> & ? & ?)]; done.
  - intros (-> & ? & _). split; [done|]. by left.
  - intros (_ & _ & [r ?]). done.
  - intros [? [[_ ->]|[_ Hp]]]; (split; [done|]); right; split; try done.
    by left.
  - done.
Qed.

Lemma lookup_views_ext (vs : list View) v w w0 v0 :
  (vs ++ [v]) !! w0 = Some v0 → w = length vs → w0 ≠ w → vs !! w0 = Some v0.
Proof.
  intros Hl -> Hne. apply lookup_app_Some in Hl as [?|[? Hl]]; [done|].
  apply list_lookup_singleton_Some in Hl as [? _]. lia.
Qed.

Lemma Linked_Delta MAX σ σ' :
  Linked σ →
  Delta MAX σ σ' →
  length (threads σ') = length (workers (manager σ')) →
  Linked σ'.
Proof.
  intros Hlink HD Hlen. split; [done|]. pose proof (linked_ok _ Hlink) as Hok.
  destruct HD as [Δr Hv Hb _ _ _ _
                 |w v vs r t info ok Hw Hst Hpp Hnull Hnb _ _ Hv Hb _ _ _
                 |w p pc Hw Hin Hv Hb _ _ _
                 |w v r t info ok Hw Hst Hpp Hin _ _ _ Hv Hb _ _ _
                 |w v Hw Hst Hpp Hin Hv Hb _ _ _
                 |w v v' Δt Hw Hmove _ Hv Hb _ _ _];
    rewrite Hv; try rewrite Hb.
  - done.
  - intros w0 v0 [(<- & <- & _)|[Hne Hl]]%list_lookup_insert_Some.
    + assert (ViewOk (busyThreads (manager σ)) w v) as Hold.
      { destruct Hw as [[Hw ->]|(-> & -> & ->)]; [by apply Hok|].
        unfold ViewOk. simpl. done. }
      apply (ViewOk_handoff _ _ _ _ _ _ Hold); try done.
      rewrite elem_of_app, elem_of_cons. auto.
    + apply (ViewOk_busy (busyThreads (manager σ))).
      { intros ?. apply elem_of_app. by left. }
      apply Hok. destruct Hw as [[_ ->]|(Hwl & _ & ->)]; [done|].
      by eapply lookup_views_ext.
  - intros w0 v0 [(<- & <- & _)|[Hne Hl]]%list_lookup_insert_Some;
      [|by apply Hok].
    specialize (Hok _ _ Hw). unfold ViewOk in *. simpl in *.
    destruct pc; try done; try (by destruct Hok).
    + by destruct Hok as [?|[? _]].
    + destruct Hok as [? [[? _]|[_ _]]]; [done|]. split; [done|]. right. auto.
  - intros w0 v0 [(<- & <- & _)|[Hne Hl]]%list_lookup_insert_Some;
      [|by apply Hok].
    by apply (ViewOk_handoff _ _ _ _ _ _ (Hok _ _ Hw)).
  - intros w0 v0 [(<- & <- & _)|[Hne Hl]]%list_lookup_insert_Some.
    + specialize (Hok _ _ Hw). destruct v as [[st p] pc].
      unfold ViewOk in *. simpl in *.
      destruct pc; try done.
      * destruct Hok as [?|[? _]]; [by left|done].
      * by destruct Hok.
      * by destruct Hok as [_ [[? _]|[? _]]].
    + apply (ViewOk_busy (busyThreads (manager σ))); [|by apply Hok].
      intros ?. by apply Hb.
  - intros w0 v0 [(<- & <- & _)|[Hne Hl]]%list_lookup_insert_Some;
      [|by apply Hok].
    by apply (ViewOk_move _ _ _ _ _ Hmove), Hok.
Qed.

(** ** Induction over the runs of the system *)

Lemma reacted_trans ok σ s1 s2 :
  (∃ d, log s1 = log (manager σ) ++ d) →
  (∃ d, log s2 = log s1 ++ d) →
  reacted ok (reacted ok σ s1) s2 = reacted ok σ s2.
Proof.
  intros [d1 H1] [d2 H2]. unfold reacted. simpl.
  rewrite H2, H1, <- app_assoc, !drop_app_length.
  rewrite (app_assoc (log (manager σ))), drop_app_length, foldl_app.
  by rewrite failedWakes_app, app_assoc.
Qed.

Lemma reacted_refl ok σ : reacted ok σ (manager σ) = σ.
Proof.
  destruct σ as [s ths tr]. unfold reacted. simpl.
  by rewrite drop_all, app_nil_r.
Qed.

Lemma length_foldl_react ok ths evs :
  length (foldl (react ok) ths evs) = length ths + length (starts evs).
Proof.
  revert ths. induction evs as [|e evs IH]; intros ths; simpl; [lia|].
  rewrite IH. destruct e; simpl; try lia.
  - rewrite length_app. simpl.
    change (starts (EvThreadStart w :: evs)) with (w :: starts evs). simpl. lia.
  - change (starts (EvFutexWake w count :: evs)) with (starts evs).
    destruct (ok w); [|done].
    destruct (ths !! w) as [[]|]; by rewrite ?length_insert.
Qed.

Lemma reacted_length ok σ s' :
  Live (manager σ) → Live s' →
  (∃ d, log s' = log (manager σ) ++ d) →
  length (threads σ) = length (workers (manager σ)) →
  length (threads (reacted ok σ s')) = length (workers s').
Proof.
  intros (_ & Hst & _) (_ & Hst' & _) [d Hd] Hlen. simpl.
  rewrite Hd, drop_app_length, length_foldl_react, Hlen.
  rewrite Hd, starts_app, Hst in Hst'.
  apply (f_equal length) in Hst'. rewrite length_app, !length_seq in Hst'. done.
Qed.

Lemma Sound_handleStep MAX T R hist r s s' :
  Sound MAX R hist s → epochIsSet r = true → handleStep MAX T r s s' →
  Sound MAX R (hist ++ [r]) s'.
Proof.
  intros (Hg & Hro & Hli & Hta & Hre) He Hh. split_and!.
  - apply (Good_step MAX T (OpHandleRpc r) hist s s' Hg). simpl.
    by apply handleRpc_cases.
  - by eapply Routed_handleStep.
  - by eapply Live_handleStep.
  - by eapply Taken_handleStep.
  - by destruct (registry_handleStep _ _ _ _ _ Hh) as [-> _].
Qed.

Lemma Sound_pollStep MAX R hist i s s' :
  Sound MAX R hist s → pollStep i s s' → Sound MAX R hist s'.
Proof.
  intros (Hg & Hro & Hli & Hta & Hre) Hp.
  pose proof Hg as (_ & _ & Hfifo & _). split_and!.
  - eapply Good_pollWorker; [done|]. by apply pollWorker_cases.
  - by eapply Routed_pollStep.
  - by eapply Live_pollStep.
  - by eapply Taken_pollStep.
  - by destruct (registry_pollStep _ _ _ Hp) as [-> _].
Qed.

Lemma Sound_workerAct MAX (T : bool) R hist w a s s' :
  Sound MAX R hist s → workerAct w a s = Done ((), s') → Sound MAX R hist s'.
Proof.
  intros (Hg & Hro & Hli & Hta & Hre) Hw. split_and!.
  - pose proof (Good_step MAX T (OpWorker w a) hist s s' Hg Hw) as Hg'.
    by rewrite app_nil_r in Hg'.
  - by eapply Routed_workerAct.
  - by eapply Live_workerAct.
  - by eapply Taken_workerAct.
  - by destruct (registry_workerAct _ _ _ _ Hw) as (-> & _).
Qed.

(** What a step of a thread does to the manager: nothing, or one of the
    three writes to the state cell of its worker. *)
Lemma threadStep_manager w a σ σ' :
  threadStep w a σ = SysDone σ' →
  length (threads σ') = length (threads σ) ∧
  (manager σ' = manager σ ∨
   ∃ act, workerAct w act (manager σ) = Done ((), manager σ')).
Proof.
  unfold threadStep.
  destruct (threads σ !! w) as [pc|] eqn:Hpc; [|intros [= <-]; by auto].
  destruct (workers (manager σ) !! w) as [wk|] eqn:Hw;
    [|intros [= <-]; by auto].
  destruct pc, a; try (intros [= <-]; by auto); try (by intros [=]); simpl.
  - intros [= <-]. case_decide; simpl; rewrite ?length_insert; auto.
  - unfold onManager. rewrite compareExchange_eq, Hw.
    case_decide; intros [= <-]; simpl; rewrite ?length_insert; (split; [done|]);
      right; exists ActSleep; rewrite workerAct_eq, Hw.
    + by rewrite decide_True.
    + by rewrite decide_False.
  - intros [= <-]. simpl. rewrite length_insert. auto.
  - intros [= <-]. simpl. rewrite length_insert. auto.
  - destruct (rpc wk); [done| |].
    + intros [= <-]. simpl. rewrite length_insert. auto.
    + destruct (serviceInfo wk) as [t|]; [|done].
      unfold onManager. rewrite readInfo_eq.
      destruct (services (manager σ) !! t) as [[info|]|]; try done.
      intros [= <-]. simpl. rewrite length_insert. auto.
  - unfold onManager. rewrite sendReply_eq, Hw. intros [= <-]. simpl.
    split; [done|]. right. exists ActSendReply. by rewrite workerAct_eq, Hw.
  - unfold onManager. rewrite workerAct_eq, Hw. intros [= <-]. simpl.
    rewrite length_insert. split; [done|]. right. exists ActHandlerReturn.
    by rewrite workerAct_eq, Hw.
Qed.

Lemma sysSubmitted_cons o ops :
  sysSubmitted (o :: ops) = sysSubmitted [o] ++ sysSubmitted ops.
Proof. by destruct o. Qed.

Section SysInvariant.

Variables (MAX : nat) (T : bool) (R : list (option (Service * Z))).
Variable P : System → Prop.

Hypothesis P_step : ∀ hist hist' σ σ',
  Sound MAX R hist (manager σ) → Linked σ → P σ →
  Delta MAX σ σ' →
  Sound MAX R hist' (manager σ') → Linked σ' → P σ'.

Lemma sys_handle hist ok r σ s' :
  Sound MAX R hist (manager σ) → Linked σ → P σ →
  handleRpc MAX T r (manager σ) = Done ((), s') →
  Sound MAX R (hist ++ [r]) s' ∧ Linked (reacted ok σ s') ∧
  P (reacted ok σ s').
Proof.
  intros Hs Hl HP [He Hh]%handleRpc_cases.
  pose proof (Sound_handleStep _ _ _ _ _ _ _ Hs He Hh) as Hs'.
  pose proof Hs as ((Hinv & _) & _ & Hlive & _).
  pose proof Hs' as (_ & _ & Hlive' & _).
  pose proof (handle_Delta _ _ ok _ _ _ Hinv Hl Hh) as HD.
  assert (Linked (reacted ok σ s')) as Hl'.
  { apply (Linked_Delta _ _ _ Hl HD).
    apply reacted_length; try done; [by eapply handleStep_log|].
    by apply linked_length. }
  split_and!; [done|done|]. by eapply (P_step hist _ σ (reacted ok σ s')).
Qed.

Lemma sys_pollLoop hist ok n σ s' :
  Sound MAX R hist (manager σ) → Linked σ → P σ →
  pollLoop n (manager σ) = Done ((), s') →
  Sound MAX R hist s' ∧ Linked (reacted ok σ s') ∧ P (reacted ok σ s') ∧
  ∃ d, log s' = log (manager σ) ++ d.
Proof.
  revert σ. induction n as [|i IH]; intros σ Hs Hl HP.
  - intros [= <-]. rewrite reacted_refl. split_and!; try done.
    exists []. by rewrite app_nil_r.
  - rewrite pollLoop_S.
    destruct (pollWorker i (manager σ)) as [[[] s1]| | |] eqn:Hi; try done.
    apply pollWorker_cases in Hi. intros Hrest.
    pose proof (Sound_pollStep _ _ _ _ _ _ Hs Hi) as Hs1.
    pose proof Hs as (Hg & _ & Hlive & _).
    pose proof Hs1 as (_ & _ & Hlive1 & _).
    pose proof (poll_Delta _ _ ok _ _ _ Hg Hl Hi) as HD.
    pose proof (pollStep_log _ _ _ Hi) as Hlog1.
    assert (Linked (reacted ok σ s1)) as Hl1.
    { apply (Linked_Delta _ _ _ Hl HD).
      apply reacted_length; try done. by apply linked_length. }
    assert (P (reacted ok σ s1)) as HP1
      by (by eapply (P_step hist hist σ (reacted ok σ s1))).
    destruct (IH (reacted ok σ s1) Hs1 Hl1 HP1 Hrest)
      as (Hs' & Hl' & HP' & Hlog').
    simpl in Hlog'. rewrite reacted_trans in Hl', HP' by done.
    split_and!; try done.
    destruct Hlog1 as [d1 H1]. destruct Hlog' as [d2 H2].
    exists (d1 ++ d2). by rewrite H2, H1, app_assoc.
Qed.

Lemma sys_step hist o σ σ' :
  Sound MAX R hist (manager σ) → Linked σ → P σ →
  sysStep MAX T o σ = SysDone σ' →
  Sound MAX R (hist ++ sysSubmitted [o]) (manager σ') ∧ Linked σ' ∧ P σ'.
Proof.
  intros Hs Hl HP. destruct o as [r ok|ok|w a]; simpl.
  - rewrite dispatch_eq.
    destruct (handleRpc MAX T r (manager σ)) as [[[] s']| | |] eqn:Hh; try done.
    intros [= <-]. by apply sys_handle.
  - rewrite dispatch_eq, poll_eq.
    destruct (pollLoop _ (manager σ)) as [[[] s']| | |] eqn:Hp; try done.
    intros [= <-]. rewrite app_nil_r.
    by destruct (sys_pollLoop _ ok _ _ _ Hs Hl HP Hp) as (? & ? & ? & _).
  - intros Hstep. rewrite app_nil_r.
    pose proof (thread_Delta MAX _ _ _ _ Hstep) as HD.
    destruct (threadStep_manager _ _ _ _ Hstep) as [Hlen Hm].
    assert (Sound MAX R hist (manager σ')) as Hs'.
    { destruct Hm as [->|[act Hact]]; [done|]. by eapply (Sound_workerAct MAX T). }
    assert (Linked σ') as Hl'.
    { apply (Linked_Delta _ _ _ Hl HD). rewrite Hlen, (linked_length _ Hl).
      destruct Hm as [->|[act Hact]]; [done|].
      rewrite workerAct_eq in Hact.
      destruct (workers (manager σ) !! w) as [wk|]; [|done].
      injection Hact as <-. destruct act; simpl; rewrite ?length_insert; try done.
      case_decide; simpl; by rewrite ?length_insert. }
    split_and!; [done|done|]. by eapply (P_step hist hist σ σ').
Qed.

Lemma sys_run hist ops σ σ' :
  Sound MAX R hist (manager σ) → Linked σ → P σ →
  sysRun MAX T ops σ = SysDone σ' →
  Sound MAX R (hist ++ sysSubmitted ops) (manager σ') ∧ Linked σ' ∧ P σ'.
Proof.
  revert hist σ. induction ops as [|o ops IH]; intros hist σ Hs Hl HP;
    cbn [sysRun].
  - intros [= <-]. by rewrite app_nil_r.
  - destruct (sysStep MAX T o σ) as [σ1| | | |] eqn:Ho; try done.
    destruct (sys_step _ _ _ _ Hs Hl HP Ho) as (Hs1 & Hl1 & HP1).
    intros Hrun. destruct (IH _ _ Hs1 Hl1 HP1 Hrun) as (Hs' & Hl' & HP').
    split_and!; [|done|done].
    by rewrite (sysSubmitted_cons o ops), app_assoc.
Qed.

End SysInvariant.

Lemma Sound_Fresh MAX regs s0 :
  Fresh MAX regs s0 → Sound MAX (registry (services s0)) [] s0.
Proof.
  intros Hf. split_and!; [by eapply Good_Fresh| | | |done].
  - intros w wk r. by rewrite (fresh_workers _ _ _ Hf).
  - unfold Live. by rewrite (fresh_workers _ _ _ Hf), (fresh_log _ _ _ Hf).
  - unfold Taken. rewrite (fresh_log _ _ _ Hf), queued_empty; [done|].
    intros t info Ht. by destruct (fresh_info _ _ _ Hf t info Ht) as (? & _ & ->).
Qed.

Lemma Linked_new MAX regs s0 : Fresh MAX regs s0 → Linked (System_new s0).
Proof.
  intros Hf. split; simpl.
  - by rewrite (fresh_workers _ _ _ Hf).
  - intros w v. unfold views. simpl. by rewrite (fresh_workers _ _ _ Hf).
Qed.

Lemma sys_invariant MAX T regs (P : System → Prop) ops σ :
  (∀ s0, Fresh MAX regs s0 → P (System_new s0)) →
  (∀ s0 hist hist' σ σ',
     startup regs (ServiceManager_new MAX) = Done ((), s0) →
     Sound MAX (registry (services s0)) hist (manager σ) → Linked σ → P σ →
     Delta MAX σ σ' →
     Sound MAX (registry (services s0)) hist' (manager σ') → Linked σ' → P σ') →
  sysReachable MAX T regs ops σ →
  P σ ∧ Linked σ ∧
  ∃ s0, startup regs (ServiceManager_new MAX) = Done ((), s0) ∧
        Sound MAX (registry (services s0)) (sysSubmitted ops) (manager σ).
Proof.
  intros H0 Hstep (s0 & Hs0 & Hrun).
  pose proof (Fresh_startup MAX [] regs _ _ (Fresh_new MAX) Hs0) as Hf.
  destruct (sys_run MAX T (registry (services s0)) P
              (λ hist hist' σ1 σ2, Hstep s0 hist hist' σ1 σ2 Hs0) [] ops
              (System_new s0) σ) as (Hs & Hl & HP); try done.
  - by eapply Sound_Fresh.
  - by eapply Linked_new.
  - by apply H0.
  - split_and!; try done. by exists s0.
Qed.

(** ** Handoffs and invocations *)

Lemma invoked_app l1 l2 : invoked (l1 ++ l2) = invoked l1 ++ invoked l2.
Proof. apply omap_app. Qed.

Lemma signalled_app l1 l2 : signalled (l1 ++ l2) = signalled l1 ++ signalled l2.
Proof. apply omap_app. Qed.

Lemma unstartedOf_idle st p pc : st ≠ WORKING → unstartedOf (st, p, pc) = [].
Proof.
  intros Hst. unfold unstartedOf. simpl.
  rewrite bool_decide_eq_false_2 by done. by rewrite andb_false_r.
Qed.

Lemma unstartedOf_handler st p r : unstartedOf (st, p, InHandler r) = [].
Proof. done. Qed.

Lemma unstartedOf_working p pc :
  polling pc = true → unstartedOf (WORKING, p, pc) = reqs [p].
Proof. intros Hp. unfold unstartedOf. simpl. by rewrite Hp. Qed.

Lemma polling_wakePc ok v : polling v.2 = true → polling (wakePc ok v) = true.
Proof.
  destruct v as [[st p] pc]. unfold wakePc. simpl.
  destruct pc; try done. case_decide; [by destruct ok|done].
Qed.

Lemma invoked_wakeLog ok w v : invoked (wakeLog ok w v) = [].
Proof. unfold wakeLog. case_decide; [by destruct ok|done]. Qed.

Lemma signalled_wakeLog ok w v : signalled (wakeLog ok w v) = [].
Proof. unfold wakeLog. case_decide; [by destruct ok|done]. Qed.

Lemma invoke_wakeLog ok w v w' svc r : ThInvoke w' svc r ∉ wakeLog ok w v.
Proof.
  unfold wakeLog. case_decide; [destruct ok|]; try apply not_elem_of_nil.
  by intros [=]%list_elem_of_singleton.
Qed.

Lemma wakePc_parked ok w v :
  (v.2 = InFutexWait → v.1.1 = SLEEPING) →
  wakePc ok v = InFutexWait →
  ThWakeFailed w ∈ wakeLog ok w v.
Proof.
  destruct v as [[st p] pc]. unfold wakePc, wakeLog. simpl.
  destruct pc; try done. intros -> ; [|done]. rewrite !decide_True by done.
  destruct ok; [done|]. intros _. apply list_elem_of_here.
Qed.

(** What a move of a thread does to the request its worker holds
    unstarted, and which request it invokes. *)
Lemma unstartedOf_move busy w v v' Δt :
  ThreadMove w v v' Δt →
  ViewOk busy w v →
  unstartedOf v = invoked Δt ++ unstartedOf v'.
Proof.
  destruct 1; unfold ViewOk; simpl; intros Hok; try done.
  - destruct Hok as (-> & _). by rewrite unstartedOf_working.
  - by destruct Hok as (_ & _ & [r ?]).
Qed.

Lemma views_bind_snoc σ (vs : list View) v w :
  (views σ !! w = Some v ∧ vs = views σ) ∨
  (w = length (views σ) ∧ v = (POLLING, NULL, AtLoad) ∧ vs = views σ ++ [v]) →
  v.1.1 ≠ WORKING →
  vs !! w = Some v ∧ vs ≫= unstartedOf = unstarted σ.
Proof.
  intros [[Hv ->]|(-> & -> & ->)] Hst; [done|]. split.
  - by apply list_lookup_middle.
  - rewrite bind_app. simpl. by rewrite app_nil_r.
Qed.

Lemma unstarted_handoff (vs : list View) ok w v r :
  vs !! w = Some v →
  v.1.1 ≠ WORKING →
  polling v.2 = true →
  <[w := (WORKING, Ptr r, wakePc ok v)]> vs ≫= unstartedOf ≡ₚ
  (vs ≫= unstartedOf) ++ [r].
Proof.
  intros Hv Hst Hp.
  pose proof (bind_insert_perm unstartedOf vs w v
                (WORKING, Ptr r, wakePc ok v) Hv) as Hperm.
  destruct v as [[st p] pc]. simpl in *.
  rewrite unstartedOf_idle in Hperm by done.
  rewrite unstartedOf_working in Hperm
    by (by apply (polling_wakePc ok (st, p, pc))).
  rewrite reqs_Ptr in Hperm. simpl in Hperm. rewrite Hperm.
  by rewrite (Permutation_app_comm _ [r]).
Qed.

Lemma Accounted_Delta MAX σ σ' :
  Linked σ → Accounted σ → Delta MAX σ σ' → Accounted σ'.
Proof.
  unfold Accounted. intros Hlink Hacc HD.
  destruct HD as [Δr Hv _ Hh _ _ Ht
                 |w v vs r t info ok Hw Hst Hpp Hnull Hnb _ _ Hv _ Hh _ Ht
                 |w p pc Hw Hin Hv _ Hh _ Ht
                 |w v r t info ok Hw Hst Hpp Hin _ _ _ Hv _ Hh _ Ht
                 |w v Hw Hst Hpp Hin Hv _ Hh _ Ht
                 |w v v' Δt Hw Hmove _ Hv _ Hh _ Ht];
    unfold unstarted; rewrite Hv, Hh, Ht;
    rewrite ?invoked_app, ?invoked_wakeLog, ?app_nil_r.
  - done.
  - destruct (views_bind_snoc _ _ _ _ Hw Hst) as [Hvw Hbind].
    rewrite unstarted_handoff; [|done|done|].
    + rewrite Hbind, Hacc. by rewrite app_assoc.
    + destruct Hw as [[Hw _]|(_ & -> & _)]; [|done].
      by destruct (Linked_not_busy _ _ _ Hlink Hw Hnb) as (_ & _ & ? & _).
  - rewrite (bind_insert_same unstartedOf _ _ _ _ Hw); [done|].
    by rewrite !unstartedOf_idle.
  - rewrite unstarted_handoff; [|done|done|].
    + rewrite Hacc. by rewrite app_assoc.
    + by destruct (Linked_returned _ _ _ Hlink Hw Hst Hpp) as [? _].
  - rewrite (bind_insert_same unstartedOf _ _ _ _ Hw); [done|].
    destruct v as [[st p] pc]. simpl in *. by rewrite !unstartedOf_idle.
  - pose proof (unstartedOf_move _ _ _ _ _ Hmove (linked_ok _ Hlink _ _ Hw)) as Hu.
    pose proof (bind_insert_perm unstartedOf _ w v v' Hw) as Hperm.
    assert (invoked Δt ++ (<[w := v']> (views σ) ≫= unstartedOf) ≡ₚ
            views σ ≫= unstartedOf) as Hc.
    { apply (Permutation_app_inv_l (unstartedOf v')). rewrite <- Hperm, Hu.
      solve_Permutation. }
    by rewrite Hacc, <- app_assoc, Hc.
Qed.

(** ** Replies come after the handler *)

Lemma unroutable_registry MAX r s s' :
  registry (services s') = registry (services s) →
  unroutable MAX r s → unroutable MAX r s'.
Proof.
  intros Hreg. unfold unroutable.
  destruct (getStart (requestPayload r)) as [h|]; [|done].
  intros [?|Hnone]; [by left|right].
  pose proof (registry_lookup (services s') (service h)) as Hl.
  rewrite Hreg, registry_lookup, Hnone in Hl. simpl in Hl.
  by destruct (services s' !! service h) as [[info|]|].
Qed.

Lemma signalled_move w v v' Δt r :
  ThreadMove w v v' Δt →
  r ∈ signalled Δt → v.2 = InHandler r.
Proof.
  destruct 1; simpl;
    intros Hin; try (by apply elem_of_nil in Hin);
    apply elem_of_cons in Hin as [->|Hin]; try done; by apply elem_of_nil in Hin.
Qed.

Lemma invoked_move w v v' Δt r :
  ThreadMove w v v' Δt →
  v'.2 = InHandler r → r ∈ invoked Δt ∨ v.2 = InHandler r.
Proof.
  destruct 1; simpl; try done.
  - intros [= ->]. left. apply list_elem_of_here.
  - intros Heq. by right.
Qed.

Lemma slot_move busy w v v' Δt r :
  ThreadMove w v v' Δt →
  ViewOk busy w v →
  v'.1.2 = Ptr r → v'.1.1 ≠ WORKING →
  r ∈ signalled Δt ∨ (v.1.2 = Ptr r ∧ v.1.1 ≠ WORKING).
Proof.
  destruct 1; unfold ViewOk; simpl; intros Hok Hp Hst; try done; auto.
  all: subst p; left;
    destruct Hok as [_ [[_ Heq]|[_ [Heq|Heq]]]]; try done;
    injection Heq as ->; apply list_elem_of_here.
Qed.

Lemma parked_move w v v' Δt :
  ThreadMove w v v' Δt → v'.2 = InFutexWait → v'.1.1 ≠ WORKING.
Proof. by destruct 1. Qed.

Lemma Causal_Delta MAX σ σ' :
  Linked σ →
  Causal MAX σ →
  Delta MAX σ σ' →
  registry (services (manager σ')) = registry (services (manager σ)) →
  Causal MAX σ'.
Proof.
  intros Hlink [Hslot Hhand Hsig Hrep Hpark] HD Hreg.
  assert (∀ r, unroutable MAX r (manager σ) → unroutable MAX r (manager σ'))
    as Hun by (intros r; by apply unroutable_registry).
  destruct HD as [Δr Hv _ _ Hr HΔ Ht
                 |w v vs r t info ok Hw Hst Hpp Hnull Hnb _ _ Hv _ _ Hr Ht
                 |w p pc Hw Hwb Hv _ _ Hr Ht
                 |w v r t info ok Hw Hst Hpp Hwb _ _ _ Hv _ _ Hr Ht
                 |w v Hw Hst Hpp Hwb Hv _ _ Hr Ht
                 |w v v' Δt Hw Hmove _ Hv _ _ Hr Ht].
  - split; rewrite ?Hv, ?Ht, ?Hr; try done.
    intros r [Hin|Hin]%elem_of_app; [destruct (Hrep r Hin); auto|].
    left. apply Hun. by apply (proj1 (Forall_forall _ Δr) HΔ).
  - assert (polling v.2 = true ∧ (v.2 = InFutexWait → v.1.1 = SLEEPING))
      as [Hpol0 Hsleep].
    { destruct Hw as [[Hw _]|(_ & -> & _)]; [|done].
      by destruct (Linked_not_busy _ _ _ Hlink Hw Hnb) as (_ & _ & ? & ?). }
    assert (polling (wakePc ok v) = true) as Hpol by (by apply polling_wakePc).
    assert (∀ w0 v0, <[w := (WORKING, Ptr r, wakePc ok v)]> vs !! w0 = Some v0 →
                     w0 ≠ w → views σ !! w0 = Some v0) as Hother.
    { intros w0 v0 Hl Hne. rewrite list_lookup_insert_ne in Hl by done.
      destruct Hw as [[_ ->]|(Hwl & _ & ->)]; [done|].
      by eapply lookup_views_ext. }
    split; rewrite ?Hv, ?Ht, ?Hr, ?signalled_app, ?invoked_app,
      ?signalled_wakeLog, ?invoked_wakeLog, ?app_nil_r.
    + intros w0 v0 r0 Hl. destruct (decide (w0 = w)) as [->|Hne];
        [|by eapply Hslot, Hother].
      apply list_lookup_insert_Some in Hl as [(_ & <- & _)|[? _]]; done.
    + intros w0 v0 r0 Hl. destruct (decide (w0 = w)) as [->|Hne];
        [|by eapply Hhand, Hother].
      apply list_lookup_insert_Some in Hl as [(_ & <- & _)|[? _]]; [|done].
      simpl. intros Heq. by rewrite Heq in Hpol.
    + done.
    + intros r0 Hin. destruct (Hrep r0 Hin); auto.
    + intros w0 v0 Hl Hpc Hwork. rewrite elem_of_app.
      destruct (decide (w0 = w)) as [->|Hne];
        [|left; by apply (Hpark w0 v0 (Hother w0 v0 Hl Hne))].
      apply list_lookup_insert_Some in Hl as [(_ & <- & _)|[? _]]; [|done].
      right. by apply wakePc_parked.
  - split; rewrite ?Hv, ?Ht, ?Hr.
    + intros w0 v0 r0 [(<- & <- & _)|[Hne Hl]]%list_lookup_insert_Some;
        [done|by eapply Hslot].
    + intros w0 v0 r0 [(<- & <- & _)|[Hne Hl]]%list_lookup_insert_Some;
        [|by eapply Hhand].
      simpl. intros ->. by eapply (Hhand w).
    + done.
    + intros r0 [Hin|Hin]%elem_of_app; [destruct (Hrep r0 Hin); auto|].
      right. destruct p as [| |r1]; try (by apply elem_of_nil in Hin).
      rewrite reqs_Ptr in Hin. apply list_elem_of_singleton in Hin as ->.
      by eapply (Hslot w).
    + intros w0 v0 [(<- & <- & _)|[Hne Hl]]%list_lookup_insert_Some;
        [done|by eapply Hpark].
  - destruct (Linked_returned _ _ _ Hlink Hw Hst Hpp) as [Hpol0 Hsleep].
    assert (polling (wakePc ok v) = true) as Hpol by (by apply polling_wakePc).
    split; rewrite ?Hv, ?Ht, ?Hr, ?signalled_app, ?invoked_app,
      ?signalled_wakeLog, ?invoked_wakeLog, ?app_nil_r.
    + intros w0 v0 r0 [(<- & <- & _)|[Hne Hl]]%list_lookup_insert_Some;
        [done|by eapply Hslot].
    + intros w0 v0 r0 [(<- & <- & _)|[Hne Hl]]%list_lookup_insert_Some;
        [|by eapply Hhand].
      simpl. intros Heq. by rewrite Heq in Hpol.
    + done.
    + intros r0 [Hin|Hin]%elem_of_app; [destruct (Hrep r0 Hin); auto|].
      right. destruct v as [[st p] pc]. simpl in *.
      destruct p as [| |r1]; try (by apply elem_of_nil in Hin).
      rewrite reqs_Ptr in Hin. apply list_elem_of_singleton in Hin as ->.
      by eapply (Hslot w).
    + intros w0 v0 [(<- & <- & _)|[Hne Hl]]%list_lookup_insert_Some Hpc Hwork;
        rewrite elem_of_app; [|left; by eapply Hpark].
      right. by apply wakePc_parked.
  - split; rewrite ?Hv, ?Ht, ?Hr.
    + intros w0 v0 r0 [(<- & <- & _)|[Hne Hl]]%list_lookup_insert_Some;
        [done|by eapply Hslot].
    + intros w0 v0 r0 [(<- & <- & _)|[Hne Hl]]%list_lookup_insert_Some;
        [|by eapply Hhand].
      simpl. intros Heq. by eapply (Hhand w).
    + done.
    + intros r0 [Hin|Hin]%elem_of_app; [destruct (Hrep r0 Hin); auto|].
      right. destruct v as [[st p] pc]. simpl in *.
      destruct p as [| |r1]; try (by apply elem_of_nil in Hin).
      rewrite reqs_Ptr in Hin. apply list_elem_of_singleton in Hin as ->.
      by eapply (Hslot w).
    + intros w0 v0 [(<- & <- & _)|[Hne Hl]]%list_lookup_insert_Some;
        [done|by eapply Hpark].
  - pose proof (linked_ok _ Hlink _ _ Hw) as Hok.
    split; rewrite ?Hv, ?Ht, ?Hr; rewrite ?signalled_app, ?invoked_app.
    + intros w0 v0 r0 [(<- & <- & _)|[Hne Hl]]%list_lookup_insert_Some Hp Hst.
      * rewrite elem_of_app.
        destruct (slot_move _ _ _ _ _ _ Hmove Hok Hp Hst) as [?|[? ?]]; [by right|].
        left. by eapply (Hslot w).
      * rewrite elem_of_app. left. by eapply Hslot.
    + intros w0 v0 r0 [(<- & <- & _)|[Hne Hl]]%list_lookup_insert_Some Hpc.
      * rewrite elem_of_app.
        destruct (invoked_move _ _ _ _ _ Hmove Hpc) as [?|?]; [by right|].
        left. by eapply (Hhand w).
      * rewrite elem_of_app. left. by eapply Hhand.
    + intros r0 [Hin|Hin]%elem_of_app; rewrite elem_of_app; left; [by apply Hsig|].
      eapply (Hhand w); [done|]. by eapply signalled_move.
    + intros r0 Hin. destruct (Hrep r0 Hin); [auto|].
      right. rewrite elem_of_app. by left.
    + intros w0 v0 [(<- & <- & _)|[Hne Hl]]%list_lookup_insert_Some Hpc Hwork.
      * by destruct (parked_move _ _ _ _ Hmove Hpc).
      * rewrite elem_of_app. left. by eapply Hpark.
Qed.

(** ** A service with one thread runs its requests in order *)

Lemma forService_nil t : forService t [] = [].
Proof. done. Qed.

Lemma forService_bind_nil {A} (f : A → list ServerRpc) t (l : list A) :
  (∀ x, x ∈ l → forService t (f x) = []) → forService t (l ≫= f) = [].
Proof.
  induction l as [|x l IH]; intros Hl; [done|].
  rewrite bind_cons, forService_app, Hl, IH; [done| |apply list_elem_of_here].
  intros y Hy. apply Hl. by apply list_elem_of_further.
Qed.

Lemma forService_bind_insert_same {A} (f : A → list ServerRpc) t l w x y :
  l !! w = Some x →
  forService t (f y) = forService t (f x) →
  forService t (<[w := y]> l ≫= f) = forService t (l ≫= f).
Proof.
  intros Hw Hf. assert (Hlt : w < length l) by eauto using lookup_lt_Some.
  rewrite insert_take_drop by done.
  rewrite <- (take_drop_middle l w x Hw) at 3.
  by rewrite !bind_app, !bind_cons, !forService_app, Hf.
Qed.

Lemma forService_bind_only {A} (f : A → list ServerRpc) t l w x :
  l !! w = Some x →
  (∀ w' x', w' ≠ w → l !! w' = Some x' → forService t (f x') = []) →
  forService t (l ≫= f) = forService t (f x).
Proof.
  intros Hw Hothers.
  rewrite <- (take_drop_middle l w x Hw) at 1.
  rewrite !bind_app, !bind_cons, !forService_app.
  rewrite !forService_bind_nil, ?app_nil_r; [done| |].
  - intros y [i Hi]%list_elem_of_lookup. rewrite lookup_drop in Hi.
    apply (Hothers (S w + i)); [lia|done].
  - intros y [i Hi]%list_elem_of_lookup.
    apply lookup_take_Some in Hi as [Hi Hlt].
    apply (Hothers i); [lia|done].
Qed.

(** With a cap of one, the requests of a service that wait for their
    thread are all in the slot of its one busy worker. *)
Lemma unstarted_elsewhere σ t info w :
  Inv (manager σ) → Routed (manager σ) → Linked σ →
  services (manager σ) !! t = Some (Some info) →
  (0 ≤ maxThreads info ≤ 1)%Z →
  (w ∈ busyThreads (manager σ) ∧ svcOf (workers (manager σ)) w = Some t) ∨
  (requestsRunning info ≤ 0)%Z →
  ∀ w' v', w' ≠ w → views σ !! w' = Some v' →
    forService t (unstartedOf v') = [].
Proof.
  intros [Hnd _ _ _ Hsvc] Hro Hlink Ht Hcap Hw w' v' Hne Hv'.
  pose proof (linked_ok _ Hlink _ _ Hv') as Hok.
  apply views_lookup in Hv' as (wk & pc & Hwk & Hpc & ->).
  unfold unstartedOf, ViewOk in *. simpl in *.
  destruct (polling pc) eqn:Hpol; [|done]. simpl.
  case_bool_decide as Hst; [|done].
  destruct (rpc wk) as [| |r] eqn:Hr; try done.
  rewrite reqs_Ptr. simpl. rewrite forService_one. case_decide as Htag; [|done].
  exfalso.
  destruct (Hro w' wk r Hwk Hr) as (t' & Hsi & Htag').
  assert (t' = t) as -> by congruence.
  assert (w' ∈ busyThreads (manager σ)) as Hin.
  { destruct pc; try done.
    - by apply Hok.
    - by apply Hok.
    - destruct Hok as [Hok|(_ & ? & _)]; [by rewrite Hok in Hst|done].
    - by destruct Hok as (_ & ? & _). }
  set (F := filter (λ x, svcOf (workers (manager σ)) x = Some t)
              (busyThreads (manager σ))).
  assert (w' ∈ F) as HF'.
  { apply list_elem_of_filter. split; [|done].
    unfold svcOf. by rewrite Hwk. }
  destruct (Hsvc t info Ht) as [Hrun Hb]. destruct (Hb (proj1 Hcap)) as [Hle _].
  unfold running in Hrun. fold F in Hrun.
  destruct Hw as [[Hwb Hws]|Hlt].
  - assert (w ∈ F) as HF by (by apply list_elem_of_filter).
    assert ([w; w'] ⊆+ F) as Hsub.
    { apply NoDup_submseteq.
      - apply NoDup_cons. split; [|apply NoDup_singleton].
        intros ->%list_elem_of_singleton. done.
      - intros x [->|[->|[]%elem_of_nil]%elem_of_cons]%elem_of_cons; done. }
    apply submseteq_length in Hsub. simpl in Hsub. lia.
  - destruct F; [by apply elem_of_nil in HF'|]. simpl in Hrun. lia.
Qed.

Lemma registry_same_slot s s' t info' :
  registry (services s) = registry (services s') →
  services s' !! t = Some (Some info') →
  ∃ info, services s !! t = Some (Some info) ∧
          maxThreads info = maxThreads info'.
Proof.
  intros Hreg Ht.
  assert (registry (services s) !! t =
          Some (Some (serviceRef info', maxThreads info'))) as Hl.
  { rewrite Hreg, registry_lookup, Ht. done. }
  rewrite registry_lookup in Hl.
  destruct (services s !! t) as [[info|]|]; simplify_eq/=. eauto.
Qed.

Lemma routed_tagOf MAX r s t info : routed MAX r s t info → tagOf r = Some t.
Proof. intros (h & Hh & <- & _). unfold tagOf. by rewrite Hh. Qed.

Lemma InOrder_handoff σ t info (vs : list View) ok w v r t0 X :
  Inv (manager σ) → Routed (manager σ) → Linked σ →
  services (manager σ) !! t = Some (Some info) →
  (0 ≤ maxThreads info ≤ 1)%Z →
  vs !! w = Some v →
  (∀ w' v', w' ≠ w → vs !! w' = Some v' → views σ !! w' = Some v') →
  vs ≫= unstartedOf = unstarted σ →
  v.1.1 ≠ WORKING →
  polling (wakePc ok v) = true →
  tagOf r = Some t0 →
  (t0 = t →
   (w ∈ busyThreads (manager σ) ∧ svcOf (workers (manager σ)) w = Some t) ∨
   (requestsRunning info ≤ 0)%Z) →
  forService t (handed (log (manager σ))) =
    forService t X ++ forService t (unstarted σ) →
  forService t (handed (log (manager σ)) ++ [r]) =
    forService t X ++
    forService t (<[w := (WORKING, Ptr r, wakePc ok v)]> vs ≫= unstartedOf).
Proof.
  intros Hinv Hro Hlink Ht Hcap Hw Hvs Hbind Hst Hpol Htag Hfree Hin.
  assert (unstartedOf v = []) as Hv.
  { destruct v as [[st p] pc]. by apply unstartedOf_idle. }
  assert (unstartedOf (WORKING, Ptr r, wakePc ok v) = [r]) as Hv'.
  { rewrite unstartedOf_working by done. by rewrite reqs_Ptr. }
  rewrite forService_app, Hin, <- app_assoc. f_equal.
  destruct (decide (t0 = t)) as [->|Hne].
  - pose proof (unstarted_elsewhere σ t info w Hinv Hro Hlink Ht Hcap
                  (Hfree eq_refl)) as Hothers.
    rewrite <- Hbind.
    rewrite (forService_bind_only unstartedOf t vs w v Hw).
    2:{ intros w' v' Hne Hl. apply (Hothers w' v' Hne). by apply Hvs. }
    rewrite (forService_bind_only unstartedOf t _ w
               (WORKING, Ptr r, wakePc ok v)).
    + by rewrite Hv, Hv'.
    + apply list_lookup_insert_eq. by eapply lookup_lt_Some.
    + intros w' v' Hne Hl. rewrite list_lookup_insert_ne in Hl by done.
      apply (Hothers w' v' Hne). by apply Hvs.
  - rewrite (forService_bind_insert_same unstartedOf t vs w v); [|done|].
    + rewrite Hbind, forService_one, decide_False, app_nil_r; [done|].
      rewrite Htag. by intros [=].
    + rewrite Hv, Hv', forService_one, decide_False; [done|].
      rewrite Htag. by intros [=].
Qed.

Lemma InOrder_Delta MAX R hist hist' σ σ' :
  Sound MAX R hist (manager σ) → Linked σ → InOrder σ →
  Delta MAX σ σ' →
  Sound MAX R hist' (manager σ') →
  InOrder σ'.
Proof.
  intros ((Hinv & _ & Hfifo & _) & Hro & _ & _ & Hreg) Hlink Hord HD
         (_ & _ & _ & _ & Hreg') t info' Ht' Hcap.
  destruct (registry_same_slot (manager σ) (manager σ') t info')
    as (info & Ht & Hmax); [congruence|done|].
  rewrite <- Hmax in Hcap. specialize (Hord t info Ht Hcap).
  destruct HD as [Δr Hv _ Hh _ _ Htr
                 |w v vs r t0 info0 ok Hw Hst Hpp Hnull Hnb Hrt Hlt Hv _ Hh _ Htr
                 |w p pc Hw Hin Hv _ Hh _ Htr
                 |w v r t0 info0 ok Hw Hst Hpp Hin Hsi Ht0 Hhead Hv _ Hh _ Htr
                 |w v Hw Hst Hpp Hin Hv _ Hh _ Htr
                 |w v v' Δt Hw Hmove Hsvc Hv _ Hh _ Htr];
    unfold unstarted; rewrite Hv, Hh, Htr;
    rewrite ?invoked_app, ?invoked_wakeLog, ?app_nil_r.
  - done.
  - destruct (views_bind_snoc _ _ _ _ Hw Hst) as [Hvw Hbind].
    apply (InOrder_handoff σ t info vs ok w v r t0); try done.
    + intros w' v' Hne Hl. destruct Hw as [[_ ->]|(-> & _ & ->)]; [done|].
      apply lookup_app_Some in Hl as [?|[Hge Hl]]; [done|].
      apply list_lookup_singleton_Some in Hl as [? _]. lia.
    + apply polling_wakePc. destruct Hw as [[Hw _]|(_ & -> & _)]; [|done].
      by destruct (Linked_not_busy _ _ _ Hlink Hw Hnb) as (_ & _ & ? & _).
    + by eapply routed_tagOf.
    + intros ->. right. destruct Hrt as (_ & _ & _ & _ & Hl).
      assert (info0 = info) as -> by congruence. lia.
  - rewrite (bind_insert_same unstartedOf _ _ _ _ Hw); [done|].
    by rewrite !unstartedOf_idle.
  - apply (InOrder_handoff σ t info (views σ) ok w v r t0); try done.
    + apply polling_wakePc.
      by destruct (Linked_returned _ _ _ Hlink Hw Hst Hpp) as [? _].
    + destruct Hfifo as [_ Hf]. specialize (Hf t0 info0 Ht0).
      assert (Ptr r ∈ Ptr <$> forService t0 hist) as Hel.
      { rewrite <- Hf. apply elem_of_app. right.
        destruct (waitingRpcs info0); simplify_eq/=. apply list_elem_of_here. }
      apply list_elem_of_fmap in Hel as (r' & [= <-] & Hel).
      by eapply forService_elem.
    + intros ->. by left.
  - rewrite (bind_insert_same unstartedOf _ _ _ _ Hw); [done|].
    destruct v as [[st p] pc]. simpl in *. by rewrite !unstartedOf_idle.
  - pose proof (linked_ok _ Hlink _ _ Hw) as Hok.
    pose proof (unstartedOf_move _ _ _ _ _ Hmove Hok) as Hu.
    rewrite forService_app.
    destruct (decide (forService t (invoked Δt) = [])) as [Hnil|Hinv'].
    + rewrite Hnil, app_nil_r.
      rewrite (forService_bind_insert_same unstartedOf t _ w v); [done|done|].
      by rewrite Hu, forService_app, Hnil.
    + assert (∃ svc r, Δt = [ThInvoke w svc r] ∧ v.1.2 = Ptr r ∧
                       tagOf r = Some t) as (svc & r & -> & Hp & Htag).
      { destruct Hmove; try done. exists svc, r. split_and!; try done.
        simpl in Hinv'. rewrite forService_one in Hinv'. by case_decide. }
      destruct (Hsvc svc r) as (t1 & info1 & Hsi & _ & _);
        [apply list_elem_of_here|].
      assert (t1 = t) as ->.
      { pose proof Hw as Hw'.
        apply views_lookup in Hw' as (wk & pc & Hwk & _ & ->). simpl in Hp.
        destruct (Hro w wk r Hwk Hp) as (t' & Hsi' & Htag').
        unfold svcOf in Hsi. rewrite Hwk in Hsi. simpl in Hsi. congruence. }
      assert (w ∈ busyThreads (manager σ)) as Hbusy.
      { inversion Hmove; subst. unfold ViewOk in Hok. simpl in Hok.
        by destruct Hok as (_ & ? & _). }
      pose proof (unstarted_elsewhere σ t info w Hinv Hro Hlink Ht Hcap
                    (or_introl (conj Hbusy Hsi))) as Hothers.
      unfold unstarted in Hord.
      rewrite (forService_bind_only unstartedOf t _ w v Hw) in Hord by done.
      rewrite (forService_bind_only unstartedOf t _ w v').
      * rewrite Hord, Hu, forService_app. by rewrite <- app_assoc.
      * apply list_lookup_insert_eq. by eapply lookup_lt_Some.
      * intros w' x Hne Hl. rewrite list_lookup_insert_ne in Hl by done.
        by apply (Hothers w' x Hne).
Qed.

(** ** Handlers belong to the service the request names *)

Lemma invoke_move w v v' Δt w' svc r :
  ThreadMove w v v' Δt →
  ThInvoke w' svc r ∈ Δt →
  w' = w ∧ v.1.2 = Ptr r.
Proof.
  destruct 1; simpl; intros Hin; try (by apply elem_of_nil in Hin);
    apply elem_of_cons in Hin as [Heq|Hin]; try done;
    try (by apply elem_of_nil in Hin).
  by injection Heq as -> -> ->.
Qed.

Lemma InvokedRight_Delta MAX regs s0 hist σ σ' :
  startup regs (ServiceManager_new MAX) = Done ((), s0) →
  Sound MAX (registry (services s0)) hist (manager σ) →
  InvokedRight regs σ →
  Delta MAX σ σ' →
  InvokedRight regs σ'.
Proof.
  intros Hs0 (_ & Hro & _ & _ & Hreg) Hir HD.
  destruct HD as [Δr _ _ _ _ _ Ht
                 |w v vs r t info ok _ _ _ _ _ _ _ _ _ _ _ Ht
                 |w p pc _ _ _ _ _ _ Ht
                 |w v r t info ok _ _ _ _ _ _ _ _ _ _ _ Ht
                 |w v _ _ _ _ _ _ _ _ Ht
                 |w v v' Δt Hw Hmove Hsvc _ _ _ _ Ht];
    unfold InvokedRight; rewrite Ht; try done;
    try (intros w' svc r' [Hin|Hin]%elem_of_app;
         [by eapply Hir|by destruct (invoke_wakeLog _ _ _ _ _ _ Hin)]).
  intros w' svc r [Hin|Hin]%elem_of_app; [by eapply Hir|].
  destruct (invoke_move _ _ _ _ _ _ _ Hmove Hin) as [-> Hp].
  destruct (Hsvc svc r Hin) as (t & info & Hsi & Ht' & ->).
  apply views_lookup in Hw as (wk & pc & Hwk & _ & ->). simpl in Hp.
  destruct (Hro w wk r Hwk Hp) as (t' & Hsi' & Htag).
  unfold svcOf in Hsi. rewrite Hwk in Hsi. simpl in Hsi.
  assert (t' = t) as -> by congruence.
  exists t. split; [done|].
  by apply (registered_of MAX regs s0 (manager σ) Hs0 Hreg).
Qed.

(** ** Everything that holds along the runs of the system *)

Lemma sys_facts MAX T regs ops σ :
  sysReachable MAX T regs ops σ →
  (Accounted σ ∧ Causal MAX σ ∧ InvokedRight regs σ ∧ InOrder σ) ∧ Linked σ ∧
  ∃ s0, startup regs (ServiceManager_new MAX) = Done ((), s0) ∧
        Sound MAX (registry (services s0)) (sysSubmitted ops) (manager σ).
Proof.
  intros Hreach.
  apply (sys_invariant MAX T regs
           (λ σ, Accounted σ ∧ Causal MAX σ ∧ InvokedRight regs σ ∧ InOrder σ)
           ops σ);
    [| |done].
  - intros s0 Hf. split_and!.
    + unfold Accounted, unstarted, views. simpl.
      by rewrite (fresh_log _ _ _ Hf), (fresh_workers _ _ _ Hf).
    + split; simpl; unfold views; simpl;
        rewrite ?(fresh_log _ _ _ Hf), ?(fresh_workers _ _ _ Hf); try done;
        intros r Hin; by apply elem_of_nil in Hin.
    + intros w svc r Hin. by apply elem_of_nil in Hin.
    + intros t info _ _. unfold unstarted, views. simpl.
      by rewrite (fresh_log _ _ _ Hf), (fresh_workers _ _ _ Hf).
  - intros s0 hist hist' σ1 σ2 Hs0 Hs Hl (Hacc & Hcau & Hir & Hord) HD Hs' Hl'.
    split_and!.
    + by apply (Accounted_Delta MAX σ1 σ2).
    + apply (Causal_Delta MAX σ1 σ2); try done.
      destruct Hs as (_ & _ & _ & _ & ->). by destruct Hs' as (_ & _ & _ & _ & ->).
    + by apply (InvokedRight_Delta MAX regs s0 hist σ1 σ2).
    + by apply (InOrder_Delta MAX (registry (services s0)) hist hist' σ1 σ2).
Qed.

(** ** Runs of the system compose *)

Lemma sysRun_app MAX T ops1 ops2 σ :
  sysRun MAX T (ops1 ++ ops2) σ =
  match sysRun MAX T ops1 σ with
  | SysDone σ1 => sysRun MAX T ops2 σ1
  | failure => failure
  end.
Proof.
  revert σ. induction ops1 as [|o ops1 IH]; intros σ; [done|].
  rewrite <- app_comm_cons. cbn [sysRun].
  by destruct (sysStep MAX T o σ) as [σ1| | | |].
Qed.

Lemma sysReachable_app MAX T regs ops more σ σ' :
  sysReachable MAX T regs ops σ →
  sysRun MAX T more σ = SysDone σ' →
  sysReachable MAX T regs (ops ++ more) σ'.
Proof.
  intros (s0 & Hs0 & Hrun) Hmore. exists s0. split; [done|].
  by rewrite sysRun_app, Hrun.
Qed.

(** ** No handoff is lost, unless its wake fails *)

Lemma threadStep_at w a σ pc wk :
  threads σ !! w = Some pc →
  workers (manager σ) !! w = Some wk →
  threadStep w a σ =
  match pc, a with
  | AtLoad, StLoad =>
      SysDone (if decide (state wk = WORKING) then set_pc w AtFetch σ else σ)
  | AtLoad, StTimeout =>
      onManager (compareExchange w POLLING SLEEPING) σ
        (λ swapped σ', SysDone (if swapped : bool then set_pc w AtFutexWait σ'
                                else σ'))
  | AtFutexWait, StFutexWait =>
      SysDone (set_pc w (if decide (state wk = SLEEPING) then InFutexWait
                         else AtLoad) σ)
  | InFutexWait, StInterrupt =>
      SysDone (add_trace (ThLogError w) (set_pc w AtLoad σ))
  | AtFetch, StFetch =>
      match rpc wk with
      | WORKER_EXIT => SysDone (add_trace (ThExit w) (set_pc w ThreadDone σ))
      | NULL => SysUndefined
      | Ptr r =>
          match serviceInfo wk with
          | None => SysUndefined
          | Some t =>
              onManager (readInfo t) σ
                (λ info σ',
                   SysDone (add_trace (ThInvoke w (serviceRef info) r)
                              (set_pc w (InHandler r) σ')))
          end
      end
  | InHandler r, StSendReply =>
      onManager (sendReply w) σ
        (λ _ σ', SysDone (add_trace (ThSendReply w r) σ'))
  | InHandler r, StReturn =>
      onManager (workerAct w ActHandlerReturn) σ
        (λ _ σ', SysDone (add_trace (ThReturn w r) (set_pc w AtLoad σ')))
  | InHandler r, StThrow => SysTerminated (add_trace (ThLogException w) σ)
  | _, _ => SysDone σ
  end.
Proof. intros Hpc Hw. unfold threadStep. by rewrite Hpc, Hw. Qed.




(** ** At most [maxThreads] handlers of a service run at a time *)



(** ** Replies, handoffs and invocations *)

Lemma routed_not_unroutable MAX hist r s t info :
  Fifo MAX hist s →
  tagOf r = Some t →
  services s !! t = Some (Some info) →
  ¬ unroutable MAX r s.
Proof.
  intros [Hlen _] Htag Ht. unfold unroutable, tagOf in *.
  destruct (getStart (requestPayload r)) as [h|]; simplify_eq/=.
  intros [Hgt|Hnone]; [|congruence].
  apply lookup_lt_Some in Ht. lia.
Qed.

(** X11.  A reply comes after the handler.  In every state of the
    system, a request that names a registered service and has been
    replied to was handed to a worker, its handler was invoked, and the
    handler has called [Worker::sendReply] or has returned: the
    dispatcher never sends the reply of a request that is still being
    executed and has not been released by its handler. *)
Theorem X11_reply_after_handler (MAX : nat) (T : bool)
    (regs : list (Service * nat)) (ops : list SysOp) (σ : System)
    (r : ServerRpc) (t : nat) (info : ServiceInfo) :
  sysReachable MAX T regs ops σ →
  r ∈ replies (log (manager σ)) →
  tagOf r = Some t →
  services (manager σ) !! t = Some (Some info) →
  r ∈ signalled (trace σ) ∧
  r ∈ invoked (trace σ) ∧
  r ∈ handed (log (manager σ)).
Proof.
  intros Hreach Hin Htag Ht.
  destruct (sys_facts _ _ _ _ _ Hreach)
    as ((Hacc & Hcau & _ & _) & Hlink & s0 & Hs0 & Hsound).
  destruct Hsound as ((_ & _ & Hfifo & _) & _).
  assert (r ∈ signalled (trace σ)) as Hsig.
  { destruct (causal_reply _ _ Hcau r Hin) as [Hun|?]; [|done].
    by destruct (routed_not_unroutable _ _ _ _ _ _ Hfifo Htag Ht). }
  pose proof (causal_signal _ _ Hcau r Hsig) as Hinv.
  split_and!; try done.
  unfold Accounted in Hacc. rewrite Hacc, elem_of_app. by left.
Qed.

Lemma NoDup_submseteq_inv {A} (l k : list A) : l ⊆+ k → NoDup k → NoDup l.
Proof.
  intros [k' Hk]%submseteq_Permutation Hnd. rewrite Hk in Hnd.
  by apply NoDup_app in Hnd as [? _].
Qed.

(** X12.  A handler is invoked once per handoff.  In every state of the
    system the requests handed to workers are the requests whose handler
    was invoked together with those whose thread has not picked them up
    yet; so a handler is invoked only on a request that was handed off,
    and the invocations are among the requests passed to [handleRpc],
    each at most as often as it was passed.  If no request object was
    passed twice, no handler was invoked twice on the same request. *)
Theorem X12_handler_invoked_once (MAX : nat) (T : bool)
    (regs : list (Service * nat)) (ops : list SysOp) (σ : System) :
  sysReachable MAX T regs ops σ →
  handed (log (manager σ)) ≡ₚ invoked (trace σ) ++ unstarted σ ∧
  invoked (trace σ) ⊆+ sysSubmitted ops ∧
  (NoDup (sysSubmitted ops) → NoDup (invoked (trace σ))).
Proof.
  intros Hreach.
  destruct (sys_facts _ _ _ _ _ Hreach)
    as ((Hacc & _ & _ & _) & Hlink & s0 & Hs0 & Hsound).
  destruct Hsound as (_ & _ & _ & Htaken & _).
  assert (invoked (trace σ) ⊆+ sysSubmitted ops) as Hsub.
  { unfold Accounted in Hacc. unfold Taken in Htaken.
    etrans; [|exact Htaken]. rewrite Hacc, <- app_assoc.
    by apply submseteq_inserts_r. }
  split_and!; try done.
  intros Hnd. by eapply NoDup_submseteq_inv.
Qed.

(** X13.  Every handler belongs to the service the request names.
    Whenever a worker thread has invoked the handler of a service on a
    request, the header of the request carries a tag, and that service
    is the one that was registered under this tag at startup. *)
Theorem X13_handler_of_named_service (MAX : nat) (T : bool)
    (regs : list (Service * nat)) (ops : list SysOp) (σ : System)
    (w : nat) (svc : Service) (r : ServerRpc) :
  sysReachable MAX T regs ops σ →
  ThInvoke w svc r ∈ trace σ →
  ∃ t, tagOf r = Some t ∧ t ≤ MAX ∧ (svc, t) ∈ regs.
Proof.
  intros Hreach Hin.
  destruct (sys_facts _ _ _ _ _ Hreach)
    as ((_ & _ & Hir & _) & Hlink & s0 & Hs0 & Hsound).
  destruct Hsound as (_ & _ & _ & _ & Hreg).
  destruct (Hir w svc r Hin) as (t & Htag & Hmem).
  exists t. split_and!; try done.
  by destruct (proj1 (registered_of MAX regs s0 (manager σ) Hs0 Hreg) svc t Hmem).
Qed.

(** X14.  A service with one thread runs its requests in the order they
    came.  In every state of the system, for a registered service whose
    [maxThreads] is 0 or 1, the requests on which its handler was
    invoked are, in the order of the invocations, a prefix of the
    requests passed to [handleRpc] for this service: no request
    overtakes another, and none is skipped.  The requests handed off for
    the service are those invoked, followed by the one (if any) whose
    thread has not picked it up yet. *)
Theorem X14_single_thread_order (MAX : nat) (T : bool)
    (regs : list (Service * nat)) (ops : list SysOp) (σ : System)
    (t : nat) (info : ServiceInfo) :
  sysReachable MAX T regs ops σ →
  services (manager σ) !! t = Some (Some info) →
  (0 ≤ maxThreads info ≤ 1)%Z →
  forService t (invoked (trace σ)) `prefix_of`
    forService t (sysSubmitted ops) ∧
  forService t (handed (log (manager σ))) =
    forService t (invoked (trace σ)) ++ forService t (unstarted σ) ∧
  length (forService t (unstarted σ)) ≤ 1.
Proof.
  intros Hreach Ht Hcap.
  destruct (sys_facts _ _ _ _ _ Hreach)
    as ((_ & _ & _ & Hord) & Hlink & s0 & Hs0 & Hsound).
  destruct Hsound as ((Hinv & _ & [_ Hf] & _) & Hro & _).
  specialize (Hord t info Ht Hcap). specialize (Hf t info Ht).
  split_and!; [|done|].
  - symmetry in Hf. apply fmap_app_inv in Hf as (l1 & l2 & Hl1 & Hl2 & Heq).
    assert (Hinj : Inj (=) (=) Ptr) by (intros ? ? [=]; done).
    apply (inj (fmap Ptr)) in Hl1. subst l1.
    exists (forService t (unstarted σ) ++ l2).
    by rewrite Heq, Hord, <- app_assoc.
  - destruct (decide (running t (manager σ) = 0)) as [Hz|Hnz].
    + assert (forService t (unstarted σ) = []) as ->; [|simpl; lia].
      unfold unstarted. apply forService_bind_nil.
      intros v [w Hv]%list_elem_of_lookup.
      destruct (inv_svc _ Hinv t info Ht) as [Hrun _].
      apply (unstarted_elsewhere σ t info (S w) Hinv Hro Hlink Ht Hcap)
        with (w' := w); [|lia|done].
      right. lia.
    + unfold running in Hnz.
      destruct (filter (λ w, svcOf (workers (manager σ)) w = Some t)
                  (busyThreads (manager σ))) as [|w F] eqn:HF; [done|].
      assert (w ∈ busyThreads (manager σ) ∧
              svcOf (workers (manager σ)) w = Some t) as Hw.
      { assert (w ∈ w :: F) as Hin by apply list_elem_of_here.
        rewrite <- HF in Hin. apply list_elem_of_filter in Hin. tauto. }
      pose proof (unstarted_elsewhere σ t info w Hinv Hro Hlink Ht Hcap
                    (or_introl Hw)) as Hothers.
      destruct (views σ !! w) as [v|] eqn:Hv.
      * unfold unstarted.
        rewrite (forService_bind_only unstartedOf t _ w v Hv Hothers).
        unfold forService. etrans; [apply length_filter|].
        unfold unstartedOf. destruct (_ && _); [|simpl; lia].
        destruct (v.1.2); simpl; lia.
      * assert (forService t (unstarted σ) = []) as ->; [|simpl; lia].
        unfold unstarted. apply forService_bind_nil.
        intros v' [w' Hv']%list_elem_of_lookup.
        apply (Hothers w' v'); [|done]. intros ->. congruence.
Qed.

(** ** The system never fails *)

Lemma threadStep_progress MAX hist w a σ :
  Good MAX hist (manager σ) → Linked σ →
  a ≠ StThrow →
  ∃ σ', threadStep w a σ = SysDone σ'.
Proof.
  intros ([_ _ Hbusy _ _] & _) Hlink Hthrow.
  destruct (threads σ !! w) as [pc|] eqn:Hpc;
    [|unfold threadStep; rewrite Hpc; by eexists].
  destruct (workers (manager σ) !! w) as [wk|] eqn:Hw;
    [|unfold threadStep; rewrite Hpc, Hw; by eexists].
  rewrite (threadStep_at _ _ _ _ _ Hpc Hw).
  assert (views σ !! w = Some (view wk pc)) as Hv.
  { apply views_lookup. by exists wk, pc. }
  pose proof (linked_ok _ Hlink _ _ Hv) as Hok. unfold ViewOk in Hok.
  simpl in Hok.
  destruct pc, a; try done; try (by eexists).
  - unfold onManager. rewrite compareExchange_eq, Hw.
    case_decide; by eexists.
  - destruct Hok as (_ & Hin & r & Hr). rewrite Hr.
    apply list_elem_of_lookup in Hin as [i Hi].
    destruct (Hbusy i w Hi) as (wk' & t & info & Hw' & _ & Hsi & Ht).
    assert (wk' = wk) as -> by congruence. rewrite Hsi.
    unfold onManager. rewrite readInfo_eq, Ht. by eexists.
  - unfold onManager. rewrite sendReply_eq, Hw. by eexists.
  - unfold onManager. rewrite workerAct_eq, Hw. by eexists.
Qed.

(** The steps after which the system goes on: calls of [handleRpc] on
    requests whose epoch is set, calls of [poll], and steps of threads
    other than an exception thrown by a handler. *)
Lemma sysStep_progress MAX T regs ops o σ :
  sysReachable MAX T regs ops σ →
  match o with
  | SysHandleRpc r _ => epochIsSet r = true
  | SysPoll _ => True
  | SysThread _ a => a ≠ StThrow
  end →
  ∃ σ', sysStep MAX T o σ = SysDone σ'.
Proof.
  intros Hreach Ho.
  destruct (sys_facts _ _ _ _ _ Hreach) as (_ & Hlink & s0 & _ & Hg & _).
  destruct o as [r ok|ok|w a]; simpl.
  - destruct (handleRpc_progress MAX T _ r _ Hg Ho) as (s' & Hs').
    rewrite dispatch_eq, Hs'. by eexists.
  - destruct (pollLoop_progress MAX _ (length (busyThreads (manager σ))) _ Hg)
      as (s' & Hs'); [done|].
    rewrite dispatch_eq, poll_eq, Hs'. by eexists.
  - by eapply threadStep_progress.
Qed.

(** X16.  The system fails in two ways only.  From every state of the
    system of dispatch thread and worker threads, any further sequence
    of calls of [handleRpc] (on requests whose epoch is set), calls of
    [poll], with [futexWake] failing or not, and steps of worker threads
    in which no handler throws runs to completion: a worker thread that
    has left the polling loop always finds a request in [rpc] (never
    NULL) and a [serviceInfo] that points to a registered service, and
    no assertion of the dispatch thread fails.  The two failures are the
    entry assertion of [handleRpc] on a request whose epoch is not set,
    and an exception thrown by a handler, which [workerMain] logs and
    throws again: that ends the process.  A thread that is not inside a
    handler cannot throw. *)
Theorem X16_system_never_fails (MAX : nat) (T : bool)
    (regs : list (Service * nat)) (ops : list SysOp) (σ : System) :
  sysReachable MAX T regs ops σ →
  (∀ more,
     Forall (λ o, match o with
                  | SysHandleRpc r _ => epochIsSet r = true
                  | SysPoll _ => True
                  | SysThread _ a => a ≠ StThrow
                  end) more →
     ∃ σ', sysRun MAX T more σ = SysDone σ' ∧
           sysReachable MAX T regs (ops ++ more) σ') ∧
  (∀ r ok, epochIsSet r = false →
     sysStep MAX T (SysHandleRpc r ok) σ = SysAssertionFailed) ∧
  (∀ w pc, threads σ !! w = Some pc →
     sysStep MAX T (SysThread w StThrow) σ =
     if inHandler pc then SysTerminated (add_trace (ThLogException w) σ)
     else SysDone σ).
Proof.
  intros Hreach. split_and!.
  - intros more Hmore. revert ops σ Hreach.
    induction Hmore as [|o more Ho Hmore IH]; intros ops σ Hreach.
    + exists σ. split; [done|]. by rewrite app_nil_r.
    + destruct (sysStep_progress MAX T regs ops o σ Hreach Ho) as (σ1 & Hstep).
      assert (sysReachable MAX T regs (ops ++ [o]) σ1) as Hreach1.
      { eapply sysReachable_app; [done|]. cbn [sysRun]. by rewrite Hstep. }
      destruct (IH _ _ Hreach1) as (σ' & Hrun & Hreach').
      exists σ'. cbn [sysRun]. rewrite Hstep. split; [done|].
      by rewrite <- app_assoc in Hreach'.
  - intros r ok He. simpl. rewrite dispatch_eq, handleRpc_eq, He. done.
  - intros w pc Hpc.
    destruct (sys_facts _ _ _ _ _ Hreach) as (_ & Hlink & _).
    destruct (lookup_lt_is_Some_2 (workers (manager σ)) w) as [wk Hw].
    { rewrite <- (linked_length _ Hlink). by eapply lookup_lt_Some. }
    simpl. rewrite (threadStep_at _ _ _ _ _ Hpc Hw). by destruct pc.
Qed.


(** ** The exit sentinel ends the thread, unless its wake fails *)



(** ** The properties of the system at work on the examples *)

Lemma exSys_reachable ops σ :
  sysRun 3 true ops (System_new exStart) = SysDone σ →
  sysReachable 3 true exRegs ops σ.
Proof. intros Hrun. exists exStart. split; [reflexivity|exact Hrun]. Defined.

Lemma X1_registry_stable_witness :
  reachable 3 true exRegs exOpsBusy (exRun exOpsBusy) ∧
  serviceCount (exRun exOpsBusy) = 1%Z ∧
  ∀ t info, services (exRun exOpsBusy) !! t = Some (Some info) →
    (serviceRef info, t) ∈ exRegs.
Proof.
  assert (Hreach : reachable 3 true exRegs exOpsBusy (exRun exOpsBusy))
    by (apply exRun_reachable; vm_compute; reflexivity).
  split; [exact Hreach|].
  destruct (X1_registry_stable 3 true exRegs exOpsBusy (exRun exOpsBusy) Hreach)
    as (_ & _ & Hcount & _ & Hregs).
  split; [exact Hcount|exact Hregs].
Defined.

Lemma X2_worker_pool_bound_witness :
  reachable 3 true exRegs exOpsBusy (exRun exOpsBusy) ∧
  (∀ t info, services (exRun exOpsBusy) !! t = Some (Some info) →
     (0 ≤ maxThreads info)%Z) ∧
  (Z.of_nat (length (workers (exRun exOpsBusy))) ≤
     capacity (services (exRun exOpsBusy)))%Z ∧
  Z.of_nat (length (busyThreads (exRun exOpsBusy))) =
    totalRunning (services (exRun exOpsBusy)) ∧
  length (workers (exRun exOpsBusy)) =
    length (busyThreads (exRun exOpsBusy)) +
    length (idleThreads (exRun exOpsBusy)).
Proof.
  assert (Hreach : reachable 3 true exRegs exOpsBusy (exRun exOpsBusy))
    by (apply exRun_reachable; vm_compute; reflexivity).
  assert (Hcaps : ∀ t info,
            services (exRun exOpsBusy) !! t = Some (Some info) →
            (0 ≤ maxThreads info)%Z).
  { intros t info Ht.
    destruct t as [|[|[|[|t]]]]; vm_compute in Ht; try discriminate Ht.
    injection Ht as <-. vm_compute. discriminate. }
  split; [exact Hreach|]. split; [exact Hcaps|].
  exact (X2_worker_pool_bound 3 true exRegs exOpsBusy (exRun exOpsBusy)
           Hreach Hcaps).
Defined.

Lemma X3_dispatcher_never_fails_witness :
  reachable 3 true exRegs exOpsBusy (exRun exOpsBusy) ∧
  ∃ s', run 3 true [OpWorker 0 ActHandlerReturn; OpPoll;
                    OpHandleRpc (exRpc 12 x02)] (exRun exOpsBusy) =
          Done ((), s') ∧
        reachable 3 true exRegs
          (exOpsBusy ++ [OpWorker 0 ActHandlerReturn; OpPoll;
                         OpHandleRpc (exRpc 12 x02)]) s'.
Proof.
  assert (Hreach : reachable 3 true exRegs exOpsBusy (exRun exOpsBusy))
    by (apply exRun_reachable; vm_compute; reflexivity).
  split; [exact Hreach|].
  refine (proj1 (X3_dispatcher_never_fails 3 true exRegs exOpsBusy
                   (exRun exOpsBusy)
                   [OpWorker 0 ActHandlerReturn; OpPoll;
                    OpHandleRpc (exRpc 12 x02)] Hreach _)).
  repeat constructor.
Defined.

Lemma X4_idle_quiescent_witness :
  reachable 3 true exRegs exOpsAsleep (exRun exOpsAsleep) ∧
  idle (exRun exOpsAsleep) = Done (true, exRun exOpsAsleep) ∧
  replies (log (exRun exOpsAsleep)) ++ reqs (testRpcs (exRun exOpsAsleep)) ++
    queued (services (exRun exOpsAsleep)) ≡ₚ submitted exOpsAsleep.
Proof.
  assert (Hreach : reachable 3 true exRegs exOpsAsleep (exRun exOpsAsleep))
    by (apply exRun_reachable; vm_compute; reflexivity).
  split; [exact Hreach|].
  destruct (X4_idle_quiescent 3 true exRegs exOpsAsleep (exRun exOpsAsleep)
              Hreach) as (b & Hidle & _ & Hq).
  assert (Hb : b = true).
  { assert (He : idle (exRun exOpsAsleep) = Done (true, exRun exOpsAsleep))
      by (vm_compute; reflexivity).
    rewrite He in Hidle. injection Hidle as <-. reflexivity. }
  subst b. split; [exact Hidle|]. exact (proj2 (proj2 (Hq eq_refl))).
Defined.

Lemma X5_request_bound_to_its_service_witness :
  reachable 3 true exRegs exOpsBusy (exRun exOpsBusy) ∧
  workers (exRun exOpsBusy) !! 0 =
    Some (exWorker (Ptr (exRpc 10 x02)) 0 WORKING) ∧
  rpc (exWorker (Ptr (exRpc 10 x02)) 0 WORKING) = Ptr (exRpc 10 x02) ∧
  0 ∈ busyThreads (exRun exOpsBusy) ∧
  ∃ t info,
    serviceInfo (exWorker (Ptr (exRpc 10 x02)) 0 WORKING) = Some t ∧
    tagOf (exRpc 10 x02) = Some t ∧
    services (exRun exOpsBusy) !! t = Some (Some info) ∧
    (serviceRef info, t) ∈ exRegs.
Proof.
  assert (Hreach : reachable 3 true exRegs exOpsBusy (exRun exOpsBusy))
    by (apply exRun_reachable; vm_compute; reflexivity).
  assert (Hw : workers (exRun exOpsBusy) !! 0 =
               Some (exWorker (Ptr (exRpc 10 x02)) 0 WORKING))
    by (vm_compute; reflexivity).
  split; [exact Hreach|]. split; [exact Hw|]. split; [reflexivity|].
  exact (X5_request_bound_to_its_service 3 true exRegs exOpsBusy
           (exRun exOpsBusy) 0 (exWorker (Ptr (exRpc 10 x02)) 0 WORKING)
           (exRpc 10 x02) Hreach Hw eq_refl).
Defined.

Lemma X6_request_round_trip_witness :
  reachable 3 true exRegs exOpsAsleep (exRun exOpsAsleep) ∧
  busyThreads (exRun exOpsAsleep) = [] ∧
  routed 3 (exRpc 12 x02) (exRun exOpsAsleep) 2 (exInfo 0 []) ∧
  ∃ s',
    run 3 true [OpHandleRpc (exRpc 12 x02); OpWorker 0 ActHandlerReturn;
                OpPoll] (exRun exOpsAsleep) = Done ((), s') ∧
    services s' = services (exRun exOpsAsleep) ∧
    busyThreads s' = [] ∧
    idleThreads s' = [0] ∧
    replies (log s') = [exRpc 10 x02; exRpc 12 x02].
Proof.
  assert (Hreach : reachable 3 true exRegs exOpsAsleep (exRun exOpsAsleep))
    by (apply exRun_reachable; vm_compute; reflexivity).
  assert (Hbusy : busyThreads (exRun exOpsAsleep) = [])
    by (vm_compute; reflexivity).
  assert (Hrouted : routed 3 (exRpc 12 x02) (exRun exOpsAsleep) 2 (exInfo 0 [])).
  { exists {| service := 2; opcode := 0 |}.
    split; [vm_compute; reflexivity|]. split; [reflexivity|].
    split; [lia|vm_compute; reflexivity]. }
  split; [exact Hreach|]. split; [exact Hbusy|]. split; [exact Hrouted|].
  destruct (X6_request_round_trip 3 true exRegs exOpsAsleep (exRun exOpsAsleep)
              (exRpc 12 x02) 2 (exInfo 0 []) Hreach Hbusy eq_refl Hrouted)
    as (w & s' & Hw & Hrun & Hsvc & Hb & Hi & _ & Hrep & _);
    [reflexivity|].
  exists s'. split.
  { rewrite <- Hrun, Hw. vm_compute. reflexivity. }
  split; [exact Hsvc|]. split; [exact Hb|].
  split; [rewrite Hi; vm_compute; reflexivity|].
  rewrite Hrep. vm_compute. reflexivity.
Defined.

Lemma X7_destructor_joins_every_thread_witness :
  reachable 3 true exRegs exOpsBusy (exRun exOpsBusy) ∧
  (∃ s',
    ServiceManager_delete [[(0, ActHandlerReturn)]; [(0, ActHandlerReturn)]]
      (λ _, []) (λ _, true) (exRun exOpsBusy) = Done ((), s') ∧
    busyThreads s' = [] ∧
    joins (log s') = [0] ∧
    starts (log s') = [0] ∧
    replies (log s') = [exRpc 10 x02; exRpc 11 x02] ∧
    ∀ w wk, workers s' !! w = Some wk →
      exited wk = true ∧ rpc wk = NULL ∧ state wk = WORKING) ∧
  ServiceManager_delete [[(0, ActHandlerReturn)]; [(0, ActHandlerReturn)]]
    (λ _, []) (λ _, false) (exRun exOpsBusy) = Spinning.
Proof.
  assert (Hreach : reachable 3 true exRegs exOpsBusy (exRun exOpsBusy))
    by (apply exRun_reachable; vm_compute; reflexivity).
  split; [exact Hreach|]. split.
  - eexists. split; [vm_compute; reflexivity|].
    split; [reflexivity|]. split; [reflexivity|]. split; [reflexivity|].
    split; [reflexivity|].
    refine (proj1 (proj2 (proj2 (proj2 (proj2
              (X7_destructor_joins_every_thread 3 true exRegs exOpsBusy
                 (exRun exOpsBusy)
                 [[(0, ActHandlerReturn)]; [(0, ActHandlerReturn)]]
                 (λ _, []) (λ _, true) Hreach))) _ _))).
    vm_compute. reflexivity.
  - refine (proj1 (proj2
              (X7_destructor_joins_every_thread 3 true exRegs exOpsBusy
                 (exRun exOpsBusy)
                 [[(0, ActHandlerReturn)]; [(0, ActHandlerReturn)]]
                 (λ _, []) (λ _, false) Hreach))
              (exRun (exOpsBusy ++ [OpWorker 0 ActHandlerReturn; OpPoll;
                                    OpWorker 0 ActHandlerReturn; OpPoll]))
              0 _ _ eq_refl).
    + vm_compute. reflexivity.
    + vm_compute. apply list_elem_of_here.
Defined.

Lemma X8_waitForRpc_fifo_witness :
  TestMode 3 (ServiceManager_new 3) ∧
  (∃ s', waitForRpc 3 true exClock (ServiceManager_new 3) =
           Done (Ptr (exRpc 20 x02), s') ∧
         testRpcs s' = [] ∧
         waitForRpcs 3 true 2 (drop 1 exClock) s' =
           Done ([Ptr (exRpc 21 x02); Ptr (exRpc 22 x02)],
                 set_testRpcs (drop 2) s')) ∧
  ∀ ops s', run 3 true ops (ServiceManager_new 3) = Done ((), s') →
    TestMode 3 s' ∧ testRpcs s' = Ptr <$> submitted ops.
Proof.
  assert (Hmode : TestMode 3 (ServiceManager_new 3)) by apply TestMode_new.
  split; [exact Hmode|].
  destruct (X8_waitForRpc_fifo 3 exClock (ServiceManager_new 3) Hmode)
    as (_ & _ & Hrun).
  split; [|exact Hrun].
  eexists. split; [vm_compute; reflexivity|].
  split; vm_compute; reflexivity.
Defined.



Lemma X11_reply_after_handler_witness :
  sysReachable 3 true exRegs exSysSecond (exSys exSysSecond) ∧
  exRpc 10 x02 ∈ replies (log (manager (exSys exSysSecond))) ∧
  tagOf (exRpc 10 x02) = Some 2 ∧
  services (manager (exSys exSysSecond)) !! 2 = Some (Some (exInfo 1 [])) ∧
  exRpc 10 x02 ∈ signalled (trace (exSys exSysSecond)) ∧
  exRpc 10 x02 ∈ invoked (trace (exSys exSysSecond)) ∧
  exRpc 10 x02 ∈ handed (log (manager (exSys exSysSecond))).
Proof.
  assert (Hreach : sysReachable 3 true exRegs exSysSecond (exSys exSysSecond))
    by (apply exSys_reachable; vm_compute; reflexivity).
  assert (Hin : exRpc 10 x02 ∈ replies (log (manager (exSys exSysSecond)))).
  { change (replies (log (manager (exSys exSysSecond))))
      with [exRpc 10 x02]. apply list_elem_of_here. }
  assert (Hs : services (manager (exSys exSysSecond)) !! 2 =
               Some (Some (exInfo 1 [])))
    by (vm_compute; reflexivity).
  split; [exact Hreach|]. split; [exact Hin|]. split; [reflexivity|].
  split; [exact Hs|].
  exact (X11_reply_after_handler 3 true exRegs exSysSecond (exSys exSysSecond)
           (exRpc 10 x02) 2 (exInfo 1 []) Hreach Hin eq_refl Hs).
Defined.

Lemma X12_handler_invoked_once_witness :
  sysReachable 3 true exRegs exSysSecond (exSys exSysSecond) ∧
  NoDup (sysSubmitted exSysSecond) ∧
  invoked (trace (exSys exSysSecond)) = [exRpc 10 x02; exRpc 11 x02] ∧
  NoDup (invoked (trace (exSys exSysSecond))) ∧
  invoked (trace (exSys exSysSecond)) ⊆+ sysSubmitted exSysSecond.
Proof.
  assert (Hreach : sysReachable 3 true exRegs exSysSecond (exSys exSysSecond))
    by (apply exSys_reachable; vm_compute; reflexivity).
  assert (Hnd : NoDup (sysSubmitted exSysSecond)).
  { change (sysSubmitted exSysSecond) with [exRpc 10 x02; exRpc 11 x02].
    apply NoDup_cons. split; [|apply NoDup_singleton].
    intros Hin. apply list_elem_of_singleton in Hin. discriminate Hin. }
  split; [exact Hreach|]. split; [exact Hnd|].
  split; [vm_compute; reflexivity|].
  destruct (X12_handler_invoked_once 3 true exRegs exSysSecond
              (exSys exSysSecond) Hreach) as (_ & Hsub & Hnodup).
  split; [exact (Hnodup Hnd)|exact Hsub].
Defined.

Lemma X13_handler_of_named_service_witness :
  sysReachable 3 true exRegs exSysHandling (exSys exSysHandling) ∧
  ThInvoke 0 exService (exRpc 10 x02) ∈ trace (exSys exSysHandling) ∧
  ∃ t, tagOf (exRpc 10 x02) = Some t ∧ t ≤ 3 ∧ (exService, t) ∈ exRegs.
Proof.
  assert (Hreach : sysReachable 3 true exRegs exSysHandling
                     (exSys exSysHandling))
    by (apply exSys_reachable; vm_compute; reflexivity).
  assert (Hin : ThInvoke 0 exService (exRpc 10 x02) ∈
                trace (exSys exSysHandling)).
  { change (trace (exSys exSysHandling))
      with [ThInvoke 0 exService (exRpc 10 x02)]. apply list_elem_of_here. }
  split; [exact Hreach|]. split; [exact Hin|].
  exact (X13_handler_of_named_service 3 true exRegs exSysHandling
           (exSys exSysHandling) 0 exService (exRpc 10 x02) Hreach Hin).
Defined.

Lemma X14_single_thread_order_witness :
  sysReachable 3 true exRegs exSysSecond (exSys exSysSecond) ∧
  services (manager (exSys exSysSecond)) !! 2 = Some (Some (exInfo 1 [])) ∧
  forService 2 (invoked (trace (exSys exSysSecond))) =
    [exRpc 10 x02; exRpc 11 x02] ∧
  forService 2 (invoked (trace (exSys exSysSecond))) `prefix_of`
    forService 2 (sysSubmitted exSysSecond).
Proof.
  assert (Hreach : sysReachable 3 true exRegs exSysSecond (exSys exSysSecond))
    by (apply exSys_reachable; vm_compute; reflexivity).
  assert (Hs : services (manager (exSys exSysSecond)) !! 2 =
               Some (Some (exInfo 1 [])))
    by (vm_compute; reflexivity).
  split; [exact Hreach|]. split; [exact Hs|].
  split; [vm_compute; reflexivity|].
  refine (proj1 (X14_single_thread_order 3 true exRegs exSysSecond
                   (exSys exSysSecond) 2 (exInfo 1 []) Hreach Hs _)).
  simpl. lia.
Defined.

Lemma X15_destructor_returns_witness :
  reachable 3 true exRegs exOpsBusy (exRun exOpsBusy) ∧
  Prompt [[(0, ActHandlerReturn)]; [(0, ActHandlerReturn)]] (exRun exOpsBusy) ∧
  length (queued (services (exRun exOpsBusy))) < 2 ∧
  ∃ s', ServiceManager_delete
          [[(0, ActHandlerReturn)]; [(0, ActHandlerReturn)]] (λ _, [])
          (λ _, true) (exRun exOpsBusy) = Done ((), s') ∧
        busyThreads s' = [] ∧
        ∀ w wk, workers s' !! w = Some wk → exited wk = true.
Proof.
  assert (Hreach : reachable 3 true exRegs exOpsBusy (exRun exOpsBusy))
    by (apply exRun_reachable; vm_compute; reflexivity).
  assert (Hret : ∀ ops w,
            busyThreads (exRun ops) = [0] →
            workers (exRun ops) !! 0 = Some (exWorker (Ptr (exRpc 10 x02)) 0 POLLING) ∨
            workers (exRun ops) !! 0 = Some (exWorker (Ptr (exRpc 11 x02)) 0 POLLING) →
            w ∈ busyThreads (exRun ops) → returned (exRun ops) w).
  { intros ops w -> Hw Hin. apply list_elem_of_singleton in Hin. subst w.
    destruct Hw as [Hw|Hw]; eexists; (split; [exact Hw|]);
      split; discriminate. }
  assert (Hprompt : Prompt [[(0, ActHandlerReturn)]; [(0, ActHandlerReturn)]]
                      (exRun exOpsBusy)).
  { intros _. split; [repeat constructor|].
    intros s1 Hs1.
    assert (Hs1' : s1 = exRun exOpsReturned).
    { assert (He : workerActs [(0, ActHandlerReturn)] (exRun exOpsBusy) =
                   Done ((), exRun exOpsReturned)) by (vm_compute; reflexivity).
      rewrite He in Hs1. injection Hs1 as <-. reflexivity. }
    subst s1. split.
    { intros w. apply Hret; [|left]; vm_compute; reflexivity. }
    intros s2 Hs2.
    assert (Hs2' : s2 = exRun (exOpsReturned ++ [OpPoll])).
    { assert (He : poll (exRun exOpsReturned) =
                   Done ((), exRun (exOpsReturned ++ [OpPoll])))
        by (vm_compute; reflexivity).
      rewrite He in Hs2. injection Hs2 as <-. reflexivity. }
    subst s2. intros _. split; [repeat constructor|].
    intros s3 Hs3.
    assert (Hs3' : s3 = exRun (exOpsReturned ++
                                 [OpPoll; OpWorker 0 ActHandlerReturn])).
    { assert (He : workerActs [(0, ActHandlerReturn)]
                     (exRun (exOpsReturned ++ [OpPoll])) =
                   Done ((), exRun (exOpsReturned ++
                                      [OpPoll; OpWorker 0 ActHandlerReturn])))
        by (vm_compute; reflexivity).
      rewrite He in Hs3. injection Hs3 as <-. reflexivity. }
    subst s3. split; [|intros s4 _; exact I].
    intros w. apply Hret; [|right]; vm_compute; reflexivity. }
  assert (Hlen : length (queued (services (exRun exOpsBusy))) < 2)
    by (vm_compute; lia).
  split; [exact Hreach|]. split; [exact Hprompt|]. split; [exact Hlen|].
  destruct (X15_destructor_returns 3 true exRegs exOpsBusy (exRun exOpsBusy)
              [[(0, ActHandlerReturn)]; [(0, ActHandlerReturn)]] (λ _, [])
              (λ _, true) Hreach Hprompt Hlen) as (s1 & _ & _ & Hdel).
  exact (Hdel (λ _ _, eq_refl)).
Defined.

Lemma X18_poll_visits_every_busy_worker_witness :
  reachable 3 true exRegs exOpsReturned (exRun exOpsReturned) ∧
  ∃ s', poll (exRun exOpsReturned) = Done ((), s') ∧
        Polled 0 (exWorker (Ptr (exRpc 10 x02)) 0 POLLING) s' ∧
        replies (log s') = [exRpc 10 x02] ∧
        workers s' !! 0 = Some (exWorker (Ptr (exRpc 11 x02)) 0 WORKING).
Proof.
  assert (Hreach : reachable 3 true exRegs exOpsReturned (exRun exOpsReturned))
    by (apply exRun_reachable; vm_compute; reflexivity).
  split; [exact Hreach|].
  destruct (X18_poll_visits_every_busy_worker 3 true exRegs exOpsReturned
              (exRun exOpsReturned) Hreach) as (s' & Hp & Hbusy & _).
  exists s'. split; [exact Hp|]. split.
  - apply Hbusy; [|vm_compute; reflexivity].
    assert (Hb : busyThreads (exRun exOpsReturned) = [0])
      by (vm_compute; reflexivity).
    rewrite Hb. apply list_elem_of_here.
  - assert (He : poll (exRun exOpsReturned) =
                 Done ((), exRun (exOpsReturned ++ [OpPoll])))
      by (vm_compute; reflexivity).
    rewrite He in Hp. injection Hp as <-.
    split; vm_compute; reflexivity.
Defined.

Lemma X16_system_never_fails_witness :
  sysReachable 3 true exRegs exSysHanded (exSys exSysHanded) ∧
  (∃ σ',
    sysRun 3 true [SysThread 0 StLoad; SysThread 0 StFetch;
                   SysThread 0 StSendReply; SysPoll (λ _, true);
                   SysThread 0 StReturn; SysPoll (λ _, false);
                   SysHandleRpc (exRpc 12 x02) false]
      (exSys exSysHanded) = SysDone σ' ∧
    sysReachable 3 true exRegs
      (exSysHanded ++
       [SysThread 0 StLoad; SysThread 0 StFetch; SysThread 0 StSendReply;
        SysPoll (λ _, true); SysThread 0 StReturn; SysPoll (λ _, false);
        SysHandleRpc (exRpc 12 x02) false])
      σ') ∧
  sysStep 3 true (SysThread 0 StThrow) (exSys exSysHanded) =
    SysDone (exSys exSysHanded) ∧
  sysStep 3 true (SysThread 0 StThrow) (exSys exSysHandling) =
    SysTerminated (add_trace (ThLogException 0) (exSys exSysHandling)).
Proof.
  assert (Hreach : sysReachable 3 true exRegs exSysHanded (exSys exSysHanded))
    by (apply exSys_reachable; vm_compute; reflexivity).
  split; [exact Hreach|]. split.
  { refine (proj1 (X16_system_never_fails 3 true exRegs exSysHanded
                     (exSys exSysHanded) Hreach)
              [SysThread 0 StLoad; SysThread 0 StFetch; SysThread 0 StSendReply;
               SysPoll (λ _, true); SysThread 0 StReturn; SysPoll (λ _, false);
               SysHandleRpc (exRpc 12 x02) false] _).
    repeat constructor; discriminate. }
  split.
  { refine (proj2 (proj2 (X16_system_never_fails 3 true exRegs exSysHanded
                            (exSys exSysHanded) Hreach)) 0 AtLoad _).
    vm_compute. reflexivity. }
  vm_compute. reflexivity.
Defined.


